(** * The SMPA archive engine of the Total Commander packer plugin

    A shallow embedding of [src/utils.cpp], [src/archive.hpp] and
    [src/archive.cpp], followed by the properties of the engine that the
    natural-language specification states.

    Conventions of the embedding.
    - A [wchar_t] is a 16-bit code unit, kept as a [Z]; a [std::wstring] is
      the list of its code units (the length is explicit, a NUL may occur
      inside); a [const wchar_t*] is recovered with [c_str].
    - A byte is a [Z] in [0, 256); an open [FILE] is the list of bytes of
      the file together with the cursor.
    - A C++ [throw code] is the result [Exc code]; the session state that
      the call has reached is returned next to it, since nothing is rolled
      back.  Loops that the source writes as [for(;;)] take a fuel
      argument; running out of it is the result [Diverge].
    - The host and the operating system (progress callback and tick count,
      source files, zlib) are parameters of the functions that call them. *)

From Stdlib Require Import Ascii String.
From stdpp Require Import base list numbers sorting.

Local Open Scope Z_scope.

(** ** Wide strings and the C run-time *)

Module Wide.

Abbreviation wchar_t := Z (only parsing).
Abbreviation wstring := (list Z) (only parsing).

(** [L'\\'] and [L'/'] *)
Definition backslash : wchar_t := 92.
Definition slash : wchar_t := 47.

Definition is_separator (c : wchar_t) : bool :=
  (c =? backslash) || (c =? slash).

(** [towupper] and the lower-casing done by [_wcsicmp], as the C run-time
    performs them in the "C" locale (the plugin never calls [setlocale]):
    only the 26 ASCII letters change. *)
Definition towupper (c : wchar_t) : wchar_t :=
  if (97 <=? c) && (c <=? 122) then c - 32 else c.

Definition towlower (c : wchar_t) : wchar_t :=
  if (65 <=? c) && (c <=? 90) then c + 32 else c.

(** The characters that a [const wchar_t*] taken from the string shows:
    everything before the first NUL. *)
Fixpoint c_str (s : wstring) : wstring :=
  match s with
  | [] => []
  | c :: s' => if c =? 0 then [] else c :: c_str s'
  end.

(** [_wcsicmp] on two NUL-terminated strings; only the sign of the
    result is specified, so the embedding returns -1, 0 or 1.  The
    terminator of the shorter string is the code unit 0, smaller than
    any other. *)
Fixpoint wcsicmp_chars (a b : wstring) : Z :=
  match a, b with
  | [], [] => 0
  | [], _ :: _ => -1
  | _ :: _, [] => 1
  | x :: a', y :: b' =>
      if towlower x =? towlower y then wcsicmp_chars a' b'
      else if towlower x <? towlower y then -1 else 1
  end.

Definition _wcsicmp (a b : wstring) : Z :=
  wcsicmp_chars (c_str a) (c_str b).

(** [operator<] of [std::wstring]: lexicographic on the code units. *)
Fixpoint wstring_lt (a b : wstring) : bool :=
  match a, b with
  | _, [] => false
  | [], _ :: _ => true
  | x :: a', y :: b' =>
      if x =? y then wstring_lt a' b' else x <? y
  end.

(** [operator==] of [std::wstring]. *)
Definition wstring_eqb (a b : wstring) : bool := bool_decide (a = b).

(** [s.find_last_of(L"\\/")]: [None] stands for [npos]. *)
Fixpoint find_last_of_separator (s : wstring) : option nat :=
  match s with
  | [] => None
  | c :: s' =>
      match find_last_of_separator s' with
      | Some i => Some (S i)
      | None => if is_separator c then Some 0%nat else None
      end
  end.

(** [s.back()] of a non-empty string, and [s.ends_with(suffix)]. *)
Fixpoint back (s : wstring) : option wchar_t :=
  match s with
  | [] => None
  | [c] => Some c
  | _ :: s' => back s'
  end.

(** The wide string literal [L"..."] of the characters of [s]. *)
Definition L (s : string) : wstring :=
  map (λ c, Z.of_N (N_of_ascii c)) (list_ascii_of_string s).

Definition ends_with (s suffix : wstring) : bool :=
  bool_decide (drop (length s - length suffix) s = suffix)
  && bool_decide (length suffix ≤ length s)%nat.

End Wide.

Export Wide.

(** ** The containers of the C++ library that the engine uses *)

Module Std.

Section Ordered.
Context {A : Type} (comp : A → A → bool).

(** [std::sort(first, last, comp)].  The standard fixes the result only
    up to the order of equivalent elements; the embedding inserts each
    element after the elements equivalent to it. *)
Fixpoint sort_insert (x : A) (l : list A) : list A :=
  match l with
  | [] => [x]
  | y :: l' => if comp x y then x :: y :: l' else y :: sort_insert x l'
  end.

Definition sort (l : list A) : list A :=
  foldl (λ sorted x, sort_insert x sorted) [] l.

(** [std::lower_bound(first, last, value, comp)], the bisection of the
    C++ library: [count] elements starting at index [first] remain. *)
Fixpoint lower_bound_from (fuel : nat) (l : list A) (value : A)
    (first count : nat) : nat :=
  match fuel with
  | O => first
  | S fuel' =>
      if (count =? 0)%nat then first
      else
        let step := (count / 2)%nat in
        let mid := (first + step)%nat in
        match l !! mid with
        | Some x =>
            if comp x value
            then lower_bound_from fuel' l value (S mid) (count - S step)
            else lower_bound_from fuel' l value first step
        | None => first
        end
  end.

(** The index of the returned iterator; [length l] is [end()]. *)
Definition lower_bound (l : list A) (value : A) : nat :=
  lower_bound_from (length l) l value 0 (length l).
End Ordered.

(** [std::map<Key, size_t, Compare>] as far as [RemoveFileNameDuplicates]
    uses it: [find], [insert] of an absent key, assignment through the
    iterator.  Two keys are the same key when neither is less than the
    other. *)
Section Map.
Context {K : Type} (comp : K → K → bool).

Definition equivalent (a b : K) : bool := negb (comp a b) && negb (comp b a).

Fixpoint map_find (m : list (K * nat)) (k : K) : option nat :=
  match m with
  | [] => None
  | (k', v) :: m' => if equivalent k' k then Some v else map_find m' k
  end.

Fixpoint map_assign (m : list (K * nat)) (k : K) (v : nat) : list (K * nat) :=
  match m with
  | [] => []
  | (k', v') :: m' =>
      if equivalent k' k then (k', v) :: m' else (k', v') :: map_assign m' k v
  end.

Definition map_insert (m : list (K * nat)) (k : K) (v : nat) : list (K * nat) :=
  (k, v) :: m.
End Map.

End Std.

(** ** [utils.hpp] and [utils.cpp] *)

Module Utils.

(** [CalcPercent<T>] at the two 64-bit unsigned types it is used with;
    the [count == 0] branch is the asserted-against one. *)
Definition CalcPercent (number count : Z) : Z :=
  if count =? 0 then 0 else ((number * 100 + count / 2) mod 2 ^ 64) / count.

Definition StricmpPred (lhs rhs : wstring) : bool := _wcsicmp lhs rhs <? 0.

Definition UpperCase (inout : wstring) : wstring := map towupper inout.

Definition CombinePath (path name : wstring) : wstring :=
  let result := path in
  let result :=
    if negb (bool_decide (path = [])) && negb (bool_decide (name = []))
       && negb (bool_decide (back result = Some backslash))
       && negb (bool_decide (back result = Some slash))
    then result ++ [backslash] else result in
  result ++ c_str name.

Definition ExtractFileName (path : wstring) : wstring :=
  match find_last_of_separator path with
  | None => path
  | Some it => drop (S it) path
  end.

Definition StripTrailingSlash (inout_path : wstring) : wstring :=
  match back inout_path with
  | Some c => if is_separator c then removelast inout_path else inout_path
  | None => inout_path
  end.

(** The first loop of [RemoveFileNameDuplicates]: [paths] is what is
    left of the vector from [path_index] on; the result is
    [path_indices_to_remove] in the order of the [push_back]s. *)
Fixpoint duplicate_indices (paths : list wstring) (path_index : nat)
    (file_names : list (wstring * nat)) (path_indices_to_remove : list nat)
    : list nat :=
  match paths with
  | [] => path_indices_to_remove
  | p :: paths' =>
      let file_name := ExtractFileName p in
      match Std.map_find StricmpPred file_names file_name with
      | None =>
          duplicate_indices paths' (S path_index)
            (Std.map_insert file_names file_name path_index)
            path_indices_to_remove
      | Some previous =>
          duplicate_indices paths' (S path_index)
            (Std.map_assign StricmpPred file_names file_name path_index)
            (path_indices_to_remove ++ [previous])
      end
  end.

(** One round of the second loop: swap with the last element unless the
    element is the last one, then [pop_back]. *)
Definition swap_remove (paths : list wstring) (index_to_remove : nat)
    : list wstring :=
  let path_count := length paths in
  let swapped :=
    if (index_to_remove + 1 <? path_count)%nat then
      match paths !! index_to_remove, paths !! (path_count - 1)%nat with
      | Some a, Some b =>
          <[(path_count - 1)%nat := a]> (<[index_to_remove := b]> paths)
      | _, _ => paths
      end
    else paths in
  removelast swapped.

Definition RemoveFileNameDuplicates (paths : list wstring) : list wstring :=
  let path_indices_to_remove := duplicate_indices paths 0 [] [] in
  let path_indices_to_remove := Std.sort Nat.ltb path_indices_to_remove in
  foldl swap_remove paths (reverse path_indices_to_remove).

Definition UpDir (inout : wstring) : wstring :=
  match find_last_of_separator inout with
  | None => []
  | Some last_slash => take last_slash inout
  end.

End Utils.

Export Utils.

(** ** Results of a call: a value, a thrown [int], or a loop that does not end *)

Module Exn.

Inductive result (A : Type) : Type :=
  | Val (a : A)
  | Exc (code : Z)
  | Diverge.
Arguments Val {A} a.
Arguments Exc {A} code.
Arguments Diverge {A}.

(** A computation over the state [St] that may throw; the state reached is
    kept in every case. *)
Definition M (St A : Type) : Type := St → result A * St.

#[global] Instance M_ret St : MRet (M St) := λ A a s, (Val a, s).

#[global] Instance M_bind St : MBind (M St) := λ A B f m s,
  match m s with
  | (Val a, s') => f a s'
  | (Exc e, s') => (Exc e, s')
  | (Diverge, s') => (Diverge, s')
  end.

Definition throw {St A} (code : Z) : M St A := λ s, (Exc code, s).
Definition diverge {St A} : M St A := λ s, (Diverge, s).
Definition gets {St A} (f : St → A) : M St A := λ s, (Val (f s), s).
Definition modify {St} (f : St → St) : M St unit := λ s, (Val tt, f s).
Definition when {St} (b : bool) (m : M St unit) : M St unit :=
  if b then m else mret tt.

End Exn.

Export Exn.

(** ** Constants of the headers that are not part of the sources *)

Module Wcx.

(** [wcxhead.h] of the WCX plugin interface. *)
Definition E_END_ARCHIVE : Z := 10.
Definition E_NO_MEMORY : Z := 11.
Definition E_BAD_DATA : Z := 12.
Definition E_BAD_ARCHIVE : Z := 13.
Definition E_UNKNOWN_FORMAT : Z := 14.
Definition E_EOPEN : Z := 15.
Definition E_ECREATE : Z := 16.
Definition E_ECLOSE : Z := 17.
Definition E_EREAD : Z := 18.
Definition E_EWRITE : Z := 19.
Definition E_SMALL_BUF : Z := 20.
Definition E_EABORTED : Z := 21.
Definition E_NOT_SUPPORTED : Z := 24.

Definition PK_PACK_MOVE_FILES : Z := 1.
Definition PK_PACK_SAVE_PATHS : Z := 2.

(** [tProcessDataProcW]: the answer of the host's progress callback to the
    call that is the [n]-th interaction of the session with the host, for
    the file name (or [nullptr]) and the size passed. *)
Definition tProcessDataProcW : Type := nat → option wstring → Z → Z.

(** [tHeaderDataExW], the fields that [ReadHeaderExW] fills. *)
Record tHeaderDataExW := {
  FileName : wstring;
  FileAttr : Z;
  FileTime : Z;
  PackSize : Z;
  PackSizeHigh : Z;
  UnpSize : Z;
  UnpSizeHigh : Z
}.

(** [windows.h] *)
Definition FILE_ATTRIBUTE_READONLY : Z := 1.
Definition FILE_ATTRIBUTE_HIDDEN : Z := 2.
Definition FILE_ATTRIBUTE_SYSTEM : Z := 4.
Definition FILE_ATTRIBUTE_DIRECTORY : Z := 16.
Definition FILE_ATTRIBUTE_ARCHIVE : Z := 32.
Definition INT_MAX : Z := 2147483647.

(** [zlib.h] *)
Definition Z_OK : Z := 0.
Definition Z_STREAM_END : Z := 1.
Definition Z_NEED_DICT : Z := 2.
Definition Z_ERRNO : Z := -1.
Definition Z_STREAM_ERROR : Z := -2.
Definition Z_DATA_ERROR : Z := -3.
Definition Z_MEM_ERROR : Z := -4.
Definition Z_BUF_ERROR : Z := -5.
Definition Z_NO_FLUSH : Z := 0.
Definition Z_FINISH : Z := 4.

End Wcx.

Export Wcx.

(** What the engine is given by its surroundings. *)

(** The host: the tick counter of the system, read at the [n]-th
    interaction, and the callback that [SetProcessDataProcW] stored in the
    global variable, if any. *)
Record Host := {
  GetTickCount64 : nat → Z;
  g_global_process_data_proc : option tProcessDataProcW
}.

(** zlib, bundled as a third-party library.  One call of [inflate] or
    [deflate] is given the internal state of the stream, the [avail_in]
    bytes at [next_in] and the flush mode; it answers with its result
    code, the number of input bytes it consumed, the bytes it put at
    [next_out] and the new internal state.  The output buffer always has
    [kBufSize] bytes of room when the engine calls. *)
Record Zlib := {
  z_state : Type;
  inflateInit : Z * z_state;
  inflate : z_state → list Z → Z → Z * nat * list Z * z_state;
  deflateInit : Z * z_state;
  deflate : z_state → list Z → Z → Z * nat * list Z * z_state
}.

(** A file or directory that can be packed, as [GetFileAttributesExW],
    the time conversions and [_wfopen_s] show it. *)
Record SourceFile := {
  dwFileAttributes : Z;
  nFileSize : Z;
  (** the DOS date (high word) and time of the last write; [None] when one
      of the two conversions fails *)
  dos_date_time : option Z;
  (** the bytes read from the file; [None] when it cannot be opened *)
  file_bytes : option (list Z)
}.

(** The source tree: what is at a path ([None] when
    [GetFileAttributesExW] fails), and whether [DeleteFileW] or, for a
    directory, [RemoveDirectoryW] succeeds on it. *)
Record SourceTree := {
  source_at : wstring → option SourceFile;
  source_removed : wstring → bool → bool
}.

(** ** [archive.hpp]: the record format *)

Module Format.

Definition kEntryFlagDeleted : Z := 1.
Definition kEntryFlagCompressed : Z := 2.

Record EntryHeader := {
  magic : Z;
  flags : Z;
  attributes : Z;
  time : Z;
  pack_size : Z;
  unp_size : Z;
  path_len : Z
}.

(** [EntryHeader{}] *)
Definition zero_header : EntryHeader :=
  {| magic := 0; flags := 0; attributes := 0; time := 0;
     pack_size := 0; unp_size := 0; path_len := 0 |}.

(** The struct is packed ([#pragma pack(push, 1)]): 4+1+1+4+8+8+2 bytes. *)
Definition sizeof_EntryHeader : nat := 28.
Definition sizeof_wchar_t : nat := 2.

(** The image in memory of an unsigned integer of [n] bytes on the
    little-endian machines the plugin runs on, and back. *)
Fixpoint le_bytes (n : nat) (v : Z) : list Z :=
  match n with
  | O => []
  | S n' => v mod 256 :: le_bytes n' (v / 256)
  end.

Fixpoint le_value (bs : list Z) : Z :=
  match bs with
  | [] => 0
  | b :: bs' => b + 256 * le_value bs'
  end.

(** The bytes that [fwrite(&header, sizeof(header), 1, f)] writes. *)
Definition header_bytes (h : EntryHeader) : list Z :=
  le_bytes 4 (magic h) ++ le_bytes 1 (flags h) ++ le_bytes 1 (attributes h)
  ++ le_bytes 4 (time h) ++ le_bytes 8 (pack_size h) ++ le_bytes 8 (unp_size h)
  ++ le_bytes 2 (path_len h).

(** The header that [fread(&header, sizeof(header), 1, f)] leaves in
    memory when the 28 bytes of [buf] were read. *)
Definition header_of_bytes (buf : list Z) : EntryHeader :=
  {| magic := le_value (take 4 buf);
     flags := le_value (take 1 (drop 4 buf));
     attributes := le_value (take 1 (drop 5 buf));
     time := le_value (take 4 (drop 6 buf));
     pack_size := le_value (take 8 (drop 10 buf));
     unp_size := le_value (take 8 (drop 18 buf));
     path_len := le_value (take 2 (drop 26 buf)) |}.

(** The bytes of an array of [wchar_t], and back. *)
Definition wchars_bytes (s : wstring) : list Z :=
  concat (map (le_bytes sizeof_wchar_t) s).

Fixpoint wchars_of_bytes (bs : list Z) : wstring :=
  match bs with
  | lo :: hi :: bs' => le_value [lo; hi] :: wchars_of_bytes bs'
  | _ => []
  end.

(** The casts between the unsigned and the signed 64-bit integers and to
    [uint8_t]. *)
Definition to_int64 (v : Z) : Z := if v <? 2 ^ 63 then v else v - 2 ^ 64.
Definition to_uint64 (v : Z) : Z := v mod 2 ^ 64.
Definition to_uint8 (v : Z) : Z := v mod 256.
Definition to_uint16 (v : Z) : Z := v mod 2 ^ 16.
Definition to_uint32 (v : Z) : Z := v mod 2 ^ 32.
Definition to_int32 (v : Z) : Z :=
  if v mod 2 ^ 32 <? 2 ^ 31 then v mod 2 ^ 32 else v mod 2 ^ 32 - 2 ^ 32.

End Format.

Export Format.

(** ** [archive.cpp] *)

Module Archive.

Definition FILE_ATTR_READ_ONLY : Z := 1.
Definition FILE_ATTR_HIDDEN : Z := 2.
Definition FILE_ATTR_SYSTEM : Z := 4.
Definition FILE_ATTR_VOLUME_ID : Z := 8.
Definition FILE_ATTR_DIRECTORY : Z := 16.
Definition FILE_ATTR_ARCHIVE : Z := 32.

Definition kMaxFileNameLen : Z := 1024.
Definition kEnableCompression : bool := true.
(** ["SMPA100A"] *)
Definition kFileHeader : list Z := [83; 77; 80; 65; 49; 48; 48; 65].
Definition kEntryMagic : Z := 0x1743C8F1.
Definition kBufSize : Z := 0x10000.
Definition kProgressUpdateIntervalMilliseconds : Z := 40.
Definition kMinFileSizeForCompression : Z := 16.

(** *** The C run-time file *)

Record FILE := { contents : list Z; cursor : nat }.

Definition SEEK_SET : Z := 0.
Definition SEEK_CUR : Z := 1.
Definition SEEK_END : Z := 2.

(** [fread] of [n] bytes: what is there is read, the cursor moves past it. *)
Definition fread_bytes (n : nat) (f : FILE) : list Z * FILE :=
  let got := take n (drop (cursor f) (contents f)) in
  (got, {| contents := contents f; cursor := (cursor f + length got)%nat |}).

(** [fwrite]: the bytes replace those at the cursor and extend the file at
    its end; a cursor that a seek left behind the end leaves a gap of
    zeros. *)
Definition fwrite_bytes (data : list Z) (f : FILE) : FILE :=
  {| contents :=
       take (cursor f) (contents f)
       ++ replicate (cursor f - length (contents f)) 0
       ++ data
       ++ drop (cursor f + length data) (contents f);
     cursor := (cursor f + length data)%nat |}.

(** [_fseeki64]: fails when the position asked for is negative. *)
Definition fseek (offset origin : Z) (f : FILE) : option FILE :=
  let base :=
    if origin =? SEEK_SET then 0
    else if origin =? SEEK_CUR then Z.of_nat (cursor f)
    else Z.of_nat (length (contents f)) in
  if base + offset <? 0 then None
  else Some {| contents := contents f; cursor := Z.to_nat (base + offset) |}.

(** *** [class ArchiveBase]

    The members of the base class, the member [created_new_archive_] that
    [PackingArchive] adds, and the number of interactions with the host
    so far (readings of the tick counter and calls of the callback).
    [archive_file_] is [None] while the pointer is null. *)
Record ArchiveBase := {
  process_data_proc_ : option tProcessDataProcW;
  archive_file_ : option FILE;
  original_archive_size_ : Z;
  bytes_processed_since_previous_progress_ : Z;
  last_progress_time_ : Z;
  last_header_ : EntryHeader;
  last_header_path_ : wstring;
  created_new_archive_ : bool;
  host_events : nat
}.

(** A freshly constructed object. *)
Definition new_archive : ArchiveBase :=
  {| process_data_proc_ := None; archive_file_ := None;
     original_archive_size_ := 0;
     bytes_processed_since_previous_progress_ := 0;
     last_progress_time_ := 0; last_header_ := zero_header;
     last_header_path_ := []; created_new_archive_ := false;
     host_events := 0 |}.

Definition set_archive_file_ (f : option FILE) (s : ArchiveBase) : ArchiveBase :=
  {| process_data_proc_ := process_data_proc_ s; archive_file_ := f;
     original_archive_size_ := original_archive_size_ s;
     bytes_processed_since_previous_progress_ :=
       bytes_processed_since_previous_progress_ s;
     last_progress_time_ := last_progress_time_ s;
     last_header_ := last_header_ s;
     last_header_path_ := last_header_path_ s;
     created_new_archive_ := created_new_archive_ s;
     host_events := host_events s |}.

Definition set_original_archive_size_ (v : Z) (s : ArchiveBase) : ArchiveBase :=
  {| process_data_proc_ := process_data_proc_ s;
     archive_file_ := archive_file_ s; original_archive_size_ := v;
     bytes_processed_since_previous_progress_ :=
       bytes_processed_since_previous_progress_ s;
     last_progress_time_ := last_progress_time_ s;
     last_header_ := last_header_ s;
     last_header_path_ := last_header_path_ s;
     created_new_archive_ := created_new_archive_ s;
     host_events := host_events s |}.

Definition set_bytes_processed (v : Z) (s : ArchiveBase) : ArchiveBase :=
  {| process_data_proc_ := process_data_proc_ s;
     archive_file_ := archive_file_ s;
     original_archive_size_ := original_archive_size_ s;
     bytes_processed_since_previous_progress_ := v;
     last_progress_time_ := last_progress_time_ s;
     last_header_ := last_header_ s;
     last_header_path_ := last_header_path_ s;
     created_new_archive_ := created_new_archive_ s;
     host_events := host_events s |}.

Definition set_last_progress_time_ (v : Z) (s : ArchiveBase) : ArchiveBase :=
  {| process_data_proc_ := process_data_proc_ s;
     archive_file_ := archive_file_ s;
     original_archive_size_ := original_archive_size_ s;
     bytes_processed_since_previous_progress_ :=
       bytes_processed_since_previous_progress_ s;
     last_progress_time_ := v; last_header_ := last_header_ s;
     last_header_path_ := last_header_path_ s;
     created_new_archive_ := created_new_archive_ s;
     host_events := host_events s |}.

Definition set_last_header_ (h : EntryHeader) (s : ArchiveBase) : ArchiveBase :=
  {| process_data_proc_ := process_data_proc_ s;
     archive_file_ := archive_file_ s;
     original_archive_size_ := original_archive_size_ s;
     bytes_processed_since_previous_progress_ :=
       bytes_processed_since_previous_progress_ s;
     last_progress_time_ := last_progress_time_ s; last_header_ := h;
     last_header_path_ := last_header_path_ s;
     created_new_archive_ := created_new_archive_ s;
     host_events := host_events s |}.

Definition set_last_header_path_ (p : wstring) (s : ArchiveBase) : ArchiveBase :=
  {| process_data_proc_ := process_data_proc_ s;
     archive_file_ := archive_file_ s;
     original_archive_size_ := original_archive_size_ s;
     bytes_processed_since_previous_progress_ :=
       bytes_processed_since_previous_progress_ s;
     last_progress_time_ := last_progress_time_ s;
     last_header_ := last_header_ s; last_header_path_ := p;
     created_new_archive_ := created_new_archive_ s;
     host_events := host_events s |}.

Definition set_created_new_archive_ (b : bool) (s : ArchiveBase) : ArchiveBase :=
  {| process_data_proc_ := process_data_proc_ s;
     archive_file_ := archive_file_ s;
     original_archive_size_ := original_archive_size_ s;
     bytes_processed_since_previous_progress_ :=
       bytes_processed_since_previous_progress_ s;
     last_progress_time_ := last_progress_time_ s;
     last_header_ := last_header_ s;
     last_header_path_ := last_header_path_ s;
     created_new_archive_ := b; host_events := host_events s |}.

Definition next_host_event (s : ArchiveBase) : ArchiveBase :=
  {| process_data_proc_ := process_data_proc_ s;
     archive_file_ := archive_file_ s;
     original_archive_size_ := original_archive_size_ s;
     bytes_processed_since_previous_progress_ :=
       bytes_processed_since_previous_progress_ s;
     last_progress_time_ := last_progress_time_ s;
     last_header_ := last_header_ s;
     last_header_path_ := last_header_path_ s;
     created_new_archive_ := created_new_archive_ s;
     host_events := S (host_events s) |}.

(** The file operations on [archive_file_.get()].  A null pointer handed
    to the C run-time ends the process; no path of the engine does that,
    the embedding lets such a call not return. *)
Definition with_file {A} (op : FILE → result A * FILE) : M ArchiveBase A :=
  λ s,
    match archive_file_ s with
    | Some f => let '(r, f') := op f in (r, set_archive_file_ (Some f') s)
    | None => (Diverge, s)
    end.

Definition fread (n : nat) : M ArchiveBase (list Z) :=
  with_file (λ f, let '(got, f') := fread_bytes n f in (Val got, f')).

Definition _ftelli64 : M ArchiveBase Z :=
  with_file (λ f, (Val (Z.of_nat (cursor f)), f)).

(** [ReadOrThrow]: the bytes of [elem_count] elements, or [E_EREAD]. *)
Definition ReadOrThrow (elem_size elem_count : nat) : M ArchiveBase (list Z) :=
  buf ← fread (elem_size * elem_count);
  if (length buf / elem_size =? elem_count)%nat then mret buf
  else throw E_EREAD.

(** [WriteOrThrow]: the medium of the embedding is never full, the
    [E_EWRITE] exit is not taken. *)
Definition WriteOrThrow (data : list Z) : M ArchiveBase unit :=
  with_file (λ f, (Val tt, fwrite_bytes data f)).

Definition SeekOrThrow (offset origin : Z) : M ArchiveBase unit :=
  with_file (λ f,
    match fseek offset origin f with
    | Some f' => (Val tt, f')
    | None => (Exc E_NOT_SUPPORTED, f)
    end).

Definition add_bytes_processed (n : Z) : M ArchiveBase unit :=
  modify (λ s, set_bytes_processed
    (to_uint64 (bytes_processed_since_previous_progress_ s + n)) s).

Section WithHost.
Context (host : Host).

Definition tick_count : M ArchiveBase Z :=
  λ s, (Val (GetTickCount64 host (host_events s)), next_host_event s).

Definition CallProcessDataProc (file_name : option wstring) (size : Z)
    : M ArchiveBase Z :=
  λ s,
    match process_data_proc_ s with
    | Some proc => (Val (proc (host_events s) file_name size), next_host_event s)
    | None =>
        match g_global_process_data_proc host with
        | Some proc =>
            (Val (proc (host_events s) file_name size), next_host_event s)
        | None => (Val 1, s)
        end
    end.

Definition UpdateBytesProcessedProgress : M ArchiveBase bool :=
  curr_time ← tick_count;
  last ← gets last_progress_time_;
  if curr_time >? to_uint64 (last + kProgressUpdateIntervalMilliseconds) then
    bytes ← gets bytes_processed_since_previous_progress_;
    let size := if bytes >? INT_MAX then INT_MAX else bytes in
    result ← CallProcessDataProc None size;
    modify (set_bytes_processed 0);;
    modify (set_last_progress_time_ curr_time);;
    mret (result =? 0)
  else mret false.

Definition UpdateDirectProgress (file_name : option wstring) (size : Z)
    : M ArchiveBase bool :=
  curr_time ← tick_count;
  last ← gets last_progress_time_;
  if curr_time >? to_uint64 (last + kProgressUpdateIntervalMilliseconds) then
    r ← CallProcessDataProc file_name size;
    modify (set_last_progress_time_ curr_time);;
    mret (r =? 0)
  else mret false.

Definition ReadAndCheckHeader : M ArchiveBase unit :=
  let header_len := length kFileHeader in
  header ← ReadOrThrow 1 header_len;
  if negb (bool_decide (header = kFileHeader)) then throw E_BAD_ARCHIVE
  else add_bytes_processed (Z.of_nat header_len).

(** When [fread] gets fewer than the 28 bytes, [last_header_] holds the
    bytes that were read in front of the zeros of [EntryHeader{}]. *)
Definition ReadEntryHeader : M ArchiveBase bool :=
  modify (set_last_header_ zero_header);;
  buf ← fread sizeof_EntryHeader;
  modify (set_last_header_
    (header_of_bytes (take sizeof_EntryHeader (buf ++ replicate sizeof_EntryHeader 0))));;
  let read_count := (length buf / sizeof_EntryHeader)%nat in
  if (read_count =? 0)%nat then mret false
  else
    h ← gets last_header_;
    if negb (magic h =? kEntryMagic) then throw E_BAD_ARCHIVE
    else
      add_bytes_processed (Z.of_nat sizeof_EntryHeader);;
      let path_len := path_len h in
      if path_len =? 0 then throw E_BAD_ARCHIVE
      else if path_len >? kMaxFileNameLen - 1 then throw E_SMALL_BUF
      else
        name_buf ← ReadOrThrow sizeof_wchar_t (Z.to_nat path_len);
        add_bytes_processed path_len;;
        modify (set_last_header_path_ (wchars_of_bytes name_buf));;
        mret true.

(** The inner loop of [DeleteIf]: [Some entry_begin_offset] when the
    header of a non-deleted entry was read, [None] when [ReadEntryHeader]
    returned [false] and [DeleteIf] returns. *)
Fixpoint DeleteIf_next_entry (fuel : nat) : M ArchiveBase (option Z) :=
  match fuel with
  | O => diverge
  | S fuel' =>
      entry_begin_offset ← _ftelli64;
      more ← ReadEntryHeader;
      if negb more then mret None
      else
        h ← gets last_header_;
        if negb (Z.land (flags h) kEntryFlagDeleted =? 0) then
          when (negb (pack_size h =? 0))
            (SeekOrThrow (to_int64 (pack_size h)) SEEK_CUR);;
          DeleteIf_next_entry fuel'
        else mret (Some entry_begin_offset)
  end.

Fixpoint DeleteIf (pred : ArchiveBase → bool) (fuel : nat) : M ArchiveBase unit :=
  match fuel with
  | O => diverge
  | S fuel' =>
      found ← DeleteIf_next_entry fuel;
      match found with
      | None => mret tt
      | Some entry_begin_offset =>
          matched ← gets pred;
          h ← gets last_header_;
          when matched
            (content_begin_offset ← _ftelli64;
             SeekOrThrow (entry_begin_offset + 4) SEEK_SET;;
             let new_flags := to_uint8 (Z.lor (flags h) kEntryFlagDeleted) in
             WriteOrThrow [new_flags];;
             SeekOrThrow content_begin_offset SEEK_SET);;
          when (pack_size h >? 0)
            (SeekOrThrow (to_int64 (pack_size h)) SEEK_CUR);;
          size ← gets original_archive_size_;
          let progress_percent :=
            Z.min 100 (CalcPercent (to_uint64 entry_begin_offset) size) in
          let progress := - progress_percent in
          cancelled ← UpdateDirectProgress None progress;
          if (cancelled : bool) then throw E_EABORTED else DeleteIf pred fuel'
      end
  end.

(** *** [class DeletingArchive] *)

(** The strings of a list in which each ends with a NUL and an empty
    string ends the list ([deleteList], [addList]): the loop
    [while (list[0] != 0) { ...; list += wcslen(list) + 1; }]. *)
Fixpoint string_list (fuel : nat) (memory : list Z) : list wstring :=
  match fuel with
  | O => []
  | S fuel' =>
      let item := c_str memory in
      if bool_decide (item = []) then []
      else item :: string_list fuel' (drop (S (length item)) memory)
  end.

(** The loop of [ShouldDelete]; each round shortens [final_curr_path], so
    [length final_curr_path] rounds suffice. *)
Fixpoint ShouldDelete_from (fuel : nat) (final_curr_path : wstring)
    (paths_to_delete : list wstring) : bool :=
  match fuel with
  | O => false
  | S fuel' =>
      if bool_decide (final_curr_path = []) then false
      else
        let it := Std.lower_bound wstring_lt paths_to_delete final_curr_path in
        match paths_to_delete !! it with
        | Some found =>
            if wstring_eqb found final_curr_path then true
            else ShouldDelete_from fuel' (UpDir final_curr_path) paths_to_delete
        | None => ShouldDelete_from fuel' (UpDir final_curr_path) paths_to_delete
        end
  end.

Definition ShouldDelete (curr_path : wstring) (paths_to_delete : list wstring)
    : bool :=
  let final_curr_path := UpperCase curr_path in
  ShouldDelete_from (S (length final_curr_path)) final_curr_path paths_to_delete.

(** [L"*.*"] *)
Definition star_dot_star : wstring := [42; 46; 42].

(** The body of the first loop of [DeleteFilesW] for one path. *)
Definition normalized_path_to_delete (path : wstring) : wstring :=
  let path :=
    if ends_with path star_dot_star then take (length path - 3) path else path in
  UpperCase (StripTrailingSlash path).

Definition paths_to_delete_of (deleteList : list Z) : list wstring :=
  Std.sort wstring_lt
    (map normalized_path_to_delete (string_list (length deleteList) deleteList)).

(** [GetFileSize]: leaves the cursor at the beginning of the file. *)
Definition GetFileSize : M ArchiveBase Z :=
  SeekOrThrow 0 SEEK_END;;
  size ← _ftelli64;
  SeekOrThrow 0 SEEK_SET;;
  mret (to_uint64 size).

(** [disk] is what is stored at the path of the archive: [None] when
    [_wfopen_s] cannot open it. *)
Definition OpenForDelete (disk : option (list Z)) : M ArchiveBase unit :=
  match disk with
  | None => throw E_ECREATE
  | Some bytes =>
      modify (set_archive_file_ (Some {| contents := bytes; cursor := 0 |}));;
      size ← GetFileSize;
      modify (set_original_archive_size_ size)
  end.

Definition DeleteFilesW (disk : option (list Z)) (packedFile : wstring)
    (deleteList : list Z) (fuel : nat) : M ArchiveBase Z :=
  r ← CallProcessDataProc (Some packedFile) 0;
  if r =? 0 then throw E_EABORTED
  else
    now ← tick_count;
    modify (set_last_progress_time_ now);;
    let paths_to_delete := paths_to_delete_of deleteList in
    if bool_decide (paths_to_delete = []) then mret 0
    else
      OpenForDelete disk;;
      ReadAndCheckHeader;;
      DeleteIf (λ this, ShouldDelete (last_header_path_ this) paths_to_delete) fuel;;
      mret 0.

(** *** [class ReadingArchive] *)

(** The loop of [ReadHeaderExW]: [Some code] for a [return code] inside
    the loop, [None] for the [break]. *)
Fixpoint ReadHeaderExW_next_entry (fuel : nat) : M ArchiveBase (option Z) :=
  match fuel with
  | O => diverge
  | S fuel' =>
      more ← ReadEntryHeader;
      if negb more then mret (Some E_END_ARCHIVE)
      else
        cancelled ← UpdateBytesProcessedProgress;
        if (cancelled : bool) then mret (Some E_EABORTED)
        else
          h ← gets last_header_;
          if negb (Z.land (flags h) kEntryFlagDeleted =? 0) then
            when (negb (pack_size h =? 0))
              (SeekOrThrow (to_int64 (pack_size h)) SEEK_CUR;;
               add_bytes_processed (pack_size h);;
               cancelled ← UpdateBytesProcessedProgress;
               if (cancelled : bool) then throw E_EABORTED else mret tt);;
            ReadHeaderExW_next_entry fuel'
          else mret None
  end.

Definition ReadHeaderExW (headerData : tHeaderDataExW) (fuel : nat)
    : M ArchiveBase (Z * tHeaderDataExW) :=
  returned ← ReadHeaderExW_next_entry fuel;
  match returned with
  | Some code => mret (code, headerData)
  | None =>
      h ← gets last_header_;
      if negb (Z.land (attributes h) FILE_ATTR_DIRECTORY =? 0)
         && ((pack_size h >? 0) || (unp_size h >? 0))
      then mret (E_BAD_ARCHIVE, headerData)
      else if (Z.land (flags h) kEntryFlagCompressed =? 0)
              && negb (unp_size h =? pack_size h)
      then mret (E_BAD_ARCHIVE, headerData)
      else
        path ← gets last_header_path_;
        mret (0,
          {| FileName := c_str path;
             FileAttr := attributes h;
             FileTime := to_int32 (time h);
             PackSize := to_uint32 (pack_size h);
             PackSizeHigh := to_uint32 (Z.shiftr (pack_size h) 32);
             UnpSize := to_uint32 (unp_size h);
             UnpSizeHigh := to_uint32 (Z.shiftr (unp_size h) 32) |})
  end.

Definition ZlibResultToWcxException {St} (zlib_result : Z) : M St unit :=
  if zlib_result =? Z_OK then mret tt
  else if zlib_result =? Z_MEM_ERROR then throw E_NO_MEMORY
  else if zlib_result =? Z_STREAM_ERROR then throw E_BAD_ARCHIVE
  else throw E_BAD_DATA.

Definition EnableCompressionForFile (file_size : Z) : bool :=
  kEnableCompression && (file_size >=? kMinFileSizeForCompression).

(** The archive being read together with the destination file of
    [UnpackFileContent], opened with ["wb"] and only appended to;
    [src_file] is [archive_file_.get()], as [ExtractFile] passes it. *)
Record Unpacking := { session : ArchiveBase; dst_file : list Z }.

Definition on_session {A} (m : M ArchiveBase A) : M Unpacking A :=
  λ u,
    let '(r, s') := m (session u) in
    (r, {| session := s'; dst_file := dst_file u |}).

Definition write_dst (data : list Z) : M Unpacking unit :=
  modify (λ u, {| session := session u; dst_file := dst_file u ++ data |}).

Section WithZlib.
Context (zlib : Zlib).

(** The variables of the decoding loop of [UnpackFileContent] that live
    across its rounds: the internal state of [zlib_stream], the
    [avail_in] bytes at [next_in], and the two counters. *)
Record inflating := {
  in_state : z_state zlib;
  in_avail : list Z;
  src_bytes_left : Z;
  total_bytes_written : Z
}.

(** The first statement of a round: [(made_progress, avail_in,
    src_bytes_left)] after it. *)
Definition inflate_refill (v : inflating) : M Unpacking (bool * list Z * Z) :=
  if bool_decide (in_avail v = []) && (src_bytes_left v >? 0) then
    let bytes_to_read := Z.min (src_bytes_left v) kBufSize in
    src_buf ← on_session (fread (Z.to_nat bytes_to_read));
    let bytes_read := Z.of_nat (length src_buf) in
    if bytes_read <? bytes_to_read then throw E_EREAD
    else
      on_session (add_bytes_processed bytes_read);;
      mret (true, src_buf, to_uint64 (src_bytes_left v - bytes_read))
  else mret (false, in_avail v, src_bytes_left v).

(** One round of the loop: [inl] the variables of the next round, [inr]
    the bytes written in total when the loop is left with [break]. *)
Definition inflate_round (v : inflating) : M Unpacking (inflating + Z) :=
  '(made_progress, avail_in, bytes_left) ← inflate_refill v;
  let '(zlib_result, consumed, produced, state') :=
    inflate zlib (in_state v) avail_in 0 in
  let produced := take (Z.to_nat kBufSize) produced in
  when (negb (zlib_result =? Z_OK) && negb (zlib_result =? Z_STREAM_END))
    (ZlibResultToWcxException zlib_result);;
  '(made_progress, total) ←
    (if negb (bool_decide (produced = [])) then
       write_dst produced;;
       mret (true, to_uint64 (total_bytes_written v + Z.of_nat (length produced)))
     else mret (made_progress, total_bytes_written v));
  cancelled ← on_session UpdateBytesProcessedProgress;
  if (cancelled : bool) then throw E_EABORTED
  else if zlib_result =? Z_STREAM_END then mret (inr total)
  else if negb made_progress then throw E_BAD_ARCHIVE
  else
    mret (inl {| in_state := state'; in_avail := drop consumed avail_in;
                 src_bytes_left := bytes_left; total_bytes_written := total |}).

Fixpoint inflate_rounds (fuel : nat) (v : inflating) : M Unpacking Z :=
  match fuel with
  | O => diverge
  | S fuel' =>
      next ← inflate_round v;
      match next with
      | inl v' => inflate_rounds fuel' v'
      | inr total => mret total
      end
  end.

(** The loop of the branch without compression. *)
Fixpoint copy_rounds (fuel : nat) (bytes_left : Z) : M Unpacking unit :=
  match fuel with
  | O => diverge
  | S fuel' =>
      if bytes_left >? 0 then
        let bytes_to_process := Z.min bytes_left kBufSize in
        buf ← on_session (fread (Z.to_nat bytes_to_process));
        let bytes_read := Z.of_nat (length buf) in
        if bytes_read <? bytes_to_process then throw E_EREAD
        else
          on_session (add_bytes_processed bytes_read);;
          write_dst buf;;
          cancelled ← on_session UpdateBytesProcessedProgress;
          if (cancelled : bool) then throw E_EABORTED
          else copy_rounds fuel' (to_uint64 (bytes_left - bytes_to_process))
      else mret tt
  end.

Definition UnpackFileContent (dst_file_size src_file_size : Z)
    (enable_compression : bool) (fuel : nat) : M Unpacking unit :=
  if enable_compression then
    let '(zlib_result, state) := inflateInit zlib in
    ZlibResultToWcxException zlib_result;;
    total_bytes_written ← inflate_rounds fuel
      {| in_state := state; in_avail := []; src_bytes_left := src_file_size;
         total_bytes_written := 0 |};
    if negb (total_bytes_written =? dst_file_size) then throw E_BAD_ARCHIVE
    else mret tt
  else copy_rounds fuel src_file_size.

(** *** [class PackingArchive] *)

Context (tree : SourceTree).

Definition WindowsAttributesToWcxAttributes (windows_attr : Z) : Z :=
  let wcx_attr := 0 in
  let wcx_attr :=
    if negb (Z.land windows_attr FILE_ATTRIBUTE_READONLY =? 0)
    then Z.lor wcx_attr FILE_ATTR_READ_ONLY else wcx_attr in
  let wcx_attr :=
    if negb (Z.land windows_attr FILE_ATTRIBUTE_HIDDEN =? 0)
    then Z.lor wcx_attr FILE_ATTR_HIDDEN else wcx_attr in
  let wcx_attr :=
    if negb (Z.land windows_attr FILE_ATTRIBUTE_SYSTEM =? 0)
    then Z.lor wcx_attr FILE_ATTR_SYSTEM else wcx_attr in
  let wcx_attr :=
    if negb (Z.land windows_attr FILE_ATTRIBUTE_DIRECTORY =? 0)
    then Z.lor wcx_attr FILE_ATTR_DIRECTORY else wcx_attr in
  let wcx_attr :=
    if negb (Z.land windows_attr FILE_ATTRIBUTE_ARCHIVE =? 0)
    then Z.lor wcx_attr FILE_ATTR_ARCHIVE else wcx_attr in
  wcx_attr.

Definition WriteEntryHeader (header : EntryHeader) (path : wstring)
    : M ArchiveBase unit :=
  WriteOrThrow (header_bytes header);;
  WriteOrThrow (wchars_bytes path).

(** The variables of the encoding loop of [PackFileContent]; [src_rest]
    is what [src_file] has not yet given. *)
Record deflating := {
  de_state : z_state zlib;
  de_avail : list Z;
  src_rest : list Z;
  is_src_end : bool;
  out_bytes_written : Z;
  out_bytes_read : Z
}.

(** One round: [inl] the variables of the next round, [inr] the two
    counters at the [break].  A read that gives less than asked for is at
    the end of the source file; the source of the embedding has no read
    errors. *)
Definition deflate_round (v : deflating) : M ArchiveBase (deflating + Z * Z) :=
  let '(made_progress, avail_in, rest, src_end, bytes_read_total) :=
    if bool_decide (de_avail v = []) && negb (is_src_end v) then
      let src_buf := take (Z.to_nat kBufSize) (src_rest v) in
      let bytes_read := Z.of_nat (length src_buf) in
      (true, src_buf, drop (Z.to_nat kBufSize) (src_rest v),
       bytes_read <? kBufSize, to_uint64 (out_bytes_read v + bytes_read))
    else (false, de_avail v, src_rest v, is_src_end v, out_bytes_read v) in
  let '(zlib_result, consumed, produced, state') :=
    deflate zlib (de_state v) avail_in
      (if (src_end : bool) then Z_FINISH else Z_NO_FLUSH) in
  let produced := take (Z.to_nat kBufSize) produced in
  when (negb (zlib_result =? Z_OK) && negb (zlib_result =? Z_STREAM_END))
    (ZlibResultToWcxException zlib_result);;
  '(made_progress, written_total) ←
    (if negb (bool_decide (produced = [])) then
       WriteOrThrow produced;;
       mret (true, to_uint64 (out_bytes_written v + Z.of_nat (length produced)))
     else mret (made_progress, out_bytes_written v));
  if zlib_result =? Z_STREAM_END then mret (inr (written_total, bytes_read_total))
  else if negb made_progress then throw E_BAD_ARCHIVE
  else
    mret (inl {| de_state := state'; de_avail := drop consumed avail_in;
                 src_rest := rest; is_src_end := src_end;
                 out_bytes_written := written_total;
                 out_bytes_read := bytes_read_total |}).

Fixpoint deflate_rounds (fuel : nat) (v : deflating) : M ArchiveBase (Z * Z) :=
  match fuel with
  | O => diverge
  | S fuel' =>
      next ← deflate_round v;
      match next with
      | inl v' => deflate_rounds fuel' v'
      | inr counters => mret counters
      end
  end.

(** The [do ... while] of the branch without compression; the result is
    [out_bytes_read]. *)
Fixpoint store_rounds (fuel : nat) (rest : list Z) (bytes_read_total : Z)
    : M ArchiveBase Z :=
  match fuel with
  | O => diverge
  | S fuel' =>
      let buf := take (Z.to_nat kBufSize) rest in
      let bytes_read := Z.of_nat (length buf) in
      when (negb (bytes_read =? 0)) (WriteOrThrow buf);;
      let bytes_read_total :=
        if bytes_read =? 0 then bytes_read_total
        else to_uint64 (bytes_read_total + bytes_read) in
      if bytes_read =? kBufSize
      then store_rounds fuel' (drop (Z.to_nat kBufSize) rest) bytes_read_total
      else mret bytes_read_total
  end.

(** [dst_file] is [archive_file_.get()], as [PackFile] passes it; [src]
    holds the bytes of [src_file].  The result is
    [(out_bytes_written, out_bytes_read)]. *)
Definition PackFileContent (src : list Z) (src_file_size : Z)
    (enable_compression : bool) (fuel : nat) : M ArchiveBase (Z * Z) :=
  '(bytes_written, bytes_read) ←
    (if enable_compression then
       let '(zlib_result, state) := deflateInit zlib in
       ZlibResultToWcxException zlib_result;;
       deflate_rounds fuel
         {| de_state := state; de_avail := []; src_rest := src;
            is_src_end := false; out_bytes_written := 0; out_bytes_read := 0 |}
     else if src_file_size =? 0 then mret (0, src_file_size)
     else
       bytes_read ← store_rounds fuel src 0;
       mret (bytes_read, bytes_read));
  if negb (bytes_read =? src_file_size) then throw E_EREAD
  else mret (bytes_written, bytes_read).

Definition GetFileAttributes (header : EntryHeader) (full_path : wstring)
    : M ArchiveBase EntryHeader :=
  match source_at tree full_path with
  | None => throw E_EREAD
  | Some windows_attr =>
      let size :=
        if Z.land (dwFileAttributes windows_attr) FILE_ATTRIBUTE_DIRECTORY =? 0
        then nFileSize windows_attr else 0 in
      let wcx_attr := WindowsAttributesToWcxAttributes (dwFileAttributes windows_attr) in
      match dos_date_time windows_attr with
      | None => throw E_UNKNOWN_FORMAT
      | Some dos =>
          mret {| magic := magic header; flags := flags header;
                  attributes := wcx_attr; time := dos;
                  pack_size := pack_size header; unp_size := size;
                  path_len := path_len header |}
      end
  end.

(** The result is [out_is_directory]. *)
Definition PackFile (absolute_path archive_path : wstring) (save_paths : bool)
    (fuel : nat) : M ArchiveBase bool :=
  let path := StripTrailingSlash archive_path in
  entry_header ← GetFileAttributes zero_header absolute_path;
  let enable_compression_for_file :=
    EnableCompressionForFile (unp_size entry_header) in
  let out_is_directory :=
    negb (Z.land (attributes entry_header) FILE_ATTR_DIRECTORY =? 0) in
  entry_begin_offset ← _ftelli64;
  let entry_header :=
    {| magic := kEntryMagic;
       flags :=
         if enable_compression_for_file
         then Z.lor (flags entry_header) kEntryFlagCompressed
         else flags entry_header;
       attributes := attributes entry_header;
       time := time entry_header;
       pack_size := unp_size entry_header;
       unp_size := unp_size entry_header;
       path_len := to_uint16 (Z.of_nat (length path)) |} in
  WriteEntryHeader entry_header path;;
  when (negb out_is_directory)
    (match source_at tree absolute_path ≫= file_bytes with
     | None => throw E_EOPEN
     | Some src =>
         '(bytes_written, bytes_read) ←
           PackFileContent src (unp_size entry_header)
             enable_compression_for_file fuel;
         when (enable_compression_for_file && negb (bytes_written =? bytes_read))
           (entry_end_offset ← _ftelli64;
            SeekOrThrow (to_uint64 entry_begin_offset + (4 + 1 + 1 + 4)) SEEK_SET;;
            WriteOrThrow (le_bytes 8 bytes_written);;
            SeekOrThrow (to_uint64 entry_end_offset) SEEK_SET)
     end);;
  mret out_is_directory.

Definition DeleteSrcFile (path : wstring) (is_directory : bool)
    : M ArchiveBase unit :=
  if source_removed tree path is_directory then mret tt else throw E_EWRITE.

(** [disk] as for [OpenForDelete]; [can_create] tells whether the second
    [_wfopen_s], with ["wb"], succeeds. *)
Definition OpenForPack (disk : option (list Z)) (can_create : bool)
    : M ArchiveBase unit :=
  match disk with
  | Some bytes =>
      modify (set_archive_file_ (Some {| contents := bytes; cursor := 0 |}));;
      modify (set_created_new_archive_ false);;
      size ← GetFileSize;
      modify (set_original_archive_size_ size)
  | None =>
      if can_create then
        modify (set_archive_file_ (Some {| contents := []; cursor := 0 |}));;
        modify (set_created_new_archive_ true);;
        modify (set_original_archive_size_ 0);;
        WriteOrThrow kFileHeader
      else throw E_ECREATE
  end.

(** The first loop of [PackFilesW] and the two statements after it:
    [relative_paths_to_add] as the packing loop sees it. *)
Definition relative_paths_to_add (save_paths : bool) (addList : list Z)
    : list wstring :=
  let listed :=
    omap (λ add_list_path : wstring,
            if save_paths || negb (bool_decide (back add_list_path = Some backslash))
            then Some (StripTrailingSlash add_list_path) else None)
         (string_list (length addList) addList) in
  let deduplicated :=
    if negb save_paths then RemoveFileNameDuplicates listed else listed in
  Std.sort StricmpPred deduplicated.

(** The [std::transform]. *)
Definition archive_paths_to_add (save_paths : bool) (subPath : wstring)
    (relative : list wstring) : list wstring :=
  map (λ relative_path,
         if save_paths then CombinePath subPath relative_path
         else CombinePath subPath (ExtractFileName relative_path))
      relative.

(** The predicate that [PackFilesW] hands to [DeleteIf]. *)
Definition superseded (archive_paths : list wstring) (this : ArchiveBase) : bool :=
  let it := Std.lower_bound StricmpPred archive_paths (last_header_path_ this) in
  match archive_paths !! it with
  | Some found => _wcsicmp (last_header_path_ this) found =? 0
  | None => false
  end.

(** The packing loop from index [i] on; the result is the part of
    [path_is_directory] that it fills. *)
Fixpoint pack_each (srcPath : wstring) (save_paths : bool)
    (items : list (wstring * wstring)) (i count : nat) (fuel : nat)
    : M ArchiveBase (list bool) :=
  match items with
  | [] => mret []
  | (relative_path, archive_path) :: items' =>
      let absolute_path := CombinePath srcPath relative_path in
      let file_count_percent := CalcPercent (Z.of_nat i) (Z.of_nat count) in
      let progress := - to_int32 file_count_percent in
      cancelled ← UpdateDirectProgress (Some absolute_path) progress;
      if (cancelled : bool) then throw E_EABORTED
      else
        is_directory ← PackFile absolute_path archive_path save_paths fuel;
        others ← pack_each srcPath save_paths items' (S i) count fuel;
        mret (is_directory :: others)
  end.

(** The last loop, from the last item to the first. *)
Fixpoint delete_each (srcPath : wstring) (reversed : list (wstring * bool))
    : M ArchiveBase unit :=
  match reversed with
  | [] => mret tt
  | (relative_path, is_directory) :: reversed' =>
      DeleteSrcFile (CombinePath srcPath relative_path) is_directory;;
      delete_each srcPath reversed'
  end.

Definition PackFilesW (disk : option (list Z)) (can_create : bool)
    (packedFile subPath srcPath : wstring) (addList : list Z) (flags : Z)
    (fuel : nat) : M ArchiveBase Z :=
  let delete_source_files := negb (Z.land flags PK_PACK_MOVE_FILES =? 0) in
  let save_paths := negb (Z.land flags PK_PACK_SAVE_PATHS =? 0) in
  r ← CallProcessDataProc (Some packedFile) 0;
  if r =? 0 then throw E_EABORTED
  else
    now ← tick_count;
    modify (set_last_progress_time_ now);;
    let relative := relative_paths_to_add save_paths addList in
    let archive := archive_paths_to_add save_paths subPath relative in
    OpenForPack disk can_create;;
    created ← gets created_new_archive_;
    when (negb created)
      (ReadAndCheckHeader;;
       DeleteIf (superseded archive) fuel);;
    path_is_directory ←
      pack_each srcPath save_paths (zip relative archive) 0 (length relative) fuel;
    when delete_source_files
      (delete_each srcPath (reverse (zip relative path_is_directory)));;
    mret 0.

End WithZlib.

End WithHost.

End Archive.

Export Archive.

(** ** The functions that the library exports

    Each creates its object, calls the method and turns a thrown [int]
    into the value returned.  The result is that value ([None] when the
    call does not return) and what is stored at the path of the archive
    afterwards. *)

Module Exports.

Definition returned_value (r : result Z) : option Z :=
  match r with
  | Val code => Some code
  | Exc error_code => Some error_code
  | Diverge => None
  end.

Definition stored_after (disk : option (list Z)) (this : ArchiveBase)
    : option (list Z) :=
  match archive_file_ this with
  | Some f => Some (contents f)
  | None => disk
  end.

Definition PackFilesW (host : Host) (zlib : Zlib) (tree : SourceTree)
    (disk : option (list Z)) (can_create : bool)
    (packedFile subPath srcPath : wstring) (addList : list Z) (flags : Z)
    (fuel : nat) : option Z * option (list Z) :=
  let '(r, this) :=
    Archive.PackFilesW host zlib tree disk can_create packedFile subPath
      srcPath addList flags fuel new_archive in
  (returned_value r, stored_after disk this).

Definition DeleteFilesW (host : Host) (disk : option (list Z))
    (packedFile : wstring) (deleteList : list Z) (fuel : nat)
    : option Z * option (list Z) :=
  let '(r, this) :=
    Archive.DeleteFilesW host disk packedFile deleteList fuel new_archive in
  (returned_value r, stored_after disk this).

(** [ReadHeaderExW] on the object behind the handle. *)
Definition ReadHeaderExW (host : Host) (this : ArchiveBase)
    (headerData : tHeaderDataExW) (fuel : nat)
    : option Z * tHeaderDataExW * ArchiveBase :=
  match Archive.ReadHeaderExW host headerData fuel this with
  | (Val (code, data), this') => (Some code, data, this')
  | (Exc error_code, this') => (Some error_code, headerData, this')
  | (Diverge, this') => (None, headerData, this')
  end.

End Exports.

(** ** Opening, skipping and extracting: the rest of [class ReadingArchive],
    and [class HeaderCheckingArchive] *)

Module Reading.

(** [wcxhead.h] *)
Definition PK_OM_LIST : Z := 0.
Definition PK_OM_EXTRACT : Z := 1.
Definition PK_SKIP : Z := 0.
Definition PK_TEST : Z := 1.
Definition PK_EXTRACT : Z := 2.

(** [enum class ArchiveMode].  The member [mode_] is written by
    [OpenArchiveW] and read by assertions only; the embedding has it as
    the result of [OpenArchiveW]. *)
Inductive ArchiveMode := kList | kExtract | kCount.

(** What the operating system answers at the destination of an
    extraction: whether [CreateDirectoryW] succeeds, and whether
    [_wfopen_s] with ["wb"] does. *)
Record Destination := {
  CreateDirectoryW : wstring → bool;
  wfopen_wb : wstring → bool
}.

(** What one call of [ExtractFile] has made of its destination path, and
    the values handed to [SetFileAttributes] and to [SetFileTime], two
    calls whose failure the source ignores. *)
Inductive DestNode :=
  | Untouched
  | Directory
  | RegularFile (bytes : list Z)
  | Removed.

Record Extracting := {
  reading : ArchiveBase;
  node : DestNode;
  attributes_set : option Z;
  time_set : option Z
}.

Definition on_reading {A} (m : M ArchiveBase A) : M Extracting A :=
  λ x,
    let '(r, s') := m (reading x) in
    (r, {| reading := s'; node := node x;
           attributes_set := attributes_set x; time_set := time_set x |}).

Definition set_node (n : DestNode) : M Extracting unit :=
  modify (λ x, {| reading := reading x; node := n;
                  attributes_set := attributes_set x; time_set := time_set x |}).

(** [UnpackFileContent] with the file just opened as its [dst_file]. *)
Definition on_new_file {A} (m : M Unpacking A) : M Extracting A :=
  λ x,
    let '(r, u) := m {| session := reading x; dst_file := [] |} in
    (r, {| reading := session u; node := RegularFile (dst_file u);
           attributes_set := attributes_set x; time_set := time_set x |}).

(** [try { body } catch (int e) { handler(e); throw; }] *)
Definition try_rethrow {St A} (body : M St A) (handler : Z → M St unit)
    : M St A :=
  λ s,
    match body s with
    | (Exc e, s') =>
        match handler e s' with
        | (Val _, s'') => (Exc e, s'')
        | (Exc e', s'') => (Exc e', s'')
        | (Diverge, s'') => (Diverge, s'')
        end
    | other => other
    end.

Section WithHost.
Context (host : Host).

Definition OpenArchiveW (disk : option (list Z)) (OpenMode : Z)
    : M ArchiveBase ArchiveMode :=
  mode ← (if OpenMode =? PK_OM_LIST then mret kList
          else if OpenMode =? PK_OM_EXTRACT then mret kExtract
          else throw E_NOT_SUPPORTED);
  cancelled ← UpdateBytesProcessedProgress host;
  if (cancelled : bool) then throw E_EABORTED
  else
    match disk with
    | None => throw E_EOPEN
    | Some bytes =>
        modify (set_archive_file_ (Some {| contents := bytes; cursor := 0 |}));;
        cancelled ← UpdateBytesProcessedProgress host;
        if (cancelled : bool) then throw E_EABORTED
        else
          ReadAndCheckHeader;;
          cancelled ← UpdateBytesProcessedProgress host;
          if (cancelled : bool) then throw E_EABORTED else mret mode
    end.

Definition CanYouHandleThisFileW (disk : option (list Z)) : M ArchiveBase bool :=
  match disk with
  | None => throw E_EOPEN
  | Some bytes =>
      modify (set_archive_file_ (Some {| contents := bytes; cursor := 0 |}));;
      ReadAndCheckHeader;;
      mret true
  end.

Section WithZlib.
Context (zlib : Zlib) (dest : Destination).

Definition ExtractFile (dest_path dest_name : wstring) (fuel : nat)
    : M Extracting unit :=
  let full_dest_path := StripTrailingSlash (CombinePath dest_path dest_name) in
  if bool_decide (full_dest_path = []) then throw E_EWRITE
  else
    h ← on_reading (gets last_header_);
    (if negb (Z.land (attributes h) FILE_ATTR_DIRECTORY =? 0) then
       if negb (CreateDirectoryW dest full_dest_path) then throw E_ECREATE
       else
         set_node Directory;;
         cancelled ← on_reading (UpdateBytesProcessedProgress host);
         if (cancelled : bool) then set_node Removed;; throw E_EABORTED
         else mret tt
     else
       try_rethrow
         (if negb (wfopen_wb dest full_dest_path) then throw E_ECREATE
          else
            set_node (RegularFile []);;
            cancelled ← on_reading (UpdateBytesProcessedProgress host);
            if (cancelled : bool) then throw E_EABORTED
            else
              let is_compressed :=
                negb (Z.land (flags h) kEntryFlagCompressed =? 0) in
              on_new_file
                (UnpackFileContent host zlib (unp_size h) (pack_size h)
                   is_compressed fuel))
         (λ e, when (e =? E_EABORTED) (set_node Removed)));;
    modify (λ x, {| reading := reading x; node := node x;
                    attributes_set := Some (attributes h);
                    time_set := Some (time h) |});;
    cancelled ← on_reading (UpdateBytesProcessedProgress host);
    if (cancelled : bool) then throw E_EABORTED else mret tt.

(** A null [destPath] or [destName] is the empty string. *)
Definition ProcessFileW (operation : Z) (destPath destName : wstring)
    (fuel : nat) : M Extracting Z :=
  if (operation =? PK_SKIP) || (operation =? PK_TEST) then
    h ← on_reading (gets last_header_);
    when (negb (pack_size h =? 0))
      (on_reading (SeekOrThrow (to_int64 (pack_size h)) SEEK_CUR);;
       on_reading (add_bytes_processed (pack_size h));;
       cancelled ← on_reading (UpdateBytesProcessedProgress host);
       if (cancelled : bool) then throw E_EABORTED else mret tt);;
    mret 0
  else if operation =? PK_EXTRACT then
    ExtractFile destPath destName fuel;;
    mret 0
  else mret 0.

End WithZlib.
End WithHost.

End Reading.

Export Reading.

(** *** The exported functions of the reading side

    [OpenArchiveW] gives [OpenResult] and the object behind the handle,
    [None] for the null handle; [ProcessFileW] gives the value returned
    ([None] when the call does not return), the object afterwards and
    what the call has made of its destination; [CanYouHandleThisFileW]
    turns every exception into [FALSE]. *)

Module ExportsReading.

Definition OpenArchiveW (host : Host) (disk : option (list Z))
    (OpenMode : Z) : option Z * option ArchiveBase :=
  match Reading.OpenArchiveW host disk OpenMode new_archive with
  | (Val _, this) => (Some 0, Some this)
  | (Exc error_code, _) => (Some error_code, None)
  | (Diverge, _) => (None, None)
  end.

Definition ProcessFileW (host : Host) (zlib : Zlib)
    (dest : Destination) (this : ArchiveBase) (operation : Z)
    (destPath destName : wstring) (fuel : nat)
    : option Z * ArchiveBase * DestNode :=
  let '(r, x) :=
    Reading.ProcessFileW host zlib dest operation destPath destName fuel
      {| reading := this; node := Untouched;
         attributes_set := None; time_set := None |} in
  (Exports.returned_value r, reading x, node x).

Definition CanYouHandleThisFileW (disk : option (list Z)) : bool :=
  match Reading.CanYouHandleThisFileW disk new_archive with
  | (Val b, _) => b
  | _ => false
  end.

End ExportsReading.

(** ** Packing, whatever [std::sort] makes of equivalent paths

    [std::sort] fixes its result only up to the order of the elements
    that its comparison finds equivalent, and [StricmpPred] finds two
    paths equivalent that differ in the case of letters only.
    [relative_paths_to_add_by] and [PackFilesW_by] are
    [relative_paths_to_add] and [PackFilesW] with the function that
    stands for [std::sort(..., StricmpPred)] as the parameter [sort]. *)

Module AnySort.

Section WithSort.
Context (host : Host) (zlib : Zlib) (tree : SourceTree).
Context (sort : list wstring → list wstring).

(** The first loop of [PackFilesW] and the two statements after it. *)
Definition relative_paths_to_add_by (save_paths : bool) (addList : list Z)
    : list wstring :=
  let listed :=
    omap (λ add_list_path : wstring,
            if save_paths || negb (bool_decide (back add_list_path = Some backslash))
            then Some (StripTrailingSlash add_list_path) else None)
         (string_list (length addList) addList) in
  let deduplicated :=
    if negb save_paths then RemoveFileNameDuplicates listed else listed in
  sort deduplicated.

Definition PackFilesW_by (disk : option (list Z)) (can_create : bool)
    (packedFile subPath srcPath : wstring) (addList : list Z) (flags : Z)
    (fuel : nat) : M ArchiveBase Z :=
  let delete_source_files := negb (Z.land flags PK_PACK_MOVE_FILES =? 0) in
  let save_paths := negb (Z.land flags PK_PACK_SAVE_PATHS =? 0) in
  r ← CallProcessDataProc host (Some packedFile) 0;
  if r =? 0 then throw E_EABORTED
  else
    now ← tick_count host;
    modify (set_last_progress_time_ now);;
    let relative := relative_paths_to_add_by save_paths addList in
    let archive := archive_paths_to_add save_paths subPath relative in
    OpenForPack disk can_create;;
    created ← gets created_new_archive_;
    when (negb created)
      (ReadAndCheckHeader;;
       DeleteIf host (superseded archive) fuel);;
    path_is_directory ←
      pack_each host zlib tree srcPath save_paths (zip relative archive) 0
        (length relative) fuel;
    when delete_source_files
      (delete_each tree srcPath (reverse (zip relative path_is_directory)));;
    mret 0.

End WithSort.

End AnySort.

Export AnySort.

(** The exported [PackFilesW] over [PackFilesW_by]: the value returned
    and what is stored at the path of the archive afterwards. *)
Module ExportsAnySort.

Definition PackFilesW_by (host : Host) (zlib : Zlib) (tree : SourceTree)
    (sort : list wstring → list wstring)
    (disk : option (list Z)) (can_create : bool)
    (packedFile subPath srcPath : wstring) (addList : list Z) (flags : Z)
    (fuel : nat) : option Z * option (list Z) :=
  let '(r, this) :=
    AnySort.PackFilesW_by host zlib tree sort disk can_create packedFile subPath
      srcPath addList flags fuel new_archive in
  (Exports.returned_value r, Exports.stored_after disk this).

End ExportsAnySort.

(** ** Archives as the packer writes them

    The definitions below describe a whole archive by the entries it
    holds; they are what the statements about complete operations are
    phrased with.  An entry is written by [WriteEntryHeader] followed by
    the payload, so its bytes are the header, the path and the payload. *)

(** Every value that the computation throws satisfies [P]. *)
Definition raises {St A} (P : Z → Prop) (m : M St A) : Prop :=
  ∀ s e s', m s = (Exc e, s') → P e.

(** A list in which no element is less than one before it, for the
    comparison [comp] of [std::sort] and [std::lower_bound]. *)
Definition ascending {A : Type} (comp : A → A → bool) (l : list A) : Prop :=
  StronglySorted (λ a b, comp b a = false) l.

Module Layout.

Record Entry := {
  e_flags : Z;
  e_attributes : Z;
  e_time : Z;
  e_unp_size : Z;
  e_path : wstring;
  e_payload : list Z
}.

Definition entry_header (e : Entry) : EntryHeader :=
  {| magic := kEntryMagic; flags := e_flags e; attributes := e_attributes e;
     time := e_time e; pack_size := Z.of_nat (length (e_payload e));
     unp_size := e_unp_size e; path_len := Z.of_nat (length (e_path e)) |}.

Definition entry_bytes (e : Entry) : list Z :=
  header_bytes (entry_header e) ++ wchars_bytes (e_path e) ++ e_payload e.

Definition entries_bytes (es : list Entry) : list Z :=
  concat (map entry_bytes es).

Definition archive_bytes (es : list Entry) : list Z :=
  kFileHeader ++ entries_bytes es.

(** Every field fits its width, the path has between 1 and 1023 code
    units, and the payload is shorter than 2^63 bytes. *)
Record well_formed (e : Entry) : Prop := {
  wf_flags : 0 ≤ e_flags e < 256;
  wf_attributes : 0 ≤ e_attributes e < 256;
  wf_time : 0 ≤ e_time e < 2 ^ 32;
  wf_unp_size : 0 ≤ e_unp_size e < 2 ^ 64;
  wf_path_len : (0 < length (e_path e) ≤ 1023)%nat;
  wf_path : Forall (λ c, 0 ≤ c < 2 ^ 16) (e_path e);
  wf_payload : Z.of_nat (length (e_payload e)) < 2 ^ 63
}.

Definition live (e : Entry) : bool :=
  Z.land (e_flags e) kEntryFlagDeleted =? 0.

Definition is_compressed (e : Entry) : bool :=
  negb (Z.land (e_flags e) kEntryFlagCompressed =? 0).

Definition is_directory (e : Entry) : bool :=
  negb (Z.land (e_attributes e) FILE_ATTR_DIRECTORY =? 0).

Definition tombstone (e : Entry) : Entry :=
  {| e_flags := Z.lor (e_flags e) kEntryFlagDeleted;
     e_attributes := e_attributes e; e_time := e_time e;
     e_unp_size := e_unp_size e; e_path := e_path e;
     e_payload := e_payload e |}.

(** The two checks of [ReadHeaderExW] on the sizes of an entry: a
    directory has no payload and no size, and what is not compressed is
    as long packed as unpacked. *)
Definition consistent_header (h : EntryHeader) : bool :=
  negb (negb (Z.land (attributes h) FILE_ATTR_DIRECTORY =? 0)
        && ((pack_size h >? 0) || (unp_size h >? 0)))
  && negb ((Z.land (flags h) kEntryFlagCompressed =? 0)
           && negb (unp_size h =? pack_size h)).

(** What [ReadHeaderExW] reports for a header and its path. *)
Definition header_data (h : EntryHeader) (path : wstring) : tHeaderDataExW :=
  {| FileName := c_str path;
     FileAttr := attributes h;
     FileTime := to_int32 (time h);
     PackSize := to_uint32 (pack_size h);
     PackSizeHigh := to_uint32 (Z.shiftr (pack_size h) 32);
     UnpSize := to_uint32 (unp_size h);
     UnpSizeHigh := to_uint32 (Z.shiftr (unp_size h) 32) |}.

(** The entries after a pass that tombstones the live entries whose path
    satisfies [matches]. *)
Definition tombstone_matching (matches : wstring → bool) (es : list Entry)
    : list Entry :=
  map (λ e, if live e && matches (e_path e) then tombstone e else e) es.


(** The host never asks to cancel: no callback is registered, or the
    registered one never answers 0. *)
Definition never_cancels (host : Host) (this : ArchiveBase) : Prop :=
  ∀ proc,
    process_data_proc_ this = Some proc
    ∨ (process_data_proc_ this = None
       ∧ g_global_process_data_proc host = Some proc) →
    ∀ n file_name size, proc n file_name size ≠ 0.

(** The archive file is open, holds [bytes], and its cursor is at the end. *)
Definition at_end (this : ArchiveBase) (bytes : list Z) : Prop :=
  archive_file_ this = Some {| contents := bytes; cursor := length bytes |}.

(** Two states of the object that differ at most in the bookkeeping of
    the progress reports. *)
Definition same_object (this this' : ArchiveBase) : Prop :=
  archive_file_ this' = archive_file_ this
  ∧ last_header_ this' = last_header_ this
  ∧ last_header_path_ this' = last_header_path_ this
  ∧ process_data_proc_ this' = process_data_proc_ this
  ∧ original_archive_size_ this' = original_archive_size_ this
  ∧ created_new_archive_ this' = created_new_archive_ this.

End Layout.

Export Layout.

(** The header of the entry that [PackFile] writes for a regular file,
    with [pack] in the field [pack_size]. *)
Definition written_header (file : SourceFile) (dos : Z) (path : wstring)
    (pack : Z) : EntryHeader :=
  {| magic := kEntryMagic;
     flags := if EnableCompressionForFile (nFileSize file)
              then kEntryFlagCompressed else 0;
     attributes := WindowsAttributesToWcxAttributes (dwFileAttributes file);
     time := dos; pack_size := pack; unp_size := nFileSize file;
     path_len := to_uint16 (Z.of_nat (length path)) |}.


(** ** Duplicate file names

    Two paths have the same file name when [_wcsicmp] finds their last
    components equal. *)
Definition same_file_name (p q : wstring) : bool :=
  _wcsicmp (ExtractFileName p) (ExtractFileName q) =? 0.

(** The paths whose file name does not come again later in the list. *)
Fixpoint last_occurrences (paths : list wstring) : list wstring :=
  match paths with
  | [] => []
  | p :: rest =>
      if existsb (same_file_name p) rest then last_occurrences rest
      else p :: last_occurrences rest
  end.

(** The elements of [l] at the positions, counted from [index], that
    [keep] accepts. *)
Fixpoint keep_mask {A} (keep : nat → bool) (index : nat) (l : list A) : list A :=
  match l with
  | [] => []
  | x :: l' =>
      if keep index then x :: keep_mask keep (S index) l'
      else keep_mask keep (S index) l'
  end.

(** What two names that [_wcsicmp] finds equal have in common. *)
Definition name_key (name : wstring) : wstring := map towlower (c_str name).

(** ** Sample hosts, archives and source trees

    Small concrete inputs on which the statements below are instantiated
    and the operations are run. *)

(** A host without a progress callback, and one whose callback always
    asks to cancel. *)
Definition quiet_host : Host :=
  {| GetTickCount64 := λ _, 0; g_global_process_data_proc := None |}.

Definition cancelling_host : Host :=
  {| GetTickCount64 := λ _, 0;
     g_global_process_data_proc := Some (λ _ _ _, 0) |}.

Definition sample_archive_path : wstring := L "C:\arc.smpa".

(** An entry as [PackFile] writes it for a small file with the attribute
    Archive: stored, not compressed. *)
Definition stored (path : wstring) (payload : list Z) : Entry :=
  {| e_flags := 0; e_attributes := FILE_ATTR_ARCHIVE; e_time := 0;
     e_unp_size := Z.of_nat (length payload); e_path := path;
     e_payload := payload |}.

(** A file of the source tree with the attribute Archive. *)
Definition small_file (bytes : list Z) : SourceFile :=
  {| dwFileAttributes := FILE_ATTRIBUTE_ARCHIVE;
     nFileSize := Z.of_nat (length bytes);
     dos_date_time := Some 0; file_bytes := Some bytes |}.

(** A zlib whose calls all answer [Z_BUF_ERROR] without consuming or
    producing anything: what zlib answers when no progress is possible. *)
Definition stalling_zlib : Zlib :=
  {| z_state := unit; inflateInit := (Z_OK, tt);
     inflate := λ _ _ _, (Z_BUF_ERROR, 0%nat, [], tt);
     deflateInit := (Z_OK, tt);
     deflate := λ _ _ _, (Z_BUF_ERROR, 0%nat, [], tt) |}.

(** A zlib whose [deflate] copies its input behind a marker byte and ends
    the stream when asked to finish: the output is longer than the
    input. *)
Definition framing_zlib : Zlib :=
  {| z_state := unit; inflateInit := (Z_OK, tt);
     inflate := λ _ avail _, (Z_STREAM_END, length avail, avail, tt);
     deflateInit := (Z_OK, tt);
     deflate := λ _ avail flush,
       (if flush =? Z_FINISH then Z_STREAM_END else Z_OK,
        length avail, 120 :: avail, tt) |}.

(** Erasing [Dir\*.*] from an archive of three files. *)
Definition erase_sample : list Entry :=
  [stored (L "Dir\A.txt") [1; 2]; stored (L "Dir\Sub\B.txt") [3];
   stored (L "Other.txt") [4]].

Definition erase_sample_list : list Z := L "Dir\*.*" ++ [0; 0].

(** A session that stands before one tombstoned entry, followed by a
    live one. *)
Definition listing_sample : ArchiveBase :=
  set_archive_file_
    (Some {| contents :=
               kFileHeader
               ++ entries_bytes [tombstone (stored (L "old.txt") [5])]
               ++ entry_bytes (stored (L "new.txt") [6]) ++ [];
             cursor := length kFileHeader |})
    new_archive.

(** A session with five bytes left at the cursor, none of them of an
    entry magic. *)
Definition truncated_sample : ArchiveBase :=
  set_archive_file_
    (Some {| contents := kFileHeader ++ [1; 2; 3; 4; 5];
             cursor := length kFileHeader |})
    new_archive.

(** A session with 28 bytes left at the cursor, all of them 0. *)
Definition zeros_sample : ArchiveBase :=
  set_archive_file_
    (Some {| contents := kFileHeader ++ replicate 28 0;
             cursor := length kFileHeader |})
    new_archive.

(** The variables of a decoding round with nothing left to read. *)
Definition stalled_round : inflating stalling_zlib :=
  {| in_state := tt : z_state stalling_zlib; in_avail := [];
     src_bytes_left := 0; total_bytes_written := 0 |}.

Definition unpacking_sample : Unpacking :=
  {| session := new_archive; dst_file := [] |}.

(** Packing [A\z.txt] and [B\a.txt] without paths into an archive that
    holds [a.txt]. *)
Definition flatten_tree : SourceTree :=
  {| source_at := λ path,
       if bool_decide (path = L "C:\src\A\z.txt") then Some (small_file [1; 2; 3])
       else if bool_decide (path = L "C:\src\B\a.txt") then Some (small_file [7; 8])
       else None;
     source_removed := λ _ _, true |}.

Definition flatten_list : list Z := L "A\z.txt" ++ [0] ++ L "B\a.txt" ++ [0; 0].

Definition flatten_before : list Entry := [stored (L "a.txt") [9]].

(** Packing [A\x.txt] and [B\x.txt] without paths into a new archive. *)
Definition same_name_tree : SourceTree :=
  {| source_at := λ path,
       if bool_decide (path = L "C:\src\A\x.txt") then Some (small_file [1])
       else if bool_decide (path = L "C:\src\B\x.txt") then Some (small_file [2; 3])
       else None;
     source_removed := λ _ _, true |}.

Definition same_name_list : list Z := L "A\x.txt" ++ [0] ++ L "B\x.txt" ++ [0; 0].

(** Packing a file of 15 bytes and one of 16 bytes. *)
Definition fifteen_bytes : list Z := replicate 15 7.
Definition sixteen_bytes : list Z := replicate 16 7.

Definition threshold_tree : SourceTree :=
  {| source_at := λ path,
       if bool_decide (path = L "C:\src\f15") then Some (small_file fifteen_bytes)
       else if bool_decide (path = L "C:\src\f16") then Some (small_file sixteen_bytes)
       else None;
     source_removed := λ _ _, true |}.

(** A new archive, open for packing, that holds the file header only. *)
Definition packing_sample : ArchiveBase :=
  set_archive_file_
    (Some {| contents := kFileHeader; cursor := length kFileHeader |})
    new_archive.

(** ** Further definitions for statements about whole runs *)

(** The memory of a list of strings: each followed by its NUL, the list
    ended by an empty string. *)
Definition string_list_memory (strings : list wstring) : list Z :=
  concat (map (λ s, s ++ [0]) strings) ++ [0].


(** The [tHeaderDataExW] that the caller hands to [ReadHeaderExW]. *)
Definition blank_header_data : tHeaderDataExW := header_data zero_header [].

(** The calls by which Total Commander goes through an open archive:
    [ReadHeaderExW], [ProcessFileW], [ReadHeaderExW], [ProcessFileW], ...
    with the same [operation] for every entry and the reported name as
    [destName], until a call returns something else than 0.  The result
    is what was reported for each entry together with what [ProcessFileW]
    made of its destination, and the value that ended the calls ([None]
    when a call does not return or after [rounds] entries). *)
Fixpoint process_entries (host : Host) (zlib : Zlib) (dest : Destination)
    (operation : Z) (destPath : wstring) (rounds fuel : nat)
    (this : ArchiveBase) : list (tHeaderDataExW * DestNode) * option Z :=
  match rounds with
  | O => ([], None)
  | S rounds' =>
      match Exports.ReadHeaderExW host this blank_header_data fuel with
      | (Some 0, data, this1) =>
          match ExportsReading.ProcessFileW host zlib dest this1 operation
                  destPath (FileName data) fuel with
          | (Some 0, this2, made) =>
              let '(others, code) :=
                process_entries host zlib dest operation destPath rounds' fuel
                  this2 in
              ((data, made) :: others, code)
          | (code, _, made) => ([(data, made)], code)
          end
      | (code, _, _) => ([], code)
      end
  end.

(** What an extraction makes of an entry that is stored without
    compression. *)
Definition extracted (e : Entry) : DestNode :=
  if is_directory e then Directory else RegularFile (e_payload e).

(** A destination at which every directory and every file can be
    created. *)
Definition open_destination : Destination :=
  {| CreateDirectoryW := λ _, true; wfopen_wb := λ _, true |}.

(** The entry that [PackFile] appends for a directory, and for a file
    that is too short to be compressed and has as many bytes as its size
    says; [None] for anything else. *)
Definition packed_entry (tree : SourceTree)
    (absolute_path archive_path : wstring) : option Entry :=
  match source_at tree absolute_path with
  | None => None
  | Some file =>
      match dos_date_time file with
      | None => None
      | Some dos =>
          let wcx_attr := WindowsAttributesToWcxAttributes (dwFileAttributes file) in
          let path := StripTrailingSlash archive_path in
          if Z.land (dwFileAttributes file) FILE_ATTRIBUTE_DIRECTORY =? 0 then
            match file_bytes file with
            | None => None
            | Some src =>
                if (nFileSize file =? Z.of_nat (length src))
                   && negb (EnableCompressionForFile (nFileSize file))
                then Some {| e_flags := 0; e_attributes := wcx_attr;
                             e_time := dos; e_unp_size := nFileSize file;
                             e_path := path; e_payload := src |}
                else None
            end
          else Some {| e_flags := 0; e_attributes := wcx_attr; e_time := dos;
                       e_unp_size := 0; e_path := path; e_payload := [] |}
      end
  end.

(** ** Further samples *)



Definition sample_destination : wstring := L "C:\out".

(** A host whose clock is far ahead at every reading and whose callback
    always asks to cancel: every progress report cancels. *)
Definition impatient_host : Host :=
  {| GetTickCount64 := λ n, 1000 * Z.of_nat (S n);
     g_global_process_data_proc := Some (λ _ _ _, 0) |}.

(** An extraction about to start behind the header of a stored file of
    three bytes. *)
Definition extracting_sample : Extracting :=
  {| reading :=
       set_last_header_ (entry_header (stored (L "a.txt") [1; 2; 3]))
         (set_archive_file_ (Some {| contents := [1; 2; 3]; cursor := 0 |})
            new_archive);
     node := Untouched; attributes_set := None; time_set := None |}.

(** A stored payload of three bytes at the cursor of the archive, and an
    empty destination file. *)
Definition copy_sample : Unpacking :=
  {| session :=
       set_archive_file_ (Some {| contents := [10; 20; 30]; cursor := 0 |})
         new_archive;
     dst_file := [] |}.

(** Packing [A\x.txt] and [B\x.txt] with their paths. *)
Definition same_name_entries : list Entry :=
  [stored (L "A\x.txt") [1]; stored (L "B\x.txt") [2; 3]].

(** The computation leaves the callback of the object as it is. *)
Definition keeps_callback {A} (m : M ArchiveBase A) : Prop :=
  ∀ s r s', m s = (r, s') → process_data_proc_ s' = process_data_proc_ s.

(** An archive that holds [a\X.TXT], to be packed over with [A\x.txt]. *)
Definition update_before : list Entry :=
  [stored (L "a\X.TXT") [9]; stored (L "Other.txt") [4]].

(** A host whose clock is far ahead at every reading and whose callback
    asks to cancel at its third call, the sixth interaction. *)
Definition late_host : Host :=
  {| GetTickCount64 := λ n, 1000 * Z.of_nat (S n);
     g_global_process_data_proc :=
       Some (λ n _ _, if (n =? 5)%nat then 0 else 1) |}.

(** ** The deletion set in the words of the specification

    The three definitions below do not use the functions of the engine:
    they say what it is for a path to be upper-cased, for a path of the
    deletion list to be normalized, and for an entry to lie below a
    directory. *)

(** A path with each of its letters a to z replaced by the capital
    letter. *)
Definition upper_cased (path : wstring) : wstring :=
  map (λ c, if bool_decide (97 ≤ c ≤ 122) then c - 32 else c) path.

(** A path of the deletion list without the suffix [*.*], then without
    one trailing backslash or slash, upper-cased. *)
Definition deletion_path (d : wstring) : wstring :=
  let without_wildcard :=
    let p := take (length d - 3) d in
    if bool_decide (d = p ++ [42; 46; 42]) then p else d in
  let without_separator :=
    let p := removelast without_wildcard in
    if bool_decide (without_wildcard = p ++ [92] ∨ without_wildcard = p ++ [47])
    then p else without_wildcard in
  upper_cased without_separator.

(** [path] is [dir], or [dir] followed by a separator and anything: what
    lies below [dir] at any depth. *)
Definition below (dir path : wstring) : Prop :=
  path = dir ∨ ∃ sep rest, (sep = 92 ∨ sep = 47) ∧ path = dir ++ sep :: rest.

(** The upper-cased path is a non-empty normalized path of the deletion
    list, or lies below one. *)
Definition erased_by (listed : list wstring) (path : wstring) : Prop :=
  ∃ d, d ∈ listed ∧ deletion_path d ≠ []
       ∧ below (deletion_path d) (upper_cased path).

(** Erasing [dir\*.*], in small letters, from an archive whose entries
    spell the directory otherwise. *)
Definition mixed_case_sample : list Entry :=
  [stored (L "Dir\A.txt") [1; 2]; stored (L "DIR\sub\b.txt") [3];
   stored (L "Director.txt") [4]].

Definition mixed_case_list : list Z := L "dir\*.*" ++ [0; 0].

(** ** Archives that the packer does not write *)

(** The header of a tombstone that declares a payload of [2^64 - back]
    bytes, a size that [ReadHeaderExW] and [DeleteIf] convert to
    [long long] for their seek: [back] bytes backwards. *)
Definition backward_tombstone (back : Z) : EntryHeader :=
  {| magic := kEntryMagic; flags := kEntryFlagDeleted;
     attributes := FILE_ATTR_ARCHIVE; time := 0; pack_size := 2 ^ 64 - back;
     unp_size := 0; path_len := 1 |}.




(** A session that stands before a tombstone whose declared size leads
    1000 bytes back, before the beginning of the file. *)
Definition unreadable_sample : ArchiveBase :=
  set_archive_file_
    (Some {| contents :=
               kFileHeader ++ header_bytes (backward_tombstone 1000)
               ++ wchars_bytes (L "t");
             cursor := length kFileHeader |})
    new_archive.

(** An archive in which such a tombstone stands before the file
    [Dir\A.txt]. *)
Definition blocked_archive : list Z :=
  kFileHeader ++ header_bytes (backward_tombstone 1000) ++ wchars_bytes (L "t")
  ++ entry_bytes (stored (L "Dir\A.txt") [1; 2]).

(** ** Sorting and compressing, as far as the libraries fix them *)

(** What the C++ standard asks of [std::sort(first, last, comp)]: the
    result holds the same elements and none of them is less than one
    before it. *)
Definition sorts {A} (comp : A → A → bool) (sort : list A → list A) : Prop :=
  ∀ l, sort l ≡ₚ l ∧ ascending comp (sort l).

Section Deflated.
Context (zlib : Zlib).

(** One round of the encoding loop, the archive file apart: the bytes
    that the call of [deflate] gives, and the variables of the next
    round or the two counters at the [break]; or the exception of the
    round. *)
Definition deflate_call (v : deflating zlib)
    : result (list Z * (deflating zlib + Z * Z)) :=
  let refill := bool_decide (de_avail zlib v = []) && negb (is_src_end zlib v) in
  let piece := take (Z.to_nat kBufSize) (src_rest zlib v) in
  let avail_in := if refill then piece else de_avail zlib v in
  let src_end :=
    if refill then Z.of_nat (length piece) <? kBufSize else is_src_end zlib v in
  let bytes_read_total :=
    if refill then to_uint64 (out_bytes_read zlib v + Z.of_nat (length piece))
    else out_bytes_read zlib v in
  let '(zlib_result, consumed, produced, state') :=
    deflate zlib (de_state zlib v) avail_in
      (if src_end then Z_FINISH else Z_NO_FLUSH) in
  let out := take (Z.to_nat kBufSize) produced in
  let written_total :=
    if bool_decide (out = []) then out_bytes_written zlib v
    else to_uint64 (out_bytes_written zlib v + Z.of_nat (length out)) in
  if zlib_result =? Z_STREAM_END
  then Val (out, inr (written_total, bytes_read_total))
  else if zlib_result =? Z_OK then
    if refill || negb (bool_decide (out = [])) then
      Val (out,
           inl {| de_state := state'; de_avail := drop consumed avail_in;
                  src_rest :=
                    if refill then drop (Z.to_nat kBufSize) (src_rest zlib v)
                    else src_rest zlib v;
                  is_src_end := src_end;
                  out_bytes_written := written_total;
                  out_bytes_read := bytes_read_total |})
    else Exc E_BAD_ARCHIVE
  else if zlib_result =? Z_MEM_ERROR then Exc E_NO_MEMORY
  else if zlib_result =? Z_STREAM_ERROR then Exc E_BAD_ARCHIVE
  else Exc E_BAD_DATA.

(** The bytes that the calls of [deflate] give one after the other until
    one of them ends the stream, with [out_bytes_read] at that point. *)
Fixpoint deflate_stream (fuel : nat) (v : deflating zlib) : result (list Z * Z) :=
  match fuel with
  | O => Diverge
  | S fuel' =>
      match deflate_call v with
      | Val (out, inl v') =>
          match deflate_stream fuel' v' with
          | Val (more, bytes_read) => Val (out ++ more, bytes_read)
          | other => other
          end
      | Val (out, inr (_, bytes_read)) => Val (out, bytes_read)
      | Exc error_code => Exc error_code
      | Diverge => Diverge
      end
  end.

(** The deflate stream that zlib makes of a source file of
    [src_file_size] bytes that has the bytes [src]: the payload of a
    compressed entry. *)
Definition deflated (fuel : nat) (src : list Z) (src_file_size : Z)
    : result (list Z) :=
  let '(zlib_result, state) := deflateInit zlib in
  if zlib_result =? Z_OK then
    match deflate_stream fuel
            {| de_state := state; de_avail := []; src_rest := src;
               is_src_end := false; out_bytes_written := 0;
               out_bytes_read := 0 |} with
    | Val (payload, bytes_read) =>
        if bytes_read =? src_file_size then Val payload else Exc E_EREAD
    | Exc error_code => Exc error_code
    | Diverge => Diverge
    end
  else if zlib_result =? Z_MEM_ERROR then Exc E_NO_MEMORY
  else if zlib_result =? Z_STREAM_ERROR then Exc E_BAD_ARCHIVE
  else Exc E_BAD_DATA.

(** A zlib that takes all the input of every call and ends the stream
    exactly in the call that asks it to finish. *)
Definition takes_every_piece : Prop :=
  ∀ state avail flush, ∃ produced state',
    deflate zlib state avail flush
    = (if flush =? Z_FINISH then Z_STREAM_END else Z_OK, length avail,
       produced, state').

(** What such a zlib gives for the source cut in pieces of [kBufSize]
    bytes: one call for each piece, the one for the last piece, which is
    shorter, asking to finish; each call gives [kBufSize] bytes at
    most. *)
Fixpoint deflate_pieces_from (rounds : nat) (state : z_state zlib)
    (rest : list Z) : list Z :=
  match rounds with
  | O => []
  | S rounds' =>
      let piece := take (Z.to_nat kBufSize) rest in
      let last := Z.of_nat (length piece) <? kBufSize in
      let '(_, _, produced, state') :=
        deflate zlib state piece (if last then Z_FINISH else Z_NO_FLUSH) in
      take (Z.to_nat kBufSize) produced
      ++ (if last then []
          else deflate_pieces_from rounds' state' (drop (Z.to_nat kBufSize) rest))
  end.

Definition deflate_pieces (state : z_state zlib) (src : list Z) : list Z :=
  deflate_pieces_from (S (length src)) state src.

End Deflated.

(** * Properties *)

(** ** The byte images of integers, headers and paths *)

Section Bytes.

Lemma le_bytes_length n v : length (le_bytes n v) = n.
Proof. revert v; induction n as [|n IH]; intros v; simpl; [done|by rewrite IH]. Qed.

Lemma le_value_le_bytes_mod n v :
  le_value (le_bytes n v) = v mod 256 ^ Z.of_nat n.
Proof.
  revert v; induction n as [|n IH]; intros v.
  - simpl. by rewrite Z.mod_1_r.
  - cbn [le_bytes le_value]. rewrite IH, Nat2Z.inj_succ, Z.pow_succ_r by lia.
    rewrite Z.rem_mul_r by lia. lia.
Qed.

Lemma le_value_le_bytes n v :
  0 ≤ v < 256 ^ Z.of_nat n → le_value (le_bytes n v) = v.
Proof. intros Hv. rewrite le_value_le_bytes_mod. by apply Z.mod_small. Qed.

Lemma header_bytes_length h : length (header_bytes h) = sizeof_EntryHeader.
Proof. reflexivity. Qed.

Lemma wchars_bytes_length s :
  length (wchars_bytes s) = (sizeof_wchar_t * length s)%nat.
Proof.
  induction s as [|c s IH]; [done|].
  unfold wchars_bytes in *. cbn [map concat]. rewrite length_app, IH.
  cbn. lia.
Qed.

Lemma wchars_bytes_cons c s :
  wchars_bytes (c :: s) = c mod 256 :: (c / 256) mod 256 :: wchars_bytes s.
Proof. reflexivity. Qed.

Lemma wchars_of_bytes_app s rest :
  Forall (λ c, 0 ≤ c < 2 ^ 16) s →
  wchars_of_bytes (wchars_bytes s ++ rest) = s ++ wchars_of_bytes rest.
Proof.
  induction 1 as [|c s Hc _ IH]; [done|].
  rewrite wchars_bytes_cons. cbn [app wchars_of_bytes]. rewrite IH. f_equal.
  change (le_value (le_bytes 2 c) = c). apply le_value_le_bytes. cbn. lia.
Qed.

Lemma wchars_of_bytes_wchars_bytes s :
  Forall (λ c, 0 ≤ c < 2 ^ 16) s → wchars_of_bytes (wchars_bytes s) = s.
Proof.
  intros Hs. rewrite <- (app_nil_r (wchars_bytes s)), wchars_of_bytes_app by done.
  apply app_nil_r.
Qed.

End Bytes.

(** ** Running the computations *)

Section Running.
Context {St : Type}.

Lemma bind_val {A B} (m : M St A) (f : A → M St B) s a s' :
  m s = (Val a, s') → (m ≫= f) s = f a s'.
Proof. intros H. unfold mbind, M_bind. by rewrite H. Qed.

Lemma bind_exc {A B} (m : M St A) (f : A → M St B) s e s' :
  m s = (Exc e, s') → (m ≫= f) s = (Exc e, s').
Proof. intros H. unfold mbind, M_bind. by rewrite H. Qed.

Lemma bind_diverge {A B} (m : M St A) (f : A → M St B) s s' :
  m s = (Diverge, s') → (m ≫= f) s = (Diverge, s').
Proof. intros H. unfold mbind, M_bind. by rewrite H. Qed.

Lemma bind_inv {A B} (m : M St A) (f : A → M St B) s r s' :
  (m ≫= f) s = (r, s') →
  (∃ a s1, m s = (Val a, s1) ∧ f a s1 = (r, s'))
  ∨ (∃ e, m s = (Exc e, s') ∧ r = Exc e)
  ∨ (m s = (Diverge, s') ∧ r = Diverge).
Proof.
  unfold mbind, M_bind. destruct (m s) as [[a|e|] s1]; intros H.
  - left. eauto.
  - right. left. inversion H. eauto.
  - right. right. inversion H. eauto.
Qed.

End Running.

(** ** The file primitives *)

Section Files.

Lemma fread_bytes_at n f a data b :
  contents f = a ++ data ++ b → cursor f = length a → n = length data →
  fread_bytes n f
  = (data, {| contents := contents f; cursor := (cursor f + n)%nat |}).
Proof.
  intros Hc Hp ->. unfold fread_bytes. rewrite Hc, Hp.
  rewrite drop_app_length, take_app_length. done.
Qed.

Lemma fread_bytes_contents n f : contents (fread_bytes n f).2 = contents f.
Proof. reflexivity. Qed.

Lemma fread_bytes_short n f :
  (length (fread_bytes n f).1 ≤ n)%nat
  ∧ (length (fread_bytes n f).1 ≤ length (contents f) - cursor f)%nat.
Proof.
  unfold fread_bytes. cbn. rewrite length_take, length_drop. lia.
Qed.

Lemma fwrite_bytes_inside f a old b data :
  contents f = a ++ old ++ b → cursor f = length a → length old = length data →
  fwrite_bytes data f
  = {| contents := a ++ data ++ b; cursor := (cursor f + length data)%nat |}.
Proof.
  intros Hc Hp Hl. unfold fwrite_bytes. rewrite Hc, Hp. f_equal.
  rewrite take_app_length.
  replace (length a - length (a ++ old ++ b))%nat with 0%nat
    by (rewrite !length_app; lia).
  cbn [replicate app]. do 2 f_equal.
  replace (length a + length data)%nat with (length (a ++ old))
    by (rewrite length_app; lia).
  by rewrite app_assoc, drop_app_length.
Qed.

Lemma fwrite_bytes_end f data :
  cursor f = length (contents f) →
  fwrite_bytes data f
  = {| contents := contents f ++ data; cursor := (cursor f + length data)%nat |}.
Proof.
  intros Hp. unfold fwrite_bytes. rewrite Hp. f_equal.
  rewrite take_ge, Nat.sub_diag, drop_ge by lia. cbn. by rewrite app_nil_r.
Qed.

Lemma fread_run n s f :
  archive_file_ s = Some f →
  fread n s
  = (Val (fread_bytes n f).1, set_archive_file_ (Some (fread_bytes n f).2) s).
Proof.
  intros H. unfold fread, with_file. rewrite H. by destruct (fread_bytes n f).
Qed.

Lemma ftell_run s f :
  archive_file_ s = Some f →
  _ftelli64 s = (Val (Z.of_nat (cursor f)), set_archive_file_ (Some f) s).
Proof. intros H. unfold _ftelli64, with_file. by rewrite H. Qed.

Lemma seek_run offset origin s f f' :
  archive_file_ s = Some f → fseek offset origin f = Some f' →
  SeekOrThrow offset origin s = (Val tt, set_archive_file_ (Some f') s).
Proof. intros H H'. unfold SeekOrThrow, with_file. by rewrite H, H'. Qed.

Lemma write_run data s f :
  archive_file_ s = Some f →
  WriteOrThrow data s
  = (Val tt, set_archive_file_ (Some (fwrite_bytes data f)) s).
Proof. intros H. unfold WriteOrThrow, with_file. by rewrite H. Qed.

Lemma ReadOrThrow_run elem_size elem_count s f a data b :
  archive_file_ s = Some f →
  contents f = a ++ data ++ b → cursor f = length a →
  length data = (elem_size * elem_count)%nat → (0 < elem_size)%nat →
  ReadOrThrow elem_size elem_count s
  = (Val data, set_archive_file_
       (Some {| contents := contents f;
                cursor := (cursor f + elem_size * elem_count)%nat |}) s).
Proof.
  intros Hs Hc Hp Hl He. unfold ReadOrThrow.
  erewrite bind_val; [|by apply fread_run].
  rewrite (fread_bytes_at _ f a data b) by (done || by symmetry). cbn [fst snd].
  rewrite Hl, Nat.mul_comm, Nat.div_mul by lia. rewrite Nat.eqb_refl.
  by rewrite Nat.mul_comm.
Qed.

Lemma fseek_cur offset f :
  0 ≤ offset →
  fseek offset SEEK_CUR f
  = Some {| contents := contents f; cursor := (cursor f + Z.to_nat offset)%nat |}.
Proof.
  intros H. unfold fseek. cbn.
  destruct (Z.ltb_spec (Z.of_nat (cursor f) + offset) 0); [lia|].
  do 2 f_equal. lia.
Qed.

Lemma fseek_set offset f :
  0 ≤ offset →
  fseek offset SEEK_SET f
  = Some {| contents := contents f; cursor := Z.to_nat offset |}.
Proof.
  intros H. unfold fseek. change (SEEK_SET =? SEEK_SET) with true.
  cbn match. rewrite Z.add_0_l.
  destruct (Z.ltb_spec offset 0); [lia|done].
Qed.

End Files.

(** ** Reading the header of an entry *)

Section Headers.

Lemma header_of_bytes_header_bytes h :
  0 ≤ magic h < 2 ^ 32 → 0 ≤ flags h < 256 → 0 ≤ attributes h < 256 →
  0 ≤ time h < 2 ^ 32 → 0 ≤ pack_size h < 2 ^ 64 → 0 ≤ unp_size h < 2 ^ 64 →
  0 ≤ path_len h < 2 ^ 16 →
  header_of_bytes (header_bytes h) = h.
Proof.
  intros. destruct h as [m f a t p u l]; cbn [Format.magic Format.flags
    Format.attributes Format.time Format.pack_size Format.unp_size Format.path_len] in *.
  unfold header_of_bytes, header_bytes. cbn [Format.magic Format.flags
    Format.attributes Format.time Format.pack_size Format.unp_size Format.path_len].
  f_equal.
  - exact (le_value_le_bytes 4 m ltac:(cbn; lia)).
  - exact (le_value_le_bytes 1 f ltac:(cbn; lia)).
  - exact (le_value_le_bytes 1 a ltac:(cbn; lia)).
  - exact (le_value_le_bytes 4 t ltac:(cbn; lia)).
  - exact (le_value_le_bytes 8 p ltac:(cbn; lia)).
  - exact (le_value_le_bytes 8 u ltac:(cbn; lia)).
  - exact (le_value_le_bytes 2 l ltac:(cbn; lia)).
Qed.

Lemma entry_header_roundtrip e :
  well_formed e → header_of_bytes (header_bytes (entry_header e)) = entry_header e.
Proof.
  intros [? ? ? ? ? ? ?]. apply header_of_bytes_header_bytes; cbn; try lia.
  unfold kEntryMagic. lia.
Qed.

End Headers.

(** ** What a computation can throw *)

Section Raises.
Context {St : Type} (P : Z → Prop).

Lemma raises_ret {A} (a : A) : raises (St:=St) P (mret a).
Proof. by intros s e s' H. Qed.

Lemma raises_throw {A} code : P code → raises (St:=St) (A:=A) P (throw code).
Proof. intros HP s e s' [= <- _]. done. Qed.

Lemma raises_diverge {A} : raises (St:=St) (A:=A) P diverge.
Proof. by intros s e s' H. Qed.

Lemma raises_gets {A} (f : St → A) : raises P (gets f).
Proof. by intros s e s' H. Qed.

Lemma raises_modify (f : St → St) : raises P (modify f).
Proof. by intros s e s' H. Qed.

Lemma raises_bind {A B} (m : M St A) (f : A → M St B) :
  raises P m → (∀ a, raises P (f a)) → raises P (m ≫= f).
Proof.
  intros Hm Hf s e s' H.
  apply bind_inv in H as [(a & s1 & H1 & H)|[(e' & H1 & [= ->])|[_ ?]]]; [..|done].
  - by eapply Hf.
  - by eapply Hm.
Qed.

Lemma raises_when (b : bool) (m : M St unit) : raises P m → raises P (when b m).
Proof. destruct b; [done|]. intros _. apply raises_ret. Qed.

End Raises.

Ltac raises_step :=
  first
    [ apply raises_ret | apply raises_gets | apply raises_modify
    | apply raises_diverge
    | apply raises_throw; done
    | apply raises_bind; [|intros ?]
    | apply raises_when
    | match goal with
      | |- raises _ (if ?b then _ else _) => destruct b
      | |- raises _ (match ?x with _ => _ end) => destruct x
      | |- raises _ (let '(_, _) := ?x in _) => destruct x
      end ].

Section RaisesArchive.
Context (host : Host).

Lemma raises_with_file {A} P (op : FILE → result A * FILE) :
  (∀ f e, (op f).1 = Exc e → P e) → raises P (with_file op).
Proof.
  intros Hop s e s'. unfold with_file.
  destruct (archive_file_ s) as [f|]; [|done].
  destruct (op f) as [r f'] eqn:Hf. intros [= -> <-]. apply (Hop f). by rewrite Hf.
Qed.

Lemma raises_fread P n : raises P (fread n).
Proof. apply raises_with_file. intros f e. by destruct (fread_bytes n f). Qed.

Lemma raises_ftell P : raises P _ftelli64.
Proof. by apply raises_with_file. Qed.

Lemma raises_write P data : raises P (WriteOrThrow data).
Proof. by apply raises_with_file. Qed.

Lemma raises_seek (P : Z → Prop) offset origin :
  P E_NOT_SUPPORTED → raises P (SeekOrThrow offset origin).
Proof.
  intros HP. apply raises_with_file. intros f e.
  destruct (fseek offset origin f); cbn; [done|]. by intros [= <-].
Qed.

Lemma raises_ReadOrThrow (P : Z → Prop) elem_size elem_count :
  P E_EREAD → raises P (ReadOrThrow elem_size elem_count).
Proof.
  intros HP. unfold ReadOrThrow. apply raises_bind; [apply raises_fread|].
  intros buf. repeat raises_step.
Qed.

Lemma raises_add_bytes_processed P n : raises P (add_bytes_processed n).
Proof. apply raises_modify. Qed.

Lemma raises_ReadEntryHeader (P : Z → Prop) :
  P E_BAD_ARCHIVE → P E_SMALL_BUF → P E_EREAD → raises P ReadEntryHeader.
Proof.
  intros H1 H2 H3. unfold ReadEntryHeader.
  repeat first [apply raises_fread | apply raises_add_bytes_processed
               | by apply raises_ReadOrThrow | raises_step].
Qed.

Lemma raises_CallProcessDataProc P file_name size :
  raises P (CallProcessDataProc host file_name size).
Proof.
  intros s e s'. unfold CallProcessDataProc.
  destruct (process_data_proc_ s); [done|].
  by destruct (g_global_process_data_proc host).
Qed.

Lemma raises_tick_count P : raises P (tick_count host).
Proof. by intros s e s'. Qed.

Lemma raises_UpdateBytesProcessedProgress P :
  raises P (UpdateBytesProcessedProgress host).
Proof.
  unfold UpdateBytesProcessedProgress.
  repeat first [apply raises_tick_count | apply raises_CallProcessDataProc
               | raises_step].
Qed.

Lemma raises_UpdateDirectProgress P file_name size :
  raises P (UpdateDirectProgress host file_name size).
Proof.
  unfold UpdateDirectProgress.
  repeat first [apply raises_tick_count | apply raises_CallProcessDataProc
               | raises_step].
Qed.

(** What the listing throws is never the value 0 of success. *)
Lemma raises_ReadHeaderExW_next_entry fuel :
  raises (λ e, e ≠ 0) (ReadHeaderExW_next_entry host fuel).
Proof.
  induction fuel as [|fuel IH]; cbn [ReadHeaderExW_next_entry].
  - apply raises_diverge.
  - repeat first [exact IH | by apply raises_ReadEntryHeader | by apply raises_seek
                 | apply raises_UpdateBytesProcessedProgress
                 | apply raises_add_bytes_processed | raises_step].
Qed.

End RaisesArchive.

(** ** The scan over the entries of a well-formed archive *)

Tactic Notation "state_simpl" :=
  cbn [archive_file_ last_header_ last_header_path_ process_data_proc_
       original_archive_size_ created_new_archive_ host_events
       bytes_processed_since_previous_progress_ last_progress_time_
       set_archive_file_ set_last_header_ set_last_header_path_
       set_bytes_processed set_last_progress_time_ set_original_archive_size_
       set_created_new_archive_ next_host_event contents cursor fst snd].

Tactic Notation "state_simpl" "in" "*" :=
  cbn [archive_file_ last_header_ last_header_path_ process_data_proc_
       original_archive_size_ created_new_archive_ host_events
       bytes_processed_since_previous_progress_ last_progress_time_
       set_archive_file_ set_last_header_ set_last_header_path_
       set_bytes_processed set_last_progress_time_ set_original_archive_size_
       set_created_new_archive_ next_host_event contents cursor fst snd] in *.

Ltac split_fields :=
  repeat match goal with |- _ ∧ _ => split end.

Lemma lor_one a : Z.lor a 1 = a + 1 - a mod 2.
Proof.
  pose proof (Z.add_lor_land a 1) as H.
  change (Z.land a 1) with (Z.land a (Z.ones 1)) in H.
  rewrite Z.land_ones in H by lia. change (2 ^ 1) with 2 in H. lia.
Qed.

Lemma lor_one_byte a : 0 ≤ a < 256 → 0 ≤ Z.lor a 1 < 256.
Proof.
  intros H. rewrite lor_one.
  pose proof (Z.mod_pos_bound a 2). pose proof (Z.div_mod a 2). lia.
Qed.

Section Scan.
Context (host : Host).

Lemma ReadEntryHeader_entry s pre e rest :
  well_formed e →
  archive_file_ s = Some {| contents := pre ++ entry_bytes e ++ rest; cursor := length pre |} →
  ∃ s', ReadEntryHeader s = (Val true, s')
    ∧ archive_file_ s' = Some {| contents := pre ++ entry_bytes e ++ rest;
         cursor := (length pre + sizeof_EntryHeader + sizeof_wchar_t * length (e_path e))%nat |}
    ∧ last_header_ s' = entry_header e
    ∧ last_header_path_ s' = e_path e
    ∧ process_data_proc_ s' = process_data_proc_ s
    ∧ original_archive_size_ s' = original_archive_size_ s
    ∧ created_new_archive_ s' = created_new_archive_ s.
Proof.
  intros Hwf Hf.
  assert (Hlen : Z.of_nat (length (e_path e)) = path_len (entry_header e)) by done.
  destruct Hwf as [? ? ? ? Hpl Hp ?].
  set (hb := header_bytes (entry_header e)).
  set (tail := wchars_bytes (e_path e) ++ e_payload e ++ rest).
  assert (Hc : pre ++ entry_bytes e ++ rest = pre ++ hb ++ tail).
  { unfold entry_bytes, tail, hb. by rewrite <- !app_assoc. }
  rewrite Hc in Hf |- *.
  assert (Hrt : header_of_bytes hb = entry_header e)
    by (apply entry_header_roundtrip; constructor; done).
  eexists. split.
  - unfold ReadEntryHeader.
    erewrite bind_val; [|reflexivity].
    erewrite bind_val; [|by apply fread_run].
    rewrite (fread_bytes_at _ _ pre hb tail) by done.
    cbn [fst snd contents cursor].
    erewrite bind_val; [|reflexivity].
    change (length hb) with sizeof_EntryHeader.
    rewrite Nat.div_same by done. cbn [Nat.eqb].
    erewrite bind_val; [|reflexivity]. cbn [last_header_ set_last_header_].
    rewrite take_app_length' by done.
    rewrite !Hrt.
    cbn [magic entry_header]. rewrite Z.eqb_refl. cbn [negb].
    erewrite bind_val; [|reflexivity].
    cbn [path_len entry_header].
    assert ((Z.of_nat (length (e_path e)) =? 0) = false) as -> by (apply Z.eqb_neq; lia).
    assert ((Z.of_nat (length (e_path e)) >? kMaxFileNameLen - 1) = false) as ->.
    { unfold kMaxFileNameLen. rewrite Z.gtb_ltb. apply Z.ltb_ge. lia. }
    erewrite bind_val; cycle 1.
    { eapply (ReadOrThrow_run _ _ _ _ (pre ++ hb) (wchars_bytes (e_path e)) (e_payload e ++ rest)).
      - reflexivity.
      - cbn [contents]. unfold tail. by rewrite <- !app_assoc.
      - cbn [cursor]. by rewrite length_app.
      - rewrite wchars_bytes_length. by rewrite Nat2Z.id.
      - unfold sizeof_wchar_t. lia. }
    erewrite bind_val; [|reflexivity].
    erewrite bind_val; [|reflexivity].
    reflexivity.
  - state_simpl.
    rewrite wchars_of_bytes_wchars_bytes, Nat2Z.id by done.
    done.
Qed.

Lemma ReadEntryHeader_end s f :
  archive_file_ s = Some f →
  (length (contents f) - cursor f < sizeof_EntryHeader)%nat →
  ∃ s', ReadEntryHeader s = (Val false, s')
    ∧ archive_file_ s' = Some {| contents := contents f;
        cursor := (cursor f + (length (contents f) - cursor f))%nat |}
    ∧ process_data_proc_ s' = process_data_proc_ s
    ∧ original_archive_size_ s' = original_archive_size_ s
    ∧ created_new_archive_ s' = created_new_archive_ s.
Proof.
  intros Hf Hlen. eexists. split.
  - unfold ReadEntryHeader.
    erewrite bind_val; [|reflexivity].
    erewrite bind_val; [|by apply fread_run].
    erewrite bind_val; [|reflexivity].
    pose proof (fread_bytes_short sizeof_EntryHeader f) as [_ Hshort].
    rewrite Nat.div_small by lia. reflexivity.
  - state_simpl. split_and!; try done. unfold fread_bytes. cbn [snd contents cursor].
    rewrite length_take, length_drop. do 2 f_equal.
    unfold sizeof_EntryHeader in *. lia.
Qed.

Lemma CallProcessDataProc_continue file_name size s :
  never_cancels host s →
  ∃ r s', CallProcessDataProc host file_name size s = (Val r, s')
    ∧ r ≠ 0 ∧ same_object s s'.
Proof.
  intros Hnc. unfold CallProcessDataProc.
  destruct (process_data_proc_ s) as [proc|] eqn:Hp.
  - eexists _, _. split; [done|]. split; [apply Hnc; eauto|]. by repeat split.
  - destruct (g_global_process_data_proc host) as [proc|] eqn:Hg.
    + eexists _, _. split; [done|]. split; [apply Hnc; eauto|]. by repeat split.
    + eexists _, _. split; [done|]. split; [done|]. by repeat split.
Qed.

Lemma same_object_never_cancels s s' :
  same_object s s' → never_cancels host s → never_cancels host s'.
Proof.
  intros (_ & _ & _ & Hp & _) Hnc proc H. apply Hnc. by rewrite <- Hp.
Qed.

Lemma UpdateDirectProgress_continue file_name size s :
  never_cancels host s →
  ∃ s', UpdateDirectProgress host file_name size s = (Val false, s')
    ∧ same_object s s'.
Proof.
  intros Hnc. unfold UpdateDirectProgress.
  erewrite bind_val; [|reflexivity].
  erewrite bind_val; [|reflexivity].
  state_simpl.
  destruct (_ >? _).
  - destruct (CallProcessDataProc_continue file_name size (next_host_event s))
      as (r & s1 & Hr & Hr0 & Hso); [done|].
    erewrite bind_val; [|exact Hr].
    erewrite bind_val; [|reflexivity].
    apply Z.eqb_neq in Hr0. rewrite Hr0.
    eexists. split; [reflexivity|].
    destruct Hso as (? & ? & ? & ? & ? & ?). by repeat split.
  - eexists. split; [reflexivity|]. by repeat split.
Qed.

Lemma UpdateBytesProcessedProgress_continue s :
  never_cancels host s →
  ∃ s', UpdateBytesProcessedProgress host s = (Val false, s')
    ∧ same_object s s'.
Proof.
  intros Hnc. unfold UpdateBytesProcessedProgress.
  erewrite bind_val; [|reflexivity].
  erewrite bind_val; [|reflexivity].
  state_simpl.
  destruct (_ >? _).
  - erewrite bind_val; [|reflexivity].
    match goal with |- context [CallProcessDataProc host ?n ?z] =>
      destruct (CallProcessDataProc_continue n z (next_host_event s))
        as (r & s1 & Hr & Hr0 & Hso); [done|] end.
    erewrite bind_val; [|exact Hr].
    erewrite bind_val; [|reflexivity].
    erewrite bind_val; [|reflexivity].
    apply Z.eqb_neq in Hr0. rewrite Hr0.
    eexists. split; [reflexivity|].
    destruct Hso as (? & ? & ? & ? & ? & ?). by repeat split.
  - eexists. split; [reflexivity|]. by repeat split.
Qed.

Lemma entries_bytes_cons e es :
  entries_bytes (e :: es) = entry_bytes e ++ entries_bytes es.
Proof. reflexivity. Qed.

Lemma entries_bytes_app es1 es2 :
  entries_bytes (es1 ++ es2) = entries_bytes es1 ++ entries_bytes es2.
Proof. unfold entries_bytes. by rewrite map_app, concat_app. Qed.

Lemma entry_bytes_length e :
  length (entry_bytes e)
  = (sizeof_EntryHeader + sizeof_wchar_t * length (e_path e)
     + length (e_payload e))%nat.
Proof.
  unfold entry_bytes. rewrite !length_app, wchars_bytes_length, header_bytes_length.
  lia.
Qed.

Lemma to_int64_small v : 0 ≤ v < 2 ^ 63 → to_int64 v = v.
Proof. intros H. unfold to_int64. destruct (Z.ltb_spec v (2 ^ 63)); lia. Qed.

(** Skipping the payload of the entry whose header was just read. *)
Lemma skip_payload_run (b : bool) s pre e rest :
  well_formed e →
  archive_file_ s = Some {| contents := pre ++ entry_bytes e ++ rest;
    cursor := (length pre + sizeof_EntryHeader + sizeof_wchar_t * length (e_path e))%nat |} →
  b = negb (Z.of_nat (length (e_payload e)) =? 0) →
  ∃ s', when b (SeekOrThrow (to_int64 (Z.of_nat (length (e_payload e)))) SEEK_CUR) s
        = (Val tt, s')
    ∧ archive_file_ s' = Some {| contents := pre ++ entry_bytes e ++ rest;
         cursor := (length pre + length (entry_bytes e))%nat |}
    ∧ last_header_ s' = last_header_ s
    ∧ last_header_path_ s' = last_header_path_ s
    ∧ process_data_proc_ s' = process_data_proc_ s
    ∧ original_archive_size_ s' = original_archive_size_ s
    ∧ created_new_archive_ s' = created_new_archive_ s.
Proof.
  intros Hwf Hf ->. destruct Hwf as [_ _ _ _ _ _ Hpay].
  rewrite entry_bytes_length.
  destruct (Z.eqb_spec (Z.of_nat (length (e_payload e))) 0) as [H0|H0]; cbn [negb when].
  - eexists. split; [reflexivity|]. rewrite Hf.
    repeat split. do 2 f_equal. lia.
  - eexists. split.
    + eapply seek_run; [done|]. rewrite to_int64_small by lia. apply fseek_cur. lia.
    + state_simpl. repeat split. do 2 f_equal. lia.
Qed.

Lemma live_false_flag e :
  live e = false → negb (Z.land (e_flags e) kEntryFlagDeleted =? 0) = true.
Proof. unfold live. by intros ->. Qed.

Lemma DeleteIf_next_entry_skip ds : ∀ pre rest s fuel,
  Forall well_formed ds → Forall (λ e, live e = false) ds →
  archive_file_ s = Some {| contents := pre ++ entries_bytes ds ++ rest;
                            cursor := length pre |} →
  ∃ s1,
    DeleteIf_next_entry (length ds + fuel) s = DeleteIf_next_entry fuel s1
    ∧ archive_file_ s1 = Some {| contents := pre ++ entries_bytes ds ++ rest;
         cursor := (length pre + length (entries_bytes ds))%nat |}
    ∧ process_data_proc_ s1 = process_data_proc_ s
    ∧ original_archive_size_ s1 = original_archive_size_ s
    ∧ created_new_archive_ s1 = created_new_archive_ s.
Proof.
  induction ds as [|e ds IH]; intros pre rest s fuel Hwf Hdel Hf.
  - exists s. cbn. rewrite Nat.add_0_r. done.
  - inversion_clear Hwf as [|? ? Hwe Hwf']. inversion_clear Hdel as [|? ? Hde Hdel'].
    rewrite entries_bytes_cons, <- app_assoc in Hf |- *.
    cbn [length Nat.add DeleteIf_next_entry].
    erewrite bind_val; [|by apply ftell_run].
    match goal with |- context [(ReadEntryHeader ≫= _) ?s0] =>
      destruct (ReadEntryHeader_entry s0 pre e (entries_bytes ds ++ rest) Hwe eq_refl)
        as (s1 & Hrd & Hf1 & Hh1 & Hp1 & Hproc1 & Hsz1 & Hcr1) end.
    erewrite bind_val; [|exact Hrd]. cbn [negb].
    erewrite bind_val; [|reflexivity]. rewrite Hh1.
    cbn [flags pack_size entry_header]. rewrite (live_false_flag e Hde).
    destruct (skip_payload_run (negb (Z.of_nat (length (e_payload e)) =? 0)) s1 pre e
                (entries_bytes ds ++ rest) Hwe Hf1 eq_refl)
      as (s2 & Hsk & Hf2 & _ & _ & Hproc2 & Hsz2 & Hcr2).
    erewrite bind_val; [|exact Hsk].
    destruct (IH (pre ++ entry_bytes e) rest s2 fuel Hwf' Hdel') as (s3 & Heq & Hf3 & Hproc3 & Hsz3 & Hcr3).
    { rewrite Hf2, <- app_assoc, length_app. done. }
    exists s3. split; [exact Heq|].
    rewrite Hf3, <- app_assoc, !length_app.
    split; [do 2 f_equal; lia|].
    state_simpl in *.
    split_fields; congruence.
Qed.

Lemma DeleteIf_next_entry_end s f fuel :
  archive_file_ s = Some f →
  (length (contents f) - cursor f < sizeof_EntryHeader)%nat →
  ∃ s', DeleteIf_next_entry (S fuel) s = (Val None, s')
    ∧ archive_file_ s' = Some {| contents := contents f;
        cursor := (cursor f + (length (contents f) - cursor f))%nat |}
    ∧ process_data_proc_ s' = process_data_proc_ s
    ∧ original_archive_size_ s' = original_archive_size_ s
    ∧ created_new_archive_ s' = created_new_archive_ s.
Proof.
  intros Hf Hlen. cbn [DeleteIf_next_entry].
  erewrite bind_val; [|by apply ftell_run].
  match goal with |- context [(ReadEntryHeader ≫= _) ?s0] =>
    destruct (ReadEntryHeader_end s0 f eq_refl Hlen)
      as (s1 & Hrd & Hf1 & Hproc1 & Hsz1 & Hcr1) end.
  erewrite bind_val; [|exact Hrd]. cbn [negb].
  exists s1. done.
Qed.

Lemma DeleteIf_next_entry_live s pre e rest fuel :
  well_formed e → live e = true →
  archive_file_ s = Some {| contents := pre ++ entry_bytes e ++ rest;
                            cursor := length pre |} →
  ∃ s', DeleteIf_next_entry (S fuel) s = (Val (Some (Z.of_nat (length pre))), s')
    ∧ archive_file_ s' = Some {| contents := pre ++ entry_bytes e ++ rest;
         cursor := (length pre + sizeof_EntryHeader + sizeof_wchar_t * length (e_path e))%nat |}
    ∧ last_header_ s' = entry_header e
    ∧ last_header_path_ s' = e_path e
    ∧ process_data_proc_ s' = process_data_proc_ s
    ∧ original_archive_size_ s' = original_archive_size_ s
    ∧ created_new_archive_ s' = created_new_archive_ s.
Proof.
  intros Hwe Hlive Hf. cbn [DeleteIf_next_entry].
  erewrite bind_val; [|by apply ftell_run].
  match goal with |- context [(ReadEntryHeader ≫= _) ?s0] =>
    destruct (ReadEntryHeader_entry s0 pre e rest Hwe eq_refl)
      as (s1 & Hrd & Hf1 & Hh1 & Hp1 & Hproc1 & Hsz1 & Hcr1) end.
  erewrite bind_val; [|exact Hrd]. cbn [negb].
  erewrite bind_val; [|reflexivity]. rewrite Hh1.
  cbn [flags entry_header]. unfold live in Hlive. rewrite Hlive. cbn [negb cursor].
  exists s1. done.
Qed.

Lemma split_deleted_prefix es :
  ∃ ds tl, es = ds ++ tl ∧ Forall (λ e, live e = false) ds
    ∧ (tl = [] ∨ ∃ e tl', tl = e :: tl' ∧ live e = true).
Proof.
  induction es as [|e es (ds & tl & -> & Hds & Htl)].
  - exists [], []. eauto.
  - destruct (live e) eqn:He.
    + exists [], (e :: ds ++ tl). split; [done|]. split; [done|]. right. eauto.
    + exists (e :: ds), tl. split; [done|]. split; [by constructor|done].
Qed.

Lemma tombstone_matching_dead matches ds :
  Forall (λ e, live e = false) ds → tombstone_matching matches ds = ds.
Proof.
  induction 1 as [|e ds He _ IH]; [done|].
  unfold tombstone_matching in *. cbn [map]. by rewrite He, IH.
Qed.

Lemma tombstone_matching_app matches es1 es2 :
  tombstone_matching matches (es1 ++ es2)
  = tombstone_matching matches es1 ++ tombstone_matching matches es2.
Proof. apply map_app. Qed.

Lemma entry_bytes_flags e :
  ∃ R, entry_bytes e = le_bytes 4 kEntryMagic ++ [e_flags e mod 256] ++ R
    ∧ entry_bytes (tombstone e)
      = le_bytes 4 kEntryMagic ++ [Z.lor (e_flags e) kEntryFlagDeleted mod 256] ++ R.
Proof. eexists. split; reflexivity. Qed.


Lemma tombstone_write_run s pre e rest :
  archive_file_ s = Some {| contents := pre ++ entry_bytes e ++ rest;
    cursor := (length pre + sizeof_EntryHeader + sizeof_wchar_t * length (e_path e))%nat |} →
  ∃ s',
    (content_begin_offset ← _ftelli64;
     SeekOrThrow (Z.of_nat (length pre) + 4) SEEK_SET;;
     let new_flags := to_uint8 (Z.lor (flags (entry_header e)) kEntryFlagDeleted) in
     WriteOrThrow [new_flags];;
     SeekOrThrow content_begin_offset SEEK_SET) s = (Val tt, s')
    ∧ archive_file_ s' = Some {| contents := pre ++ entry_bytes (tombstone e) ++ rest;
        cursor := (length pre + sizeof_EntryHeader + sizeof_wchar_t * length (e_path e))%nat |}
    ∧ last_header_ s' = last_header_ s
    ∧ last_header_path_ s' = last_header_path_ s
    ∧ process_data_proc_ s' = process_data_proc_ s
    ∧ original_archive_size_ s' = original_archive_size_ s
    ∧ created_new_archive_ s' = created_new_archive_ s.
Proof.
  intros Hf. destruct (entry_bytes_flags e) as (R & HR & HR').
  eexists. split.
  - erewrite bind_val; [|by apply ftell_run].
    erewrite bind_val; [|eapply seek_run; [reflexivity|apply fseek_set; lia]].
    erewrite bind_val; [|eapply write_run; reflexivity].
    state_simpl.
    erewrite (fwrite_bytes_inside _ (pre ++ le_bytes 4 kEntryMagic) [e_flags e mod 256] (R ++ rest)).
    + eapply seek_run; [reflexivity|]. apply fseek_set. lia.
    + cbn [contents]. rewrite HR, <- !app_assoc. done.
    + cbn [cursor]. rewrite length_app, le_bytes_length. lia.
    + done.
  - state_simpl. rewrite HR', <- !app_assoc, Nat2Z.id. done.
Qed.

Lemma CallProcessDataProc_any file_name size s :
  ∃ r s', CallProcessDataProc host file_name size s = (Val r, s')
    ∧ same_object s s'.
Proof.
  unfold CallProcessDataProc.
  destruct (process_data_proc_ s) as [proc|] eqn:Hp.
  - eexists _, _. split; [done|]. by repeat split.
  - destruct (g_global_process_data_proc host) as [proc|] eqn:Hg.
    + eexists _, _. split; [done|]. by repeat split.
    + eexists _, _. split; [done|]. by repeat split.
Qed.

Lemma UpdateDirectProgress_any file_name size s :
  ∃ cancelled s', UpdateDirectProgress host file_name size s = (Val cancelled, s')
    ∧ same_object s s'.
Proof.
  unfold UpdateDirectProgress.
  erewrite bind_val; [|reflexivity].
  erewrite bind_val; [|reflexivity].
  state_simpl.
  destruct (_ >? _).
  - destruct (CallProcessDataProc_any file_name size (next_host_event s))
      as (r & s1 & Hr & Hso).
    erewrite bind_val; [|exact Hr].
    erewrite bind_val; [|reflexivity].
    eexists _, _. split; [reflexivity|].
    destruct Hso as (? & ? & ? & ? & ? & ?). by repeat split.
  - eexists _, _. split; [reflexivity|]. by repeat split.
Qed.

(** [DeleteIf] on well-formed entries, whatever the host answers: it
    tombstones the matching live entries in their order, until the end or
    until the host asks to cancel after one of them. *)
Lemma DeleteIf_outcome (pred : ArchiveBase → bool) (matches : wstring → bool) :
  (∀ this, pred this = matches (last_header_path_ this)) →
  ∀ n es pre s fuel,
    (length es ≤ n)%nat → (length es < fuel)%nat →
    Forall well_formed es →
    archive_file_ s = Some {| contents := pre ++ entries_bytes es;
                              cursor := length pre |} →
    ∃ r s' k f',
      DeleteIf host pred fuel s = (r, s')
      ∧ (k ≤ length es)%nat
      ∧ archive_file_ s' = Some f'
      ∧ contents f'
        = pre ++ entries_bytes (tombstone_matching matches (take k es) ++ drop k es)
      ∧ (r = Val tt ∧ k = length es
           ∧ cursor f' = length (contents f')
         ∨ r = Exc E_EABORTED ∧ ¬ never_cancels host s).
Proof.
  intros Hpred. induction n as [|n IH]; intros es pre s fuel Hn Hfuel Hwf Hf.
  - destruct es; [|cbn in Hn; lia]. destruct fuel as [|fuel]; [cbn in Hfuel; lia|].
    cbn [DeleteIf]. cbn [entries_bytes map concat] in Hf |- *.
    destruct (DeleteIf_next_entry_end s _ fuel Hf) as (s1 & Hrun & Hf1 & ?).
    { state_simpl. rewrite ?length_app. cbn [length]. unfold sizeof_EntryHeader. lia. }
    erewrite bind_val; [|exact Hrun].
    eexists (Val tt), s1, 0%nat, _. split; [done|]. split; [done|].
    split; [exact Hf1|]. state_simpl. split; [done|].
    left. split_fields; try done. rewrite !length_app. cbn [length]. lia.
  - destruct (split_deleted_prefix es) as (ds & tl & -> & Hds & Htl).
    apply Forall_app in Hwf as [Hwds Hwtl].
    destruct fuel as [|fuel]; [lia|]. rewrite length_app in Hfuel, Hn.
    cbn [DeleteIf].
    rewrite entries_bytes_app in Hf.
    destruct (DeleteIf_next_entry_skip ds pre (entries_bytes tl) s (S fuel - length ds)
                Hwds Hds Hf) as (s1 & Hskip & Hf1 & Hproc1 & Hsz1 & Hcr1).
    replace (length ds + (S fuel - length ds))%nat with (S fuel) in Hskip by lia.
    destruct Htl as [->|(e & tl' & -> & Hlive)].
    + replace (S fuel - length ds)%nat with (S (fuel - length ds)) in Hskip by lia.
      destruct (DeleteIf_next_entry_end s1 _ (fuel - length ds) Hf1) as (s2 & Hrun & Hf2 & ? & ? & ?).
      { state_simpl. rewrite ?length_app. cbn [length entries_bytes map concat].
        unfold sizeof_EntryHeader. lia. }
      erewrite bind_val; [|rewrite Hskip; exact Hrun].
      eexists (Val tt), s2, (length (ds ++ [])), _. split; [done|].
      split; [done|]. split; [exact Hf2|]. state_simpl.
      rewrite take_ge, drop_ge by done. rewrite !app_nil_r.
      rewrite tombstone_matching_dead by done.
      split; [done|].
      left. split_fields; try done.
      rewrite !length_app. cbn [length entries_bytes map concat]. lia.
    + inversion_clear Hwtl as [|? ? Hwe Hwtl'].
      rewrite entries_bytes_cons in Hf1. rewrite app_assoc in Hf1.
      replace (length pre + length (entries_bytes ds))%nat
        with (length (pre ++ entries_bytes ds)) in Hf1 by (by rewrite length_app).
      replace (S fuel - length ds)%nat with (S (fuel - length ds)) in Hskip by lia.
      destruct (DeleteIf_next_entry_live s1 _ e (entries_bytes tl') (fuel - length ds) Hwe Hlive Hf1)
        as (s2 & Hrun & Hf2 & Hh2 & Hp2 & Hproc2 & Hsz2 & Hcr2).
      erewrite bind_val; [|rewrite Hskip; exact Hrun].
      cbn beta iota.
      erewrite bind_val; [|reflexivity].
      erewrite bind_val; [|reflexivity].
      rewrite Hpred, Hp2, Hh2.
      set (e' := if live e && matches (e_path e) then tombstone e else e).
      assert (∃ s3, when (matches (e_path e))
           (content_begin_offset ← _ftelli64;
            SeekOrThrow (Z.of_nat (length (pre ++ entries_bytes ds)) + 4) SEEK_SET;;
            let new_flags := to_uint8 (Z.lor (flags (entry_header e)) kEntryFlagDeleted) in
            WriteOrThrow [new_flags];;
            SeekOrThrow content_begin_offset SEEK_SET) s2 = (Val tt, s3)
          ∧ archive_file_ s3 = Some {| contents := (pre ++ entries_bytes ds) ++ entry_bytes e' ++ entries_bytes tl';
               cursor := (length (pre ++ entries_bytes ds) + sizeof_EntryHeader + sizeof_wchar_t * length (e_path e'))%nat |}
          ∧ last_header_ s3 = last_header_ s2
          ∧ last_header_path_ s3 = last_header_path_ s2
          ∧ process_data_proc_ s3 = process_data_proc_ s2
          ∧ original_archive_size_ s3 = original_archive_size_ s2
          ∧ created_new_archive_ s3 = created_new_archive_ s2)
        as (s3 & Hw & Hf3 & Hh3 & Hp3 & Hproc3 & Hsz3 & Hcr3).
      { subst e'. rewrite Hlive. cbn [andb]. destruct (matches (e_path e)); cbn [when].
        - apply (tombstone_write_run s2 (pre ++ entries_bytes ds) e (entries_bytes tl')).
          exact Hf2.
        - exists s2. done. }
      erewrite bind_val; [|exact Hw].
      assert (Hwe' : well_formed e').
      { subst e'. destruct (live e && matches (e_path e)); [|done].
        destruct Hwe as [Hfl ? ? ? ? ? ?]. constructor; cbn; try done.
        by apply lor_one_byte. }
      assert (Hpay : e_payload e' = e_payload e) by (subst e'; by destruct (_ && _)).
      destruct (skip_payload_run (Z.of_nat (length (e_payload e)) >? 0) s3 _ e' _ Hwe' Hf3)
        as (s4 & Hsk & Hf4 & _ & _ & Hproc4 & Hsz4 & Hcr4).
      { rewrite Hpay. destruct (Z.gtb_spec (Z.of_nat (length (e_payload e))) 0) as [H|H];
          destruct (Z.eqb_spec (Z.of_nat (length (e_payload e))) 0); cbn; lia. }
      cbn [pack_size entry_header]. rewrite Hpay in Hsk.
      erewrite bind_val; [|exact Hsk].
      erewrite bind_val; [|reflexivity].
      set (progress := - Z.min 100 (CalcPercent (to_uint64 (Z.of_nat (length (pre ++ entries_bytes ds)))) (original_archive_size_ s4))).
      destruct (UpdateDirectProgress_any None progress s4)
        as (cancelled & s5 & Hup & Hso).
      erewrite bind_val; [|exact Hup].
      destruct Hso as (Hf5 & _ & _ & Hproc5 & Hsz5 & Hcr5).
      assert (Hdone : tombstone_matching matches (ds ++ [e]) = ds ++ [e']).
      { rewrite tombstone_matching_app, tombstone_matching_dead by done. done. }
      destruct cancelled.
      * eexists (Exc E_EABORTED), s5, (length (ds ++ [e])), _. split; [done|].
        split; [rewrite !length_app; cbn; lia|]. split; [by rewrite Hf5, Hf4|].
        cbn [contents].
        replace (ds ++ e :: tl') with ((ds ++ [e]) ++ tl') by (by rewrite <- app_assoc).
        rewrite take_app_length, drop_app_length, Hdone.
        split.
        { rewrite !entries_bytes_app. cbn [entries_bytes map concat].
          rewrite <- !app_assoc. done. }
        right. split; [done|]. intros Hnc.
        destruct (UpdateDirectProgress_continue None progress s4) as (s5' & Hup' & _).
        { intros proc Hproc. apply Hnc.
          rewrite <- Hproc1, <- Hproc2, <- Hproc3, <- Hproc4. done. }
        congruence.
      * destruct (IH tl' ((pre ++ entries_bytes ds) ++ entry_bytes e') s5 fuel)
          as (r & s6 & k & f6 & Hrec & Hk & Hf6 & Hc6 & Hr6).
        { cbn in Hn. lia. }
        { cbn in Hfuel. lia. }
        { done. }
        { rewrite Hf5, Hf4, (length_app _ (entry_bytes e')), <- !app_assoc. done. }
        eexists r, s6, (length (ds ++ [e]) + k)%nat, f6. split; [exact Hrec|].
        split; [rewrite !length_app in *; cbn in *; lia|]. split; [done|].
        replace (ds ++ e :: tl') with ((ds ++ [e]) ++ tl') by (by rewrite <- app_assoc).
        rewrite take_app_add, drop_app_add.
        rewrite tombstone_matching_app, Hdone.
        split.
        { rewrite Hc6, !entries_bytes_app. cbn [entries_bytes map concat].
          rewrite <- !app_assoc. done. }
        destruct Hr6 as [(-> & -> & Hcur)|(-> & Hnnc)].
        -- left. split_fields; try done. rewrite !length_app. cbn. lia.
        -- right. split; [done|]. intros Hnc. apply Hnnc.
           intros proc Hproc. apply Hnc.
           rewrite <- Hproc1, <- Hproc2, <- Hproc3, <- Hproc4, <- Hproc5. done.
Qed.

End Scan.

(** ** Sorting and searching with a strict weak order *)

Section StrictWeakOrder.
Context {A : Type} (comp : A → A → bool).
Hypothesis comp_asym : ∀ a b, comp a b = true → comp b a = false.
Hypothesis comp_negtrans :
  ∀ a b c, comp a b = false → comp b c = false → comp a c = false.

Lemma comp_irrefl a : comp a a = false.
Proof. destruct (comp a a) eqn:H; [|done]. by rewrite (comp_asym _ _ H) in H. Qed.

Lemma sort_insert_perm x l : Std.sort_insert comp x l ≡ₚ x :: l.
Proof.
  induction l as [|y l IH]; [done|]. cbn.
  destruct (comp x y); [done|]. rewrite IH. apply perm_swap.
Qed.

Lemma sort_insert_ascending x l :
  ascending comp l → ascending comp (Std.sort_insert comp x l).
Proof.
  unfold ascending. induction 1 as [|y l Hl IH Hy]; cbn.
  - repeat constructor.
  - destruct (comp x y) eqn:Hxy.
    + constructor; [by constructor|]. constructor; [by apply comp_asym|].
      eapply Forall_impl; [exact Hy|]. intros z Hz. cbn in Hz.
      eapply comp_negtrans; [exact Hz|]. by apply comp_asym.
    + constructor; [done|]. rewrite sort_insert_perm. by constructor.
Qed.

Lemma sort_perm l : Std.sort comp l ≡ₚ l.
Proof.
  unfold Std.sort. rewrite <- (app_nil_l l) at 2. generalize (@nil A) as acc.
  induction l as [|x l IH]; intros acc; cbn.
  - by rewrite app_nil_r.
  - rewrite IH, sort_insert_perm. cbn. apply Permutation_middle.
Qed.

Lemma sort_ascending l : ascending comp (Std.sort comp l).
Proof.
  unfold Std.sort. assert (H : ascending comp []) by constructor.
  revert H. generalize (@nil A) as acc.
  induction l as [|x l IH]; intros acc Hacc; cbn; [done|].
  apply IH. by apply sort_insert_ascending.
Qed.

Lemma ascending_lookup l i j x y :
  ascending comp l → (i < j)%nat → l !! i = Some x → l !! j = Some y →
  comp y x = false.
Proof.
  intros Hl. revert i j. induction Hl as [|z l Hl IH Hz]; intros i j Hij Hi Hj.
  - done.
  - destruct j as [|j]; [lia|]. destruct i as [|i].
    + cbn in Hi, Hj. inversion Hi; subst.
      rewrite Forall_forall in Hz. apply Hz. by eapply list_elem_of_lookup_2.
    + cbn in Hi, Hj. eapply (IH i j); [lia|done..].
Qed.

(** The bisection stops at the first element that is not less than the
    value. *)
Lemma lower_bound_from_spec l value : ascending comp l →
  ∀ fuel first count,
    (count ≤ fuel)%nat → (first + count ≤ length l)%nat →
    (∀ i x, (i < first)%nat → l !! i = Some x → comp x value = true) →
    (∀ i x, (first + count ≤ i)%nat → l !! i = Some x → comp x value = false) →
    let k := Std.lower_bound_from comp fuel l value first count in
    (k ≤ length l)%nat
    ∧ (∀ i x, (i < k)%nat → l !! i = Some x → comp x value = true)
    ∧ (∀ i x, (k ≤ i)%nat → l !! i = Some x → comp x value = false).
Proof.
  intros Hl. induction fuel as [|fuel IH]; intros first count Hc Hlen Hlo Hhi.
  - cbn. assert (count = 0)%nat as -> by lia. rewrite Nat.add_0_r in Hhi.
    split; [lia|done].
  - cbn [Std.lower_bound_from].
    destruct (Nat.eqb_spec count 0) as [->|Hne].
    { rewrite Nat.add_0_r in Hhi. split; [lia|done]. }
    assert (Hstep : (count / 2 < count)%nat) by (apply Nat.div_lt; lia).
    destruct (l !! (first + count / 2)%nat) as [m|] eqn:Hm; cycle 1.
    { apply lookup_ge_None in Hm. lia. }
    destruct (comp m value) eqn:Hmv.
    + apply IH; [lia|lia| |].
      * intros i x Hi Hx. destruct (decide (i = first + count / 2)%nat) as [->|Hne'].
        { congruence. }
        destruct (comp x value) eqn:Hxv; [done|].
        assert (comp m x = false) as Hmx.
        { eapply (ascending_lookup l i (first + count / 2)); [done|lia|done..]. }
        by rewrite (comp_negtrans _ _ _ Hmx Hxv) in Hmv.
      * intros i x Hi Hx. apply (Hhi i x); [lia|done].
    + apply IH; [lia|lia|done|].
      intros i x Hi Hx. destruct (decide (i = first + count / 2)%nat) as [->|Hne'].
      { congruence. }
      eapply comp_negtrans; [|exact Hmv].
      eapply (ascending_lookup l (first + count / 2) i); [done|lia|done..].
Qed.

Lemma lower_bound_spec l value : ascending comp l →
  let k := Std.lower_bound comp l value in
  (k ≤ length l)%nat
  ∧ (∀ i x, (i < k)%nat → l !! i = Some x → comp x value = true)
  ∧ (∀ i x, (k ≤ i)%nat → l !! i = Some x → comp x value = false).
Proof.
  intros Hl. apply lower_bound_from_spec; [done|lia|cbn; lia|intros; lia|].
  intros i x Hi Hx. apply lookup_lt_Some in Hx. cbn in Hi. lia.
Qed.

(** The element found is equivalent to the value exactly when the list
    holds an element equivalent to it. *)
Lemma lower_bound_finds l value : ascending comp l →
  (∃ y, l !! Std.lower_bound comp l value = Some y
        ∧ Std.equivalent comp y value = true)
  ↔ (∃ x, x ∈ l ∧ Std.equivalent comp x value = true).
Proof.
  intros Hl. destruct (lower_bound_spec l value Hl) as (Hk & Hlo & Hhi).
  split.
  - intros (y & Hy & Heq). exists y. split; [by eapply list_elem_of_lookup_2|done].
  - intros (x & Hx & Heq). apply list_elem_of_lookup in Hx as [j Hj].
    unfold Std.equivalent in Heq. apply andb_true_iff in Heq as [H1 H2].
    apply negb_true_iff in H1, H2.
    assert (Std.lower_bound comp l value ≤ j)%nat as Hkj.
    { destruct (le_lt_dec (Std.lower_bound comp l value) j) as [|Hlt]; [done|].
      by rewrite (Hlo j x Hlt Hj) in H1. }
    destruct (l !! Std.lower_bound comp l value) as [y|] eqn:Hy; cycle 1.
    { apply lookup_ge_None in Hy. apply lookup_lt_Some in Hj. lia. }
    exists y. split; [done|]. unfold Std.equivalent.
    rewrite (Hhi _ y (le_n _) Hy). cbn.
    apply negb_true_iff.
    destruct (decide (Std.lower_bound comp l value = j)) as [Heqj|Hnej].
    + rewrite Heqj in Hy. congruence.
    + eapply comp_negtrans; [exact H2|].
      eapply (ascending_lookup l _ j); [done| |done..]. lia.
Qed.

End StrictWeakOrder.

(** ** The order of [std::wstring] *)

Section WideOrder.

Lemma wstring_lt_asym a : ∀ b, wstring_lt a b = true → wstring_lt b a = false.
Proof.
  induction a as [|x a IH]; intros [|y b]; cbn; try done.
  destruct (Z.eqb_spec x y), (Z.eqb_spec y x); subst; try done; eauto.
  intros H%Z.ltb_lt. apply Z.ltb_ge. lia.
Qed.

Lemma wstring_lt_negtrans a : ∀ b c,
  wstring_lt a b = false → wstring_lt b c = false → wstring_lt a c = false.
Proof.
  induction a as [|x a IH]; intros [|y b] [|z c]; cbn; try done.
  intros H1 H2.
  destruct (Z.eqb_spec x y), (Z.eqb_spec y z), (Z.eqb_spec x z); subst;
    try done; eauto; apply Z.ltb_ge in H1, H2; try lia; apply Z.ltb_ge; lia.
Qed.

Lemma wstring_equivalent_eq a b :
  Std.equivalent wstring_lt a b = true ↔ a = b.
Proof.
  unfold Std.equivalent. rewrite andb_true_iff, !negb_true_iff. split.
  - revert b. induction a as [|x a IH]; intros [|y b]; cbn;
      try done; try (by intros []).
    destruct (Z.eqb_spec x y), (Z.eqb_spec y x); subst; try done.
    + intros H. f_equal. by apply IH.
    + intros [H1%Z.ltb_ge H2%Z.ltb_ge]. lia.
  - intros ->. assert (H : wstring_lt b b = false); [|done].
    induction b as [|x b IH]; [done|]. cbn. by rewrite Z.eqb_refl.
Qed.

End WideOrder.

(** ** [UpDir] and [ShouldDelete] *)

Section Ancestors.

Lemma find_last_of_separator_lt s i :
  find_last_of_separator s = Some i → (i < length s)%nat.
Proof.
  revert i. induction s as [|c s IH]; intros i; cbn; [done|].
  destruct (find_last_of_separator s) as [j|].
  - intros [= <-]. specialize (IH j eq_refl). lia.
  - destruct (is_separator c); [|done]. intros [= <-]. lia.
Qed.

Lemma UpDir_length s : s ≠ [] → (length (UpDir s) < length s)%nat.
Proof.
  intros Hs. unfold UpDir.
  destruct (find_last_of_separator s) as [i|] eqn:Hi.
  - apply find_last_of_separator_lt in Hi. rewrite length_take. lia.
  - destruct s; [done|]. cbn. lia.
Qed.

Lemma UpDir_nil : UpDir [] = [].
Proof. reflexivity. Qed.

Lemma iter_UpDir_nil k : Nat.iter k UpDir [] = [].
Proof. induction k as [|k IH]; [done|]. by rewrite Nat.iter_succ, IH. Qed.

(** One test of the loop of [ShouldDelete]: membership in the sorted
    list. *)
Lemma ShouldDelete_test paths q :
  ascending wstring_lt paths →
  match paths !! Std.lower_bound wstring_lt paths q with
  | Some found => wstring_eqb found q
  | None => false
  end = bool_decide (q ∈ paths).
Proof.
  intros Hs.
  pose proof (lower_bound_finds wstring_lt wstring_lt_negtrans paths q Hs) as H.
  destruct (paths !! Std.lower_bound wstring_lt paths q) as [found|] eqn:Hf.
  - unfold wstring_eqb. destruct (decide (found = q)) as [->|Hne].
    + rewrite bool_decide_eq_true_2 by done. symmetry. apply bool_decide_eq_true_2.
      by eapply list_elem_of_lookup_2.
    + rewrite bool_decide_eq_false_2 by done. symmetry. apply bool_decide_eq_false_2.
      intros Hin. destruct H as [_ H]. destruct H as (y & Hy & Heq).
      { exists q. split; [done|]. by apply wstring_equivalent_eq. }
      apply wstring_equivalent_eq in Heq. congruence.
  - symmetry. apply bool_decide_eq_false_2. intros Hin.
    destruct H as [_ H]. destruct H as (y & Hy & Heq); [|done].
    exists q. split; [done|]. by apply wstring_equivalent_eq.
Qed.

Lemma ShouldDelete_from_spec paths : ascending wstring_lt paths →
  ∀ fuel q, (length q < fuel)%nat →
    ShouldDelete_from fuel q paths = true
    ↔ ∃ k, Nat.iter k UpDir q ≠ [] ∧ Nat.iter k UpDir q ∈ paths.
Proof.
  intros Hs. induction fuel as [|fuel IH]; intros q Hq; [lia|].
  cbn [ShouldDelete_from].
  destruct (decide (q = [])) as [->|Hne].
  { rewrite bool_decide_eq_true_2 by done. split; [done|].
    intros (k & Hk & _). by rewrite iter_UpDir_nil in Hk. }
  rewrite bool_decide_eq_false_2 by done.
  pose proof (ShouldDelete_test paths q Hs) as Htest.
  assert (Hrec : ShouldDelete_from fuel (UpDir q) paths = true
                 ↔ ∃ k, Nat.iter k UpDir (UpDir q) ≠ [] ∧ Nat.iter k UpDir (UpDir q) ∈ paths).
  { apply IH. pose proof (UpDir_length q Hne). lia. }
  assert (Hcase : ∀ b : bool, b = bool_decide (q ∈ paths) →
    (if b then true else ShouldDelete_from fuel (UpDir q) paths) = true
    ↔ ∃ k, Nat.iter k UpDir q ≠ [] ∧ Nat.iter k UpDir q ∈ paths).
  { intros b ->. destruct (decide (q ∈ paths)) as [Hin|Hnin].
    - rewrite bool_decide_eq_true_2 by done. split; [|done]. intros _. by exists 0%nat.
    - rewrite bool_decide_eq_false_2 by done. rewrite Hrec. split.
      + intros (k & Hk1 & Hk2). exists (S k). by rewrite Nat.iter_succ_r.
      + intros ([|k] & Hk1 & Hk2); [done|]. exists k. by rewrite <- Nat.iter_succ_r. }
  destruct (paths !! Std.lower_bound wstring_lt paths q) as [found|].
  - destruct (wstring_eqb found q); [by apply (Hcase true)|by apply (Hcase false)].
  - by apply (Hcase false).
Qed.

End Ancestors.

(** ** The erase operation on a well-formed archive *)

Section Erase.
Context (host : Host).

Lemma paths_to_delete_ascending deleteList :
  ascending wstring_lt (paths_to_delete_of deleteList).
Proof.
  apply sort_ascending; [apply wstring_lt_asym|apply wstring_lt_negtrans].
Qed.

Lemma paths_to_delete_elem deleteList q :
  q ∈ paths_to_delete_of deleteList
  ↔ ∃ path, path ∈ string_list (length deleteList) deleteList
      ∧ q = normalized_path_to_delete path.
Proof.
  unfold paths_to_delete_of. rewrite sort_perm, list_elem_of_fmap.
  split; intros (path & H1 & H2); eauto.
Qed.

Lemma ShouldDelete_spec paths p : ascending wstring_lt paths →
  ShouldDelete p paths = true
  ↔ ∃ k, Nat.iter k UpDir (UpperCase p) ≠ [] ∧ Nat.iter k UpDir (UpperCase p) ∈ paths.
Proof. intros Hs. unfold ShouldDelete. apply ShouldDelete_from_spec; [done|lia]. Qed.

Lemma find_last_of_separator_app a b :
  find_last_of_separator (a ++ b)
  = match find_last_of_separator b with
    | Some j => Some (length a + j)%nat
    | None => find_last_of_separator a
    end.
Proof.
  induction a as [|c a IH]; cbn.
  - by destruct (find_last_of_separator b).
  - rewrite IH. by destruct (find_last_of_separator b).
Qed.

Lemma find_last_of_separator_head sep rest :
  is_separator sep = true →
  ∃ j, find_last_of_separator (sep :: rest) = Some j ∧ (j ≤ length rest)%nat.
Proof.
  intros Hsep. cbn. destruct (find_last_of_separator rest) as [i|] eqn:Hi.
  - exists (S i). split; [done|]. apply find_last_of_separator_lt in Hi. lia.
  - rewrite Hsep. exists 0%nat. split; [done|lia].
Qed.

(** Climbing from a path below a directory reaches the directory. *)
Lemma iter_UpDir_reaches D sep : is_separator sep = true →
  ∀ n rest, (length rest ≤ n)%nat →
    ∃ k, Nat.iter k UpDir (D ++ sep :: rest) = D.
Proof.
  intros Hsep. induction n as [|n IH]; intros rest Hn.
  - destruct rest; [|cbn in Hn; lia]. exists 1%nat. cbn. unfold UpDir.
    rewrite find_last_of_separator_app. cbn. rewrite Hsep.
    rewrite Nat.add_0_r. by rewrite take_app_length.
  - destruct (find_last_of_separator_head sep rest Hsep) as (j & Hj & Hle).
    assert (HU : UpDir (D ++ sep :: rest) = D ++ take j (sep :: rest)).
    { unfold UpDir. rewrite find_last_of_separator_app, Hj.
      by rewrite take_app_add. }
    destruct j as [|j].
    + exists 1%nat. cbn. rewrite HU. cbn. by rewrite app_nil_r.
    + cbn [take] in HU.
      destruct (IH (take j rest)) as (k & Hk).
      { rewrite length_take_le; lia. }
      exists (S k). by rewrite Nat.iter_succ_r, HU.
Qed.

Lemma towupper_separator c : is_separator c = true → towupper c = c.
Proof.
  unfold is_separator, backslash, slash, towupper.
  intros [H%Z.eqb_eq|H%Z.eqb_eq]%orb_true_iff; subst; reflexivity.
Qed.

(** What is below a directory that is to be deleted is deleted. *)
Lemma ShouldDelete_below paths directory sep rest :
  ascending wstring_lt paths → is_separator sep = true →
  directory ≠ [] → UpperCase directory ∈ paths →
  ShouldDelete (directory ++ sep :: rest) paths = true.
Proof.
  intros Hs Hsep Hne Hin. apply ShouldDelete_spec; [done|].
  unfold UpperCase. rewrite map_app. cbn [map]. rewrite towupper_separator by done.
  destruct (iter_UpDir_reaches (map towupper directory) sep Hsep _ (map towupper rest) (le_n _))
    as (k & Hk).
  exists k. rewrite Hk. split; [|done]. by destruct directory.
Qed.

Lemma fseek_end f :
  fseek 0 SEEK_END f
  = Some {| contents := contents f; cursor := length (contents f) |}.
Proof.
  unfold fseek. change (SEEK_END =? SEEK_SET) with false.
  change (SEEK_END =? SEEK_CUR) with false. cbn match.
  rewrite Z.add_0_r, Nat2Z.id.
  destruct (Z.ltb_spec (Z.of_nat (length (contents f))) 0); [lia|done].
Qed.

Lemma GetFileSize_run s f :
  archive_file_ s = Some f →
  ∃ s', GetFileSize s = (Val (to_uint64 (Z.of_nat (length (contents f)))), s')
    ∧ archive_file_ s' = Some {| contents := contents f; cursor := 0 |}
    ∧ process_data_proc_ s' = process_data_proc_ s
    ∧ created_new_archive_ s' = created_new_archive_ s.
Proof.
  intros Hf. eexists. split.
  - unfold GetFileSize.
    erewrite bind_val; [|eapply seek_run; [done|apply fseek_end]].
    erewrite bind_val; [|by eapply ftell_run].
    erewrite bind_val; [|eapply seek_run; [done|by apply fseek_set]].
    reflexivity.
  - state_simpl. done.
Qed.

Lemma ReadAndCheckHeader_run s rest :
  archive_file_ s = Some {| contents := kFileHeader ++ rest; cursor := 0 |} →
  ∃ s', ReadAndCheckHeader s = (Val tt, s')
    ∧ archive_file_ s' = Some {| contents := kFileHeader ++ rest;
                                 cursor := length kFileHeader |}
    ∧ process_data_proc_ s' = process_data_proc_ s
    ∧ original_archive_size_ s' = original_archive_size_ s
    ∧ created_new_archive_ s' = created_new_archive_ s.
Proof.
  intros Hf. eexists. split.
  - unfold ReadAndCheckHeader.
    erewrite bind_val; cycle 1.
    { eapply (ReadOrThrow_run _ _ _ _ [] kFileHeader rest); [done|done|done|done|lia]. }
    rewrite bool_decide_eq_true_2 by done. reflexivity.
  - state_simpl. done.
Qed.

Lemma OpenForDelete_run s bytes :
  ∃ s', OpenForDelete (Some bytes) s = (Val tt, s')
    ∧ archive_file_ s' = Some {| contents := bytes; cursor := 0 |}
    ∧ process_data_proc_ s' = process_data_proc_ s
    ∧ created_new_archive_ s' = created_new_archive_ s.
Proof.
  unfold OpenForDelete.
  erewrite bind_val; [|reflexivity].
  match goal with |- context [(GetFileSize ≫= _) ?s0] =>
    destruct (GetFileSize_run s0 _ eq_refl) as (s2 & Hsz & Hf2 & Hp2 & Hc2) end.
  erewrite bind_val; [|exact Hsz].
  eexists. split; [reflexivity|]. state_simpl. done.
Qed.

Lemma ShouldDelete_nil path : ShouldDelete path [] = false.
Proof.
  apply not_true_is_false. intros H.
  apply ShouldDelete_spec in H as (k & _ & H); [|constructor].
  by apply elem_of_nil in H.
Qed.

Lemma tombstone_matching_none matches es :
  (∀ path, matches path = false) → tombstone_matching matches es = es.
Proof.
  intros H. unfold tombstone_matching. induction es as [|e es IH]; [done|].
  cbn [map]. by rewrite IH, H, andb_false_r.
Qed.

(** A whole erase operation on a well-formed archive, whatever the host
    answers: [k] entries have been gone through when it returns. *)
Lemma DeleteFilesW_outcome es packedFile deleteList fuel :
  Forall well_formed es → (length es < fuel)%nat →
  ∃ code k,
    (k ≤ length es)%nat
    ∧ Exports.DeleteFilesW host (Some (archive_bytes es)) packedFile deleteList fuel
      = (Some code,
         Some (archive_bytes
           (tombstone_matching
              (λ path, ShouldDelete path (paths_to_delete_of deleteList))
              (take k es) ++ drop k es)))
    ∧ (code = 0 ∧ k = length es
       ∨ code = E_EABORTED ∧ ¬ never_cancels host new_archive).
Proof.
  intros Hwf Hfuel. unfold Exports.DeleteFilesW, Archive.DeleteFilesW.
  destruct (CallProcessDataProc_any host (Some packedFile) 0 new_archive)
    as (r & s1 & Hr & Hso1).
  erewrite bind_val; [|exact Hr].
  destruct (Z.eqb_spec r 0) as [->|Hr0].
  { exists E_EABORTED, 0%nat. split; [lia|]. split.
    - cbn [throw Exports.returned_value]. unfold Exports.stored_after.
      destruct Hso1 as (-> & _). cbn [archive_file_ new_archive].
      by rewrite take_0, drop_0.
    - right. split; [done|]. intros Hnc.
      destruct (CallProcessDataProc_continue host (Some packedFile) 0 new_archive Hnc)
        as (r' & s1' & Hr' & Hr0' & _). congruence. }
  erewrite bind_val; [|reflexivity].
  erewrite bind_val; [|reflexivity].
  case_bool_decide as Hnil.
  { exists 0, (length es). split; [done|]. split; [|by left].
    cbn [mret M_ret Exports.returned_value]. unfold Exports.stored_after.
    state_simpl in *. destruct Hso1 as (-> & _). cbn [archive_file_ new_archive].
    rewrite Hnil, take_ge, drop_ge, app_nil_r by done.
    by rewrite tombstone_matching_none by apply ShouldDelete_nil. }
  match goal with |- context [(OpenForDelete _ ≫= _) ?s0] =>
    destruct (OpenForDelete_run s0 (archive_bytes es)) as (s2 & Hop & Hf2 & Hp2 & _) end.
  erewrite bind_val; [|exact Hop].
  destruct (ReadAndCheckHeader_run s2 (entries_bytes es) Hf2)
    as (s3 & Hck & Hf3 & Hp3 & _).
  erewrite bind_val; [|exact Hck].
  destruct (DeleteIf_outcome host
    (λ this, ShouldDelete (last_header_path_ this) (paths_to_delete_of deleteList))
    (λ path, ShouldDelete path (paths_to_delete_of deleteList))
    (λ _, eq_refl) (length es) es kFileHeader s3 fuel)
    as (r' & s4 & k & f4 & Hdel & Hk & Hf4 & Hc4 & Hr'); [done|done|done|done|].
  assert (Hproc : process_data_proc_ s3 = process_data_proc_ new_archive).
  { rewrite Hp3, Hp2. state_simpl in *. by destruct Hso1 as (_ & _ & _ & -> & _). }
  destruct Hr' as [(-> & -> & _)|(-> & Hnnc)].
  - exists 0, (length es). split; [done|]. split; [|by left].
    erewrite bind_val; [|exact Hdel].
    cbn [mret M_ret Exports.returned_value]. unfold Exports.stored_after.
    by rewrite Hf4, Hc4.
  - exists E_EABORTED, k. split; [done|]. split.
    + erewrite bind_exc; [|exact Hdel].
      cbn [Exports.returned_value]. unfold Exports.stored_after.
      by rewrite Hf4, Hc4.
    + right. split; [done|]. intros Hnc. apply Hnnc.
      intros proc Hp. apply Hnc. by rewrite <- Hproc.
Qed.


End Erase.

Section EraseFrame.
Context (host : Host).





End EraseFrame.

(** ** Listing: the next header *)

Section Listing.
Context (host : Host).

Lemma never_cancels_same s s' :
  process_data_proc_ s' = process_data_proc_ s →
  never_cancels host s → never_cancels host s'.
Proof. intros Hp Hnc proc H. apply Hnc. by rewrite <- Hp. Qed.

Lemma UpdateBytesProcessedProgress_any s :
  ∃ cancelled s', UpdateBytesProcessedProgress host s = (Val cancelled, s')
    ∧ same_object s s'
    ∧ (cancelled = true → ¬ never_cancels host s).
Proof.
  destruct (UpdateBytesProcessedProgress host s) as [r s'] eqn:Hrun.
  assert (∃ cancelled, r = Val cancelled ∧ same_object s s') as (cancelled & -> & Hso).
  { revert Hrun. unfold UpdateBytesProcessedProgress.
    erewrite bind_val; [|reflexivity].
    erewrite bind_val; [|reflexivity].
    state_simpl.
    destruct (_ >? _).
    - erewrite bind_val; [|reflexivity].
      match goal with |- context [CallProcessDataProc host ?n ?z] =>
        destruct (CallProcessDataProc_any host n z (next_host_event s))
          as (r0 & s1 & Hr & Hso) end.
      erewrite bind_val; [|exact Hr].
      erewrite bind_val; [|reflexivity].
      erewrite bind_val; [|reflexivity].
      intros [= <- <-]. eexists. split; [done|].
      destruct Hso as (? & ? & ? & ? & ? & ?). by repeat split.
    - intros [= <- <-]. eexists. split; [done|]. by repeat split. }
  exists cancelled, s'. split; [done|]. split; [done|].
  intros -> Hnc.
  destruct (UpdateBytesProcessedProgress_continue host s Hnc) as (s2 & Hrun2 & _).
  congruence.
Qed.

Lemma ReadHeaderExW_next_entry_skip_any ds : ∀ pre rest s fuel,
  Forall well_formed ds → Forall (λ e, live e = false) ds →
  archive_file_ s = Some {| contents := pre ++ entries_bytes ds ++ rest;
                            cursor := length pre |} →
  (∃ s1,
     ReadHeaderExW_next_entry host (length ds + fuel) s
     = ReadHeaderExW_next_entry host fuel s1
     ∧ archive_file_ s1 = Some {| contents := pre ++ entries_bytes ds ++ rest;
          cursor := (length pre + length (entries_bytes ds))%nat |}
     ∧ process_data_proc_ s1 = process_data_proc_ s)
  ∨ (∃ r s1,
       ReadHeaderExW_next_entry host (length ds + fuel) s = (r, s1)
       ∧ (r = Val (Some E_EABORTED) ∨ r = Exc E_EABORTED)
       ∧ ¬ never_cancels host s).
Proof.
  induction ds as [|e ds IH]; intros pre rest s fuel Hwf Hdel Hf.
  - left. exists s. cbn. rewrite Nat.add_0_r. done.
  - inversion_clear Hwf as [|? ? Hwe Hwf']. inversion_clear Hdel as [|? ? Hde Hdel'].
    rewrite entries_bytes_cons, <- app_assoc in Hf |- *.
    cbn [length Nat.add ReadHeaderExW_next_entry].
    destruct (ReadEntryHeader_entry s pre e (entries_bytes ds ++ rest) Hwe Hf)
      as (s1 & Hrd & Hf1 & Hh1 & Hp1 & Hproc1 & Hsz1 & Hcr1).
    erewrite bind_val; [|exact Hrd]. cbn [negb].
    destruct (UpdateBytesProcessedProgress_any s1)
      as (cancelled & s2 & Hup & Hso2 & Hc2).
    destruct Hso2 as (Hf2 & Hh2 & _ & Hproc2 & _).
    erewrite bind_val; [|exact Hup]. cbn beta iota.
    destruct cancelled.
    { right. eexists _, _. split; [done|]. split; [by left|].
      intros Hnc. apply Hc2; [done|]. by eapply never_cancels_same. }
    erewrite bind_val; [|reflexivity]. rewrite Hh2, Hh1.
    cbn [flags pack_size entry_header]. rewrite (live_false_flag e Hde).
    rewrite Hf1 in Hf2.
    destruct (skip_payload_run (negb (Z.of_nat (length (e_payload e)) =? 0)) s2 pre e
                (entries_bytes ds ++ rest) Hwe Hf2 eq_refl)
      as (s3 & Hsk & Hf3 & _ & _ & Hproc3 & _).
    assert (∃ r3 s4,
      when (negb (Z.of_nat (length (e_payload e)) =? 0))
        (SeekOrThrow (to_int64 (Z.of_nat (length (e_payload e)))) SEEK_CUR;;
         add_bytes_processed (Z.of_nat (length (e_payload e)));;
         cancelled ← UpdateBytesProcessedProgress host;
         if (cancelled : bool) then throw E_EABORTED else mret tt) s2 = (r3, s4)
      ∧ (r3 = Val tt
         ∧ archive_file_ s4
           = Some {| contents := pre ++ entry_bytes e ++ entries_bytes ds ++ rest;
                     cursor := (length pre + length (entry_bytes e))%nat |}
         ∧ process_data_proc_ s4 = process_data_proc_ s2
         ∨ r3 = Exc E_EABORTED ∧ ¬ never_cancels host s))
      as (r3 & s4 & Hskip & Hr3).
    { destruct (negb (Z.of_nat (length (e_payload e)) =? 0)); cbn [when] in Hsk |- *.
      - erewrite bind_val; [|exact Hsk].
        erewrite bind_val; [|reflexivity].
        match goal with |- context [(UpdateBytesProcessedProgress host ≫= _) ?s0] =>
          destruct (UpdateBytesProcessedProgress_any s0)
            as (c4 & s4 & Hup4 & Hso4 & Hc4) end.
        erewrite bind_val; [|exact Hup4]. cbn beta iota.
        destruct Hso4 as (Hf4 & _ & _ & Hproc4 & _). state_simpl in *.
        destruct c4.
        + eexists _, _. split; [done|]. right. split; [done|].
          intros Hnc. apply Hc4; [done|].
          eapply never_cancels_same; [|exact Hnc]. state_simpl. congruence.
        + eexists _, _. split; [done|]. left. split_fields; congruence.
      - inversion Hsk; subst. eexists _, _. split; [done|]. left. done. }
    destruct Hr3 as [(-> & Hf4 & Hproc4)|(-> & Hnnc)].
    + erewrite bind_val; [|exact Hskip].
      destruct (IH (pre ++ entry_bytes e) rest s4 fuel Hwf' Hdel')
        as [(s5 & Heq & Hf5 & Hproc5)|(r & s5 & Hrun & Hr & Hnnc)].
      { rewrite Hf4, <- app_assoc, length_app. done. }
      * left. exists s5. split; [exact Heq|].
        rewrite Hf5, <- app_assoc, !length_app.
        split; [do 2 f_equal; lia|congruence].
      * right. exists r, s5. split; [done|]. split; [done|].
        intros Hnc. apply Hnnc. eapply never_cancels_same; [|exact Hnc]. congruence.
    + right. eexists _, _. split; [by erewrite bind_exc by exact Hskip|].
      split; [by right|done].
Qed.


(** The loop is left by [break] only at a header without the Deleted
    flag, whatever the file holds and whatever the host answers. *)
Lemma ReadHeaderExW_next_entry_live fuel : ∀ s s',
  ReadHeaderExW_next_entry host fuel s = (Val None, s') →
  Z.land (flags (last_header_ s')) kEntryFlagDeleted = 0.
Proof.
  induction fuel as [|fuel IH]; intros s s' H; [done|].
  cbn [ReadHeaderExW_next_entry] in H.
  apply bind_inv in H as [(more & s1 & H1 & H)|[(e & _ & ?)|[_ ?]]]; try done.
  destruct more; cbn [negb] in H; [|done].
  apply bind_inv in H as [(c & s2 & H2 & H)|[(e & _ & ?)|[_ ?]]]; try done.
  destruct c; [done|].
  apply bind_inv in H as [(h & s3 & H3 & H)|[(e & _ & ?)|[_ ?]]]; try done.
  inversion H3; subst; clear H3.
  destruct (Z.eqb_spec (Z.land (flags (last_header_ s3)) kEntryFlagDeleted) 0) as [H0|H0];
    cbn [negb] in H.
  - inversion H; subst. done.
  - apply bind_inv in H as [(u & s4 & H4 & H)|[(e & _ & ?)|[_ ?]]]; try done.
    by eapply IH.
Qed.

End Listing.
(** ** The deletion set: the engine and the words of the specification *)

Section SpecWords.

Lemma find_last_of_separator_none s :
  find_last_of_separator s = None ↔ Forall (λ c, is_separator c = false) s.
Proof.
  induction s as [|c s IH]; cbn.
  - split; [constructor|done].
  - destruct (find_last_of_separator s) as [i|].
    + split; [done|]. intros [_ H]%Forall_cons. by apply IH in H.
    + destruct (is_separator c) eqn:Hc.
      * split; [done|]. intros [H _]%Forall_cons. congruence.
      * split; [|done]. intros _. constructor; [done|]. by apply IH.
Qed.

Lemma find_last_of_separator_some s i :
  find_last_of_separator s = Some i →
  ∃ sep, is_separator sep = true ∧ s = take i s ++ sep :: drop (S i) s
    ∧ Forall (λ c, is_separator c = false) (drop (S i) s).
Proof.
  revert i. induction s as [|c s IH]; intros i; cbn; [done|].
  destruct (find_last_of_separator s) as [j|] eqn:Hj.
  - intros [= <-]. destruct (IH j eq_refl) as (sep & Hsep & Hs & Hrest).
    exists sep. split; [done|]. cbn. split; [by rewrite <- Hs|done].
  - destruct (is_separator c) eqn:Hc; [|done]. intros [= <-].
    exists c. split; [done|]. cbn. rewrite drop_0. split; [done|].
    by apply find_last_of_separator_none.
Qed.

Lemma back_app_singleton (s : list Z) c : back (s ++ [c]) = Some c.
Proof.
  induction s as [|x s IH]; [done|]. cbn [app back].
  destruct (s ++ [c]) eqn:H; [by destruct s|]. done.
Qed.

Lemma back_snoc_cases (s : list Z) :
  s = [] ∧ back s = None ∨ ∃ s' c, s = s' ++ [c] ∧ back s = Some c.
Proof.
  destruct s as [|x s _] using rev_ind; [by left|].
  right. exists s, x. split; [done|]. apply back_app_singleton.
Qed.

Lemma UpperCase_upper_cased s : UpperCase s = upper_cased s.
Proof.
  unfold UpperCase, upper_cased. apply map_ext. intros c. unfold towupper.
  case_bool_decide as H.
  - destruct (Z.leb_spec 97 c), (Z.leb_spec c 122); (done || lia).
  - destruct (Z.leb_spec 97 c), (Z.leb_spec c 122); (done || lia).
Qed.

Lemma is_separator_cases c : is_separator c = true ↔ c = 92 ∨ c = 47.
Proof.
  unfold is_separator, backslash, slash. rewrite orb_true_iff, !Z.eqb_eq. done.
Qed.

Lemma ends_with_suffix (d suffix : list Z) :
  ends_with d suffix
  = bool_decide (d = take (length d - length suffix) d ++ suffix).
Proof.
  unfold ends_with. apply Bool.eq_iff_eq_true.
  rewrite andb_true_iff, !bool_decide_eq_true. split.
  - intros [Hdrop _].
    transitivity (take (length d - length suffix) d
                  ++ drop (length d - length suffix) d);
      [by rewrite take_drop|by rewrite Hdrop].
  - intros Heq.
    assert (length suffix ≤ length d)%nat as Hlen.
    { apply (f_equal length) in Heq. rewrite length_app, length_take in Heq. lia. }
    split; [|done].
    apply (app_inv_head (take (length d - length suffix) d)).
    by rewrite take_drop.
Qed.

Lemma StripTrailingSlash_removelast (w : list Z) :
  StripTrailingSlash w
  = (if bool_decide (w = removelast w ++ [92] ∨ w = removelast w ++ [47])
     then removelast w else w).
Proof.
  unfold StripTrailingSlash.
  destruct (back_snoc_cases w) as [[-> Hb]|(p & c & -> & Hb)]; rewrite Hb.
  - case_bool_decide; done.
  - rewrite removelast_last.
    destruct (is_separator c) eqn:Hc.
    + apply is_separator_cases in Hc. rewrite bool_decide_eq_true_2; [done|].
      destruct Hc as [-> | ->]; auto.
    + rewrite bool_decide_eq_false_2; [done|].
      intros [H|H]; apply app_inj_tail in H as [_ ->]; done.
Qed.

(** The normalization of [DeleteFilesW] is the one of the
    specification. *)
Lemma normalized_path_to_delete_deletion_path d :
  normalized_path_to_delete d = deletion_path d.
Proof.
  unfold normalized_path_to_delete, deletion_path.
  rewrite ends_with_suffix. change (length star_dot_star) with 3%nat.
  unfold star_dot_star.
  rewrite UpperCase_upper_cased, StripTrailingSlash_removelast. done.
Qed.

(** Stripping last components leads from a path to exactly the
    directories it lies below, the empty path apart. *)
Lemma iter_UpDir_below k : ∀ path dir,
  dir ≠ [] → Nat.iter k UpDir path = dir → below dir path.
Proof.
  induction k as [|k IH]; intros path dir Hne Hk.
  - by left.
  - rewrite Nat.iter_succ in Hk.
    remember (Nat.iter k UpDir path) as q eqn:Hq0.
    unfold UpDir in Hk.
    destruct (find_last_of_separator q) as [i|] eqn:Hi; [|congruence].
    destruct (find_last_of_separator_some q i Hi) as (sep & Hsep & Hq & _).
    rewrite Hk in Hq. apply is_separator_cases in Hsep.
    assert (q ≠ []) as Hqne by (rewrite Hq; by destruct dir).
    destruct (IH path q Hqne (eq_sym Hq0)) as [Hpath|(sep' & rest' & Hsep' & Hpath)].
    + right. exists sep, (drop (S i) q). by rewrite Hpath.
    + right. exists sep, (drop (S i) q ++ sep' :: rest').
      split; [done|]. rewrite Hpath, Hq at 1. by rewrite <- app_assoc.
Qed.

Lemma below_iter_UpDir dir path :
  below dir path → ∃ k, Nat.iter k UpDir path = dir.
Proof.
  intros [->|(sep & rest & Hsep & ->)].
  - by exists 0%nat.
  - apply is_separator_cases in Hsep.
    by apply (iter_UpDir_reaches dir sep Hsep _ rest (le_n _)).
Qed.

End SpecWords.
(** ** The erase operation: what changes and what is matched *)


(** C7, as amended.  An erase operation on an archive of well-formed
    entries goes through the entries in their order and tombstones
    exactly the live ones that the deletion set matches: all of them when
    it returns 0, which it does unless the host asks to cancel, and those
    among the entries gone through before when it returns [E_EABORTED].
    The deletion set matches a path exactly when the path with its
    letters a to z made capitals is a non-empty normalized path of the
    deletion list (the suffix [*.*] and then one trailing separator
    taken off, and upper-cased the same way), or is such a path followed
    by a separator and anything; these are the path and what is reached
    from it by stripping last components.  The upper-casing and the
    normalization of the engine are the ones written out here. *)
Theorem erase_matches_ancestors host es packedFile deleteList fuel :
  let listed := string_list (length deleteList) deleteList in
  let matches := λ path, ShouldDelete path (paths_to_delete_of deleteList) in
  Forall well_formed es → (length es < fuel)%nat →
  (∃ code k,
     (k ≤ length es)%nat
     ∧ Exports.DeleteFilesW host (Some (archive_bytes es)) packedFile deleteList fuel
       = (Some code,
          Some (archive_bytes
            (tombstone_matching matches (take k es) ++ drop k es)))
     ∧ (code = 0 ∧ k = length es
        ∨ code = E_EABORTED ∧ ¬ never_cancels host new_archive))
  ∧ (∀ path, matches path = true ↔ erased_by listed path)
  ∧ (∀ path,
       erased_by listed path
       ↔ ∃ k d, d ∈ listed ∧ deletion_path d ≠ []
           ∧ Nat.iter k UpDir (upper_cased path) = deletion_path d)
  ∧ (∀ path, UpperCase path = upper_cased path)
  ∧ (∀ d, normalized_path_to_delete d = deletion_path d).
Proof.
  intros listed matches Hwf Hfuel.
  assert (Hclimb : ∀ path,
       erased_by listed path
       ↔ ∃ k d, d ∈ listed ∧ deletion_path d ≠ []
           ∧ Nat.iter k UpDir (upper_cased path) = deletion_path d).
  { intros path. split.
    - intros (d & Hd & Hne & Hbelow).
      destruct (below_iter_UpDir _ _ Hbelow) as (k & Hk). by exists k, d.
    - intros (k & d & Hd & Hne & Hk). exists d. split_fields; try done.
      by apply (iter_UpDir_below k). }
  split_fields.
  - by apply DeleteFilesW_outcome.
  - intros path. rewrite Hclimb. unfold matches.
    rewrite ShouldDelete_spec by apply paths_to_delete_ascending.
    rewrite UpperCase_upper_cased. split.
    + intros (k & Hne & Hin). apply paths_to_delete_elem in Hin as (d & Hd & Heq).
      rewrite normalized_path_to_delete_deletion_path in Heq.
      exists k, d. split_fields; try done. by rewrite <- Heq.
    + intros (k & d & Hd & Hne & Heq). exists k. rewrite Heq. split; [done|].
      apply paths_to_delete_elem. exists d.
      by rewrite normalized_path_to_delete_deletion_path.
  - exact Hclimb.
  - apply UpperCase_upper_cased.
  - apply normalized_path_to_delete_deletion_path.
Qed.

(** C10, as amended.  An erase invocation whose deletion list holds no
    path first reports progress to the host: it returns [E_EABORTED] when
    the host answers that report with 0, and 0 otherwise.  In both cases
    the archive file is never opened, and what is stored at its path,
    whether an archive, something else or nothing, stays as it is. *)
Theorem erase_nothing_opens_no_file host disk packedFile deleteList fuel :
  string_list (length deleteList) deleteList = [] →
  let cancelled :=
    match g_global_process_data_proc host with
    | Some proc => proc 0%nat (Some packedFile) 0 =? 0
    | None => false
    end in
  Exports.DeleteFilesW host disk packedFile deleteList fuel
  = (Some (if cancelled then E_EABORTED else 0), disk)
  ∧ archive_file_
      (Archive.DeleteFilesW host disk packedFile deleteList fuel new_archive).2
    = None.
Proof.
  intros Hempty cancelled.
  unfold Exports.DeleteFilesW, Archive.DeleteFilesW, paths_to_delete_of.
  rewrite Hempty. cbn [map Std.sort foldl]. subst cancelled.
  destruct (g_global_process_data_proc host) as [proc|] eqn:Hg.
  - erewrite bind_val; cycle 1.
    { unfold CallProcessDataProc. cbn [process_data_proc_ new_archive host_events].
      rewrite Hg. reflexivity. }
    by destruct (proc 0%nat (Some packedFile) 0 =? 0).
  - erewrite bind_val; cycle 1.
    { unfold CallProcessDataProc. cbn [process_data_proc_ new_archive].
      rewrite Hg. reflexivity. }
    done.
Qed.

Section NextHeader.
Context (host : Host).

(** What [ReadHeaderExW] does once its loop is left by [break]. *)
Lemma ReadHeaderExW_after_break headerData fuel s s1 :
  ReadHeaderExW_next_entry host fuel s = (Val None, s1) →
  Archive.ReadHeaderExW host headerData fuel s
  = (Val (if consistent_header (last_header_ s1)
          then (0, header_data (last_header_ s1) (last_header_path_ s1))
          else (E_BAD_ARCHIVE, headerData)), s1).
Proof.
  intros H. unfold Archive.ReadHeaderExW.
  erewrite bind_val; [|exact H]. cbn beta iota.
  erewrite bind_val; [|reflexivity]. cbn beta iota.
  unfold consistent_header.
  destruct (negb (Z.land (attributes (last_header_ s1)) FILE_ATTR_DIRECTORY =? 0)
            && ((pack_size (last_header_ s1) >? 0) || (unp_size (last_header_ s1) >? 0)));
    cbn [negb andb]; [done|].
  destruct ((Z.land (flags (last_header_ s1)) kEntryFlagCompressed =? 0)
            && negb (unp_size (last_header_ s1) =? pack_size (last_header_ s1)));
    cbn [negb]; done.
Qed.

Lemma ReadHeaderExW_next_entry_code fuel : ∀ s code s',
  ReadHeaderExW_next_entry host fuel s = (Val (Some code), s') →
  code = E_END_ARCHIVE ∨ code = E_EABORTED.
Proof.
  induction fuel as [|fuel IH]; intros s code s' H; [done|].
  cbn [ReadHeaderExW_next_entry] in H.
  apply bind_inv in H as [(more & s1 & H1 & H)|[(e & _ & ?)|[_ ?]]]; try done.
  destruct more; cbn [negb] in H; [|inversion H; auto].
  apply bind_inv in H as [(c & s2 & H2 & H)|[(e & _ & ?)|[_ ?]]]; try done.
  destruct c; [inversion H; auto|].
  apply bind_inv in H as [(h & s3 & H3 & H)|[(e & _ & ?)|[_ ?]]]; try done.
  destruct (negb (Z.land (flags h) kEntryFlagDeleted =? 0)); [|done].
  apply bind_inv in H as [(u & s4 & H4 & H)|[(e & _ & ?)|[_ ?]]]; try done.
  by eapply IH.
Qed.

Lemma ReadHeaderExW_inv headerData fuel s r s' :
  Archive.ReadHeaderExW host headerData fuel s = (r, s') →
  (∃ code, r = Val (code, headerData) ∧ code ≠ 0)
  ∨ (∃ e, r = Exc e ∧ e ≠ 0) ∨ r = Diverge
  ∨ (r = Val (0, header_data (last_header_ s') (last_header_path_ s'))
     ∧ consistent_header (last_header_ s') = true
     ∧ Z.land (flags (last_header_ s')) kEntryFlagDeleted = 0).
Proof.
  intros H.
  destruct (ReadHeaderExW_next_entry host fuel s) as [[[code|]| |] s1] eqn:Hloop.
  - unfold Archive.ReadHeaderExW in H. erewrite bind_val in H; [|exact Hloop].
    cbn in H. inversion H; subst. left. exists code. split; [done|].
    by destruct (ReadHeaderExW_next_entry_code _ _ _ _ Hloop) as [->| ->].
  - rewrite (ReadHeaderExW_after_break headerData fuel s s1 Hloop) in H.
    inversion H; subst.
    destruct (consistent_header (last_header_ s')) eqn:Hc.
    + right. right. right. split_fields; try done.
      by eapply ReadHeaderExW_next_entry_live.
    + left. by exists E_BAD_ARCHIVE.
  - unfold Archive.ReadHeaderExW in H. erewrite bind_exc in H; [|exact Hloop].
    inversion H; subst. right. left. eexists. split; [done|].
    by eapply (raises_ReadHeaderExW_next_entry host).
  - unfold Archive.ReadHeaderExW in H. erewrite bind_diverge in H; [|exact Hloop].
    inversion H; subst. auto.
Qed.

(** C4, as amended.  Where the cursor of the session stands before
    tombstoned entries that are well-formed, their payloads present and
    shorter than 2^63 bytes, [ReadHeaderExW] seeks past them: unless the
    host asks to cancel, which gives [E_EABORTED], it reports the live
    entry that follows, or [E_BAD_ARCHIVE] when that entry is a directory
    with a size or is not compressed with two different sizes, and it
    returns [E_END_ARCHIVE] when no full header follows.  In no state of
    the session and for no host does it report an entry that has the
    Deleted flag or fails one of the two checks. *)
Theorem next_header_skips_tombstones s headerData fuel pre ds next rest :
  Forall well_formed ds → Forall (λ e, live e = false) ds →
  (length ds < fuel)%nat →
  match next with
  | Some e => well_formed e ∧ live e = true
  | None => (length rest < sizeof_EntryHeader)%nat
  end →
  archive_file_ s
  = Some {| contents :=
              pre ++ entries_bytes ds
              ++ match next with Some e => entry_bytes e ++ rest | None => rest end;
            cursor := length pre |} →
  (∃ code data s',
     Exports.ReadHeaderExW host s headerData fuel = (Some code, data, s')
     ∧ (code = E_EABORTED ∧ data = headerData ∧ ¬ never_cancels host s
        ∨ code = match next with
                 | Some e =>
                     if consistent_header (entry_header e) then 0 else E_BAD_ARCHIVE
                 | None => E_END_ARCHIVE
                 end
          ∧ data = match next with
                   | Some e =>
                       if consistent_header (entry_header e)
                       then header_data (entry_header e) (e_path e) else headerData
                   | None => headerData
                   end
          ∧ match next with
            | Some e =>
                last_header_ s' = entry_header e ∧ last_header_path_ s' = e_path e
                ∧ ∃ f, archive_file_ s' = Some f
                    ∧ cursor f
                      = (length pre + length (entries_bytes ds) + sizeof_EntryHeader
                         + sizeof_wchar_t * length (e_path e))%nat
            | None => True
            end))
  ∧ (∀ s0 data0 fuel0 data s0',
       Exports.ReadHeaderExW host s0 data0 fuel0 = (Some 0, data, s0') →
       Z.land (flags (last_header_ s0')) kEntryFlagDeleted = 0
       ∧ consistent_header (last_header_ s0') = true
       ∧ data = header_data (last_header_ s0') (last_header_path_ s0')).
Proof.
  intros Hwf Hdead Hfuel Hnext Hf. split.
  - destruct (ReadHeaderExW_next_entry_skip_any host ds pre _ s (fuel - length ds)
                Hwf Hdead Hf)
      as [(s1 & Hskip & Hf1 & Hproc1)|(r & s1 & Hrun & Hr & Hnnc)]; cycle 1.
    { replace (length ds + (fuel - length ds))%nat with fuel in Hrun by lia.
      exists E_EABORTED, headerData, s1. split; [|by left].
      unfold Exports.ReadHeaderExW, Archive.ReadHeaderExW.
      destruct Hr as [->| ->].
      - by erewrite bind_val by exact Hrun.
      - by erewrite bind_exc by exact Hrun. }
    replace (length ds + (fuel - length ds))%nat with fuel in Hskip by lia.
    destruct (fuel - length ds)%nat as [|fuel'] eqn:Hfuel'; [lia|].
    destruct next as [e|].
    + destruct Hnext as [Hwe Hlive].
      replace (length pre + length (entries_bytes ds))%nat
        with (length (pre ++ entries_bytes ds)) in Hf1 by (by rewrite length_app).
      rewrite app_assoc in Hf1.
      destruct (ReadEntryHeader_entry s1 _ e rest Hwe Hf1)
        as (s2 & Hrd & Hf2 & Hh2 & Hp2 & Hproc2 & _).
      destruct (UpdateBytesProcessedProgress_any host s2)
        as (cancelled & s3 & Hup & Hso3 & Hc3).
      destruct Hso3 as (Hf3 & Hh3 & Hp3 & _).
      destruct cancelled.
      * assert (Hrun : ReadHeaderExW_next_entry host (S fuel') s1
                       = (Val (Some E_EABORTED), s3)).
        { cbn [ReadHeaderExW_next_entry].
          erewrite bind_val; [|exact Hrd]. cbn [negb].
          erewrite bind_val; [|exact Hup]. done. }
        rewrite Hrun in Hskip.
        exists E_EABORTED, headerData, s3. split.
        { unfold Exports.ReadHeaderExW, Archive.ReadHeaderExW.
          by erewrite bind_val by exact Hskip. }
        left. split_fields; try done. intros Hnc. apply Hc3; [done|].
        eapply never_cancels_same; [|exact Hnc]. congruence.
      * assert (Hrun : ReadHeaderExW_next_entry host (S fuel') s1 = (Val None, s3)).
        { cbn [ReadHeaderExW_next_entry].
          erewrite bind_val; [|exact Hrd]. cbn [negb].
          erewrite bind_val; [|exact Hup]. cbn beta iota.
          erewrite bind_val; [|reflexivity]. rewrite Hh3, Hh2.
          cbn [flags entry_header]. unfold live in Hlive. by rewrite Hlive. }
        rewrite Hrun in Hskip.
        exists (if consistent_header (entry_header e) then 0 else E_BAD_ARCHIVE),
          (if consistent_header (entry_header e)
           then header_data (entry_header e) (e_path e) else headerData), s3.
        unfold Exports.ReadHeaderExW.
        rewrite (ReadHeaderExW_after_break headerData fuel s s3 Hskip).
        rewrite Hh3, Hh2, Hp3, Hp2. split.
        { by destruct (consistent_header (entry_header e)). }
        right. split; [done|]. split; [done|].
        split_fields; try done. eexists. split; [by rewrite Hf3, Hf2|].
        cbn. rewrite length_app. lia.
    + match type of Hf1 with archive_file_ _ = Some ?f =>
        destruct (ReadEntryHeader_end s1 f Hf1) as (s2 & Hrd & _) end.
      { cbn. rewrite !length_app. lia. }
      assert (Hrun : ReadHeaderExW_next_entry host (S fuel') s1
                     = (Val (Some E_END_ARCHIVE), s2)).
      { cbn [ReadHeaderExW_next_entry]. erewrite bind_val; [|exact Hrd]. done. }
      rewrite Hrun in Hskip.
      exists E_END_ARCHIVE, headerData, s2. split; [|by right].
      unfold Exports.ReadHeaderExW, Archive.ReadHeaderExW.
      erewrite bind_val; [|exact Hskip]. done.
  - intros s0 data0 fuel0 data s0' H. unfold Exports.ReadHeaderExW in H.
    destruct (Archive.ReadHeaderExW host data0 fuel0 s0) as [r s1] eqn:Hr.
    destruct (ReadHeaderExW_inv _ _ _ _ _ Hr)
      as [(code & -> & Hcode)|[(e & -> & He)|[->|( -> & Hc & Hl)]]].
    + inversion H; subst. by destruct Hcode.
    + inversion H; subst. by destruct He.
    + inversion H.
    + inversion H; subst. done.
Qed.

End NextHeader.

(** ** The decoder of entry headers *)

(** C5, as amended.  The decoder of entry headers signals the end of the
    archive, and no error, when fewer than the 28 bytes of a header are
    left at the cursor, in particular when none is left; when a whole
    header is read it fails with [E_BAD_ARCHIVE] if the magic differs from
    the constant, then with [E_BAD_ARCHIVE] if the declared path length is
    0, then with [E_SMALL_BUF] if it exceeds 1023, then with [E_EREAD] if
    the file ends inside the path, and otherwise returns [true]: it never
    reads a shortened path. *)
Theorem entry_header_decoder_cases s f :
  archive_file_ s = Some f →
  let available := drop (cursor f) (contents f) in
  let h := header_of_bytes (take sizeof_EntryHeader available) in
  (ReadEntryHeader s).1
  = if (length available <? sizeof_EntryHeader)%nat then Val false
    else if negb (magic h =? kEntryMagic) then Exc E_BAD_ARCHIVE
    else if path_len h =? 0 then Exc E_BAD_ARCHIVE
    else if path_len h >? 1023 then Exc E_SMALL_BUF
    else if (length available - sizeof_EntryHeader
             <? sizeof_wchar_t * Z.to_nat (path_len h))%nat
         then Exc E_EREAD
    else Val true.
Proof.
  intros Hf available h. unfold ReadEntryHeader.
  assert (Hbuf : (fread_bytes sizeof_EntryHeader f).1
                 = take sizeof_EntryHeader available) by done.
  erewrite bind_val; [|reflexivity].
  erewrite bind_val; [|by apply fread_run].
  erewrite bind_val; [|reflexivity].
  rewrite !Hbuf, length_take.
  destruct (Nat.ltb_spec (length available) sizeof_EntryHeader) as [Hlt|Hge].
  { rewrite Nat.min_r by lia. rewrite Nat.div_small by lia. done. }
  rewrite Nat.min_l by lia. rewrite Nat.div_same by done. cbn [Nat.eqb].
  erewrite bind_val; [|reflexivity]. state_simpl.
  rewrite take_app_length' by (rewrite length_take; lia). fold h.
  destruct (negb (magic h =? kEntryMagic)); [done|].
  erewrite bind_val; [|reflexivity].
  destruct (path_len h =? 0); [done|].
  change (kMaxFileNameLen - 1) with 1023.
  destruct (path_len h >? 1023); [done|].
  set (n := (sizeof_wchar_t * Z.to_nat (path_len h))%nat).
  match goal with |- context [(ReadOrThrow _ _ ≫= _) ?s0] => set (s1 := s0) end.
  assert (Hf1 : archive_file_ s1 = Some (fread_bytes sizeof_EntryHeader f).2) by done.
  assert (Hname : (fread_bytes n (fread_bytes sizeof_EntryHeader f).2).1
                  = take n (drop sizeof_EntryHeader available)).
  { unfold fread_bytes. cbn [fst snd contents cursor]. fold available.
    rewrite length_take, Nat.min_l by lia. unfold available. by rewrite drop_drop. }
  destruct (Nat.ltb_spec (length available - sizeof_EntryHeader) n) as [Hshort|Hlong].
  - erewrite bind_exc; [done|]. unfold ReadOrThrow.
    erewrite bind_val; [|apply fread_run; exact Hf1]. fold n.
    rewrite Hname, length_take, length_drop.
    rewrite Nat.min_r by lia.
    assert (((length available - sizeof_EntryHeader) `div` sizeof_wchar_t
             =? Z.to_nat (path_len h))%nat = false) as ->; [|done].
    apply Nat.eqb_neq. intros Heq. subst n. rewrite <- Heq in Hshort.
    pose proof (Nat.Div0.mul_div_le (length available - sizeof_EntryHeader) sizeof_wchar_t).
    lia.
  - erewrite bind_val; cycle 1.
    { unfold ReadOrThrow. erewrite bind_val; [|apply fread_run; exact Hf1].
      fold n. rewrite Hname, length_take, length_drop, Nat.min_l by lia.
      subst n. rewrite Nat.mul_comm, Nat.div_mul by done. by rewrite Nat.eqb_refl. }
    erewrite bind_val; [|reflexivity].
    erewrite bind_val; [|reflexivity]. done.
Qed.

(** ** Decoding a payload *)

Section Decode.
Context (host : Host) (zlib : Zlib).

Lemma on_session_progress u :
  ∃ cancelled s',
    on_session (UpdateBytesProcessedProgress host) u
    = (Val cancelled, {| session := s'; dst_file := dst_file u |}).
Proof.
  unfold on_session.
  destruct (UpdateBytesProcessedProgress host (session u)) as [[c|e|] s'] eqn:H.
  - eauto.
  - by apply (raises_UpdateBytesProcessedProgress host (λ _, False)) in H.
  - exfalso. revert H. unfold UpdateBytesProcessedProgress.
    intros H.
    apply bind_inv in H as [(t & s1 & H1 & H)|[(? & ? & ?)|[H1 _]]]; [|done..].
    apply bind_inv in H as [(l & s2 & H2 & H)|[(? & ? & ?)|[H2 _]]]; [|done..].
    destruct (_ >? _); [|done].
    apply bind_inv in H as [(b & s3 & H3 & H)|[(? & ? & ?)|[H3 _]]]; [|done..].
    apply bind_inv in H as [(r & s4 & H4 & H)|[(? & ? & ?)|[H4 _]]]; [|done|].
    + apply bind_inv in H as [(? & s5 & H5 & H)|[(? & ? & ?)|[H5 _]]]; [|done..].
      apply bind_inv in H as [(? & s6 & H6 & H)|[(? & ? & ?)|[H6 _]]]; done.
    + unfold CallProcessDataProc in H4. destruct (process_data_proc_ s3); [done|].
      by destruct (g_global_process_data_proc host).
Qed.

(** The mapping of [ZlibResultToWcxException]. *)
Lemma ZlibResultToWcxException_cases {St} zlib_result (s : St) :
  ZlibResultToWcxException zlib_result s
  = (if zlib_result =? Z_OK then Val tt
     else if zlib_result =? Z_MEM_ERROR then Exc E_NO_MEMORY
     else if zlib_result =? Z_STREAM_ERROR then Exc E_BAD_ARCHIVE
     else Exc E_BAD_DATA, s).
Proof.
  unfold ZlibResultToWcxException.
  by destruct (zlib_result =? Z_OK), (zlib_result =? Z_MEM_ERROR),
    (zlib_result =? Z_STREAM_ERROR).
Qed.

(** C6, as amended.  A round of the decoding loop that neither refills the
    input buffer nor gets output from zlib is the last one: the operation
    fails with the value mapped from the result of zlib when that is an
    error, else with [E_EABORTED] when the host asks to cancel, else the
    loop ends when zlib reports the end of the stream, and else the
    operation fails with [E_BAD_ARCHIVE].  When the loop has ended and
    the bytes written are not as many as the entry declares, the operation
    fails with [E_BAD_ARCHIVE].  The results of zlib are mapped to
    [E_NO_MEMORY] (memory error), [E_BAD_ARCHIVE] (stream error) and
    [E_BAD_DATA] (any other but [Z_OK]). *)
Theorem stalled_decode_round_is_last v u :
  bool_decide (in_avail zlib v = []) && (src_bytes_left zlib v >? 0) = false →
  take (Z.to_nat kBufSize)
    (inflate zlib (in_state zlib v) (in_avail zlib v) 0).1.2 = [] →
  let zlib_result := (inflate zlib (in_state zlib v) (in_avail zlib v) 0).1.1.1 in
  (∃ cancelled,
     (on_session (UpdateBytesProcessedProgress host) u).1 = Val cancelled
     ∧ (inflate_round host zlib v u).1
       = if negb (zlib_result =? Z_OK) && negb (zlib_result =? Z_STREAM_END)
         then if zlib_result =? Z_MEM_ERROR then Exc E_NO_MEMORY
              else if zlib_result =? Z_STREAM_ERROR then Exc E_BAD_ARCHIVE
              else Exc E_BAD_DATA
         else if (cancelled : bool) then Exc E_EABORTED
         else if zlib_result =? Z_STREAM_END
              then Val (inr (total_bytes_written zlib v))
         else Exc E_BAD_ARCHIVE)
  ∧ (∀ dst_file_size src_file_size fuel state total u0 u',
       inflateInit zlib = (Z_OK, state) →
       inflate_rounds host zlib fuel
         {| in_state := state; in_avail := []; src_bytes_left := src_file_size;
            total_bytes_written := 0 |} u0 = (Val total, u') →
       total ≠ dst_file_size →
       UnpackFileContent host zlib dst_file_size src_file_size true fuel u0
       = (Exc E_BAD_ARCHIVE, u'))
  ∧ (∀ zlib_result (s : Unpacking),
       (ZlibResultToWcxException zlib_result s).1
       = if zlib_result =? Z_OK then Val tt
         else if zlib_result =? Z_MEM_ERROR then Exc E_NO_MEMORY
         else if zlib_result =? Z_STREAM_ERROR then Exc E_BAD_ARCHIVE
         else Exc E_BAD_DATA).
Proof.
  intros Hrefill Hout zlib_result. split_fields.
  - destruct (on_session_progress u) as (cancelled & s' & Hup).
    exists cancelled. split; [by rewrite Hup|].
    unfold inflate_round.
    erewrite bind_val; cycle 1.
    { unfold inflate_refill. rewrite Hrefill. reflexivity. }
    cbn beta iota.
    destruct (inflate zlib (in_state zlib v) (in_avail zlib v) 0)
      as [[[zr consumed] produced] state'] eqn:Hinf.
    cbn [fst snd] in Hout, zlib_result. subst zlib_result. rewrite Hout.
    destruct (negb (zr =? Z_OK) && negb (zr =? Z_STREAM_END)) eqn:Herr; cbn [when].
    + apply andb_true_iff in Herr as [Hok _]. apply negb_true_iff in Hok.
      unfold mbind at 1, M_bind at 1.
      rewrite ZlibResultToWcxException_cases, Hok.
      by destruct (zr =? Z_MEM_ERROR), (zr =? Z_STREAM_ERROR).
    + erewrite bind_val; [|reflexivity].
      rewrite bool_decide_eq_true_2 by done. cbn [negb].
      erewrite bind_val; [|reflexivity]. cbn beta iota.
      erewrite bind_val; [|exact Hup]. cbn beta iota.
      destruct cancelled; [done|]. by destruct (zr =? Z_STREAM_END).
  - intros dst_file_size src_file_size fuel state total u0 u' Hinit Hloop Hne.
    unfold UnpackFileContent. rewrite Hinit.
    erewrite bind_val; [|reflexivity].
    erewrite bind_val; [|exact Hloop].
    apply Z.eqb_neq in Hne. by rewrite Hne.
  - intros r s. by rewrite ZlibResultToWcxException_cases.
Qed.

End Decode.

(** ** Packing one file *)

Section Packing.
Context (host : Host) (zlib : Zlib) (tree : SourceTree).

Lemma write_at_end s bytes data :
  at_end s bytes →
  ∃ s', WriteOrThrow data s = (Val tt, s') ∧ at_end s' (bytes ++ data)
    ∧ process_data_proc_ s' = process_data_proc_ s.
Proof.
  intros Hs. eexists. split; [by eapply write_run|]. unfold at_end. state_simpl.
  rewrite fwrite_bytes_end by done. cbn. rewrite length_app. done.
Qed.

Lemma kBufSize_pos : 0 < kBufSize.
Proof. reflexivity. Qed.

Lemma take_short {A} n (l : list A) :
  length (take n l) ≠ n → take n l = l ∧ drop n l = [].
Proof.
  rewrite length_take. intros H.
  assert (length l < n)%nat by lia.
  split; [apply take_ge|apply drop_ge]; lia.
Qed.

(** The copying loop appends the source to the archive. *)
Lemma store_rounds_appends fuel : ∀ rest acc s bytes r s',
  at_end s bytes →
  store_rounds fuel rest acc s = (Val r, s') →
  at_end s' (bytes ++ rest) ∧ process_data_proc_ s' = process_data_proc_ s.
Proof.
  induction fuel as [|fuel IH]; intros rest acc s bytes r s' Hs; [done|].
  cbn [store_rounds].
  pose proof kBufSize_pos as Hpos.
  destruct (Z.eqb_spec (Z.of_nat (length (take (Z.to_nat kBufSize) rest))) 0)
    as [H0|H0]; cbn [negb when].
  - rewrite H0. assert ((0 =? kBufSize) = false) as -> by done.
    intros H. erewrite bind_val in H; [|reflexivity].
    inversion H; subst s'. split; [|done].
    destruct (take_short (Z.to_nat kBufSize) rest) as [Ht _]; [lia|].
    rewrite Ht in H0. destruct rest; [|done]. by rewrite app_nil_r.
  - destruct (write_at_end s bytes (take (Z.to_nat kBufSize) rest) Hs)
      as (s1 & Hw & Hs1 & Hp1).
    destruct (Z.eqb_spec (Z.of_nat (length (take (Z.to_nat kBufSize) rest))) kBufSize)
      as [Hfull|Hpart]; intros H; erewrite bind_val in H by exact Hw.
    + apply (IH _ _ _ (bytes ++ take (Z.to_nat kBufSize) rest)) in H as [H ?]; [|done].
      rewrite <- app_assoc, take_drop in H. split; [done|congruence].
    + inversion H; subst s1.
      destruct (take_short (Z.to_nat kBufSize) rest) as [Ht _]; [lia|].
      rewrite Ht in Hs1. done.
Qed.

(** With enough fuel it ends, having counted the bytes. *)
Lemma store_rounds_ends fuel : ∀ rest acc s bytes,
  at_end s bytes → (length rest < fuel)%nat →
  0 ≤ acc → acc + Z.of_nat (length rest) < 2 ^ 64 →
  ∃ s', store_rounds fuel rest acc s = (Val (acc + Z.of_nat (length rest)), s').
Proof.
  induction fuel as [|fuel IH]; intros rest acc s bytes Hs Hfuel Hacc Hmax; [lia|].
  cbn [store_rounds].
  pose proof (length_take rest (Z.to_nat kBufSize)) as Hlen.
  pose proof kBufSize_pos as Hpos.
  destruct (Z.eqb_spec (Z.of_nat (length (take (Z.to_nat kBufSize) rest))) 0)
    as [H0|H0]; cbn [negb when].
  - erewrite bind_val; [|reflexivity].
    rewrite H0. assert ((0 =? kBufSize) = false) as -> by done.
    destruct (take_short (Z.to_nat kBufSize) rest) as [Ht _].
    { lia. }
    rewrite Ht in H0. eexists. unfold mret, M_ret. do 2 f_equal. lia.
  - destruct (write_at_end s bytes (take (Z.to_nat kBufSize) rest) Hs)
      as (s1 & Hw & Hs1 & Hp1).
    erewrite bind_val; [|exact Hw].
    assert (Hwrap : to_uint64 (acc + Z.of_nat (length (take (Z.to_nat kBufSize) rest)))
                    = acc + Z.of_nat (length (take (Z.to_nat kBufSize) rest))).
    { unfold to_uint64. apply Z.mod_small. lia. }
    rewrite Hwrap.
    destruct (Z.eqb_spec (Z.of_nat (length (take (Z.to_nat kBufSize) rest))) kBufSize)
      as [Hfull|Hpart].
    + destruct (IH (drop (Z.to_nat kBufSize) rest)
                  (acc + Z.of_nat (length (take (Z.to_nat kBufSize) rest))) s1 _ Hs1)
        as (s2 & Hrec).
      { rewrite length_drop. lia. }
      { lia. }
      { rewrite length_drop. lia. }
      exists s2. rewrite Hrec. do 2 f_equal. rewrite length_drop. lia.
    + destruct (take_short (Z.to_nat kBufSize) rest) as [Ht _]; [lia|].
      rewrite Ht. eexists. reflexivity.
Qed.

Lemma to_uint64_range v : 0 ≤ to_uint64 v < 2 ^ 64.
Proof. unfold to_uint64. apply Z.mod_pos_bound. lia. Qed.

Lemma ZlibResultToWcxException_val {St} zlib_result (s : St) a s' :
  ZlibResultToWcxException zlib_result s = (Val a, s') → s' = s.
Proof.
  unfold ZlibResultToWcxException.
  repeat (destruct (_ =? _); [by intros [= _ <-] || done|]). done.
Qed.

(** What one round of the encoding loop leaves: the output of this call
    of [deflate] appended, and counted. *)
Lemma deflate_round_appends v s bytes next s1 :
  at_end s bytes →
  deflate_round zlib v s = (Val next, s1) →
  ∃ out, at_end s1 (bytes ++ out)
    ∧ process_data_proc_ s1 = process_data_proc_ s
    ∧ match next with
      | inl v' => out_bytes_written zlib v'
      | inr (w', _) => w'
      end
      = if bool_decide (out = []) then out_bytes_written zlib v
        else to_uint64 (out_bytes_written zlib v + Z.of_nat (length out)).
Proof.
  intros Hs Hround. unfold deflate_round in Hround.
  destruct (bool_decide (de_avail zlib v = []) && negb (is_src_end zlib v));
    cbn beta iota zeta in Hround.
  all: match type of Hround with context [deflate zlib ?a ?b ?c] =>
         destruct (deflate zlib a b c) as [[[zr consumed] produced] state'] end.
  all: apply bind_inv in Hround as [(? & s2 & H2 & Hround)|[(? & ? & ?)|[? ?]]];
         [|done..].
  all: assert (s2 = s) as ->
         by (destruct (_ && _) in H2; cbn [when] in H2;
             [by eapply ZlibResultToWcxException_val|by inversion H2]).
  all: apply bind_inv in Hround as [([mp wt] & s3 & H3 & Hround)|[(? & ? & ?)|[? ?]]];
         [|done..].
  all: exists (take (Z.to_nat kBufSize) produced).
  all: destruct (bool_decide (take (Z.to_nat kBufSize) produced = [])) eqn:Hp;
         cbn [negb] in H3.
  all: try (pose proof (bool_decide_eq_true_1 _ Hp) as Hnil; rewrite Hnil, app_nil_r;
            inversion H3; subst; clear H3;
            destruct (zr =? Z_STREAM_END); cbn [negb] in Hround;
            inversion Hround; subst; done).
  all: destruct (write_at_end s bytes (take (Z.to_nat kBufSize) produced) Hs)
         as (s4 & Hw4 & Hs4 & Hp4).
  all: erewrite bind_val in H3 by exact Hw4.
  all: inversion H3; subst; clear H3.
  all: destruct (zr =? Z_STREAM_END); cbn [negb] in Hround;
         inversion Hround; subst; done.
Qed.

(** The encoding loop only appends to the archive, and counts what it
    appends. *)
Lemma deflate_rounds_appends fuel : ∀ v s bytes w r s',
  at_end s bytes → 0 ≤ out_bytes_written zlib v < 2 ^ 64 →
  deflate_rounds zlib fuel v s = (Val (w, r), s') →
  ∃ out, at_end s' (bytes ++ out)
    ∧ w = (out_bytes_written zlib v + Z.of_nat (length out)) mod 2 ^ 64
    ∧ process_data_proc_ s' = process_data_proc_ s.
Proof.
  induction fuel as [|fuel IH]; intros v s bytes w r s' Hs Hw H; [done|].
  cbn [deflate_rounds] in H.
  apply bind_inv in H as [(next & s1 & Hround & H)|[(? & ? & ?)|[? ?]]]; [|done..].
  destruct (deflate_round_appends v s bytes next s1 Hs Hround)
    as (out & Hs1 & Hp1 & Hnext).
  assert (Hcount : match next with
                   | inl v' => out_bytes_written zlib v'
                   | inr (w', _) => w'
                   end = (out_bytes_written zlib v + Z.of_nat (length out)) mod 2 ^ 64).
  { rewrite Hnext. destruct (decide (out = [])) as [->|Hne].
    - rewrite bool_decide_eq_true_2 by done. cbn [length].
      rewrite Z.add_0_r, Z.mod_small; done.
    - by rewrite bool_decide_eq_false_2 by done. }
  destruct next as [v'|[w' r']].
  - destruct (IH v' s1 (bytes ++ out) w r s' Hs1) as (out' & Hs' & Hw' & Hp');
      [rewrite Hcount; apply Z.mod_pos_bound; lia|done|].
    exists (out ++ out'). rewrite app_assoc. split; [done|]. split; [|congruence].
    rewrite Hw', Hcount, length_app, Nat2Z.inj_add, Zplus_mod_idemp_l. f_equal. lia.
  - inversion H; subst. exists out. done.
Qed.

End Packing.
(** ** The encoding loop and the stream that zlib gives *)

Section Deflate.
Context (zlib : Zlib).

Lemma deflate_round_call v s bytes :
  at_end s bytes →
  ∃ s',
    deflate_round zlib v s
    = (match deflate_call zlib v with
       | Val (_, next) => Val next
       | Exc error_code => Exc error_code
       | Diverge => Diverge
       end, s')
    ∧ ∀ out next, deflate_call zlib v = Val (out, next) →
        at_end s' (bytes ++ out)
        ∧ match next with
          | inl v' => out_bytes_written zlib v'
          | inr (w', _) => w'
          end
          = if bool_decide (out = []) then out_bytes_written zlib v
            else to_uint64 (out_bytes_written zlib v + Z.of_nat (length out)).
Proof.
  intros Hs. unfold deflate_round, deflate_call.
  destruct (bool_decide (de_avail zlib v = []) && negb (is_src_end zlib v));
    cbn beta iota zeta.
  all: match goal with |- context [deflate zlib ?a ?b ?c] =>
         destruct (deflate zlib a b c) as [[[zr consumed] produced] state'] end.
  all: cbn beta iota zeta.
  all: set (out := take (Z.to_nat kBufSize) produced).
  all: destruct (write_at_end s bytes out Hs) as (s4 & Hw4 & Hs4 & Hp4).
  all: destruct (Z.eqb_spec zr Z_STREAM_END) as [Hend|Hend];
       destruct (Z.eqb_spec zr Z_OK) as [Hok|Hok];
       try (exfalso; rewrite Hend in Hok; discriminate Hok).
  all: cbn [negb andb orb when].
  all: try (erewrite bind_val by reflexivity).
  all: destruct (bool_decide (out = [])) eqn:Hout; cbn [negb].
  all: try (apply bool_decide_eq_true_1 in Hout as Hnil).
  all: try (erewrite bind_val by reflexivity; cbn beta iota).
  all: try (erewrite bind_val by (erewrite bind_val by exact Hw4; reflexivity);
            cbn beta iota).
  all: try (eexists; split; [reflexivity|]; intros out' next' [= <- <-];
            first [rewrite Hnil, app_nil_r; rewrite bool_decide_eq_true_2 by done; done
                  |rewrite Hout; done]).
  all: try (eexists; split; [reflexivity|done]).
  all: apply Z.eqb_neq in Hok; exists s; unfold ZlibResultToWcxException;
       rewrite Hok; destruct (zr =? Z_MEM_ERROR), (zr =? Z_STREAM_ERROR);
       (split; [reflexivity|done]).
Qed.


Lemma deflate_rounds_stream fuel : ∀ v s bytes,
  at_end s bytes → 0 ≤ out_bytes_written zlib v < 2 ^ 64 →
  ∃ s',
    deflate_rounds zlib fuel v s
    = (match deflate_stream zlib fuel v with
       | Val (out, r) =>
           Val ((out_bytes_written zlib v + Z.of_nat (length out)) mod 2 ^ 64, r)
       | Exc error_code => Exc error_code
       | Diverge => Diverge
       end, s')
    ∧ ∀ out r, deflate_stream zlib fuel v = Val (out, r) → at_end s' (bytes ++ out).
Proof.
  induction fuel as [|fuel IH]; intros v s bytes Hs Hw.
  { exists s. split; [reflexivity|done]. }
  cbn [deflate_rounds deflate_stream].
  destruct (deflate_round_call v s bytes Hs) as (s1 & Hround & Hnext).
  destruct (deflate_call zlib v) as [[out next]| |] eqn:Hcall.
  - destruct (Hnext out next eq_refl) as [Hs1 Hcount].
    assert (match next with
            | inl v' => out_bytes_written zlib v'
            | inr (w', _) => w'
            end = (out_bytes_written zlib v + Z.of_nat (length out)) mod 2 ^ 64)
      as Hcount'.
    { rewrite Hcount. destruct (decide (out = [])) as [->|Hne].
      - rewrite bool_decide_eq_true_2 by done. cbn [length].
        rewrite Z.add_0_r, Z.mod_small; done.
      - by rewrite bool_decide_eq_false_2 by done. }
    erewrite bind_val by exact Hround.
    destruct next as [v'|[w' r']].
    + destruct (IH v' s1 (bytes ++ out) Hs1) as (s2 & Hrest & Hout).
      { rewrite Hcount'. apply Z.mod_pos_bound. lia. }
      exists s2. rewrite Hrest.
      destruct (deflate_stream zlib fuel v') as [[more r]| |].
      * split.
        { rewrite Hcount', length_app, Nat2Z.inj_add, Zplus_mod_idemp_l.
          do 4 f_equal. lia. }
        intros out' r'' [= <- <-]. rewrite app_assoc. by eapply Hout.
      * split; [done|done].
      * split; [done|done].
    + exists s1. split; [by rewrite Hcount'|].
      by intros out' r'' [= <- <-].
  - exists s1. erewrite bind_exc by exact Hround. done.
  - exists s1. erewrite bind_diverge by exact Hround. done.
Qed.

Lemma PackFileContent_deflated_run s before src size fuel :
  at_end s before →
  ∃ s2,
    PackFileContent zlib src size true fuel s
    = (match deflated zlib fuel src size with
       | Val payload => Val (Z.of_nat (length payload) mod 2 ^ 64, size)
       | Exc error_code => Exc error_code
       | Diverge => Diverge
       end, s2)
    ∧ ∀ payload, deflated zlib fuel src size = Val payload →
        at_end s2 (before ++ payload).
Proof.
  intros Hs. unfold PackFileContent, deflated.
  destruct (deflateInit zlib) as [zlib_result state].
  unfold ZlibResultToWcxException.
  destruct (zlib_result =? Z_OK).
  - match goal with |- context [deflate_rounds zlib fuel ?v0] => set (v := v0) end.
    destruct (deflate_rounds_stream fuel v s before Hs) as (s1 & Hrun & Hout);
      [done|].
    destruct (deflate_stream zlib fuel v) as [[out r]| |].
    + exists s1.
      change (out_bytes_written zlib v) with 0 in Hrun. rewrite Z.add_0_l in Hrun.
      erewrite bind_val; cycle 1.
      { erewrite bind_val by reflexivity. exact Hrun. }
      cbn beta iota.
      destruct (Z.eqb_spec r size) as [->|Hne]; cbn [negb].
      * split; [reflexivity|]. intros payload [= <-]. by eapply Hout.
      * split; [reflexivity|done].
    + exists s1. split; [|done].
      erewrite bind_exc; [reflexivity|].
      erewrite bind_val by reflexivity. exact Hrun.
    + exists s1. split; [|done].
      erewrite bind_diverge; [reflexivity|].
      erewrite bind_val by reflexivity. exact Hrun.
  - exists s.
    destruct (zlib_result =? Z_MEM_ERROR), (zlib_result =? Z_STREAM_ERROR);
      (split; [reflexivity|done]).
Qed.

Lemma deflate_pieces_from_enough n : ∀ m state rest,
  (length rest < n)%nat → (length rest < m)%nat →
  deflate_pieces_from zlib n state rest = deflate_pieces_from zlib m state rest.
Proof.
  induction n as [|n IH]; intros m state rest Hn Hm; [lia|].
  destruct m as [|m]; [lia|]. cbn [deflate_pieces_from].
  destruct (deflate zlib state _ _) as [[[zr consumed] produced] state'].
  destruct (Z.ltb_spec (Z.of_nat (length (take (Z.to_nat kBufSize) rest))) kBufSize)
    as [Hlast|Hfull]; [done|].
  f_equal. rewrite length_take in Hfull. pose proof kBufSize_pos.
  apply IH; rewrite length_drop; lia.
Qed.

Lemma deflate_stream_pieces :
  takes_every_piece zlib →
  ∀ fuel state rest w r, (length rest < fuel)%nat →
    deflate_stream zlib fuel
      {| de_state := state; de_avail := []; src_rest := rest;
         is_src_end := false; out_bytes_written := w; out_bytes_read := r |}
    = Val (deflate_pieces_from zlib fuel state rest,
           (r + Z.of_nat (length rest)) mod 2 ^ 64).
Proof.
  intros Hzlib. induction fuel as [|fuel IH]; intros state rest w r Hfuel; [lia|].
  cbn [deflate_stream deflate_pieces_from]. unfold deflate_call.
  cbn [de_avail is_src_end de_state src_rest out_bytes_written out_bytes_read
       bool_decide negb andb]. rewrite bool_decide_eq_true_2 by done.
  cbn [andb negb orb].
  set (piece := take (Z.to_nat kBufSize) rest).
  pose proof kBufSize_pos as Hbuf.
  destruct (Z.ltb_spec (Z.of_nat (length piece)) kBufSize) as [Hlast|Hfull].
  - destruct (Hzlib state piece Z_FINISH) as (produced & state' & ->).
    cbn beta iota. change (Z_FINISH =? Z_FINISH) with true. cbn beta iota.
    change (Z_STREAM_END =? Z_STREAM_END) with true. cbn beta iota.
    rewrite app_nil_r. do 2 f_equal. unfold to_uint64. do 2 f_equal.
    subst piece. rewrite length_take in *. lia.
  - destruct (Hzlib state piece Z_NO_FLUSH) as (produced & state' & ->).
    cbn beta iota. change (Z_NO_FLUSH =? Z_FINISH) with false. cbn beta iota.
    change (Z_OK =? Z_STREAM_END) with false. change (Z_OK =? Z_OK) with true.
    cbn beta iota. rewrite drop_all.
    assert (length piece = Z.to_nat kBufSize ∧ Z.to_nat kBufSize ≤ length rest)%nat
      as [Hpiece Hrest].
    { subst piece. rewrite length_take in *. lia. }
    rewrite IH; cycle 1.
    { rewrite length_drop. lia. }
    do 2 f_equal. unfold to_uint64. rewrite Zplus_mod_idemp_l. f_equal.
    rewrite length_drop. lia.
Qed.

End Deflate.

Section PackFile.
Context (host : Host) (zlib : Zlib) (tree : SourceTree).

Lemma wcx_attributes_not_directory windows_attr :
  Z.land windows_attr FILE_ATTRIBUTE_DIRECTORY = 0 →
  Z.land (WindowsAttributesToWcxAttributes windows_attr) FILE_ATTR_DIRECTORY = 0.
Proof.
  intros H. unfold WindowsAttributesToWcxAttributes. rewrite H.
  change (negb (0 =? 0)) with false. cbn match.
  by destruct (negb (Z.land windows_attr FILE_ATTRIBUTE_READONLY =? 0)),
    (negb (Z.land windows_attr FILE_ATTRIBUTE_HIDDEN =? 0)),
    (negb (Z.land windows_attr FILE_ATTRIBUTE_SYSTEM =? 0)),
    (negb (Z.land windows_attr FILE_ATTRIBUTE_ARCHIVE =? 0)).
Qed.

Lemma ftell_at_end s bytes :
  at_end s bytes →
  ∃ s', _ftelli64 s = (Val (Z.of_nat (length bytes)), s') ∧ at_end s' bytes
    ∧ process_data_proc_ s' = process_data_proc_ s.
Proof.
  intros Hs. eexists. split; [by erewrite ftell_run by exact Hs|].
  unfold at_end. by state_simpl.
Qed.

Lemma WriteEntryHeader_at_end s bytes header path :
  at_end s bytes →
  ∃ s', WriteEntryHeader header path s = (Val tt, s')
    ∧ at_end s' (bytes ++ header_bytes header ++ wchars_bytes path)
    ∧ process_data_proc_ s' = process_data_proc_ s.
Proof.
  intros Hs. unfold WriteEntryHeader.
  destruct (write_at_end s bytes (header_bytes header) Hs) as (s1 & H1 & Hs1 & Hp1).
  destruct (write_at_end s1 _ (wchars_bytes path) Hs1) as (s2 & H2 & Hs2 & Hp2).
  exists s2. erewrite bind_val by exact H1. rewrite <- app_assoc in Hs2.
  split; [done|]. split; [done|congruence].
Qed.

Lemma PackFile_unfold s bytes absolute_path archive_path save_paths fuel file src dos :
  at_end s bytes →
  source_at tree absolute_path = Some file →
  Z.land (dwFileAttributes file) FILE_ATTRIBUTE_DIRECTORY = 0 →
  dos_date_time file = Some dos → file_bytes file = Some src →
  let path := StripTrailingSlash archive_path in
  let compress := EnableCompressionForFile (nFileSize file) in
  ∃ s1, at_end s1 (bytes ++ header_bytes (written_header file dos path (nFileSize file))
                   ++ wchars_bytes path)
    ∧ process_data_proc_ s1 = process_data_proc_ s
    ∧ PackFile zlib tree absolute_path archive_path save_paths fuel s
      = (('(bytes_written, bytes_read) ←
            PackFileContent zlib src (nFileSize file) compress fuel;
          when (compress && negb (bytes_written =? bytes_read))
            (entry_end_offset ← _ftelli64;
             SeekOrThrow (to_uint64 (Z.of_nat (length bytes)) + (4 + 1 + 1 + 4)) SEEK_SET;;
             WriteOrThrow (le_bytes 8 bytes_written);;
             SeekOrThrow (to_uint64 entry_end_offset) SEEK_SET));;
         mret false) s1.
Proof.
  intros Hs Hsrc Hdir Hdos Hbytes path compress. unfold PackFile.
  destruct (ftell_at_end s bytes Hs) as (s0 & Htell & Hs0 & Hp0).
  destruct (WriteEntryHeader_at_end s0 bytes
              (written_header file dos path (nFileSize file)) path Hs0)
    as (s1 & Hwr & Hs1 & Hp1).
  exists s1. split; [done|]. split; [congruence|].
  erewrite bind_val; cycle 1.
  { unfold GetFileAttributes. rewrite Hsrc, Hdos, Hdir. reflexivity. }
  change (0 =? 0) with true. cbv iota.
  cbn [unp_size attributes flags time zero_header].
  erewrite bind_val by exact Htell.
  rewrite (wcx_attributes_not_directory _ Hdir).
  change (negb (0 =? 0)) with false. cbn [negb when].
  fold path compress.
  erewrite bind_val; cycle 1.
  { unfold written_header in Hwr. fold compress in Hwr.
    destruct compress; exact Hwr. }
  rewrite Hsrc. cbn [mbind option_bind]. rewrite Hbytes. reflexivity.
Qed.



Lemma header_patch h w :
  take 10 (header_bytes h) ++ le_bytes 8 w ++ drop 18 (header_bytes h)
  = header_bytes {| magic := magic h; flags := flags h; attributes := attributes h;
                    time := time h; pack_size := w; unp_size := unp_size h;
                    path_len := path_len h |}.
Proof. reflexivity. Qed.

Lemma PackFileContent_raw s before src fuel w r s2 :
  at_end s before →
  PackFileContent zlib src (Z.of_nat (length src)) false fuel s = (Val (w, r), s2) →
  at_end s2 (before ++ src) ∧ w = Z.of_nat (length src) ∧ r = Z.of_nat (length src).
Proof.
  intros Hs. unfold PackFileContent.
  destruct (Z.eqb_spec (Z.of_nat (length src)) 0) as [H0|H0].
  - rewrite bind_val with (a := (0, Z.of_nat (length src))) (s' := s) by done.
    rewrite Z.eqb_refl. cbn [negb]. intros [= <- <- <-].
    assert (src = []) as -> by (apply length_zero_iff_nil; lia).
    rewrite app_nil_r. done.
  - intros H.
    apply bind_inv in H as [([w' r'] & s1 & Hrun & H)|[(? & ? & ?)|[? ?]]]; [|done..].
    apply bind_inv in Hrun as [(n & s0 & Hrun & Hret)|[(? & ? & ?)|[? ?]]]; [|done..].
    injection Hret as <- <- <-.
    destruct (store_rounds_appends _ _ _ _ _ _ _ Hs Hrun) as [Hend _].
    destruct (Z.eqb_spec n (Z.of_nat (length src))) as [->|]; [|done].
    cbn [negb] in H. injection H as <- <- <-. done.
Qed.

Lemma PackFileContent_raw_ends s before src fuel :
  at_end s before → Z.of_nat (length src) < 2 ^ 64 → (length src < fuel)%nat →
  ∃ s2, PackFileContent zlib src (Z.of_nat (length src)) false fuel s
        = (Val (Z.of_nat (length src), Z.of_nat (length src)), s2).
Proof.
  intros Hs Hmax Hfuel. unfold PackFileContent.
  destruct (Z.eqb_spec (Z.of_nat (length src)) 0) as [H0|H0].
  - exists s. rewrite bind_val with (a := (0, Z.of_nat (length src))) (s' := s) by done.
    rewrite Z.eqb_refl. cbn [negb]. by rewrite H0.
  - destruct (store_rounds_ends fuel src 0 s before Hs Hfuel) as [s2 Hrun]; [lia..|].
    exists s2. rewrite Z.add_0_l in Hrun.
    erewrite bind_val; cycle 1.
    { erewrite bind_val by exact Hrun. reflexivity. }
    cbv beta iota. by rewrite Z.eqb_refl.
Qed.

Lemma PackFileContent_deflated s before src size fuel w r s2 :
  at_end s before →
  PackFileContent zlib src size true fuel s = (Val (w, r), s2) →
  ∃ payload, at_end s2 (before ++ payload)
    ∧ w = Z.of_nat (length payload) mod 2 ^ 64 ∧ r = size.
Proof.
  intros Hs. unfold PackFileContent. intros H.
  apply bind_inv in H as [([w' r'] & s1 & Hrun & H)|[(? & ? & ?)|[? ?]]]; [|done..].
  destruct (Z.eqb_spec r' size) as [->|]; [|done].
  cbn [negb] in H. injection H as <- <- <-.
  destruct (deflateInit zlib) as [zlib_result state].
  apply bind_inv in Hrun as [([] & s0 & Hinit & Hrun)|[(? & ? & ?)|[? ?]]]; [|done..].
  apply ZlibResultToWcxException_val in Hinit as ->.
  eapply deflate_rounds_appends in Hrun as (out & Hend & Hw & _); [|done|done].
  exists out. cbn [out_bytes_written] in Hw. rewrite Z.add_0_l in Hw. done.
Qed.


Lemma patch_pack_size s bytes h path payload w :
  at_end s (bytes ++ header_bytes h ++ wchars_bytes path ++ payload) →
  Z.of_nat (length bytes) < 2 ^ 63 →
  ∃ s' f',
    (entry_end_offset ← _ftelli64;
     SeekOrThrow (to_uint64 (Z.of_nat (length bytes)) + (4 + 1 + 1 + 4)) SEEK_SET;;
     WriteOrThrow (le_bytes 8 w);;
     SeekOrThrow (to_uint64 entry_end_offset) SEEK_SET) s = (Val tt, s')
    ∧ archive_file_ s' = Some f'
    ∧ contents f'
      = bytes ++ header_bytes {| magic := magic h; flags := flags h;
                                 attributes := attributes h; time := time h;
                                 pack_size := w; unp_size := unp_size h;
                                 path_len := path_len h |}
        ++ wchars_bytes path ++ payload.
Proof.
  intros Hs Hmax.
  assert (to_uint64 (Z.of_nat (length bytes)) = Z.of_nat (length bytes)) as Hbegin.
  { unfold to_uint64. apply Z.mod_small. lia. }
  rewrite Hbegin.
  eexists _, _. split.
  - erewrite bind_val by (by eapply ftell_run).
    erewrite bind_val; cycle 1.
    { eapply seek_run; [by state_simpl|]. apply fseek_set. lia. }
    erewrite bind_val; cycle 1.
    { eapply write_run. by state_simpl. }
    eapply seek_run; [by state_simpl|]. apply fseek_set.
    apply to_uint64_range.
  - state_simpl. split; [done|]. cbn [contents].
    rewrite <- header_patch.
    erewrite (fwrite_bytes_inside _ (bytes ++ take 10 (header_bytes h))
                (take 8 (drop 10 (header_bytes h)))
                (drop 18 (header_bytes h) ++ wchars_bytes path ++ payload)).
    + cbn [contents]. by rewrite <- !app_assoc.
    + cbn [contents]. rewrite <- !app_assoc. by f_equal.
    + cbn [cursor]. rewrite length_app, length_take, header_bytes_length.
      unfold sizeof_EntryHeader. lia.
    + rewrite length_take, length_drop, header_bytes_length, le_bytes_length.
      unfold sizeof_EntryHeader. lia.
Qed.


Lemma EnableCompressionForFile_threshold size :
  EnableCompressionForFile size = kEnableCompression && bool_decide (16 ≤ size).
Proof.
  unfold EnableCompressionForFile, kMinFileSizeForCompression. f_equal.
  rewrite Z.geb_leb. case_bool_decide; lia.
Qed.

(** C9.  A regular file is packed with the flag Compressed exactly when
    compression is enabled and its size is at least 16 bytes.  Then its
    payload is the deflate stream that zlib makes of its bytes, read in
    pieces of [kBufSize] bytes, and [pack_size] is the length of that
    stream whether it is shorter than the file or not; packing returns
    when zlib ends the stream, and fails or does not return as zlib
    does.  With a zlib that takes all the input of every call and ends
    the stream when asked to finish, packing returns and the payload is
    what the calls give for the pieces one after the other.  Otherwise
    the payload is the bytes of the file, [pack_size] is its size, and
    packing returns.  The size alone decides: 15 bytes are stored, 16
    bytes are compressed. *)
Theorem pack_file_compression_policy s bytes absolute_path archive_path
    save_paths file src dos :
  at_end s bytes → Z.of_nat (length bytes) < 2 ^ 63 →
  source_at tree absolute_path = Some file →
  Z.land (dwFileAttributes file) FILE_ATTRIBUTE_DIRECTORY = 0 →
  dos_date_time file = Some dos → file_bytes file = Some src →
  nFileSize file = Z.of_nat (length src) →
  let path := StripTrailingSlash archive_path in
  let size := nFileSize file in
  let compressed := kEnableCompression && bool_decide (16 ≤ size) in
  let packed := λ pack payload,
    bytes ++ header_bytes (written_header file dos path pack)
    ++ wchars_bytes path ++ payload in
  (∀ fuel result s',
     PackFile zlib tree absolute_path archive_path save_paths fuel s
     = (Val result, s') →
     result = false
     ∧ ∃ f' pack payload,
       archive_file_ s' = Some f'
       ∧ contents f' = packed pack payload
       ∧ flags (written_header file dos path pack)
         = (if compressed then kEntryFlagCompressed else 0)
       ∧ pack = Z.of_nat (length payload) mod 2 ^ 64
       ∧ if compressed
         then deflated zlib fuel src size = Val payload
         else payload = src ∧ pack = size)
  ∧ (compressed = false →
     ∀ fuel, (length src < fuel)%nat →
       ∃ s', PackFile zlib tree absolute_path archive_path save_paths fuel s
             = (Val false, s'))
  ∧ (compressed = true →
     ∀ fuel, ∃ s',
       PackFile zlib tree absolute_path archive_path save_paths fuel s
       = (match deflated zlib fuel src size with
          | Val _ => Val false
          | Exc error_code => Exc error_code
          | Diverge => Diverge
          end, s'))
  ∧ (compressed = true → takes_every_piece zlib →
     ∀ state, deflateInit zlib = (Z_OK, state) → size < 2 ^ 64 →
     ∀ fuel, (length src < fuel)%nat →
       deflated zlib fuel src size = Val (deflate_pieces zlib state src))
  ∧ EnableCompressionForFile size = compressed
  ∧ EnableCompressionForFile 15 = false ∧ EnableCompressionForFile 16 = true.
Proof.
  intros Hs Hmax Hsrc Hdir Hdos Hbytes Hsize path size compressed packed.
  assert (EnableCompressionForFile size = compressed) as Hpolicy
    by apply EnableCompressionForFile_threshold.
  split_fields; [| | | |done..].
  - intros fuel result s' Hrun.
    destruct (PackFile_unfold s bytes absolute_path archive_path save_paths
                fuel file src dos Hs Hsrc Hdir Hdos Hbytes) as (s1 & Hs1 & _ & Heq).
    fold path size in Hs1, Heq. rewrite Heq in Hrun. clear Heq.
    rewrite Hpolicy in Hrun.
    apply bind_inv in Hrun as [([] & s3 & Hrun & Hret)|[(? & ? & ?)|[? ?]]]; [|done..].
    injection Hret as <- <-. split; [reflexivity|].
    apply bind_inv in Hrun as [([w r] & s2 & Hcontent & Hpatch)|[(? & ? & ?)|[? ?]]];
      [|done..].
    unfold written_header at 1. fold size. rewrite Hpolicy. cbn [flags].
    destruct compressed.
    + destruct (PackFileContent_deflated_run zlib s1 _ src size fuel Hs1)
        as (s2' & Hcontent' & Hend).
      rewrite Hcontent' in Hcontent.
      destruct (deflated zlib fuel src size) as [payload| |]; [|done..].
      injection Hcontent as <- <- <-. specialize (Hend payload eq_refl).
      cbn [andb] in Hpatch.
      destruct (Z.eqb_spec (Z.of_nat (length payload) mod 2 ^ 64) size)
        as [Hsame|Hdiff]; cbn [negb when] in Hpatch.
      * injection Hpatch as <-.
        eexists _, (Z.of_nat (length payload) mod 2 ^ 64), payload.
        split; [exact Hend|].
        cbn [contents]. split.
        { unfold packed. rewrite Hsame, <- !app_assoc. done. }
        done.
      * rewrite <- !app_assoc in Hend.
        destruct (patch_pack_size s2' bytes _ path payload
                    (Z.of_nat (length payload) mod 2 ^ 64) Hend Hmax)
          as (s4 & f' & Hrun & Hfile & Hcontents).
        rewrite Hrun in Hpatch. injection Hpatch as <-.
        exists f', (Z.of_nat (length payload) mod 2 ^ 64), payload.
        split; [done|]. split; [|done].
        rewrite Hcontents. unfold packed, written_header. reflexivity.
    + subst size. rewrite Hsize in Hcontent.
      destruct (PackFileContent_raw _ _ _ _ _ _ _ Hs1 Hcontent) as (Hs2 & -> & ->).
      cbn [andb when] in Hpatch. injection Hpatch as <-.
      eexists _, _, src. split; [exact Hs2|]. cbn [contents].
      unfold packed. rewrite <- !app_assoc, Hsize. split_fields; try done.
      symmetry. apply Z.mod_small.
      assert (Z.of_nat (length src) < 16); [|lia].
      rewrite EnableCompressionForFile_threshold in Hpolicy.
      cbn [kEnableCompression andb] in Hpolicy.
      apply bool_decide_eq_false in Hpolicy. lia.
  - intros Hraw fuel Hfuel.
    destruct (PackFile_unfold s bytes absolute_path archive_path save_paths
                fuel file src dos Hs Hsrc Hdir Hdos Hbytes) as (s1' & Hs1' & _ & Heq).
    fold path size in Hs1', Heq. rewrite Heq. clear Heq.
    rewrite Hpolicy, Hraw. subst size.
    assert (Z.of_nat (length src) < 16) as Hsmall.
    { rewrite <- Hsize. unfold compressed in Hraw. cbn [kEnableCompression andb] in Hraw.
      by apply bool_decide_eq_false in Hraw; lia. }
    rewrite Hsize.
    destruct (PackFileContent_raw_ends s1' _ src fuel Hs1') as [s2 Hrun];
      [lia|done|].
    exists s2. erewrite bind_val; [reflexivity|].
    erewrite bind_val by exact Hrun. reflexivity.
  - intros Hcomp fuel.
    destruct (PackFile_unfold s bytes absolute_path archive_path save_paths
                fuel file src dos Hs Hsrc Hdir Hdos Hbytes) as (s1 & Hs1 & _ & Heq).
    fold path size in Hs1, Heq. rewrite Heq. clear Heq.
    rewrite Hpolicy, Hcomp.
    destruct (PackFileContent_deflated_run zlib s1 _ src size fuel Hs1)
      as (s2 & Hcontent & Hend).
    destruct (deflated zlib fuel src size) as [payload| |].
    + specialize (Hend payload eq_refl). cbn [andb].
      destruct (Z.eqb_spec (Z.of_nat (length payload) mod 2 ^ 64) size)
        as [Hsame|Hdiff].
      * exists s2. erewrite bind_val; [reflexivity|].
        erewrite bind_val by exact Hcontent. cbn beta iota.
        apply Z.eqb_eq in Hsame. rewrite Hsame. reflexivity.
      * rewrite <- !app_assoc in Hend.
        destruct (patch_pack_size s2 bytes _ path payload
                    (Z.of_nat (length payload) mod 2 ^ 64) Hend Hmax)
          as (s4 & f' & Hrun & _).
        exists s4. erewrite bind_val; [reflexivity|].
        erewrite bind_val by exact Hcontent. cbn beta iota.
        apply Z.eqb_neq in Hdiff. rewrite Hdiff. cbn [negb when]. exact Hrun.
    + exists s2. erewrite bind_exc; [reflexivity|].
      erewrite bind_exc by exact Hcontent. reflexivity.
    + exists s2. erewrite bind_diverge; [reflexivity|].
      erewrite bind_diverge by exact Hcontent. reflexivity.
  - intros Hcomp Hzlib state Hinit Hsmall fuel Hfuel.
    unfold deflated. rewrite Hinit. change (Z_OK =? Z_OK) with true. cbn beta iota.
    rewrite (deflate_stream_pieces zlib Hzlib) by done.
    rewrite Z.add_0_l, Z.mod_small by (subst size; lia).
    subst size. rewrite Hsize, Z.eqb_refl. f_equal.
    apply deflate_pieces_from_enough; lia.
Qed.

End PackFile.

(** ** Names compared without case *)

Section NoCase.

Lemma wcsicmp_chars_antisym a : ∀ b, wcsicmp_chars b a = - wcsicmp_chars a b.
Proof.
  induction a as [|x a IH]; intros [|y b]; cbn; try done.
  destruct (Z.eqb_spec (towlower x) (towlower y)) as [Heq|Hne].
  - rewrite Heq, Z.eqb_refl. apply IH.
  - destruct (Z.eqb_spec (towlower y) (towlower x)); [congruence|].
    destruct (Z.ltb_spec (towlower x) (towlower y)),
      (Z.ltb_spec (towlower y) (towlower x)); lia.
Qed.

Lemma wcsicmp_chars_zero a : ∀ b,
  wcsicmp_chars a b = 0 ↔ map towlower a = map towlower b.
Proof.
  induction a as [|x a IH]; intros [|y b]; cbn; try done.
  destruct (Z.eqb_spec (towlower x) (towlower y)) as [Heq|Hne].
  - rewrite IH. split; [intros ->; by rewrite Heq|by intros [= _ ->]].
  - split; [by destruct (_ <? _)|by intros [= ? _]].
Qed.

Lemma StricmpPred_equivalent a b :
  Std.equivalent StricmpPred a b = true
  ↔ map towlower (c_str a) = map towlower (c_str b).
Proof.
  unfold Std.equivalent, StricmpPred, _wcsicmp.
  rewrite <- wcsicmp_chars_zero, (wcsicmp_chars_antisym (c_str a) (c_str b)).
  rewrite andb_true_iff, !negb_true_iff, !Z.ltb_ge.
  split; [lia|]. intros ->. lia.
Qed.

Lemma wcsicmp_zero a b :
  _wcsicmp a b = 0 ↔ Std.equivalent StricmpPred a b = true.
Proof. rewrite StricmpPred_equivalent. apply wcsicmp_chars_zero. Qed.

End NoCase.

(** ** The map of [RemoveFileNameDuplicates] *)

Section NameMap.
Context {K K' : Type} (comp : K → K → bool) (key : K → K').
Hypothesis equivalent_key :
  ∀ a b, Std.equivalent comp a b = true ↔ key a = key b.

Lemma equivalent_by_key a b c :
  key a = key b → Std.equivalent comp c a = Std.equivalent comp c b.
Proof.
  intros Hab. apply Bool.eq_iff_eq_true. rewrite !equivalent_key. by rewrite Hab.
Qed.

Lemma map_find_key m : ∀ a b,
  key a = key b → Std.map_find comp m a = Std.map_find comp m b.
Proof.
  induction m as [|[k v] m IH]; intros a b Hab; cbn; [done|].
  by rewrite (IH a b Hab), (equivalent_by_key a b k Hab).
Qed.

Lemma map_find_insert m k v a :
  Std.map_find comp (Std.map_insert m k v) a
  = if Std.equivalent comp k a then Some v else Std.map_find comp m a.
Proof. reflexivity. Qed.

Lemma map_find_assign m k v a old :
  Std.map_find comp m k = Some old →
  Std.map_find comp (Std.map_assign comp m k v) a
  = if Std.equivalent comp k a then Some v else Std.map_find comp m a.
Proof.
  induction m as [|[k' v'] m IH]; cbn; [done|].
  destruct (Std.equivalent comp k' k) eqn:Hk; cbn.
  - intros _. apply equivalent_key in Hk.
    assert (Std.equivalent comp k' a = Std.equivalent comp k a) as ->.
    { apply Bool.eq_iff_eq_true. rewrite !equivalent_key. by rewrite Hk. }
    by destruct (Std.equivalent comp k a).
  - intros Hm. rewrite (IH Hm).
    destruct (Std.equivalent comp k' a) eqn:Ha,
      (Std.equivalent comp k a) eqn:Hka; try done.
    apply equivalent_key in Ha, Hka.
    assert (Std.equivalent comp k' k = true) by (apply equivalent_key; congruence).
    congruence.
Qed.

End NameMap.

Section Duplicates.

Local Abbreviation find := (Std.map_find StricmpPred).

Lemma find_after_insert m k v a :
  find (Std.map_insert m k v) a
  = if bool_decide (name_key k = name_key a) then Some v else find m a.
Proof.
  rewrite map_find_insert. pose proof (StricmpPred_equivalent k a) as H.
  destruct (Std.equivalent StricmpPred k a); case_bool_decide; try done.
  - by destruct H as [H _]; specialize (H eq_refl).
  - by destruct H as [_ H]; specialize (H ltac:(done)).
Qed.

Lemma find_after_assign m k v a old :
  find m k = Some old →
  find (Std.map_assign StricmpPred m k v) a
  = if bool_decide (name_key k = name_key a) then Some v else find m a.
Proof.
  intros Hold.
  rewrite (map_find_assign StricmpPred name_key StricmpPred_equivalent _ _ _ _ _ Hold).
  pose proof (StricmpPred_equivalent k a) as H.
  destruct (Std.equivalent StricmpPred k a); case_bool_decide; try done.
  - by destruct H as [H _]; specialize (H eq_refl).
  - by destruct H as [_ H]; specialize (H ltac:(done)).
Qed.

Lemma find_key m a b : name_key a = name_key b → find m a = find m b.
Proof. apply (map_find_key StricmpPred name_key StricmpPred_equivalent). Qed.

Lemma duplicate_indices_spec paths : ∀ path_index m rem,
  (∀ k v, find m k = Some v → (v < path_index)%nat) →
  (∀ k k' v, find m k = Some v → find m k' = Some v → name_key k = name_key k') →
  NoDup rem →
  (∀ i, i ∈ rem → (i < path_index)%nat ∧ ∀ k, find m k ≠ Some i) →
  let res := duplicate_indices paths path_index m rem in
  NoDup res
  ∧ ∀ i, i ∈ res ↔
      i ∈ rem
      ∨ (∃ t p, paths !! t = Some p ∧ find m (ExtractFileName p) = Some i)
      ∨ (∃ t t' p p', (t < t')%nat ∧ paths !! t = Some p ∧ paths !! t' = Some p'
           ∧ name_key (ExtractFileName p) = name_key (ExtractFileName p')
           ∧ i = (path_index + t)%nat).
Proof.
  induction paths as [|p0 paths IH]; intros path_index m rem Hlt Hinj Hnd Hrem.
  { cbn. split; [done|]. intros i. split; [by left|].
    intros [H|[(t & p & H & _)|(t & t' & p & p' & _ & H & _)]]; done. }
  cbn [duplicate_indices]. set (n0 := ExtractFileName p0).
  set (m' := match find m n0 with
             | None => Std.map_insert m n0 path_index
             | Some _ => Std.map_assign StricmpPred m n0 path_index
             end).
  set (rem' := match find m n0 with None => rem | Some v => rem ++ [v] end).
  assert (∀ a, find m' a
    = if bool_decide (name_key n0 = name_key a) then Some path_index else find m a)
    as Hfind'.
  { intros a. unfold m'. destruct (find m n0) eqn:H0.
    - by eapply find_after_assign.
    - apply find_after_insert. }
  assert (duplicate_indices paths (S path_index) m' rem'
          = match find m n0 with
            | None => duplicate_indices paths (S path_index)
                        (Std.map_insert m n0 path_index) rem
            | Some previous => duplicate_indices paths (S path_index)
                        (Std.map_assign StricmpPred m n0 path_index)
                        (rem ++ [previous])
            end) as <-.
  { unfold m', rem'. by destruct (find m n0). }
  assert (∀ i, i ∈ rem' ↔ i ∈ rem ∨ find m n0 = Some i) as Hrem'.
  { intros i. unfold rem'. destruct (find m n0) as [v|].
    - rewrite elem_of_app, list_elem_of_singleton.
      split; (intros [H|H]; [by left|right; congruence]).
    - split; [by left|]. by intros [H|H]. }
  destruct (IH (S path_index) m' rem') as [Hnd' Hres].
  - intros k v. rewrite Hfind'. case_bool_decide.
    + intros [= <-]. lia.
    + intros H'%Hlt. lia.
  - intros k k' v. rewrite !Hfind'. repeat case_bool_decide.
    + congruence.
    + intros [= <-] H'%Hlt. lia.
    + intros H'%Hlt [= <-]. lia.
    + apply Hinj.
  - unfold rem'. destruct (find m n0) as [v|] eqn:H0; [|done].
    apply NoDup_app. split; [done|]. split; [|apply NoDup_singleton].
    intros i Hi ->%list_elem_of_singleton. by destruct (Hrem _ Hi) as [_ []%(.$ n0)].
  - intros i [Hi|Hi]%Hrem'.
    + destruct (Hrem _ Hi) as [Hi1 Hi2]. split; [lia|].
      intros k. rewrite Hfind'. case_bool_decide; [|done].
      intros [= <-]. lia.
    + split; [apply Hlt in Hi; lia|].
      intros k. rewrite Hfind'. case_bool_decide.
      * intros [= <-]. apply Hlt in Hi. lia.
      * intros Hk. by specialize (Hinj _ _ _ Hi Hk).
  - split; [done|]. intros i. rewrite Hres, Hrem'. clear Hres. split.
    + intros [[H|H]|[(t & p & Hp & H)|(t & t' & p & p' & Htt & Hp & Hp' & HE & ->)]].
      * by left.
      * right; left. by exists 0%nat, p0.
      * rewrite Hfind' in H. case_bool_decide as HE.
        -- injection H as <-. right; right.
           exists 0%nat, (S t), p0, p. split_fields; try done; lia.
        -- right; left. by exists (S t), p.
      * right; right. exists (S t), (S t'), p, p'. split_fields; try done; lia.
    + intros [H|[(t & p & Hp & H)|(t & t' & p & p' & Htt & Hp & Hp' & HE & ->)]].
      * by left; left.
      * destruct t as [|t].
        -- injection Hp as <-. by left; right.
        -- cbn in Hp. destruct (decide (name_key n0 = name_key (ExtractFileName p)))
             as [HE|HE].
           ++ left; right. by rewrite (find_key _ _ _ HE).
           ++ right; left. exists t, p. split; [done|].
              rewrite Hfind'. by case_bool_decide.
      * destruct t' as [|t']; [lia|]. cbn in Hp'. destruct t as [|t].
        -- injection Hp as <-. right; left. exists t', p'. split; [done|].
           rewrite Hfind'. case_bool_decide; [|done]. f_equal; lia.
        -- cbn in Hp. right; right. exists t, t', p, p'.
           split_fields; try done; lia.
Qed.

Lemma duplicate_indices_all paths :
  let res := duplicate_indices paths 0 [] [] in
  NoDup res
  ∧ ∀ i, i ∈ res ↔
      ∃ p, paths !! i = Some p
        ∧ existsb (same_file_name p) (drop (S i) paths) = true.
Proof.
  destruct (duplicate_indices_spec paths 0 [] []) as [Hnd Hres]; try done.
  { constructor. }
  { by intros i ?%elem_of_nil. }
  split; [done|]. intros i. rewrite Hres. clear Hres. split.
  - intros [?%elem_of_nil|[(t & p & _ & ?)|(t & t' & p & p' & Htt & Hp & Hp' & HE & ->)]];
      try done.
    exists p. split; [done|]. apply existsb_exists. exists p'. split.
    + apply list_elem_of_In, list_elem_of_lookup. exists (t' - S t)%nat.
      rewrite lookup_drop, <- Hp'. f_equal. lia.
    + unfold same_file_name. apply Z.eqb_eq, wcsicmp_zero, StricmpPred_equivalent.
      done.
  - intros (p & Hp & (p' & Hin & HE)%existsb_exists).
    apply list_elem_of_In, list_elem_of_lookup in Hin as [d Hd].
    rewrite lookup_drop in Hd.
    right; right. exists i, (S i + d)%nat, p, p'. split_fields; try done; [lia|].
    apply Z.eqb_eq, wcsicmp_zero, StricmpPred_equivalent in HE. done.
Qed.

End Duplicates.

(** ** Removing by swapping with the last element *)

Section SwapRemove.
Context {A : Type}.

Lemma keep_mask_app keep (l1 : list A) : ∀ index l2,
  keep_mask keep index (l1 ++ l2)
  = keep_mask keep index l1 ++ keep_mask keep (index + length l1) l2.
Proof.
  induction l1 as [|x l1 IH]; intros index l2; cbn.
  - by rewrite Nat.add_0_r.
  - rewrite IH, <- Nat.add_succ_comm. by destruct (keep index).
Qed.

Lemma keep_mask_ext keep keep' (l : list A) : ∀ index,
  (∀ t, (t < length l)%nat → keep (index + t)%nat = keep' (index + t)%nat) →
  keep_mask keep index l = keep_mask keep' index l.
Proof.
  induction l as [|x l IH]; intros index H; cbn; [done|].
  rewrite (IH (S index)).
  - specialize (H 0%nat). rewrite Nat.add_0_r in H. rewrite H by (cbn; lia). done.
  - intros t Ht. rewrite Nat.add_succ_comm. apply H. cbn. lia.
Qed.

Lemma keep_mask_all keep (l : list A) : ∀ index,
  (∀ t, (t < length l)%nat → keep (index + t)%nat = true) →
  keep_mask keep index l = l.
Proof.
  induction l as [|x l IH]; intros index H; cbn; [done|].
  rewrite (IH (S index)).
  - specialize (H 0%nat). rewrite Nat.add_0_r in H. rewrite H by (cbn; lia). done.
  - intros t Ht. rewrite Nat.add_succ_comm. apply H. cbn. lia.
Qed.

End SwapRemove.

Section SwapRemovePaths.

Lemma swap_remove_middle pre x mid b :
  swap_remove (pre ++ x :: mid ++ [b]) (length pre) = pre ++ b :: mid.
Proof.
  unfold swap_remove.
  assert (length (pre ++ x :: mid ++ [b]) = S (length pre + length mid) + 1)%nat
    as Hlen by (rewrite !length_app; cbn; rewrite length_app; cbn; lia).
  rewrite Hlen.
  destruct (Nat.ltb_spec (length pre + 1) (S (length pre + length mid) + 1)); [|lia].
  replace (S (length pre + length mid) + 1 - 1)%nat
    with (length pre + S (length mid))%nat by lia.
  rewrite !lookup_app_r by lia. rewrite Nat.sub_diag.
  replace (length pre + S (length mid) - length pre)%nat with (S (length mid)) by lia.
  assert ((x :: mid ++ [b]) !! 0%nat = Some x) as -> by done.
  assert ((x :: mid ++ [b]) !! S (length mid) = Some b) as ->.
  { rewrite lookup_cons. by apply list_lookup_middle. }
  assert (<[(length pre + S (length mid))%nat := x]>
            (<[length pre := b]> (pre ++ x :: mid ++ [b]))
          = pre ++ b :: mid ++ [x]) as ->.
  { rewrite (insert_app_r_alt pre _ (length pre)) by lia.
    rewrite Nat.sub_diag, insert_app_r. cbn. do 2 f_equal.
    rewrite (insert_app_r_alt mid _ (length mid)) by lia.
    by rewrite Nat.sub_diag. }
  change (pre ++ b :: mid ++ [x]) with (pre ++ (b :: mid) ++ [x]).
  by rewrite app_assoc, removelast_last.
Qed.

Lemma swap_remove_last (pre : list (list Z)) x :
  swap_remove (pre ++ [x]) (length pre) = pre.
Proof.
  unfold swap_remove. rewrite length_app. cbn [length].
  destruct (Nat.ltb_spec (length pre + 1) (length pre + 1)); [lia|].
  apply removelast_last.
Qed.

Lemma swap_remove_spec l d :
  (d < length l)%nat →
  ∃ rest, swap_remove l d = take d l ++ rest ∧ rest ≡ₚ drop (S d) l.
Proof.
  intros Hd. destruct (lookup_lt_is_Some_2 l d Hd) as [x Hx].
  pose proof (take_drop_middle l d x Hx) as Hl.
  assert (length (take d l) = d) as Hpre by (rewrite length_take; lia).
  destruct (drop (S d) l) as [|b mid _] using rev_ind.
  - exists []. split; [|done].
    rewrite <- Hl at 1. rewrite <- Hpre at 2.
    by rewrite swap_remove_last, app_nil_r.
  - exists (b :: mid). split; [|apply Permutation_cons_append].
    rewrite <- Hl at 1. rewrite <- Hpre at 2.
    by rewrite swap_remove_middle.
Qed.

Lemma swap_remove_fold ds : ∀ l,
  StronglySorted (λ a b, (b < a)%nat) ds →
  (∀ d, d ∈ ds → (d < length l)%nat) →
  foldl swap_remove l ds ≡ₚ keep_mask (λ i, bool_decide (i ∉ ds)) 0 l.
Proof.
  induction ds as [|d ds IH]; intros l Hsorted Hbound; cbn [foldl].
  - rewrite keep_mask_all; [done|]. intros t _. apply bool_decide_eq_true.
    apply not_elem_of_nil.
  - apply StronglySorted_inv in Hsorted as [Hsorted Hd].
    rewrite Forall_forall in Hd.
    assert (d < length l)%nat as Hdl by (apply Hbound; left).
    destruct (swap_remove_spec l d Hdl) as (rest & Hswap & Hrest).
    assert (length (take d l) = d) as Hpre by (rewrite length_take; lia).
    destruct (lookup_lt_is_Some_2 l d Hdl) as [x Hx].
    assert (keep_mask (λ i, bool_decide (i ∉ d :: ds)) 0 l
            = keep_mask (λ i, bool_decide (i ∉ ds)) 0 (take d l) ++ drop (S d) l)
      as ->.
    { rewrite <- (take_drop_middle l d x Hx) at 1.
      rewrite keep_mask_app, Hpre, Nat.add_0_l. cbn [keep_mask].
      rewrite bool_decide_eq_false_2 by (intros H; apply H; left).
      f_equal.
      - apply keep_mask_ext. intros t Ht. rewrite Hpre in Ht. cbn.
        apply bool_decide_ext. rewrite not_elem_of_cons.
        split; [tauto|]. intros H. split; [lia|done].
      - apply keep_mask_all. intros t _. apply bool_decide_eq_true.
        rewrite not_elem_of_cons. split; [lia|]. intros H%Hd. lia. }
    rewrite IH; [|done|].
    + rewrite Hswap, keep_mask_app, Hpre, Nat.add_0_l. f_equiv.
      rewrite keep_mask_all; [done|].
      intros t _. apply bool_decide_eq_true. intros H%Hd. lia.
    + intros d' Hd'. pose proof (Hd _ Hd').
      rewrite Hswap, length_app, Hpre. lia.
Qed.

End SwapRemovePaths.

Section LastOccurrences.

Lemma keep_mask_last_occurrences l : ∀ index keep,
  (∀ t p, l !! t = Some p →
     keep (index + t)%nat = negb (existsb (same_file_name p) (drop (S t) l))) →
  keep_mask keep index l = last_occurrences l.
Proof.
  induction l as [|p l IH]; intros index keep H; cbn; [done|].
  rewrite (IH (S index) keep).
  - specialize (H 0%nat p eq_refl). rewrite Nat.add_0_r in H.
    change (drop 1 (p :: l)) with l in H. rewrite H.
    by destruct (existsb (same_file_name p) l).
  - intros t q Hq. rewrite Nat.add_succ_comm. by apply (H (S t)).
Qed.

Lemma StronglySorted_reverse {A} (R : A → A → Prop) l :
  StronglySorted R l → StronglySorted (λ a b, R b a) (reverse l).
Proof.
  induction 1 as [|x l Hl IH Hx]; [constructor|].
  rewrite reverse_cons. apply StronglySorted_app_2.
  - intros a b Ha ->%list_elem_of_singleton. rewrite Forall_forall in Hx.
    apply Hx. by apply elem_of_reverse.
  - done.
  - repeat constructor.
Qed.

Lemma ascending_strict l :
  ascending Nat.ltb l → NoDup l → StronglySorted lt l.
Proof.
  unfold ascending. induction 1 as [|x l Hl IH Hx]; intros Hnd; [constructor|].
  apply NoDup_cons in Hnd as [Hx' Hnd]. constructor; [by apply IH|].
  rewrite Forall_forall in Hx |- *. intros y Hy.
  specialize (Hx y Hy). apply Nat.ltb_ge in Hx.
  assert (x ≠ y) by (by intros ->). lia.
Qed.

Lemma RemoveFileNameDuplicates_last_occurrences paths :
  RemoveFileNameDuplicates paths ≡ₚ last_occurrences paths.
Proof.
  unfold RemoveFileNameDuplicates.
  destruct (duplicate_indices_all paths) as [Hnd Hres].
  set (res := duplicate_indices paths 0 [] []) in *.
  pose proof (sort_perm Nat.ltb res) as Hperm.
  assert (ascending Nat.ltb (Std.sort Nat.ltb res)) as Hasc.
  { apply sort_ascending.
    - intros a b H%Nat.ltb_lt. apply Nat.ltb_ge. lia.
    - intros a b c H1%Nat.ltb_ge H2%Nat.ltb_ge. apply Nat.ltb_ge. lia. }
  apply ascending_strict in Hasc; [|by rewrite Hperm].
  apply StronglySorted_reverse in Hasc.
  rewrite swap_remove_fold.
  - rewrite (keep_mask_last_occurrences paths 0 _); [done|].
    intros t p Hp. rewrite Nat.add_0_l.
    destruct (existsb (same_file_name p) (drop (S t) paths)) eqn:Hex; cbn.
    + apply bool_decide_eq_false. intros Hnot. apply Hnot.
      rewrite elem_of_reverse, Hperm. apply Hres. by exists p.
    + apply bool_decide_eq_true.
      rewrite elem_of_reverse, Hperm. intros (p' & Hp' & Hex')%Hres. congruence.
  - done.
  - intros d. rewrite elem_of_reverse, Hperm. intros (p & Hp & _)%Hres.
    by eapply lookup_lt_Some.
Qed.

End LastOccurrences.

(** ** The order of [StricmpPred] *)

Section NoCaseOrder.

Lemma wcsicmp_chars_range a : ∀ b, -1 ≤ wcsicmp_chars a b ≤ 1.
Proof.
  induction a as [|x a IH]; intros [|y b]; cbn; try lia.
  destruct (_ =? _); [apply IH|]. destruct (_ <? _); lia.
Qed.

Lemma wcsicmp_chars_trans a : ∀ b c,
  0 ≤ wcsicmp_chars a b → 0 ≤ wcsicmp_chars b c → 0 ≤ wcsicmp_chars a c.
Proof.
  induction a as [|x a IH]; intros [|y b] [|z c]; cbn; try lia.
  destruct (Z.eqb_spec (towlower x) (towlower y)) as [Hxy|Hxy],
    (Z.eqb_spec (towlower y) (towlower z)) as [Hyz|Hyz],
    (Z.eqb_spec (towlower x) (towlower z)) as [Hxz|Hxz];
    try congruence; try apply IH;
    repeat match goal with |- context [?u <? ?v] => destruct (Z.ltb_spec u v) end;
    lia.
Qed.

Lemma StricmpPred_asym a b : StricmpPred a b = true → StricmpPred b a = false.
Proof.
  unfold StricmpPred, _wcsicmp. rewrite (wcsicmp_chars_antisym (c_str a) (c_str b)).
  intros H%Z.ltb_lt. apply Z.ltb_ge. lia.
Qed.

Lemma StricmpPred_negtrans a b c :
  StricmpPred a b = false → StricmpPred b c = false → StricmpPred a c = false.
Proof.
  unfold StricmpPred, _wcsicmp. rewrite !Z.ltb_ge. apply wcsicmp_chars_trans.
Qed.

Lemma wcsicmp_chars_prefix p a b :
  wcsicmp_chars (p ++ a) (p ++ b) = wcsicmp_chars a b.
Proof. induction p as [|x p IH]; cbn; [done|]. by rewrite Z.eqb_refl. Qed.

Lemma c_str_app p q :
  c_str (p ++ q) = if bool_decide (0 ∈ p) then c_str p else p ++ c_str q.
Proof.
  induction p as [|x p IH]; cbn.
  - rewrite bool_decide_eq_false_2 by apply not_elem_of_nil. done.
  - destruct (Z.eqb_spec x 0) as [->|Hx].
    + rewrite bool_decide_eq_true_2 by left. done.
    + rewrite IH. case_bool_decide as Hin.
      * rewrite bool_decide_eq_true_2 by (by right). done.
      * rewrite bool_decide_eq_false_2; [done|].
        rewrite elem_of_cons. intros [?|?]; congruence.
Qed.

Lemma c_str_idemp s : c_str (c_str s) = c_str s.
Proof.
  induction s as [|x s IH]; cbn; [done|].
  destruct (Z.eqb_spec x 0); [done|]. cbn.
  destruct (Z.eqb_spec x 0); [done|]. by rewrite IH.
Qed.


Lemma c_str_no_nul s : 0 ∉ c_str s.
Proof.
  induction s as [|x s IH]; cbn; [apply not_elem_of_nil|].
  destruct (Z.eqb_spec x 0); [apply not_elem_of_nil|].
  rewrite elem_of_cons. intros [?|?]; [congruence|done].
Qed.

Lemma c_str_without_nul s : 0 ∉ s → c_str s = s.
Proof.
  induction s as [|x s IH]; cbn; [done|].
  rewrite elem_of_cons. intros H.
  destruct (Z.eqb_spec x 0) as [->|_]; [by destruct H; left|].
  rewrite IH; [done|]. intros ?. apply H. by right.
Qed.

Lemma string_list_no_nul fuel : ∀ memory,
  Forall (λ p, 0 ∉ p) (string_list fuel memory).
Proof.
  induction fuel as [|fuel IH]; intros memory; cbn; [constructor|].
  case_bool_decide; constructor; [apply c_str_no_nul|apply IH].
Qed.

Lemma StripTrailingSlash_no_nul p : 0 ∉ p → 0 ∉ StripTrailingSlash p.
Proof.
  intros Hp. unfold StripTrailingSlash.
  destruct (back p) as [c|]; [|done]. destruct (is_separator c); [|done].
  rewrite removelast_firstn_len. intros Hin. apply Hp.
  rewrite <- (take_drop (Init.Nat.pred (length p)) p), elem_of_app. by left.
Qed.

(** [CombinePath] with one prefix keeps the order of [StricmpPred]. *)
Lemma CombinePath_ascending subPath a b :
  0 ∉ a → 0 ∉ b →
  StricmpPred b a = false →
  StricmpPred (CombinePath subPath b) (CombinePath subPath a) = false.
Proof.
  intros Ha Hb. unfold StricmpPred, _wcsicmp. rewrite !Z.ltb_ge.
  rewrite (c_str_without_nul a Ha), (c_str_without_nul b Hb).
  intros Hba.
  assert (∃ joined : bool, ∀ n, 0 ∉ n →
            CombinePath subPath n
            = (if joined && negb (bool_decide (n = []))
               then subPath ++ [backslash] else subPath) ++ n)
    as (joined & Hjoin).
  { exists (negb (bool_decide (subPath = []))
            && negb (bool_decide (back subPath = Some backslash))
            && negb (bool_decide (back subPath = Some slash))).
    intros n Hn. unfold CombinePath. rewrite (c_str_without_nul n Hn).
    by destruct (negb (bool_decide (subPath = []))),
      (negb (bool_decide (n = []))),
      (negb (bool_decide (back subPath = Some backslash))),
      (negb (bool_decide (back subPath = Some slash))). }
  rewrite !Hjoin by done.
  destruct (decide (0 ∈ subPath)) as [Hnul|Hnul].
  { assert (∀ n, c_str ((if joined && negb (bool_decide (n = []))
                         then subPath ++ [backslash] else subPath) ++ n)
                 = c_str subPath) as Hboth.
    { intros n. destruct (_ && _); rewrite <- ?app_assoc, c_str_app;
        by rewrite bool_decide_eq_true_2. }
    rewrite !Hboth. rewrite (proj2 (wcsicmp_chars_zero _ _)); done. }
  assert (∀ tail, 0 ∉ tail → c_str (subPath ++ tail) = subPath ++ tail) as Hkeep.
  { intros tail Ht. apply c_str_without_nul. rewrite elem_of_app. tauto. }
  assert (0 ∉ [backslash]) as Hsep.
  { rewrite list_elem_of_singleton. done. }
  destruct joined; cbn [andb].
  2:{ rewrite !Hkeep by done. by rewrite wcsicmp_chars_prefix. }
  assert (bool_decide (@nil Z = []) = true) as Hnil by done.
  assert (∀ (c : Z) l, bool_decide (c :: l = []) = false) as Hcons by done.
  destruct a as [|x a], b as [|y b]; rewrite ?Hnil, ?Hcons; cbn [negb].
  - rewrite !Hkeep by apply not_elem_of_nil.
    rewrite wcsicmp_chars_prefix. cbn. lia.
  - rewrite <- app_assoc, !Hkeep by (rewrite ?elem_of_app; tauto).
    rewrite wcsicmp_chars_prefix. cbn. lia.
  - cbn in Hba. lia.
  - rewrite <- !app_assoc, !Hkeep by (rewrite ?elem_of_app; tauto).
    rewrite wcsicmp_chars_prefix. cbn [app wcsicmp_chars].
    by rewrite Z.eqb_refl.
Qed.

Lemma CombinePath_keeps_ascending subPath l :
  Forall (λ p, 0 ∉ p) l → ascending StricmpPred l →
  ascending StricmpPred (map (CombinePath subPath) l).
Proof.
  unfold ascending. intros Hnul Hl. induction Hl as [|x l Hl IH Hx]; cbn.
  - constructor.
  - apply Forall_cons in Hnul as [Hx0 Hnul]. constructor; [by apply IH|].
    rewrite Forall_forall in Hx, Hnul |- *.
    intros q (y & -> & Hy)%list_elem_of_fmap.
    apply CombinePath_ascending; auto.
Qed.

(** With paths kept, the paths in the archive are in ascending order. *)
Lemma archive_paths_ascending subPath addList :
  ascending StricmpPred
    (archive_paths_to_add true subPath (relative_paths_to_add true addList)).
Proof.
  unfold archive_paths_to_add, relative_paths_to_add. cbn [negb orb].
  apply CombinePath_keeps_ascending.
  - rewrite sort_perm. apply Forall_forall. intros p Hp.
    apply list_elem_of_omap in Hp as (q & Hq & [= <-]).
    apply StripTrailingSlash_no_nul.
    pose proof (string_list_no_nul (length addList) addList) as H.
    rewrite Forall_forall in H. by apply H.
  - apply sort_ascending; [apply StricmpPred_asym|apply StricmpPred_negtrans].
Qed.

End NoCaseOrder.

Section Superseded.

Lemma wcsicmp_zero_sym a b : _wcsicmp a b = 0 ↔ _wcsicmp b a = 0.
Proof.
  unfold _wcsicmp. rewrite (wcsicmp_chars_antisym (c_str a) (c_str b)). lia.
Qed.

(** On an ascending list the predicate that [PackFilesW] hands to
    [DeleteIf] holds exactly at the paths that [_wcsicmp] finds equal to
    one of the list. *)
Lemma superseded_ascending archive_paths this :
  ascending StricmpPred archive_paths →
  superseded archive_paths this = true
  ↔ ∃ p, p ∈ archive_paths ∧ _wcsicmp (last_header_path_ this) p = 0.
Proof.
  intros Hasc. unfold superseded.
  pose proof (lower_bound_finds StricmpPred StricmpPred_negtrans
                archive_paths (last_header_path_ this) Hasc) as Hfind.
  split.
  - destruct (archive_paths !! _) as [found|] eqn:Hfound; [|done].
    intros H%Z.eqb_eq. exists found. split; [|done].
    by eapply list_elem_of_lookup_2.
  - intros (p & Hp & Heq).
    destruct Hfind as [_ Hfind].
    destruct Hfind as (y & Hy & Hyv).
    { exists p. split; [done|]. by apply wcsicmp_zero, wcsicmp_zero_sym. }
    rewrite Hy. apply Z.eqb_eq. by apply wcsicmp_zero_sym, wcsicmp_zero.
Qed.

End Superseded.

(** ** The list of paths of a pack *)

(** C1.  With paths kept, the predicate that [PackFilesW] hands to
    [DeleteIf] holds exactly at the paths that [_wcsicmp] finds equal to
    one of the paths to add.  Without paths it can miss one: packing
    [A\z.txt] and [B\a.txt] into an archive that holds a live entry
    [a.txt] returns 0 and leaves that entry live, so that afterwards the
    archive holds two live entries of the path [a.txt], the old one and
    the appended one. *)
Theorem superseded_entry_missed_when_flattened :
  let after :=
    [stored (L "a.txt") [9]; stored (L "z.txt") [1; 2; 3];
     stored (L "a.txt") [7; 8]] in
  (∀ subPath addList this,
     superseded
       (archive_paths_to_add true subPath (relative_paths_to_add true addList))
       this = true
     ↔ ∃ p, p ∈ archive_paths_to_add true subPath
                  (relative_paths_to_add true addList)
          ∧ _wcsicmp (last_header_path_ this) p = 0)
  ∧ archive_paths_to_add false [] (relative_paths_to_add false flatten_list)
    = [L "z.txt"; L "a.txt"]
  ∧ superseded [L "z.txt"; L "a.txt"]
      (set_last_header_path_ (L "a.txt") new_archive) = false
  ∧ Forall (λ e, live e = true) flatten_before
  ∧ Exports.PackFilesW quiet_host stalling_zlib flatten_tree
      (Some (archive_bytes flatten_before)) true sample_archive_path []
      (L "C:\src") flatten_list 0 100
    = (Some 0, Some (archive_bytes after))
  ∧ filter (λ e, live e = true ∧ _wcsicmp (e_path e) (L "a.txt") = 0) after
    = [stored (L "a.txt") [9]; stored (L "a.txt") [7; 8]].
Proof.
  cbv zeta. split_fields.
  - intros subPath addList this. apply superseded_ascending.
    apply archive_paths_ascending.
  - vm_compute. reflexivity.
  - vm_compute. reflexivity.
  - repeat constructor.
  - vm_compute. reflexivity.
  - vm_compute. reflexivity.
Qed.

(** C2.  With paths kept, the paths in the archive of the candidates are
    in ascending order of [StricmpPred] after the sort.  Without paths
    they need not be: for the list [A\z.txt], [B\a.txt] the candidates
    after the removal of duplicates and the sort are in the order of their
    relative paths, and their paths in the archive, [z.txt] and [a.txt],
    are not in ascending order; the bisection for [a.txt] in them ends at
    [z.txt]. *)
Theorem archive_paths_ascending_unless_flattened :
  let relative := relative_paths_to_add false flatten_list in
  let archive_paths := archive_paths_to_add false [] relative in
  (∀ subPath addList,
     ascending StricmpPred
       (archive_paths_to_add true subPath (relative_paths_to_add true addList)))
  ∧ relative = [L "A\z.txt"; L "B\a.txt"]
  ∧ archive_paths = [L "z.txt"; L "a.txt"]
  ∧ ¬ ascending StricmpPred archive_paths
  ∧ archive_paths !! Std.lower_bound StricmpPred archive_paths (L "a.txt")
    = Some (L "z.txt").
Proof.
  cbv zeta. split_fields.
  - apply archive_paths_ascending.
  - vm_compute. reflexivity.
  - vm_compute. reflexivity.
  - assert (archive_paths_to_add false [] (relative_paths_to_add false flatten_list)
            = [L "z.txt"; L "a.txt"]) as -> by (vm_compute; reflexivity).
    intros H. apply StronglySorted_inv in H as [_ H].
    apply Forall_inv in H. vm_compute in H. discriminate H.
  - vm_compute. reflexivity.
Qed.


(** ** The statements at the sample inputs *)



(** Erasing [dir\*.*], in small letters: the two entries below [Dir]
    and [DIR] are tombstoned, the file [Director.txt] is left, and the
    deletion set matches [DIR\sub\b.txt] because [DIR] followed by a
    backslash begins its upper-cased path. *)
Lemma erase_matches_ancestors_sample :
  Exports.DeleteFilesW quiet_host (Some (archive_bytes mixed_case_sample))
    sample_archive_path mixed_case_list 4
  = (Some 0,
     Some (archive_bytes
       [tombstone (stored (L "Dir\A.txt") [1; 2]);
        tombstone (stored (L "DIR\sub\b.txt") [3]);
        stored (L "Director.txt") [4]]))
  ∧ ShouldDelete (L "DIR\sub\b.txt") (paths_to_delete_of mixed_case_list) = true
  ∧ ShouldDelete (L "Director.txt") (paths_to_delete_of mixed_case_list) ≠ true.
Proof.
  destruct (erase_matches_ancestors quiet_host mixed_case_sample
              sample_archive_path mixed_case_list 4)
    as ((code & k & _ & Hrun & Hcode) & Hiff & _).
  - repeat constructor; vm_compute; done.
  - cbn. lia.
  - split; [|split].
    + destruct Hcode as [(-> & ->)|(_ & Hcancel)].
      * rewrite Hrun. vm_compute. reflexivity.
      * destruct Hcancel. intros proc [H|[_ H]]; discriminate H.
    + apply Hiff. exists (L "dir\*.*"). split; [|split].
      * vm_compute. apply list_elem_of_here.
      * vm_compute. discriminate.
      * right. exists 92, (L "SUB\B.TXT"). split; [by left|].
        vm_compute. reflexivity.
    + rewrite Hiff. intros (d & Hd & _ & Hbelow).
      vm_compute in Hd. apply list_elem_of_singleton in Hd. subst d.
      vm_compute in Hbelow.
      destruct Hbelow as [H|(sep & rest & [-> | ->] & H)]; discriminate H.
Defined.

(** An erase of [Dir\*.*] leaves a live entry [Dir\A.txt] as it is in
    two cases: a tombstone before it declares a size of 2^64 - 1000 and
    the seek past it fails, the erase returning [E_NOT_SUPPORTED]; and
    the host answers the first progress report with 0, the erase
    returning [E_EABORTED]. *)
Lemma erase_leaves_a_matched_entry :
  ShouldDelete (L "Dir\A.txt") (paths_to_delete_of erase_sample_list) = true
  ∧ live (stored (L "Dir\A.txt") [1; 2]) = true
  ∧ blocked_archive
    = kFileHeader ++ header_bytes (backward_tombstone 1000)
      ++ wchars_bytes (L "t") ++ entry_bytes (stored (L "Dir\A.txt") [1; 2])
  ∧ Exports.DeleteFilesW quiet_host (Some blocked_archive) sample_archive_path
      erase_sample_list 4
    = (Some E_NOT_SUPPORTED, Some blocked_archive)
  ∧ erase_sample !! 0%nat = Some (stored (L "Dir\A.txt") [1; 2])
  ∧ Exports.DeleteFilesW cancelling_host (Some (archive_bytes erase_sample))
      sample_archive_path erase_sample_list 4
    = (Some E_EABORTED, Some (archive_bytes erase_sample)).
Proof.
  split; [vm_compute; reflexivity|]. split; [reflexivity|].
  split; [reflexivity|]. split; [vm_compute; reflexivity|].
  split; [reflexivity|]. vm_compute. reflexivity.
Defined.

(** Reading the next header where a tombstoned entry comes first, the
    host having no callback: the live entry behind it is reported. *)
Lemma next_header_skips_tombstones_sample :
  ∃ s',
    Exports.ReadHeaderExW quiet_host listing_sample (header_data zero_header []) 2
    = (Some 0, header_data (entry_header (stored (L "new.txt") [6])) (L "new.txt"),
       s').
Proof.
  destruct (next_header_skips_tombstones quiet_host listing_sample
              (header_data zero_header []) 2 kFileHeader
              [tombstone (stored (L "old.txt") [5])]
              (Some (stored (L "new.txt") [6])) [])
    as [(code & data & s' & Hrun & [(_ & _ & Hcancel)|(-> & -> & _)]) _].
  - repeat constructor; vm_compute; done.
  - repeat constructor.
  - cbn. lia.
  - split; [repeat constructor; vm_compute; done|reflexivity].
  - reflexivity.
  - destruct Hcancel. intros proc [H|[_ H]]; discriminate H.
  - exists s'. exact Hrun.
Defined.

(** [ReadHeaderExW] neither goes on to a further entry nor signals the
    end of the archive in two cases: before a tombstone that declares a
    size of 2^64 - 1000 the seek past it fails, and the call returns
    [E_NOT_SUPPORTED] where no live entry follows; and where the host
    answers a progress report with 0, the call returns [E_EABORTED]
    though a live entry follows the tombstone. *)
Lemma next_header_stops_at_tombstone :
  (∃ f, archive_file_ unreadable_sample = Some f
        ∧ drop (cursor f) (contents f)
          = header_bytes (backward_tombstone 1000) ++ wchars_bytes (L "t"))
  ∧ (Exports.ReadHeaderExW quiet_host unreadable_sample blank_header_data 5).1
    = (Some E_NOT_SUPPORTED, blank_header_data)
  ∧ E_NOT_SUPPORTED ≠ E_END_ARCHIVE
  ∧ (Exports.ReadHeaderExW impatient_host listing_sample blank_header_data 5).1
    = (Some E_EABORTED, blank_header_data).
Proof.
  split; [eexists; split; reflexivity|].
  split; [vm_compute; reflexivity|]. split; [discriminate|].
  vm_compute. reflexivity.
Defined.

(** A whole header of zeros at the cursor: the magic differs, and the
    decoder fails with [E_BAD_ARCHIVE]. *)
Lemma entry_header_decoder_cases_sample :
  (ReadEntryHeader zeros_sample).1 = Exc E_BAD_ARCHIVE.
Proof.
  rewrite (entry_header_decoder_cases zeros_sample
             {| contents := kFileHeader ++ replicate 28 0;
                cursor := length kFileHeader |} eq_refl).
  vm_compute. reflexivity.
Defined.

(** Five bytes are available at the cursor and they are not the magic of
    an entry, yet the decoder signals the end of the archive. *)
Lemma entry_header_decoder_short_header :
  (∃ f, archive_file_ truncated_sample = Some f
        ∧ drop (cursor f) (contents f) = [1; 2; 3; 4; 5]
        ∧ le_value (take 4 (drop (cursor f) (contents f))) ≠ kEntryMagic)
  ∧ (ReadEntryHeader truncated_sample).1 = Val false.
Proof.
  split; [|vm_compute; reflexivity].
  eexists. split; [reflexivity|]. split; [reflexivity|].
  vm_compute. discriminate.
Defined.

(** A stalled round in which zlib answers [Z_BUF_ERROR]: the round fails
    with [E_BAD_DATA]. *)
Lemma stalled_decode_round_is_last_sample :
  (inflate_round quiet_host stalling_zlib stalled_round unpacking_sample).1
  = Exc E_BAD_DATA.
Proof.
  destruct (stalled_decode_round_is_last quiet_host stalling_zlib stalled_round
              unpacking_sample) as [(cancelled & _ & Hround) _].
  - reflexivity.
  - vm_compute. reflexivity.
  - rewrite Hround. reflexivity.
Defined.

(** Decoding an entry whose first round stalls, zlib answering
    [Z_BUF_ERROR]: the operation fails with [E_BAD_DATA], not with
    [E_BAD_ARCHIVE]. *)
Lemma stalled_decode_fails_with_bad_data :
  bool_decide (in_avail stalling_zlib stalled_round = [])
  && (src_bytes_left stalling_zlib stalled_round >? 0) = false
  ∧ (inflate stalling_zlib tt [] 0).1.2 = []
  ∧ (UnpackFileContent quiet_host stalling_zlib 0 0 true 5 unpacking_sample).1
    = Exc E_BAD_DATA
  ∧ E_BAD_DATA ≠ E_BAD_ARCHIVE.
Proof.
  split; [reflexivity|]. split; [reflexivity|].
  split; [vm_compute; reflexivity|discriminate].
Defined.

Lemma framing_zlib_takes_every_piece : takes_every_piece framing_zlib.
Proof. intros state avail flush. eexists _, _. reflexivity. Qed.

(** Packing the file of 16 bytes with a zlib that copies its input
    behind one byte: it is packed with the flag Compressed, the 17 bytes
    that zlib gave as payload and 17 as [pack_size].  Packing the file of
    15 bytes: it is stored as it is, without the flag. *)
Lemma pack_file_compression_policy_sample :
  (∃ s' f',
     PackFile framing_zlib threshold_tree (L "C:\src\f16") (L "f16") false 17
       packing_sample = (Val false, s')
     ∧ archive_file_ s' = Some f'
     ∧ contents f'
       = kFileHeader
         ++ header_bytes
              {| magic := kEntryMagic; flags := kEntryFlagCompressed;
                 attributes := FILE_ATTR_ARCHIVE; time := 0; pack_size := 17;
                 unp_size := 16; path_len := 3 |}
         ++ wchars_bytes (L "f16") ++ 120 :: sixteen_bytes)
  ∧ (∃ s' f',
       PackFile framing_zlib threshold_tree (L "C:\src\f15") (L "f15") false 17
         packing_sample = (Val false, s')
       ∧ archive_file_ s' = Some f'
       ∧ contents f'
         = kFileHeader
           ++ header_bytes
                {| magic := kEntryMagic; flags := 0;
                   attributes := FILE_ATTR_ARCHIVE; time := 0; pack_size := 15;
                   unp_size := 15; path_len := 3 |}
           ++ wchars_bytes (L "f15") ++ fifteen_bytes).
Proof.
  split.
  - destruct (pack_file_compression_policy framing_zlib threshold_tree
                packing_sample kFileHeader (L "C:\src\f16") (L "f16") false
                (small_file sixteen_bytes) sixteen_bytes 0)
      as (Hpacked & _ & Hruns & Hpieces & _).
    + reflexivity.
    + vm_compute. reflexivity.
    + reflexivity.
    + reflexivity.
    + reflexivity.
    + reflexivity.
    + reflexivity.
    + destruct (Hruns eq_refl 17%nat) as (s' & Hrun).
      specialize (Hpieces eq_refl framing_zlib_takes_every_piece tt eq_refl
                    eq_refl 17%nat).
      rewrite Hpieces in Hrun by (vm_compute; lia).
      destruct (Hpacked 17%nat false s' Hrun)
        as (_ & f' & pack & payload & Hf & Hc & _ & -> & Hpayload).
      cbn match in Hpayload. rewrite Hpieces in Hpayload by (vm_compute; lia).
      injection Hpayload as <-.
      exists s', f'. split; [exact Hrun|]. split; [exact Hf|].
      rewrite Hc. vm_compute. reflexivity.
  - destruct (pack_file_compression_policy framing_zlib threshold_tree
                packing_sample kFileHeader (L "C:\src\f15") (L "f15") false
                (small_file fifteen_bytes) fifteen_bytes 0)
      as (Hpacked & Hruns & _).
    + reflexivity.
    + vm_compute. reflexivity.
    + reflexivity.
    + reflexivity.
    + reflexivity.
    + reflexivity.
    + reflexivity.
    + destruct (Hruns eq_refl 17%nat) as (s' & Hrun); [vm_compute; lia|].
      destruct (Hpacked 17%nat false s' Hrun)
        as (_ & f' & pack & payload & Hf & Hc & _ & _ & Hpayload).
      cbn match in Hpayload. destruct Hpayload as [-> ->].
      exists s', f'. split; [exact Hrun|]. split; [exact Hf|].
      rewrite Hc. vm_compute. reflexivity.
Defined.

(** An erase with an empty list where no archive is stored, the host
    having no callback: the operation returns 0 and nothing is stored
    afterwards. *)
Lemma erase_nothing_opens_no_file_sample :
  Exports.DeleteFilesW quiet_host None sample_archive_path [0] 0 = (Some 0, None).
Proof.
  apply (erase_nothing_opens_no_file quiet_host None sample_archive_path [0] 0).
  reflexivity.
Defined.

(** The same erase with a host whose callback answers 0: the operation
    returns [E_EABORTED]. *)
Lemma erase_nothing_cancelled :
  string_list (length [0]) [0] = []
  ∧ Exports.DeleteFilesW cancelling_host None sample_archive_path [0] 0
    = (Some E_EABORTED, None)
  ∧ E_EABORTED ≠ 0.
Proof.
  split; [reflexivity|]. split; [vm_compute; reflexivity|discriminate].
Defined.

(** * Further properties of the engine

    ** Paths, names and percentages: [utils.cpp] *)

(** X1.  [CalcPercent number count], for [number] between 0 and a
    positive [count] and as long as [number * 100 + count / 2] fits 64
    bits, is the percentage rounded to the nearest whole number: it lies
    between 0 and 100, differs from the exact [100 * number / count] by at
    most one half, is 0 for [number = 0] and 100 for [number = count]. *)
Theorem CalcPercent_nearest number count :
  0 < count → 0 ≤ number ≤ count → number * 100 + count / 2 < 2 ^ 64 →
  0 ≤ CalcPercent number count ≤ 100
  ∧ 2 * Z.abs (CalcPercent number count * count - number * 100) ≤ count
  ∧ (number = 0 → CalcPercent number count = 0)
  ∧ (number = count → CalcPercent number count = 100).
Proof.
  intros Hc Hn Hmax. unfold CalcPercent.
  destruct (Z.eqb_spec count 0) as [?|_]; [lia|].
  assert (0 ≤ count / 2) by (apply Z.div_pos; lia).
  assert (2 * (count / 2) ≤ count) by (apply Z.mul_div_le; lia).
  assert (count < 2 * (count / 2) + 2).
  { pose proof (Z.div_mod count 2 ltac:(lia)).
    pose proof (Z.mod_pos_bound count 2 ltac:(lia)). lia. }
  rewrite !(Z.mod_small _ (2 ^ 64)) by lia.
  set (q := (number * 100 + count / 2) / count).
  pose proof (Z.div_mod (number * 100 + count / 2) count ltac:(lia)) as Hdm.
  pose proof (Z.mod_pos_bound (number * 100 + count / 2) count ltac:(lia)) as Hr.
  fold q in Hdm.
  assert (0 ≤ q) by (apply Z.div_pos; lia).
  split_fields.
  - done.
  - assert (q < 101) by (apply Z.div_lt_upper_bound; lia). lia.
  - nia.
  - intros ->. nia.
  - intros ->. nia.
Qed.

Lemma land_one_bit a k :
  0 ≤ k → Z.land a (2 ^ k) = 0 ∨ Z.land a (2 ^ k) = 2 ^ k.
Proof.
  intros Hk.
  assert (Z.land a (2 ^ k) = if Z.testbit a k then 2 ^ k else 0) as ->.
  { apply Z.bits_inj'. intros n Hn.
    rewrite Z.land_spec, Z.pow2_bits_eqb by done.
    destruct (Z.eqb_spec k n) as [->|Hne].
    - destruct (Z.testbit a n) eqn:Ha; cbn.
      + by rewrite Z.pow2_bits_true.
      + by rewrite Z.bits_0.
    - rewrite andb_false_r. destruct (Z.testbit a k).
      + by rewrite Z.pow2_bits_false.
      + by rewrite Z.bits_0. }
  destruct (Z.testbit a k); auto.
Qed.

Lemma WindowsAttributesToWcxAttributes_land windows_attr :
  WindowsAttributesToWcxAttributes windows_attr = Z.land windows_attr 55
  ∧ 0 ≤ Z.land windows_attr 55 < 64.
Proof.
  pose proof (land_one_bit windows_attr 0 ltac:(lia)) as H0.
  pose proof (land_one_bit windows_attr 1 ltac:(lia)) as H1.
  pose proof (land_one_bit windows_attr 2 ltac:(lia)) as H2.
  pose proof (land_one_bit windows_attr 4 ltac:(lia)) as H4.
  pose proof (land_one_bit windows_attr 5 ltac:(lia)) as H5.
  change (2 ^ 0) with 1 in H0. change (2 ^ 1) with 2 in H1.
  change (2 ^ 2) with 4 in H2. change (2 ^ 4) with 16 in H4.
  change (2 ^ 5) with 32 in H5.
  assert (Z.land windows_attr 55
          = Z.lor (Z.land windows_attr 1)
              (Z.lor (Z.land windows_attr 2)
                 (Z.lor (Z.land windows_attr 4)
                    (Z.lor (Z.land windows_attr 16) (Z.land windows_attr 32)))))
    as Hmask.
  { rewrite <- !Z.land_lor_distr_r. done. }
  rewrite Hmask. unfold WindowsAttributesToWcxAttributes.
  change FILE_ATTRIBUTE_READONLY with 1. change FILE_ATTRIBUTE_HIDDEN with 2.
  change FILE_ATTRIBUTE_SYSTEM with 4. change FILE_ATTRIBUTE_DIRECTORY with 16.
  change FILE_ATTRIBUTE_ARCHIVE with 32.
  destruct H0 as [-> | ->], H1 as [-> | ->], H2 as [-> | ->],
    H4 as [-> | ->], H5 as [-> | ->]; done.
Qed.

Lemma wcx_attributes_directory windows_attr :
  Z.land (WindowsAttributesToWcxAttributes windows_attr) FILE_ATTR_DIRECTORY
  = Z.land windows_attr FILE_ATTRIBUTE_DIRECTORY.
Proof.
  rewrite (proj1 (WindowsAttributesToWcxAttributes_land windows_attr)).
  rewrite <- Z.land_assoc. done.
Qed.

(** X2.  [WindowsAttributesToWcxAttributes] keeps the five bits
    ReadOnly, Hidden, System, Directory and Archive of the Windows
    attributes at their places and drops every other bit; in particular
    the result is below 64 and tells a directory exactly when the Windows
    attributes do. *)
Theorem WindowsAttributesToWcxAttributes_mask windows_attr :
  WindowsAttributesToWcxAttributes windows_attr
  = Z.land windows_attr
      (FILE_ATTR_READ_ONLY + FILE_ATTR_HIDDEN + FILE_ATTR_SYSTEM
       + FILE_ATTR_DIRECTORY + FILE_ATTR_ARCHIVE)
  ∧ 0 ≤ WindowsAttributesToWcxAttributes windows_attr < 64
  ∧ (Z.land (WindowsAttributesToWcxAttributes windows_attr) FILE_ATTR_DIRECTORY = 0
     ↔ Z.land windows_attr FILE_ATTRIBUTE_DIRECTORY = 0).
Proof.
  destruct (WindowsAttributesToWcxAttributes_land windows_attr) as [Heq Hrange].
  split; [exact Heq|]. split; [by rewrite Heq|].
  by rewrite wcx_attributes_directory.
Qed.

Section Paths.

(** X3.  [UpDir] and [ExtractFileName] cut a path at its last
    separator: the file name holds no separator; a path with a separator
    is [UpDir path], one separator and [ExtractFileName path]; for a path
    without one [UpDir] gives the empty string and [ExtractFileName] the
    whole path. *)
Theorem UpDir_ExtractFileName_split path :
  Forall (λ c, is_separator c = false) (ExtractFileName path)
  ∧ (if existsb is_separator path
     then ∃ sep, is_separator sep = true
            ∧ path = UpDir path ++ sep :: ExtractFileName path
     else UpDir path = [] ∧ ExtractFileName path = path).
Proof.
  unfold UpDir, ExtractFileName.
  destruct (find_last_of_separator path) as [i|] eqn:Hfind.
  - destruct (find_last_of_separator_some _ _ Hfind) as (sep & Hsep & Hs & Hrest).
    split; [done|].
    assert (existsb is_separator path = true) as ->.
    { apply existsb_exists. exists sep. split; [|done].
      apply list_elem_of_In. rewrite Hs, elem_of_app. right. left. }
    by exists sep.
  - apply find_last_of_separator_none in Hfind. split; [done|].
    assert (existsb is_separator path = false) as ->; [|done].
    apply not_true_is_false. intros (c & Hin & Hc)%existsb_exists.
    rewrite Forall_forall in Hfind. apply list_elem_of_In in Hin.
    specialize (Hfind c Hin). congruence.
Qed.

Lemma c_str_id s : 0 ∉ s → c_str s = s.
Proof. apply c_str_without_nul. Qed.

(** X4.  A name without separator and without NUL that [CombinePath]
    joins to a path is found again by [ExtractFileName], and [UpDir] gives
    back the path without its one trailing separator. *)
Theorem CombinePath_parts path name :
  name ≠ [] → 0 ∉ name → Forall (λ c, is_separator c = false) name →
  ExtractFileName (CombinePath path name) = name
  ∧ UpDir (CombinePath path name) = StripTrailingSlash path.
Proof.
  intros Hne Hnul Hname. unfold CombinePath, ExtractFileName, UpDir.
  rewrite (c_str_id name Hnul).
  apply find_last_of_separator_none in Hname.
  rewrite (bool_decide_eq_false_2 (name = [])) by done. cbn [negb].
  rewrite andb_true_r.
  assert (is_separator backslash = true) as Hbs by done.
  destruct (back_snoc_cases path) as [[-> Hback]|(p & c & -> & Hback)].
  - cbn. rewrite Hname. done.
  - unfold StripTrailingSlash. rewrite Hback.
    rewrite (bool_decide_eq_false_2 (p ++ [c] = [])) by (by destruct p).
    cbn [negb andb].
    destruct (is_separator c) eqn:Hc.
    + assert (negb (bool_decide (Some c = Some backslash))
              && negb (bool_decide (Some c = Some slash)) = false) as ->.
      { unfold is_separator in Hc. apply orb_true_iff in Hc as [Hc|Hc];
          apply Z.eqb_eq in Hc; subst c.
        - by rewrite bool_decide_eq_true_2.
        - rewrite (bool_decide_eq_true_2 (Some slash = Some slash)) by done.
          by rewrite andb_false_r. }
      rewrite <- app_assoc. cbn [app].
      rewrite find_last_of_separator_app. cbn [find_last_of_separator].
      rewrite Hname, Hc, Nat.add_0_r, take_app_length.
      rewrite <- Nat.add_1_r, drop_app_add. cbn [drop].
      by rewrite removelast_last.
    + assert (negb (bool_decide (Some c = Some backslash))
              && negb (bool_decide (Some c = Some slash)) = true) as ->.
      { unfold is_separator in Hc. apply orb_false_iff in Hc as [Hc1 Hc2].
        apply Z.eqb_neq in Hc1, Hc2.
        rewrite !bool_decide_eq_false_2; [done|congruence|congruence]. }
      rewrite <- (app_assoc (p ++ [c])). cbn [app].
      rewrite find_last_of_separator_app. cbn [find_last_of_separator].
      rewrite Hname, Hbs, Nat.add_0_r, take_app_length.
      by rewrite <- Nat.add_1_r, drop_app_add.
Qed.

End Paths.

Section Case.

Lemma towlower_towupper_agree x y :
  towlower x = towlower y ↔ towupper x = towupper y.
Proof.
  unfold towlower, towupper.
  destruct (Z.leb_spec 65 x), (Z.leb_spec x 90), (Z.leb_spec 65 y),
    (Z.leb_spec y 90), (Z.leb_spec 97 x), (Z.leb_spec x 122),
    (Z.leb_spec 97 y), (Z.leb_spec y 122); cbn [andb]; lia.
Qed.

Lemma map_towlower_towupper a : ∀ b,
  map towlower a = map towlower b ↔ UpperCase a = UpperCase b.
Proof.
  unfold UpperCase.
  induction a as [|x a IH]; intros [|y b]; cbn; try done.
  split; intros [= Hxy Hab].
  - f_equal; [by apply towlower_towupper_agree|by apply IH].
  - f_equal; [by apply towlower_towupper_agree|by apply IH].
Qed.

(** X5.  The two case-blind comparisons of the engine agree:
    [_wcsicmp], which the packer compares with, finds two strings equal
    exactly when their [UpperCase] forms, which the eraser compares, are
    the same (up to the first NUL). *)
Theorem wcsicmp_agrees_with_UpperCase a b :
  _wcsicmp a b = 0 ↔ UpperCase (c_str a) = UpperCase (c_str b).
Proof.
  unfold _wcsicmp. rewrite wcsicmp_chars_zero. apply map_towlower_towupper.
Qed.

(** X6.  [StricmpPred] is a strict weak ordering, as [std::sort],
    [std::lower_bound] and [std::map] require of their comparison: it is
    irreflexive, asymmetric and transitive, incomparability is transitive,
    and two strings are incomparable exactly when [_wcsicmp] finds them
    equal. *)
Theorem StricmpPred_strict_weak_order :
  (∀ a, StricmpPred a a = false)
  ∧ (∀ a b, StricmpPred a b = true → StricmpPred b a = false)
  ∧ (∀ a b c, StricmpPred a b = true → StricmpPred b c = true →
       StricmpPred a c = true)
  ∧ (∀ a b c, StricmpPred a b = false → StricmpPred b c = false →
       StricmpPred a c = false)
  ∧ (∀ a b, StricmpPred a b = false ∧ StricmpPred b a = false
       ↔ _wcsicmp a b = 0).
Proof.
  split_fields.
  - intros a. destruct (StricmpPred a a) eqn:H; [|done].
    by rewrite (StricmpPred_asym _ _ H) in H.
  - apply StricmpPred_asym.
  - intros a b c Hab Hbc.
    destruct (StricmpPred a c) eqn:Hac; [done|].
    pose proof (StricmpPred_asym _ _ Hab) as Hba.
    assert (StricmpPred b a = true → False) as _ by (by rewrite Hba).
    destruct (StricmpPred c b) eqn:Hcb.
    + by rewrite (StricmpPred_asym _ _ Hcb) in Hbc.
    + pose proof (StricmpPred_negtrans _ _ _ Hac Hcb). congruence.
  - apply StricmpPred_negtrans.
  - intros a b. rewrite wcsicmp_zero. unfold Std.equivalent.
    rewrite andb_true_iff, !negb_true_iff. done.
Qed.

End Case.

Section Dedup.

Lemma same_file_name_key p q :
  same_file_name p q = true
  ↔ name_key (ExtractFileName p) = name_key (ExtractFileName q).
Proof.
  unfold same_file_name, name_key, _wcsicmp.
  rewrite Z.eqb_eq. apply wcsicmp_chars_zero.
Qed.

Lemma last_occurrences_elem paths p :
  p ∈ last_occurrences paths → p ∈ paths.
Proof.
  induction paths as [|q paths IH]; cbn; [done|].
  destruct (existsb (same_file_name q) paths).
  - intros H. right. by apply IH.
  - rewrite !elem_of_cons. intros [->|H]; [by left|right; by apply IH].
Qed.

Lemma last_occurrences_covers paths :
  ∀ p, p ∈ paths →
  ∃ q, q ∈ last_occurrences paths ∧ same_file_name p q = true.
Proof.
  induction paths as [|r paths IH]; intros p; [by intros ?%elem_of_nil|].
  assert (∀ x, x ∈ paths →
            ∃ q, q ∈ last_occurrences (r :: paths) ∧ same_file_name x q = true)
    as Hlater.
  { intros x Hx. destruct (IH x Hx) as (q & Hq & Hsame). exists q.
    split; [|done]. cbn. destruct (existsb _ _); [done|by right]. }
  rewrite elem_of_cons. intros [->|Hp]; [|by apply Hlater].
  cbn. destruct (existsb (same_file_name r) paths) eqn:Hex.
  - apply existsb_exists in Hex as (x & Hx%list_elem_of_In & Hsame).
    destruct (IH x Hx) as (q & Hq & Hxq). exists q. split; [done|].
    apply same_file_name_key. apply same_file_name_key in Hsame, Hxq. congruence.
  - exists r. split; [by left|]. by apply same_file_name_key.
Qed.

Lemma last_occurrences_distinct paths :
  NoDup (map (λ p, name_key (ExtractFileName p)) (last_occurrences paths)).
Proof.
  induction paths as [|r paths IH]; cbn; [constructor|].
  destruct (existsb (same_file_name r) paths) eqn:Hex; [done|].
  cbn. constructor; [|done].
  intros (q & Hkey & Hq)%list_elem_of_fmap.
  apply last_occurrences_elem in Hq.
  assert (existsb (same_file_name r) paths = true); [|congruence].
  apply existsb_exists. exists q. split; [by apply list_elem_of_In|].
  by apply same_file_name_key.
Qed.

(** X7.  [RemoveFileNameDuplicates] leaves a list in which no two
    paths have the same file name for [_wcsicmp]; every path left was in
    the list, and every file name of the list is still the file name of a
    path left. *)
Theorem RemoveFileNameDuplicates_distinct_names paths :
  let kept := RemoveFileNameDuplicates paths in
  (∀ p, p ∈ kept → p ∈ paths)
  ∧ (∀ p, p ∈ paths → ∃ q, q ∈ kept ∧ _wcsicmp (ExtractFileName p) (ExtractFileName q) = 0)
  ∧ (∀ i j p q, kept !! i = Some p → kept !! j = Some q →
       _wcsicmp (ExtractFileName p) (ExtractFileName q) = 0 → i = j)
  ∧ (length kept ≤ length paths)%nat.
Proof.
  intros kept.
  pose proof (RemoveFileNameDuplicates_last_occurrences paths) as Hperm.
  fold kept in Hperm. split_fields.
  - intros p. rewrite Hperm. apply last_occurrences_elem.
  - intros p Hp. destruct (last_occurrences_covers paths p Hp) as (q & Hq & Hs).
    exists q. rewrite Hperm. split; [done|]. by apply Z.eqb_eq.
  - intros i j p q Hi Hj Hsame.
    assert (NoDup (map (λ p, name_key (ExtractFileName p)) kept)) as Hnd.
    { rewrite Hperm. apply last_occurrences_distinct. }
    eapply NoDup_lookup; [exact Hnd| |].
    + rewrite list_lookup_fmap, Hi. reflexivity.
    + rewrite list_lookup_fmap, Hj. cbn. f_equal. symmetry.
      apply same_file_name_key. by apply Z.eqb_eq.
  - rewrite Hperm. clear. induction paths as [|r paths IH]; cbn; [done|].
    destruct (existsb _ _); cbn; lia.
Qed.

End Dedup.

Section StringList.

Lemma c_str_app_nul s rest : 0 ∉ s → c_str (s ++ 0 :: rest) = s.
Proof.
  intros Hs. rewrite c_str_app, bool_decide_eq_false_2 by done.
  cbn. by rewrite app_nil_r.
Qed.

Lemma drop_past_nul (s : list Z) c rest : drop (S (length s)) (s ++ c :: rest) = rest.
Proof. induction s as [|x s IH]; [done|exact IH]. Qed.

(** X8.  The loop over a list of NUL-terminated strings that an empty
    string ends gives back exactly the strings that were laid out, none of
    them empty or holding a NUL, whatever follows the end of the list. *)
Theorem string_list_round_trip strings after fuel :
  Forall (λ s, s ≠ [] ∧ 0 ∉ s) strings → (length strings < fuel)%nat →
  string_list fuel (string_list_memory strings ++ after) = strings.
Proof.
  unfold string_list_memory. revert fuel.
  induction strings as [|s strings IH]; intros fuel Hs Hfuel.
  - destruct fuel as [|fuel]; [cbn in Hfuel; lia|]. reflexivity.
  - destruct fuel as [|fuel]; [cbn in Hfuel; lia|].
    apply Forall_cons in Hs as [[Hne Hnul] Hs].
    cbn [map concat string_list]. rewrite <- !app_assoc. cbn [app].
    rewrite (c_str_app_nul s _ Hnul).
    rewrite bool_decide_eq_false_2 by done. f_equal.
    rewrite drop_past_nul.
    specialize (IH fuel Hs). rewrite <- app_assoc in IH. apply IH.
    cbn in Hfuel. lia.
Qed.

End StringList.

(** Two of three, rounded up to 67. *)
Lemma CalcPercent_nearest_sample :
  0 ≤ CalcPercent 2 3 ≤ 100 ∧ 2 * Z.abs (CalcPercent 2 3 * 3 - 2 * 100) ≤ 3.
Proof.
  destruct (CalcPercent_nearest 2 3) as (Hrange & Hnear & _).
  - lia.
  - lia.
  - vm_compute. reflexivity.
  - split; [exact Hrange|exact Hnear].
Defined.

(** A name joined to a directory that ends with a separator. *)
Lemma CombinePath_parts_sample :
  ExtractFileName (CombinePath (L "Dir\") (L "a.txt")) = L "a.txt"
  ∧ UpDir (CombinePath (L "Dir\") (L "a.txt")) = StripTrailingSlash (L "Dir\").
Proof.
  apply (CombinePath_parts (L "Dir\") (L "a.txt")).
  - discriminate.
  - apply (bool_decide_unpack _). vm_compute. exact I.
  - repeat constructor.
Defined.

(** Two strings, and something behind the end of the list. *)
Lemma string_list_round_trip_sample :
  string_list 3 (string_list_memory [L "a"; L "bc"] ++ [7]) = [L "a"; L "bc"].
Proof.
  apply (string_list_round_trip [L "a"; L "bc"] [7] 3).
  - repeat constructor; try discriminate;
      apply (bool_decide_unpack _); vm_compute; exact I.
  - cbn. lia.
Defined.

(** ** Opening an archive: [OpenArchiveW], [CanYouHandleThisFileW] *)

Section Opening.
Context (host : Host).

Lemma take_magic bytes :
  take (length kFileHeader) bytes = kFileHeader ↔ ∃ rest, bytes = kFileHeader ++ rest.
Proof.
  split.
  - intros H. exists (drop (length kFileHeader) bytes).
    rewrite <- H at 1. by rewrite take_drop.
  - intros [rest ->]. by rewrite take_app_length.
Qed.

Lemma ReadAndCheckHeader_cases s bytes :
  archive_file_ s = Some {| contents := bytes; cursor := 0 |} →
  ∃ s',
    ReadAndCheckHeader s
    = (if (length bytes <? length kFileHeader)%nat then Exc E_EREAD
       else if bool_decide (take (length kFileHeader) bytes = kFileHeader)
            then Val tt else Exc E_BAD_ARCHIVE, s')
    ∧ (∃ f, archive_file_ s' = Some f ∧ contents f = bytes)
    ∧ process_data_proc_ s' = process_data_proc_ s.
Proof.
  intros Hf. unfold ReadAndCheckHeader, ReadOrThrow.
  destruct (Nat.ltb_spec (length bytes) (length kFileHeader)) as [Hshort|Hlong].
  - eexists. split; [|split].
    + erewrite bind_exc; [reflexivity|].
      erewrite bind_val; [|by apply fread_run].
      unfold fread_bytes. cbn [fst snd contents cursor]. rewrite drop_0.
      rewrite length_take, Nat.mul_1_l, Nat.div_1_r.
      assert ((length kFileHeader `min` length bytes =? length kFileHeader)%nat = false)
        as -> by (apply Nat.eqb_neq; lia).
      reflexivity.
    + state_simpl. eexists. split; [reflexivity|]. done.
    + done.
  - assert ((fread (1 * length kFileHeader) ≫= (λ buf : list Z,
              if (length buf / 1 =? length kFileHeader)%nat then mret buf
              else throw E_EREAD)) s
            = (Val (take (length kFileHeader) bytes),
               set_archive_file_ (Some {| contents := bytes;
                                          cursor := length kFileHeader |}) s)) as Hread.
    { erewrite bind_val; [|by apply fread_run].
      unfold fread_bytes. cbn [fst snd contents cursor]. rewrite drop_0.
      rewrite length_take, Nat.mul_1_l, Nat.div_1_r.
      assert ((length kFileHeader `min` length bytes =? length kFileHeader)%nat = true)
        as -> by (apply Nat.eqb_eq; lia).
      rewrite Nat.add_0_l, Nat.min_l by lia. reflexivity. }
    destruct (decide (take (length kFileHeader) bytes = kFileHeader)) as [Heq|Hne].
    + rewrite (bool_decide_eq_true_2 _ Heq).
      eexists. split; [|split].
      * erewrite bind_val; [|exact Hread].
        rewrite (bool_decide_eq_true_2 _ Heq). reflexivity.
      * state_simpl. eexists. split; [reflexivity|]. done.
      * done.
    + rewrite (bool_decide_eq_false_2 _ Hne).
      eexists. split; [|split].
      * erewrite bind_val; [|exact Hread].
        rewrite (bool_decide_eq_false_2 _ Hne). reflexivity.
      * state_simpl. eexists. split; [reflexivity|]. done.
      * done.
Qed.

(** X9.  [CanYouHandleThisFileW] answers TRUE exactly for a file that
    can be opened and begins with the eight bytes of the file header; a
    missing file, a shorter file and other first bytes all give FALSE, and
    no exception leaves the exported function. *)
Theorem CanYouHandleThisFileW_magic disk :
  ExportsReading.CanYouHandleThisFileW disk = true
  ↔ ∃ bytes rest, disk = Some bytes ∧ bytes = kFileHeader ++ rest.
Proof.
  unfold ExportsReading.CanYouHandleThisFileW, Reading.CanYouHandleThisFileW.
  destruct disk as [bytes|]; cycle 1.
  { cbn. split; [done|]. by intros (? & ? & ? & _). }
  erewrite bind_val; [|reflexivity].
  destruct (ReadAndCheckHeader_cases
              (set_archive_file_ (Some {| contents := bytes; cursor := 0 |}) new_archive)
              bytes eq_refl) as (s' & Hrun & _).
  destruct (Nat.ltb_spec (length bytes) (length kFileHeader)) as [Hshort|Hlong].
  - erewrite bind_exc; [|exact Hrun]. split; [done|].
    intros (? & rest & [= <-] & ->). rewrite length_app in Hshort. lia.
  - destruct (decide (take (length kFileHeader) bytes = kFileHeader)) as [Heq|Hne].
    + rewrite (bool_decide_eq_true_2 _ Heq) in Hrun.
      erewrite bind_val; [|exact Hrun]. split; [|done]. intros _.
      apply take_magic in Heq as [rest ->]. eauto.
    + rewrite (bool_decide_eq_false_2 _ Hne) in Hrun.
      erewrite bind_exc; [|exact Hrun]. split; [done|].
      intros (? & rest & [= <-] & ->). destruct Hne. apply take_magic. eauto.
Qed.


(** X10.  What [OpenArchiveW] returns: [E_NOT_SUPPORTED] for an open
    mode other than list and extract, before anything else; otherwise,
    unless the host asks to cancel ([E_EABORTED]), [E_EOPEN] for a file
    that cannot be opened, [E_EREAD] for one shorter than the file header,
    [E_BAD_ARCHIVE] for one that begins with other bytes, and else 0 with a
    handle whose cursor stands behind the file header.  The handle is null
    exactly when the result is not 0. *)
Theorem OpenArchiveW_outcome disk OpenMode :
  ∃ code handle,
    ExportsReading.OpenArchiveW host disk OpenMode = (Some code, handle)
    ∧ (handle = None ↔ code ≠ 0)
    ∧ (OpenMode ≠ PK_OM_LIST → OpenMode ≠ PK_OM_EXTRACT → code = E_NOT_SUPPORTED)
    ∧ (OpenMode = PK_OM_LIST ∨ OpenMode = PK_OM_EXTRACT →
       code = E_EABORTED ∧ ¬ never_cancels host new_archive
       ∨ match disk with
         | None => code = E_EOPEN
         | Some bytes =>
             if (length bytes <? length kFileHeader)%nat then code = E_EREAD
             else if bool_decide (take (length kFileHeader) bytes = kFileHeader)
             then code = 0
                  ∧ ∃ this, handle = Some this
                      ∧ archive_file_ this
                        = Some {| contents := bytes; cursor := length kFileHeader |}
             else code = E_BAD_ARCHIVE
         end).
Proof.
  unfold ExportsReading.OpenArchiveW, Reading.OpenArchiveW.
  destruct (Z.eqb_spec OpenMode PK_OM_LIST) as [Hlist|Hlist];
    [|destruct (Z.eqb_spec OpenMode PK_OM_EXTRACT) as [Hextract|Hextract]]; cycle 2.
  { erewrite bind_exc; [|reflexivity].
    exists E_NOT_SUPPORTED, None. split_fields; try done. by intros [?|?]. }
  all: erewrite bind_val; [|reflexivity].
  all: set (rest := λ cancelled : bool, _).
  all: assert (∃ code handle,
      (let (r, this) := (UpdateBytesProcessedProgress host ≫= rest) new_archive in
       match r with
       | Val _ => (Some 0, Some this)
       | Exc error_code => (Some error_code, None)
       | Diverge => (None, None)
       end) = (Some code, handle)
      ∧ (handle = None ↔ code ≠ 0)
      ∧ (code = E_EABORTED ∧ ¬ never_cancels host new_archive
         ∨ match disk with
           | None => code = E_EOPEN
           | Some bytes =>
               if (length bytes <? length kFileHeader)%nat then code = E_EREAD
               else if bool_decide (take (length kFileHeader) bytes = kFileHeader)
               then code = 0
                    ∧ ∃ this, handle = Some this
                        ∧ archive_file_ this
                          = Some {| contents := bytes; cursor := length kFileHeader |}
               else code = E_BAD_ARCHIVE
           end)) as (code & handle & Hrun & Hnone & Hcases);
    [|exists code, handle; split_fields; try done].
  all: subst rest.
  all: destruct (UpdateBytesProcessedProgress_any host new_archive)
         as (c1 & s1 & Hr1 & Hso1 & Hc1).
  all: erewrite bind_val; [|exact Hr1].
  all: destruct c1;
    [exists E_EABORTED, None; split_fields; [done|done|left; split; [done|by apply Hc1]]|].
  all: destruct disk as [bytes|];
    [|exists E_EOPEN, None; split_fields; [done|done|by right]].
  all: erewrite bind_val; [|reflexivity].
  all: set (s2 := set_archive_file_ _ s1).
  all: assert (process_data_proc_ s2 = process_data_proc_ new_archive) as Hp2
         by (subst s2; state_simpl; apply Hso1).
  all: destruct (UpdateBytesProcessedProgress_any host s2)
         as (c2 & s3 & Hr2 & Hso2 & Hc2).
  all: erewrite bind_val; [|exact Hr2].
  all: destruct c2;
    [exists E_EABORTED, None; split_fields;
       [done|done|left; split; [done|]; intros Hnc; apply Hc2; [done|];
        by apply (never_cancels_same host new_archive)]|].
  all: assert (archive_file_ s3 = Some {| contents := bytes; cursor := 0 |}) as Hf3
         by (destruct Hso2 as (-> & _); done).
  all: destruct (ReadAndCheckHeader_cases s3 bytes Hf3) as (s4 & Hr4 & Hf4 & Hp4).
  all: destruct (Nat.ltb_spec (length bytes) (length kFileHeader)) as [Hshort|Hlong];
    [erewrite bind_exc; [|exact Hr4];
     exists E_EREAD, None; split_fields; [done|done|by right]|].
  all: destruct (decide (take (length kFileHeader) bytes = kFileHeader)) as [Heq|Hne];
    [rewrite (bool_decide_eq_true_2 _ Heq) in Hr4 |- *
    |rewrite (bool_decide_eq_false_2 _ Hne) in Hr4 |- *;
     erewrite bind_exc; [|exact Hr4];
     exists E_BAD_ARCHIVE, None; split_fields; [done|done|by right]].
  all: erewrite bind_val; [|exact Hr4].
  all: destruct (UpdateBytesProcessedProgress_any host s4)
         as (c5 & s5 & Hr5 & Hso5 & Hc5).
  all: erewrite bind_val; [|exact Hr5].
  all: destruct c5;
    [exists E_EABORTED, None; split_fields;
       [done|done|left; split; [done|]; intros Hnc; apply Hc5; [done|];
        apply (never_cancels_same host new_archive); [|done];
        rewrite Hp4; destruct Hso2 as (_ & _ & _ & -> & _); done]|].
  all: exists 0, (Some s5); split_fields; [done|done|right; split; [done|]].
  all: exists s5; split; [done|].
  all: destruct Hso5 as (-> & _).
  all: apply take_magic in Heq as [rest ->].
  all: destruct (ReadAndCheckHeader_run s3 rest Hf3) as (s4' & Hr4' & Hf4' & _).
  all: congruence.
Qed.

End Opening.

(** ** Going through an archive: [ReadHeaderExW] and [ProcessFileW] in turn *)

Section Walk.
Context (host : Host).

(** The next header, the host never cancelling: the tombstoned entries
    [ds] are passed and the live entry behind them is reported. *)
Lemma ReadHeaderExW_reports ds pre e rest s headerData fuel :
  never_cancels host s →
  Forall well_formed ds → Forall (λ d, live d = false) ds →
  well_formed e → live e = true → (length ds < fuel)%nat →
  archive_file_ s
  = Some {| contents := pre ++ entries_bytes ds ++ entry_bytes e ++ rest;
            cursor := length pre |} →
  ∃ s',
    Exports.ReadHeaderExW host s headerData fuel
    = (Some (if consistent_header (entry_header e) then 0 else E_BAD_ARCHIVE),
       if consistent_header (entry_header e)
       then header_data (entry_header e) (e_path e) else headerData, s')
    ∧ archive_file_ s'
      = Some {| contents := pre ++ entries_bytes ds ++ entry_bytes e ++ rest;
                cursor := (length (pre ++ entries_bytes ds) + sizeof_EntryHeader
                           + sizeof_wchar_t * length (e_path e))%nat |}
    ∧ last_header_ s' = entry_header e
    ∧ last_header_path_ s' = e_path e
    ∧ process_data_proc_ s' = process_data_proc_ s.
Proof.
  intros Hnc Hwf Hdead Hwe Hlive Hfuel Hf.
  destruct (ReadHeaderExW_next_entry_skip_any host ds pre _ s (fuel - length ds)
              Hwf Hdead Hf)
    as [(s1 & Hskip & Hf1 & Hproc1)|(r & s1 & _ & _ & Hnnc)]; [|done].
  replace (length ds + (fuel - length ds))%nat with fuel in Hskip by lia.
  destruct (fuel - length ds)%nat as [|fuel'] eqn:Hfuel'; [lia|].
  replace (length pre + length (entries_bytes ds))%nat
    with (length (pre ++ entries_bytes ds)) in Hf1 by (by rewrite length_app).
  rewrite app_assoc in Hf1.
  destruct (ReadEntryHeader_entry s1 _ e rest Hwe Hf1)
    as (s2 & Hrd & Hf2 & Hh2 & Hp2 & Hproc2 & _).
  assert (never_cancels host s2) as Hnc2.
  { apply (never_cancels_same host s); [congruence|done]. }
  destruct (UpdateBytesProcessedProgress_continue host s2 Hnc2)
    as (s3 & Hup & Hf3 & Hh3 & Hp3 & Hproc3 & _).
  assert (Hrun : ReadHeaderExW_next_entry host (S fuel') s1 = (Val None, s3)).
  { cbn [ReadHeaderExW_next_entry].
    erewrite bind_val; [|exact Hrd]. cbn [negb].
    erewrite bind_val; [|exact Hup]. cbn beta iota.
    erewrite bind_val; [|reflexivity]. rewrite Hh3, Hh2.
    cbn [flags entry_header]. unfold live in Hlive. by rewrite Hlive. }
  rewrite Hrun in Hskip.
  exists s3. unfold Exports.ReadHeaderExW.
  rewrite (ReadHeaderExW_after_break host headerData fuel s s3 Hskip).
  rewrite Hh3, Hh2, Hp3, Hp2. split.
  { by destruct (consistent_header (entry_header e)). }
  split_fields; try done.
  - rewrite Hf3, Hf2. by rewrite <- app_assoc.
  - congruence.
Qed.

(** The next header where tombstoned entries alone are left. *)
Lemma ReadHeaderExW_ends ds pre s headerData fuel :
  never_cancels host s →
  Forall well_formed ds → Forall (λ d, live d = false) ds →
  (length ds < fuel)%nat →
  archive_file_ s
  = Some {| contents := pre ++ entries_bytes ds; cursor := length pre |} →
  ∃ s',
    Exports.ReadHeaderExW host s headerData fuel
    = (Some E_END_ARCHIVE, headerData, s').
Proof.
  intros Hnc Hwf Hdead Hfuel Hf.
  rewrite <- (app_nil_r (entries_bytes ds)) in Hf.
  destruct (ReadHeaderExW_next_entry_skip_any host ds pre _ s (fuel - length ds)
              Hwf Hdead Hf)
    as [(s1 & Hskip & Hf1 & Hproc1)|(r & s1 & _ & _ & Hnnc)]; [|done].
  replace (length ds + (fuel - length ds))%nat with fuel in Hskip by lia.
  destruct (fuel - length ds)%nat as [|fuel'] eqn:Hfuel'; [lia|].
  match type of Hf1 with archive_file_ _ = Some ?f =>
    destruct (ReadEntryHeader_end s1 f Hf1) as (s2 & Hrd & _) end.
  { cbn [contents cursor]. rewrite !length_app. cbn [length]. unfold sizeof_EntryHeader. lia. }
  assert (Hrun : ReadHeaderExW_next_entry host (S fuel') s1
                 = (Val (Some E_END_ARCHIVE), s2)).
  { cbn [ReadHeaderExW_next_entry]. erewrite bind_val; [|exact Hrd]. done. }
  rewrite Hrun in Hskip.
  exists s2. unfold Exports.ReadHeaderExW, Archive.ReadHeaderExW.
  erewrite bind_val; [|exact Hskip]. done.
Qed.


Lemma on_reading_run {A} (m : M ArchiveBase A) x r s' :
  m (reading x) = (r, s') →
  on_reading m x
  = (r, {| reading := s'; node := node x;
           attributes_set := attributes_set x; time_set := time_set x |}).
Proof. intros H. unfold on_reading. by rewrite H. Qed.

Context (zlib : Zlib) (dest : Destination).



Lemma filter_live_dead ds :
  Forall (λ d, live d = false) ds → List.filter live ds = [].
Proof. induction 1 as [|d ds Hd _ IH]; [done|]. cbn. by rewrite Hd. Qed.

(** The calls over a whole archive, given what [ProcessFileW] does behind
    the header of one live entry. *)
Lemma process_entries_walk operation destPath (P : Entry → Prop)
    (made : Entry → DestNode) fuel :
  (∀ s pre e rest,
     never_cancels host s → well_formed e → P e →
     archive_file_ s
     = Some {| contents := pre ++ entry_bytes e ++ rest;
               cursor := (length pre + sizeof_EntryHeader
                          + sizeof_wchar_t * length (e_path e))%nat |} →
     last_header_ s = entry_header e →
     ∃ s',
       ExportsReading.ProcessFileW host zlib dest s operation destPath
         (c_str (e_path e)) fuel
       = (Some 0, s', made e)
       ∧ archive_file_ s'
         = Some {| contents := pre ++ entry_bytes e ++ rest;
                   cursor := (length pre + length (entry_bytes e))%nat |}
       ∧ process_data_proc_ s' = process_data_proc_ s) →
  ∀ n es pre s rounds,
    (length es ≤ n)%nat →
    never_cancels host s → Forall well_formed es →
    Forall (λ e, live e = true → consistent_header (entry_header e) = true ∧ P e) es →
    (length es < fuel)%nat → (length es < rounds)%nat →
    archive_file_ s
    = Some {| contents := pre ++ entries_bytes es; cursor := length pre |} →
    process_entries host zlib dest operation destPath rounds fuel s
    = (map (λ e, (header_data (entry_header e) (e_path e), made e))
         (List.filter live es),
       Some E_END_ARCHIVE).
Proof.
  intros Hstep n.
  induction n as [|n IH]; intros es pre s rounds Hn Hnc Hwf Hok Hfuel Hrounds Hf.
  - destruct es; [|cbn in Hn; lia].
    destruct rounds as [|rounds]; [lia|].
    destruct (ReadHeaderExW_ends [] pre s blank_header_data fuel Hnc) as (s' & Hrun);
      [done|done|done|done|].
    cbn [process_entries]. by rewrite Hrun.
  - destruct (split_deleted_prefix es) as (ds & tl & -> & Hdead & Htl).
    apply Forall_app in Hwf as [Hwd Hwt].
    apply Forall_app in Hok as [_ Hokt].
    rewrite length_app in Hn, Hfuel, Hrounds.
    rewrite List.filter_app, (filter_live_dead ds Hdead). cbn [app].
    destruct rounds as [|rounds]; [lia|].
    destruct Htl as [->|(e & tl' & -> & Hlive)].
    + rewrite app_nil_r in Hf.
      destruct (ReadHeaderExW_ends ds pre s blank_header_data fuel Hnc) as (s' & Hrun);
        [done|done|lia|done|].
      cbn [process_entries]. by rewrite Hrun.
    + apply Forall_cons in Hwt as [Hwe Hwt].
      apply Forall_cons in Hokt as [Hoke Hokt].
      destruct (Hoke Hlive) as [Hcons HP].
      rewrite entries_bytes_app, entries_bytes_cons in Hf.
      destruct (ReadHeaderExW_reports ds pre e (entries_bytes tl') s
                  blank_header_data fuel Hnc Hwd Hdead Hwe Hlive)
        as (s1 & Hrun & Hf1 & Hh1 & Hp1 & Hproc1); [lia|done|].
      rewrite Hcons in Hrun.
      assert (never_cancels host s1) as Hnc1
        by (by apply (never_cancels_same host s)).
      rewrite (app_assoc pre) in Hf1.
      destruct (Hstep s1 _ e (entries_bytes tl') Hnc1 Hwe HP Hf1 Hh1)
        as (s2 & Hproc & Hf2 & Hproc2).
      assert (never_cancels host s2) as Hnc2
        by (by apply (never_cancels_same host s1)).
      cbn [process_entries]. rewrite Hrun.
      cbn [FileName header_data]. rewrite Hproc.
      cbn [List.filter]. rewrite Hlive. cbn [map].
      erewrite (IH tl' ((pre ++ entries_bytes ds) ++ entry_bytes e) s2 rounds);
        [reflexivity| |done|done|done| | |].
      * cbn [length] in Hn. lia.
      * cbn [length] in Hfuel. lia.
      * cbn [length] in Hrounds. lia.
      * rewrite Hf2. rewrite <- !app_assoc. f_equal. f_equal.
        rewrite !length_app. lia.
Qed.

End Walk.

(** ** Extracting: [ExtractFile], [UnpackFileContent] *)

Section Extract.
Context (host : Host).

Lemma on_session_run {A} (m : M ArchiveBase A) u r s' :
  m (session u) = (r, s') →
  on_session m u = (r, {| session := s'; dst_file := dst_file u |}).
Proof. intros H. unfold on_session. by rewrite H. Qed.

(** The loop that copies a payload stored without compression, the host
    never cancelling. *)
Lemma copy_rounds_copies fuel : ∀ payload pre rest u,
  never_cancels host (session u) →
  archive_file_ (session u)
  = Some {| contents := pre ++ payload ++ rest; cursor := length pre |} →
  Z.of_nat (length payload) < 2 ^ 64 → (length payload < fuel)%nat →
  ∃ u',
    copy_rounds host fuel (Z.of_nat (length payload)) u = (Val tt, u')
    ∧ dst_file u' = dst_file u ++ payload
    ∧ archive_file_ (session u')
      = Some {| contents := pre ++ payload ++ rest;
                cursor := (length pre + length payload)%nat |}
    ∧ process_data_proc_ (session u') = process_data_proc_ (session u).
Proof.
  induction fuel as [|fuel IH]; intros payload pre rest u Hnc Hf Hmax Hfuel; [lia|].
  cbn [copy_rounds].
  destruct (Z.gtb_spec (Z.of_nat (length payload)) 0) as [Hpos|Hzero].
  - pose proof kBufSize_pos as Hbuf.
    set (n := Z.to_nat (Z.min (Z.of_nat (length payload)) kBufSize)).
    assert (0 < n ≤ length payload)%nat as Hn by (subst n; lia).
    assert (length (take n payload) = n) as Hlen by (rewrite length_take; lia).
    assert (pre ++ payload ++ rest
            = pre ++ take n payload ++ (drop n payload ++ rest)) as Hsplit.
    { by rewrite (app_assoc (take n payload)), take_drop. }
    erewrite bind_val; cycle 1.
    { apply on_session_run. erewrite fread_run by exact Hf.
      erewrite (fread_bytes_at n _ pre (take n payload) (drop n payload ++ rest));
        [reflexivity|exact Hsplit|reflexivity|by rewrite Hlen]. }
    cbn [fst snd contents cursor]. rewrite Hlen.
    assert (Z.of_nat n = Z.min (Z.of_nat (length payload)) kBufSize) as Hn'
      by (subst n; lia).
    rewrite Hn'. rewrite Z.ltb_irrefl.
    erewrite bind_val; [|by apply on_session_run].
    erewrite bind_val; [|reflexivity].
    cbn [session dst_file].
    match goal with |- ∃ _, _ {| session := ?s; dst_file := ?d |} = _ ∧ _ =>
      set (s2 := s); set (d2 := d) end.
    assert (never_cancels host s2) as Hnc2.
    { apply (never_cancels_same host (session u)); [|done]. subst s2. by state_simpl. }
    destruct (UpdateBytesProcessedProgress_continue host s2 Hnc2)
      as (s3 & Hup & Hf3 & _ & _ & Hp3 & _).
    erewrite bind_val; [|apply on_session_run; exact Hup].
    cbn [session dst_file].
    assert (to_uint64 (Z.of_nat (length payload)
                       - Z.min (Z.of_nat (length payload)) kBufSize)
            = Z.of_nat (length (drop n payload))) as ->.
    { rewrite length_drop. unfold to_uint64. rewrite Z.mod_small; lia. }
    destruct (IH (drop n payload) (pre ++ take n payload) rest
                {| session := s3; dst_file := d2 |})
      as (u' & Hrun & Hdst & Hf' & Hp').
    + apply (never_cancels_same host s2); [done|done].
    + cbn [session]. rewrite Hf3. subst s2. state_simpl.
      rewrite Hsplit, <- !app_assoc, length_app, Hlen. done.
    + rewrite length_drop. lia.
    + rewrite length_drop. lia.
    + exists u'. split; [exact Hrun|]. split_fields.
      * rewrite Hdst. subst d2. cbn [dst_file].
        by rewrite <- app_assoc, take_drop.
      * rewrite Hf'. rewrite length_app, Hlen, length_drop.
        rewrite <- !app_assoc, (app_assoc (take n payload)), take_drop.
        do 2 f_equal. lia.
      * rewrite Hp'. cbn [session]. rewrite Hp3. subst s2. by state_simpl.
  - assert (payload = []) as -> by (destruct payload; [done|cbn in Hzero; lia]).
    exists u. split; [reflexivity|]. split_fields.
    + by rewrite app_nil_r.
    + rewrite Hf. cbn [length]. by rewrite Nat.add_0_r.
    + done.
Qed.


Lemma try_rethrow_val {St A} (body : M St A) handler s a s' :
  body s = (Val a, s') → try_rethrow body handler s = (Val a, s').
Proof. intros H. unfold try_rethrow. by rewrite H. Qed.

Lemma StripTrailingSlash_length p :
  (length p - 1 ≤ length (StripTrailingSlash p))%nat.
Proof.
  unfold StripTrailingSlash. destruct (back p) as [c|]; [|lia].
  destruct (is_separator c); [|lia].
  rewrite removelast_firstn_len, length_take. lia.
Qed.

Lemma CombinePath_length path name :
  (length path ≤ length (CombinePath path name))%nat.
Proof.
  unfold CombinePath. destruct (_ && _); rewrite !length_app; lia.
Qed.

Lemma full_dest_path_not_empty destPath destName :
  (1 < length destPath)%nat →
  StripTrailingSlash (CombinePath destPath destName) ≠ [].
Proof.
  intros Hlen Hnil.
  pose proof (StripTrailingSlash_length (CombinePath destPath destName)) as H1.
  pose proof (CombinePath_length destPath destName) as H2.
  rewrite Hnil in H1. cbn [length] in H1. lia.
Qed.

Context (zlib : Zlib) (dest : Destination).

(** [ProcessFileW] with [PK_EXTRACT] behind the header of an entry that
    is stored without compression. *)
Lemma ProcessFileW_extracts s pre e rest destPath destName fuel :
  (∀ p, CreateDirectoryW dest p = true) → (∀ p, wfopen_wb dest p = true) →
  (1 < length destPath)%nat →
  never_cancels host s → well_formed e →
  consistent_header (entry_header e) = true ∧ is_compressed e = false
  ∧ (length (e_payload e) < fuel)%nat →
  archive_file_ s
  = Some {| contents := pre ++ entry_bytes e ++ rest;
            cursor := (length pre + sizeof_EntryHeader
                       + sizeof_wchar_t * length (e_path e))%nat |} →
  last_header_ s = entry_header e →
  ∃ s',
    ExportsReading.ProcessFileW host zlib dest s PK_EXTRACT destPath destName fuel
    = (Some 0, s', extracted e)
    ∧ archive_file_ s'
      = Some {| contents := pre ++ entry_bytes e ++ rest;
                cursor := (length pre + length (entry_bytes e))%nat |}
    ∧ process_data_proc_ s' = process_data_proc_ s.
Proof.
  intros Hmkdir Hopen Hdest Hnc Hwe (Hcons & Hraw & Hfuel) Hf Hh.
  unfold ExportsReading.ProcessFileW, Reading.ProcessFileW.
  change (PK_EXTRACT =? PK_SKIP) with false.
  change (PK_EXTRACT =? PK_TEST) with false.
  change (PK_EXTRACT =? PK_EXTRACT) with true. cbn [orb].
  unfold ExtractFile.
  rewrite (bool_decide_eq_false_2 _ (full_dest_path_not_empty destPath destName Hdest)).
  set (x0 := {| reading := s; node := Untouched; attributes_set := None;
                time_set := None |}).
  assert (∃ x1,
    (h ← on_reading (gets last_header_);
     (if negb (Z.land (attributes h) FILE_ATTR_DIRECTORY =? 0)
      then
        if negb (CreateDirectoryW dest
                   (StripTrailingSlash (CombinePath destPath destName)))
        then throw E_ECREATE
        else
          set_node Directory;;
          cancelled ← on_reading (UpdateBytesProcessedProgress host);
          if (cancelled : bool) then set_node Removed;; throw E_EABORTED
          else mret tt
      else
        try_rethrow
          (if negb (wfopen_wb dest
                      (StripTrailingSlash (CombinePath destPath destName)))
           then throw E_ECREATE
           else
             set_node (RegularFile []);;
             cancelled ← on_reading (UpdateBytesProcessedProgress host);
             if (cancelled : bool) then throw E_EABORTED
             else
               on_new_file
                 (UnpackFileContent host zlib (unp_size h) (pack_size h)
                    (negb (Z.land (flags h) kEntryFlagCompressed =? 0)) fuel))
          (λ e0, when (e0 =? E_EABORTED) (set_node Removed)));;
     modify (λ x, {| reading := reading x; node := node x;
                     attributes_set := Some (attributes h);
                     time_set := Some (time h) |});;
     cancelled ← on_reading (UpdateBytesProcessedProgress host);
     if (cancelled : bool) then throw E_EABORTED else mret tt) x0 = (Val tt, x1)
    ∧ node x1 = extracted e
    ∧ archive_file_ (reading x1)
      = Some {| contents := pre ++ entry_bytes e ++ rest;
                cursor := (length pre + length (entry_bytes e))%nat |}
    ∧ process_data_proc_ (reading x1) = process_data_proc_ s)
    as (x1 & Hrun & Hnode & Hf1 & Hp1).
  2: { erewrite bind_val; [|exact Hrun].
       cbn [mret M_ret Exports.returned_value].
       exists (reading x1). rewrite Hnode. done. }
  erewrite bind_val; [|by apply on_reading_run].
  subst x0. cbn [reading node attributes_set time_set]. rewrite Hh.
  cbn [attributes flags pack_size unp_size time entry_header].
  rewrite Hmkdir, Hopen. cbn [negb].
  unfold is_compressed in Hraw. apply negb_false_iff in Hraw. rewrite Hraw.
  cbn [negb].
  unfold extracted, is_directory.
  destruct (Z.eqb_spec (Z.land (e_attributes e) FILE_ATTR_DIRECTORY) 0)
    as [Hfile|Hdir]; cbn [negb].
  - (* a file *)
    destruct (UpdateBytesProcessedProgress_continue host s Hnc)
      as (s1 & Hup1 & Hf1 & _ & _ & Hp1 & _).
    set (u1 := {| session := s1; dst_file := [] |}).
    destruct (copy_rounds_copies fuel (e_payload e)
                (pre ++ header_bytes (entry_header e) ++ wchars_bytes (e_path e))
                rest u1)
      as (u2 & Hcopy & Hdst & Hf2 & Hp2).
    { apply (never_cancels_same host s); [done|done]. }
    { subst u1. cbn [session]. rewrite Hf1, Hf. unfold entry_bytes.
      rewrite <- !app_assoc, !length_app, header_bytes_length, wchars_bytes_length.
      do 2 f_equal. lia. }
    { destruct Hwe. lia. }
    { done. }
    assert (never_cancels host (session u2)) as Hnc2.
    { apply (never_cancels_same host s); [|done]. rewrite Hp2. done. }
    destruct (UpdateBytesProcessedProgress_continue host (session u2) Hnc2)
      as (s3 & Hup3 & Hf3 & _ & _ & Hp3 & _).
    eexists. split.
    + erewrite bind_val; cycle 1.
      { apply try_rethrow_val.
        erewrite bind_val; [|reflexivity].
        erewrite bind_val; [|apply on_reading_run; exact Hup1].
        cbn [reading node attributes_set time_set].
        unfold on_new_file. cbn [reading node attributes_set time_set].
        unfold UnpackFileContent. fold u1. rewrite Hcopy. reflexivity. }
      erewrite bind_val; [|reflexivity].
      erewrite bind_val; [|apply on_reading_run; exact Hup3].
      reflexivity.
    + cbn [reading node]. split_fields.
      * by rewrite Hdst.
      * rewrite Hf3, Hf2. unfold entry_bytes.
        rewrite <- !app_assoc, !length_app. do 2 f_equal. lia.
      * rewrite Hp3, Hp2. done.
  - (* a directory *)
    assert (e_payload e = []) as Hempty.
    { unfold consistent_header in Hcons. cbn [attributes pack_size unp_size flags entry_header] in Hcons.
      apply andb_true_iff in Hcons as [Hcons _].
      apply negb_true_iff, andb_false_iff in Hcons as [Hcons|Hcons].
      - apply negb_false_iff, Z.eqb_eq in Hcons. done.
      - apply orb_false_iff in Hcons as [Hcons _].
        rewrite Z.gtb_ltb in Hcons. apply Z.ltb_ge in Hcons.
        destruct (e_payload e); [done|cbn [length] in Hcons; lia]. }
    destruct (UpdateBytesProcessedProgress_continue host s Hnc)
      as (s1 & Hup1 & Hf1 & _ & _ & Hp1 & _).
    assert (never_cancels host s1) as Hnc1
      by (by apply (never_cancels_same host s)).
    destruct (UpdateBytesProcessedProgress_continue host s1 Hnc1)
      as (s3 & Hup3 & Hf3 & _ & _ & Hp3 & _).
    eexists. split.
    + erewrite bind_val; cycle 1.
      { erewrite bind_val; [|reflexivity].
        erewrite bind_val; [|apply on_reading_run; exact Hup1].
        reflexivity. }
      erewrite bind_val; [|reflexivity].
      erewrite bind_val; [|apply on_reading_run; exact Hup3].
      reflexivity.
    + cbn [reading node]. split_fields.
      * done.
      * rewrite Hf3, Hf1, Hf, entry_bytes_length, Hempty. cbn [length].
        do 2 f_equal. lia.
      * rewrite Hp3, Hp1. done.
Qed.

End Extract.

(** ** Whole runs: listing, extracting, erasing *)

Section WholeRuns.
Context (host : Host) (zlib : Zlib) (dest : Destination).

(** Opening a file that begins with the file header, the host never
    cancelling. *)
Lemma OpenArchiveW_opens rest OpenMode :
  OpenMode = PK_OM_LIST ∨ OpenMode = PK_OM_EXTRACT →
  never_cancels host new_archive →
  ∃ this,
    ExportsReading.OpenArchiveW host (Some (kFileHeader ++ rest)) OpenMode
    = (Some 0, Some this)
    ∧ archive_file_ this
      = Some {| contents := kFileHeader ++ rest; cursor := length kFileHeader |}
    ∧ never_cancels host this.
Proof.
  intros Hmode Hnc.
  unfold ExportsReading.OpenArchiveW, Reading.OpenArchiveW.
  assert (∃ mode,
            (if OpenMode =? PK_OM_LIST then mret kList
             else if OpenMode =? PK_OM_EXTRACT then mret kExtract
                  else throw E_NOT_SUPPORTED) new_archive
            = (Val mode, new_archive)) as [mode Hm]
    by (destruct Hmode as [-> | ->]; eexists; reflexivity).
  erewrite bind_val; [|exact Hm].
  destruct (UpdateBytesProcessedProgress_continue host new_archive Hnc)
    as (s1 & Hup1 & Hf1 & _ & _ & Hp1 & _).
  erewrite bind_val; [|exact Hup1]. cbn beta iota.
  erewrite bind_val; [|reflexivity].
  set (s2 := set_archive_file_ _ s1).
  assert (never_cancels host s2) as Hnc2.
  { apply (never_cancels_same host new_archive); [|done]. subst s2. by state_simpl. }
  destruct (UpdateBytesProcessedProgress_continue host s2 Hnc2)
    as (s3 & Hup3 & Hf3 & _ & _ & Hp3 & _).
  erewrite bind_val; [|exact Hup3]. cbn beta iota.
  destruct (ReadAndCheckHeader_run s3 rest) as (s4 & Hck & Hf4 & Hp4 & _).
  { rewrite Hf3. subst s2. by state_simpl. }
  erewrite bind_val; [|exact Hck].
  assert (never_cancels host s4) as Hnc4.
  { apply (never_cancels_same host s2); [congruence|done]. }
  destruct (UpdateBytesProcessedProgress_continue host s4 Hnc4)
    as (s5 & Hup5 & Hf5 & _ & _ & Hp5 & _).
  erewrite bind_val; [|exact Hup5]. cbn beta iota.
  exists s5. split; [reflexivity|]. split; [congruence|].
  by apply (never_cancels_same host s4).
Qed.




Lemma tombstone_well_formed e : well_formed e → well_formed (tombstone e).
Proof.
  intros [Hflags ? ? ? ? ? ?]. constructor; cbn [tombstone e_flags e_attributes
    e_time e_unp_size e_path e_payload]; try done.
  by apply lor_one_byte.
Qed.

Lemma tombstone_not_live e : live (tombstone e) = false.
Proof.
  unfold live, tombstone. cbn [e_flags]. apply Z.eqb_neq.
  unfold kEntryFlagDeleted. rewrite Z.land_lor_distr_l.
  destruct (land_one_bit (e_flags e) 0 ltac:(lia)) as [H|H];
    change (2 ^ 0) with 1 in H; rewrite H; done.
Qed.

Lemma tombstone_matching_well_formed matches es :
  Forall well_formed es → Forall well_formed (tombstone_matching matches es).
Proof.
  intros H. unfold tombstone_matching. apply Forall_fmap.
  eapply Forall_impl; [exact H|]. cbn. intros e He.
  destruct (live e && matches (e_path e)); [by apply tombstone_well_formed|done].
Qed.


Lemma tombstone_matching_idemp matches es :
  tombstone_matching matches (tombstone_matching matches es)
  = tombstone_matching matches es.
Proof.
  unfold tombstone_matching. rewrite map_map. apply map_ext. intros e.
  destruct (live e && matches (e_path e)) eqn:H.
  - by rewrite tombstone_not_live.
  - by rewrite H.
Qed.

(** A whole erase, the host never cancelling. *)
Lemma DeleteFilesW_tombstones es packedFile deleteList fuel :
  never_cancels host new_archive → Forall well_formed es → (length es < fuel)%nat →
  Exports.DeleteFilesW host (Some (archive_bytes es)) packedFile deleteList fuel
  = (Some 0,
     Some (archive_bytes
             (tombstone_matching
                (λ path, ShouldDelete path (paths_to_delete_of deleteList)) es))).
Proof.
  intros Hnc Hwf Hfuel.
  destruct (DeleteFilesW_outcome host es packedFile deleteList fuel Hwf Hfuel)
    as (code & k & _ & Hrun & [(-> & ->)|(_ & Hcancel)]); [|done].
  rewrite Hrun. by rewrite take_ge, drop_ge, app_nil_r.
Qed.


Lemma tombstone_matching_take matches k es :
  tombstone_matching matches (take k es) = take k (tombstone_matching matches es).
Proof. unfold tombstone_matching. by rewrite fmap_take. Qed.

(** X14.  Erasing is idempotent.  On an archive of well-formed
    entries, once a [DeleteFilesW] has returned 0, which it does when the
    host never asks to cancel, a further [DeleteFilesW] with the same
    list changes no byte of the archive, whatever the host answers then:
    it returns 0, or [E_EABORTED] when the host asks to cancel. *)
Theorem erase_twice_is_erase_once es packedFile deleteList fuel :
  Forall well_formed es → (length es < fuel)%nat →
  (never_cancels host new_archive →
   ∃ after,
     Exports.DeleteFilesW host (Some (archive_bytes es)) packedFile deleteList fuel
     = (Some 0, Some after))
  ∧ (∀ after,
       Exports.DeleteFilesW host (Some (archive_bytes es)) packedFile deleteList fuel
       = (Some 0, Some after) →
       ∀ host', ∃ code,
         Exports.DeleteFilesW host' (Some after) packedFile deleteList fuel
         = (Some code, Some after)
         ∧ (code = 0 ∨ code = E_EABORTED ∧ ¬ never_cancels host' new_archive)).
Proof.
  intros Hwf Hfuel. split.
  - intros Hnc. eexists. by apply DeleteFilesW_tombstones.
  - intros after Hfirst host'.
    set (matches := λ path, ShouldDelete path (paths_to_delete_of deleteList)).
    assert (after = archive_bytes (tombstone_matching matches es)) as ->.
    { destruct (DeleteFilesW_outcome host es packedFile deleteList fuel Hwf Hfuel)
        as (code & k & _ & Hrun & [(-> & ->)|(-> & _)]).
      - rewrite Hrun in Hfirst. rewrite take_ge, drop_ge, app_nil_r in Hfirst by done.
        by injection Hfirst as <-.
      - rewrite Hrun in Hfirst. discriminate Hfirst. }
    destruct (DeleteFilesW_outcome host' (tombstone_matching matches es) packedFile
                deleteList fuel)
      as (code & k & _ & Hrun & Hcode).
    { by apply tombstone_matching_well_formed. }
    { unfold tombstone_matching. by rewrite length_map. }
    exists code. split.
    + rewrite Hrun. fold matches.
      by rewrite tombstone_matching_take, tombstone_matching_idemp, take_drop.
    + destruct Hcode as [[-> _]|[-> Hc]]; auto.
Qed.

End WholeRuns.

(** ** Packing into a new archive *)

(** The insertion sort of the embedding is one of the functions that
    sort, and with it [PackFilesW_by] is [PackFilesW]. *)
Lemma insertion_sort_sorts : sorts StricmpPred (Std.sort StricmpPred).
Proof.
  intros l. split; [apply sort_perm|].
  apply sort_ascending; [apply StricmpPred_asym|apply StricmpPred_negtrans].
Qed.

(** With paths kept, the paths in the archive are in ascending order
    whichever function sorts. *)
Lemma archive_paths_ascending_by (sort : list wstring → list wstring) subPath
    addList :
  sorts StricmpPred sort →
  ascending StricmpPred
    (archive_paths_to_add true subPath (relative_paths_to_add_by sort true addList)).
Proof.
  intros Hsort.
  unfold archive_paths_to_add, relative_paths_to_add_by.
  cbn [negb orb].
  match goal with |- context [sort ?l] => destruct (Hsort l) as [Hperm Hasc] end.
  apply CombinePath_keeps_ascending; [|exact Hasc].
  rewrite Hperm.
  apply Forall_forall. intros p Hp.
  apply list_elem_of_omap in Hp as (q & Hq & [= <-]).
  apply StripTrailingSlash_no_nul.
  pose proof (string_list_no_nul (length addList) addList) as H.
  rewrite Forall_forall in H. by apply H.
Qed.

Lemma PackFilesW_by_insertion_sort host zlib tree :
  ExportsAnySort.PackFilesW_by host zlib tree (Std.sort StricmpPred)
  = Exports.PackFilesW host zlib tree.
Proof. reflexivity. Qed.

Section Packing.
Context (host : Host) (zlib : Zlib) (tree : SourceTree).
Context (sort : list wstring → list wstring).

Lemma PackFileContent_raw_run s before src fuel :
  at_end s before → Z.of_nat (length src) < 2 ^ 64 → (length src < fuel)%nat →
  ∃ s2, PackFileContent zlib src (Z.of_nat (length src)) false fuel s
        = (Val (Z.of_nat (length src), Z.of_nat (length src)), s2)
    ∧ at_end s2 (before ++ src)
    ∧ process_data_proc_ s2 = process_data_proc_ s.
Proof.
  intros Hs Hmax Hfuel.
  destruct (PackFileContent_raw_ends zlib s before src fuel Hs Hmax Hfuel)
    as (s2 & Hrun).
  exists s2. split; [exact Hrun|].
  destruct (PackFileContent_raw zlib _ _ _ _ _ _ _ Hs Hrun) as (Hend & _).
  split; [exact Hend|].
  revert Hrun. unfold PackFileContent.
  destruct (Z.eqb_spec (Z.of_nat (length src)) 0) as [H0|H0].
  - rewrite bind_val with (a := (0, Z.of_nat (length src))) (s' := s) by done.
    rewrite Z.eqb_refl. cbn [negb]. by intros [= _ <-].
  - intros H.
    apply bind_inv in H as [([w' r'] & s1 & Hrun & H)|[(? & ? & ?)|[? ?]]]; [|done..].
    apply bind_inv in Hrun as [(n & s0 & Hrun & Hret)|[(? & ? & ?)|[? ?]]]; [|done..].
    injection Hret as <- <- <-.
    destruct (store_rounds_appends _ _ _ _ _ _ _ Hs Hrun) as [_ Hp].
    destruct (negb (n =? Z.of_nat (length src))); [done|].
    by injection H as _ _ <-.
Qed.

Lemma PackFile_appends s bytes absolute_path archive_path save_paths fuel e :
  at_end s bytes →
  packed_entry tree absolute_path archive_path = Some e → well_formed e →
  (length (e_payload e) < fuel)%nat →
  ∃ s',
    PackFile zlib tree absolute_path archive_path save_paths fuel s
    = (Val (is_directory e), s')
    ∧ at_end s' (bytes ++ entry_bytes e)
    ∧ process_data_proc_ s' = process_data_proc_ s.
Proof.
  intros Hs Hpacked Hwe Hfuel. unfold packed_entry in Hpacked.
  destruct (source_at tree absolute_path) as [file|] eqn:Hsrc; [|done].
  destruct (dos_date_time file) as [dos|] eqn:Hdos; [|done].
  destruct (Z.eqb_spec (Z.land (dwFileAttributes file) FILE_ATTRIBUTE_DIRECTORY) 0)
    as [Hfile|Hdir].
  - destruct (file_bytes file) as [src|] eqn:Hbytes; [|done].
    destruct (Z.eqb_spec (nFileSize file) (Z.of_nat (length src))) as [Hsize|];
      [|done].
    destruct (EnableCompressionForFile (nFileSize file)) eqn:Hpolicy; [done|].
    cbn [andb negb] in Hpacked. injection Hpacked as <-.
    destruct Hwe as [_ _ _ _ Hpl _ Hpay]. cbn [e_path e_payload] in *.
    destruct (PackFile_unfold zlib tree s bytes absolute_path archive_path save_paths
                fuel file src dos Hs Hsrc Hfile Hdos Hbytes)
      as (s1 & Hs1 & Hp1 & Heq).
    rewrite Heq. clear Heq. rewrite Hpolicy, Hsize.
    destruct (PackFileContent_raw_run s1 _ src fuel Hs1) as (s2 & Hrun & Hs2 & Hp2);
      [lia|done|].
    exists s2. split_fields.
    + erewrite bind_val; cycle 1.
      { erewrite bind_val by exact Hrun. reflexivity. }
      unfold is_directory. cbn [e_attributes].
      rewrite wcx_attributes_directory, Hfile. reflexivity.
    + unfold at_end in Hs2 |- *. rewrite Hs2.
      assert (written_header file dos (StripTrailingSlash archive_path)
                (Z.of_nat (length src))
              = entry_header
                  {| e_flags := 0;
                     e_attributes :=
                       WindowsAttributesToWcxAttributes (dwFileAttributes file);
                     e_time := dos; e_unp_size := Z.of_nat (length src);
                     e_path := StripTrailingSlash archive_path;
                     e_payload := src |}) as Hheader.
      { unfold written_header, entry_header. cbn [e_flags e_attributes e_time
          e_unp_size e_path e_payload]. rewrite Hpolicy, Hsize. f_equal.
        unfold to_uint16. apply Z.mod_small. lia. }
      unfold entry_bytes. cbn [e_path e_payload]. rewrite <- Hheader.
      rewrite <- !app_assoc. rewrite Hsize. done.
    + congruence.
  - injection Hpacked as <-.
    destruct Hwe as [_ _ _ _ Hpl _ _]. cbn [e_path] in *.
    destruct (ftell_at_end s bytes Hs) as (s0 & Htell & Hs0 & Hp0).
    set (header :=
      entry_header {| e_flags := 0;
                      e_attributes :=
                        WindowsAttributesToWcxAttributes (dwFileAttributes file);
                      e_time := dos; e_unp_size := 0;
                      e_path := StripTrailingSlash archive_path;
                      e_payload := [] |}).
    destruct (WriteEntryHeader_at_end s0 bytes header
                (StripTrailingSlash archive_path) Hs0)
      as (s1 & Hwr & Hs1 & Hp1).
    exists s1. split_fields.
    + unfold PackFile.
      erewrite bind_val; cycle 1.
      { unfold GetFileAttributes. rewrite Hsrc, Hdos. reflexivity. }
      apply Z.eqb_neq in Hdir. rewrite Hdir.
      cbn [unp_size attributes flags time zero_header].
      erewrite bind_val by exact Htell.
      rewrite wcx_attributes_directory, Hdir.
      change (EnableCompressionForFile 0) with false. cbn [negb when].
      erewrite bind_val; cycle 1.
      { match goal with |- WriteEntryHeader ?h _ _ = _ =>
          replace h with header; [exact Hwr|] end.
        unfold header, entry_header. cbn [e_flags e_attributes e_time e_unp_size
          e_path e_payload length]. f_equal.
        unfold to_uint16. symmetry. apply Z.mod_small. lia. }
      erewrite bind_val; [|reflexivity].
      unfold is_directory. cbn [e_attributes].
      rewrite wcx_attributes_directory, Hdir. reflexivity.
    + unfold entry_bytes. cbn [e_path e_payload]. fold header.
      by rewrite app_nil_r.
    + congruence.
Qed.


Lemma pack_each_appends srcPath save_paths fuel count : ∀ items es i s bytes,
  never_cancels host s → at_end s bytes →
  Forall2 (λ item e,
             packed_entry tree (CombinePath srcPath item.1) item.2 = Some e
             ∧ well_formed e ∧ (length (e_payload e) < fuel)%nat) items es →
  ∃ s',
    pack_each host zlib tree srcPath save_paths items i count fuel s
    = (Val (map is_directory es), s')
    ∧ at_end s' (bytes ++ entries_bytes es)
    ∧ process_data_proc_ s' = process_data_proc_ s.
Proof.
  induction items as [|[relative_path archive_path] items IH];
    intros es i s bytes Hnc Hs Hall.
  - apply Forall2_nil_inv_l in Hall as ->. exists s. split_fields; try done.
    unfold entries_bytes. cbn. by rewrite app_nil_r.
  - apply Forall2_cons_inv_l in Hall as (e & es' & (Hpacked & Hwe & Hfuel) & Hall & ->).
    cbn [fst snd] in Hpacked.
    cbn [pack_each].
    match goal with |- context [UpdateDirectProgress host ?n ?p] =>
      destruct (UpdateDirectProgress_continue host n p s Hnc)
        as (s1 & Hup & Hf1 & _ & _ & Hp1 & _) end.
    assert (at_end s1 bytes) as Hs1 by (unfold at_end in *; congruence).
    destruct (PackFile_appends s1 bytes _ _ save_paths fuel e Hs1 Hpacked Hwe Hfuel)
      as (s2 & Hpack & Hs2 & Hp2).
    destruct (IH es' (S i) s2 (bytes ++ entry_bytes e)) as (s3 & Hrest & Hs3 & Hp3);
      [|done|done|].
    { apply (never_cancels_same host s); [congruence|done]. }
    exists s3. split_fields.
    + erewrite bind_val; [|exact Hup]. cbn beta iota.
      erewrite bind_val; [|exact Hpack].
      erewrite bind_val; [|exact Hrest]. reflexivity.
    + rewrite entries_bytes_cons, app_assoc. done.
    + congruence.
Qed.

Lemma PackFilesW_creates packedFile subPath srcPath addList flags fuel es :
  never_cancels host new_archive →
  Z.land flags PK_PACK_MOVE_FILES = 0 →
  let save_paths := negb (Z.land flags PK_PACK_SAVE_PATHS =? 0) in
  let relative := relative_paths_to_add_by sort save_paths addList in
  let archive := archive_paths_to_add save_paths subPath relative in
  Forall2 (λ item e,
             packed_entry tree (CombinePath srcPath item.1) item.2 = Some e
             ∧ well_formed e ∧ (length (e_payload e) < fuel)%nat)
    (zip relative archive) es →
  ExportsAnySort.PackFilesW_by host zlib tree sort None true packedFile subPath srcPath addList
    flags fuel
  = (Some 0, Some (archive_bytes es)).
Proof.
  intros Hnc Hmove save_paths relative archive Hall.
  unfold ExportsAnySort.PackFilesW_by, AnySort.PackFilesW_by.
  rewrite Hmove. change (negb (0 =? 0)) with false.
  fold save_paths. fold relative. fold archive.
  destruct (CallProcessDataProc_continue host (Some packedFile) 0 new_archive Hnc)
    as (r & s1 & Hcall & Hr & Hso1).
  erewrite bind_val; [|exact Hcall].
  apply Z.eqb_neq in Hr. rewrite Hr.
  erewrite bind_val; [|reflexivity].
  erewrite bind_val; [|reflexivity].
  set (s2 := set_last_progress_time_ _ _).
  assert (process_data_proc_ s2 = process_data_proc_ new_archive) as Hp2.
  { subst s2. state_simpl. apply Hso1. }
  assert (archive_file_ s2 = None) as Hf2.
  { subst s2. state_simpl. destruct Hso1 as (-> & _). done. }
  set (s3 := set_original_archive_size_ 0
               (set_created_new_archive_ true
                  (set_archive_file_ (Some {| contents := []; cursor := 0 |}) s2))).
  destruct (write_at_end s3 [] kFileHeader) as (s4 & Hwrite & Hs4 & Hp4);
    [done|].
  assert (created_new_archive_ s4 = true) as Hcreated.
  { revert Hwrite. unfold WriteOrThrow, with_file. subst s3. state_simpl.
    by intros [= <-]. }
  erewrite bind_val; cycle 1.
  { unfold OpenForPack.
    erewrite bind_val; [|reflexivity].
    erewrite bind_val; [|reflexivity].
    erewrite bind_val; [|reflexivity].
    exact Hwrite. }
  erewrite bind_val; [|reflexivity]. rewrite Hcreated. cbn [negb when].
  erewrite bind_val; [|reflexivity].
  destruct (pack_each_appends srcPath save_paths fuel (length relative)
              (zip relative archive) es 0%nat s4 kFileHeader)
    as (s5 & Hpack & Hs5 & Hp5); [|done|done|].
  { apply (never_cancels_same host new_archive); [|done].
    rewrite Hp4. subst s3. state_simpl. done. }
  erewrite bind_val; [|exact Hpack].
  erewrite bind_val; [|reflexivity].
  cbn [mret M_ret Exports.returned_value]. unfold Exports.stored_after.
  rewrite Hs5. reflexivity.
Qed.

End Packing.

Section RoundTrip.
Context (host : Host) (zlib : Zlib) (tree : SourceTree) (dest : Destination).
Context (sort : list wstring → list wstring).

Lemma packed_entry_stored absolute_path archive_path e :
  packed_entry tree absolute_path archive_path = Some e →
  live e = true ∧ is_compressed e = false
  ∧ consistent_header (entry_header e) = true
  ∧ Z.of_nat (length (e_payload e)) < kMinFileSizeForCompression.
Proof.
  unfold packed_entry.
  destruct (source_at tree absolute_path) as [file|]; [|done].
  destruct (dos_date_time file) as [dos|]; [|done].
  destruct (Z.eqb_spec (Z.land (dwFileAttributes file) FILE_ATTRIBUTE_DIRECTORY) 0)
    as [Hfile|Hdir].
  - destruct (file_bytes file) as [src|]; [|done].
    destruct (Z.eqb_spec (nFileSize file) (Z.of_nat (length src))) as [Hsize|];
      [|done].
    destruct (EnableCompressionForFile (nFileSize file)) eqn:Hpolicy; [done|].
    cbn [andb negb]. intros [= <-]. split_fields; try done.
    + unfold consistent_header.
      cbn [entry_header attributes flags pack_size unp_size e_flags e_attributes
           e_unp_size e_payload].
      rewrite wcx_attributes_directory, Hfile, Hsize.
      change (0 =? 0) with true. rewrite !Z.eqb_refl. done.
    + cbn [e_payload]. rewrite <- Hsize.
      unfold EnableCompressionForFile in Hpolicy. cbn [kEnableCompression andb] in Hpolicy.
      destruct (Z.geb_spec (nFileSize file) kMinFileSizeForCompression); [done|lia].
  - intros [= <-]. split_fields; try done.
    unfold consistent_header.
    cbn [entry_header attributes flags pack_size unp_size e_flags e_attributes
         e_unp_size e_payload length].
    change (Z.of_nat 0) with 0. change (0 >? 0) with false. cbn [orb].
    rewrite andb_false_r. done.
Qed.

(** X15.  Packing and extracting again gives the files back, where
    the host never asks to cancel.  Whatever order [std::sort] leaves
    equivalent paths in: where every item to add is a directory or a file
    too short to be compressed and gives a well-formed entry,
    [PackFilesW] without the move flag creates a new archive that holds
    these entries in the order of the sorted list and nothing else;
    opening that archive and extracting every entry to a destination
    where every directory and file can be made then makes a directory
    for each directory and, for each file, a file with the bytes of the
    source file. *)
Theorem packed_files_are_extracted_unchanged packedFile subPath srcPath addList
    flags destPath es rounds fuel :
  sorts StricmpPred sort →
  never_cancels host new_archive →
  (∀ p, CreateDirectoryW dest p = true) → (∀ p, wfopen_wb dest p = true) →
  (1 < length destPath)%nat →
  Z.land flags PK_PACK_MOVE_FILES = 0 →
  let save_paths := negb (Z.land flags PK_PACK_SAVE_PATHS =? 0) in
  let relative := relative_paths_to_add_by sort save_paths addList in
  let archive := archive_paths_to_add save_paths subPath relative in
  Forall2 (λ item e,
             packed_entry tree (CombinePath srcPath item.1) item.2 = Some e
             ∧ well_formed e)
    (zip relative archive) es →
  (length es < fuel)%nat → (15 < fuel)%nat → (length es < rounds)%nat →
  ∃ this,
    ExportsAnySort.PackFilesW_by host zlib tree sort None true packedFile subPath srcPath addList
      flags fuel
    = (Some 0, Some (archive_bytes es))
    ∧ ExportsReading.OpenArchiveW host (Some (archive_bytes es)) PK_OM_EXTRACT
      = (Some 0, Some this)
    ∧ process_entries host zlib dest PK_EXTRACT destPath rounds fuel this
      = (map (λ e, (header_data (entry_header e) (e_path e), extracted e)) es,
         Some E_END_ARCHIVE).
Proof.
  intros _ Hnc Hmkdir Hcreate Hdest Hmove save_paths relative archive Hall
    Hfuel Hfuel' Hrounds.
  assert (Forall (λ e, well_formed e ∧ live e = true ∧ is_compressed e = false
                       ∧ consistent_header (entry_header e) = true
                       ∧ (length (e_payload e) < fuel)%nat) es) as Hes.
  { clear -Hall Hfuel'. induction Hall as [|item e items es [Hp Hwe] _ IH];
      constructor; [|done].
    destruct (packed_entry_stored _ _ _ Hp) as (? & ? & ? & Hsmall).
    unfold kMinFileSizeForCompression in Hsmall. split_fields; try done. lia. }
  destruct (OpenArchiveW_opens host (entries_bytes es) PK_OM_EXTRACT)
    as (this & Hopen & Hf & Hnc'); [by right|done|].
  exists this. split_fields.
  - apply PackFilesW_creates; [done|done|].
    fold save_paths. fold relative. fold archive.
    clear -Hall Hes. induction Hall as [|item e items es [Hp Hwe] _ IH];
      constructor.
    + apply Forall_cons in Hes as [(_ & _ & _ & _ & ?) _]. done.
    + apply IH. by apply Forall_cons in Hes as [_ ?].
  - exact Hopen.
  - assert (List.filter live es = es) as Hlive.
    { clear -Hes. induction Hes as [|e es (_ & Hl & _) _ IH]; [done|].
      cbn [List.filter]. by rewrite Hl, IH. }
    rewrite <- Hlive at 1.
    eapply (process_entries_walk host zlib dest PK_EXTRACT destPath
              (λ e, consistent_header (entry_header e) = true
                    ∧ is_compressed e = false
                    ∧ (length (e_payload e) < fuel)%nat)
              extracted fuel); [|reflexivity|done| | |done|done|exact Hf].
    + intros s pre e rest Hs Hwe HP Hfs Hh.
      by apply (ProcessFileW_extracts host zlib dest s pre e rest).
    + eapply Forall_impl; [exact Hes|]. by intros e (? & _).
    + eapply Forall_impl; [exact Hes|]. by intros e (_ & _ & ? & ? & ?) _.
Qed.

End RoundTrip.

(** ** Failures and what they leave *)

Section OtherFiles.
Context (host : Host).

Lemma not_magic_check s bytes :
  (∀ rest, bytes ≠ kFileHeader ++ rest) →
  archive_file_ s = Some {| contents := bytes; cursor := 0 |} →
  ∃ s' f,
    ReadAndCheckHeader s
    = (Exc (if (length bytes <? length kFileHeader)%nat then E_EREAD
            else E_BAD_ARCHIVE), s')
    ∧ archive_file_ s' = Some f ∧ contents f = bytes.
Proof.
  intros Hother Hf.
  destruct (ReadAndCheckHeader_cases s bytes Hf) as (s' & Hrun & (f & Hf' & Hc) & _).
  exists s', f. split; [|done]. rewrite Hrun.
  destruct (_ <? _)%nat; [done|].
  rewrite bool_decide_eq_false_2; [done|].
  intros [rest ->]%take_magic. by apply (Hother rest).
Qed.

(** X18.  [DeleteFilesW] never changes a file that does not begin with
    the file header: the stored bytes are the same afterwards, and the
    result is [E_EREAD] for a file shorter than the header and
    [E_BAD_ARCHIVE] for any other, unless the list was empty (0) or the
    host asked to cancel ([E_EABORTED]). *)
Theorem erase_leaves_other_files_alone bytes packedFile deleteList fuel :
  (∀ rest, bytes ≠ kFileHeader ++ rest) →
  ∃ code,
    Exports.DeleteFilesW host (Some bytes) packedFile deleteList fuel
    = (Some code, Some bytes)
    ∧ (code = E_EABORTED ∧ ¬ never_cancels host new_archive
       ∨ code = 0 ∧ paths_to_delete_of deleteList = []
       ∨ paths_to_delete_of deleteList ≠ []
         ∧ code = if (length bytes <? length kFileHeader)%nat then E_EREAD
                  else E_BAD_ARCHIVE).
Proof.
  intros Hother. unfold Exports.DeleteFilesW, Archive.DeleteFilesW.
  destruct (CallProcessDataProc_any host (Some packedFile) 0 new_archive)
    as (r & s1 & Hr & Hso1).
  erewrite bind_val; [|exact Hr].
  destruct (Z.eqb_spec r 0) as [->|Hr0].
  { exists E_EABORTED. split.
    - cbn [throw Exports.returned_value]. unfold Exports.stored_after.
      destruct Hso1 as (-> & _). done.
    - left. split; [done|]. intros Hnc.
      destruct (CallProcessDataProc_continue host (Some packedFile) 0 new_archive Hnc)
        as (r' & s1' & Hr' & Hr0' & _). congruence. }
  erewrite bind_val; [|reflexivity].
  erewrite bind_val; [|reflexivity].
  case_bool_decide as Hnil.
  { exists 0. split; [|by right; left].
    cbn [mret M_ret Exports.returned_value]. unfold Exports.stored_after.
    state_simpl. destruct Hso1 as (-> & _). done. }
  match goal with |- context [(OpenForDelete _ ≫= _) ?s0] =>
    destruct (OpenForDelete_run s0 bytes) as (s2 & Hop & Hf2 & _) end.
  erewrite bind_val; [|exact Hop].
  destruct (not_magic_check s2 bytes Hother Hf2) as (s3 & f & Hck & Hf3 & Hc3).
  erewrite bind_exc; [|exact Hck].
  eexists. split.
  - cbn [Exports.returned_value]. unfold Exports.stored_after.
    rewrite Hf3, Hc3. reflexivity.
  - right. right. done.
Qed.

(** X19.  [PackFilesW] never appends to an existing file that does not
    begin with the file header: the stored bytes are the same afterwards
    and the result is [E_EREAD], [E_BAD_ARCHIVE], or [E_EABORTED] when
    the host asked to cancel, whatever was to be added. *)
Theorem pack_leaves_other_files_alone zlib tree bytes can_create packedFile
    subPath srcPath addList flags fuel :
  (∀ rest, bytes ≠ kFileHeader ++ rest) →
  ∃ code,
    Exports.PackFilesW host zlib tree (Some bytes) can_create packedFile subPath
      srcPath addList flags fuel
    = (Some code, Some bytes)
    ∧ (code = E_EABORTED ∧ ¬ never_cancels host new_archive
       ∨ code = if (length bytes <? length kFileHeader)%nat then E_EREAD
                else E_BAD_ARCHIVE).
Proof.
  intros Hother. unfold Exports.PackFilesW, Archive.PackFilesW.
  destruct (CallProcessDataProc_any host (Some packedFile) 0 new_archive)
    as (r & s1 & Hr & Hso1).
  erewrite bind_val; [|exact Hr].
  destruct (Z.eqb_spec r 0) as [->|Hr0].
  { exists E_EABORTED. split.
    - cbn [throw Exports.returned_value]. unfold Exports.stored_after.
      destruct Hso1 as (-> & _). done.
    - left. split; [done|]. intros Hnc.
      destruct (CallProcessDataProc_continue host (Some packedFile) 0 new_archive Hnc)
        as (r' & s1' & Hr' & Hr0' & _). congruence. }
  erewrite bind_val; [|reflexivity].
  erewrite bind_val; [|reflexivity].
  set (s2 := set_last_progress_time_ _ _).
  set (s3 := set_created_new_archive_ false
               (set_archive_file_ (Some {| contents := bytes; cursor := 0 |}) s2)).
  destruct (GetFileSize_run s3 {| contents := bytes; cursor := 0 |} eq_refl)
    as (s4 & Hsize & Hf4 & _ & Hc4).
  erewrite bind_val; cycle 1.
  { unfold OpenForPack.
    erewrite bind_val; [|reflexivity].
    erewrite bind_val; [|reflexivity].
    erewrite bind_val; [|exact Hsize]. reflexivity. }
  match goal with |- context [(gets created_new_archive_ ≫= _) ?s] =>
    set (s5 := s) end.
  destruct (not_magic_check s5 bytes Hother) as (s6 & f & Hck & Hf6 & Hc6).
  { subst s5. state_simpl. exact Hf4. }
  erewrite bind_val; [|reflexivity].
  assert (created_new_archive_ s5 = false) as ->.
  { subst s5. state_simpl. rewrite Hc4. subst s3. by state_simpl. }
  cbn [negb when].
  erewrite bind_exc; cycle 1.
  { erewrite bind_exc; [reflexivity|exact Hck]. }
  eexists. split.
  - cbn [Exports.returned_value]. unfold Exports.stored_after.
    rewrite Hf6, Hc6. reflexivity.
  - right. done.
Qed.

End OtherFiles.

Section UnpackedSize.
Context (host : Host) (zlib : Zlib).

Lemma on_session_dst {A} (m : M ArchiveBase A) u r u' :
  on_session m u = (r, u') → dst_file u' = dst_file u.
Proof.
  unfold on_session. destruct (m (session u)) as [r0 s']. by intros [= _ <-].
Qed.

Lemma to_uint64_idemp v : to_uint64 (to_uint64 v) = to_uint64 v.
Proof. unfold to_uint64. apply Z.mod_mod. lia. Qed.

Lemma inflate_refill_dst v u x u' :
  inflate_refill zlib v u = (Val x, u') → dst_file u' = dst_file u.
Proof.
  unfold inflate_refill.
  destruct (bool_decide (in_avail zlib v = []) && (src_bytes_left zlib v >? 0)).
  - intros H.
    apply bind_inv in H as [(buf & u1 & H1 & H)|[(? & ? & ?)|[? ?]]]; [|done..].
    apply on_session_dst in H1.
    destruct (_ <? _); [done|].
    apply bind_inv in H as [(? & u2 & H2 & H)|[(? & ? & ?)|[? ?]]]; [|done..].
    apply on_session_dst in H2. injection H as _ <-. congruence.
  - by intros [= _ <-].
Qed.

(** What one round of the decoding loop leaves in the destination file,
    and how it counts it. *)
Lemma inflate_round_written v u next u' :
  inflate_round host zlib v u = (Val next, u') →
  ∃ written,
    dst_file u' = dst_file u ++ written
    ∧ to_uint64 (match next with
                 | inl v' => total_bytes_written zlib v'
                 | inr total => total
                 end)
      = to_uint64 (total_bytes_written zlib v + Z.of_nat (length written)).
Proof.
  unfold inflate_round. intros H.
  apply bind_inv in H as [([[mp avail_in] bytes_left] & u1 & H1 & H)|[(? & ? & ?)|[? ?]]];
    [|done..].
  apply inflate_refill_dst in H1.
  destruct (inflate zlib (in_state zlib v) avail_in 0) as [[[zr consumed] produced] state'].
  apply bind_inv in H as [([] & u2 & H2 & H)|[(? & ? & ?)|[? ?]]]; [|done..].
  assert (u2 = u1) as ->.
  { unfold when in H2. destruct (_ && _).
    - by apply ZlibResultToWcxException_val in H2.
    - by injection H2. }
  apply bind_inv in H as [([mp' total] & u3 & H3 & H)|[(? & ? & ?)|[? ?]]]; [|done..].
  apply bind_inv in H as [(cancelled & u4 & H4 & H)|[(? & ? & ?)|[? ?]]]; [|done..].
  apply on_session_dst in H4.
  assert (∃ written, dst_file u3 = dst_file u1 ++ written
            ∧ to_uint64 total
              = to_uint64 (total_bytes_written zlib v + Z.of_nat (length written)))
    as (written & Hdst & Htotal).
  { destruct (bool_decide (take (Z.to_nat kBufSize) produced = [])); cbn [negb] in H3.
    - injection H3 as _ <- <-. exists []. rewrite app_nil_r. cbn [length].
      by rewrite Z.add_0_r.
    - apply bind_inv in H3 as [([] & u2 & H2' & H3)|[(? & ? & ?)|[? ?]]]; [|done..].
      injection H2' as <-. injection H3 as _ <- <-.
      eexists. split; [reflexivity|]. apply to_uint64_idemp. }
  destruct cancelled; [done|].
  assert (u' = u4
          ∧ match next with
            | inl v' => total_bytes_written zlib v'
            | inr total0 => total0
            end = total) as [-> ->].
  { destruct (zr =? Z_STREAM_END); [by injection H as <- <-|].
    destruct (negb mp'); [done|]. by injection H as <- <-. }
  exists written. split; [congruence|done].
Qed.

Lemma to_uint64_add_l a b : to_uint64 a = to_uint64 b → ∀ c,
  to_uint64 (a + c) = to_uint64 (b + c).
Proof.
  unfold to_uint64. intros H c.
  rewrite (Z.add_mod a), (Z.add_mod b), H by lia. done.
Qed.

Lemma inflate_rounds_written fuel : ∀ v u total u',
  inflate_rounds host zlib fuel v u = (Val total, u') →
  ∃ written,
    dst_file u' = dst_file u ++ written
    ∧ to_uint64 total
      = to_uint64 (total_bytes_written zlib v + Z.of_nat (length written)).
Proof.
  induction fuel as [|fuel IH]; intros v u total u' H; [done|].
  cbn [inflate_rounds] in H.
  apply bind_inv in H as [(next & u1 & H1 & H)|[(? & ? & ?)|[? ?]]]; [|done..].
  destruct (inflate_round_written _ _ _ _ H1) as (w1 & Hd1 & Ht1).
  destruct next as [v'|total'].
  - destruct (IH _ _ _ _ H) as (w2 & Hd2 & Ht2).
    exists (w1 ++ w2). split; [by rewrite Hd2, Hd1, app_assoc|].
    rewrite Ht2, length_app, Nat2Z.inj_add, Z.add_assoc.
    by apply to_uint64_add_l.
  - injection H as <- <-. exists w1. done.
Qed.

Lemma copy_rounds_written fuel : ∀ bytes_left u u',
  0 ≤ bytes_left < 2 ^ 64 →
  copy_rounds host fuel bytes_left u = (Val tt, u') →
  ∃ written,
    dst_file u' = dst_file u ++ written
    ∧ Z.of_nat (length written) = bytes_left.
Proof.
  induction fuel as [|fuel IH]; intros bytes_left u u' Hrange H; [done|].
  cbn [copy_rounds] in H.
  destruct (Z.gtb_spec bytes_left 0) as [Hpos|Hzero].
  - pose proof kBufSize_pos as Hbuf.
    apply bind_inv in H as [(buf & u1 & H1 & H)|[(? & ? & ?)|[? ?]]]; [|done..].
    assert (Z.of_nat (length buf) ≤ Z.min bytes_left kBufSize) as Hshort.
    { revert H1. unfold on_session, fread, with_file.
      destruct (archive_file_ (session u)) as [f|]; [|done].
      intros [= <- _].
      pose proof (fread_bytes_short (Z.to_nat (Z.min bytes_left kBufSize)) f) as [Hle _].
      unfold fread_bytes in Hle |- *. cbn [fst] in Hle |- *. lia. }
    apply on_session_dst in H1.
    destruct (Z.ltb_spec (Z.of_nat (length buf)) (Z.min bytes_left kBufSize));
      [done|].
    apply bind_inv in H as [([] & u2 & H2 & H)|[(? & ? & ?)|[? ?]]]; [|done..].
    apply on_session_dst in H2.
    apply bind_inv in H as [([] & u3 & H3 & H)|[(? & ? & ?)|[? ?]]]; [|done..].
    injection H3 as <-.
    apply bind_inv in H as [(cancelled & u4 & H4 & H)|[(? & ? & ?)|[? ?]]]; [|done..].
    apply on_session_dst in H4. cbn [dst_file] in H4.
    destruct cancelled; [done|].
    assert (to_uint64 (bytes_left - Z.min bytes_left kBufSize)
            = bytes_left - Z.min bytes_left kBufSize) as Hleft.
    { unfold to_uint64. apply Z.mod_small. lia. }
    rewrite Hleft in H.
    assert (0 ≤ bytes_left - Z.min bytes_left kBufSize < 2 ^ 64) as Hrange' by lia.
    destruct (IH _ _ _ Hrange' H) as (w & Hd & Hl).
    exists (buf ++ w). split.
    + rewrite Hd, H4, H2, H1, app_assoc. done.
    + rewrite length_app. lia.
  - injection H as <-. exists []. rewrite app_nil_r. split; [done|]. cbn. lia.
Qed.

(** X17.  When [UnpackFileContent] returns, the destination file has
    grown by as many bytes as were declared: [dst_file_size] for a
    compressed payload (the count that is compared with it is the number
    of bytes really written), [src_file_size] for a stored one. *)
Theorem unpacked_size_is_as_declared dst_file_size src_file_size
    enable_compression fuel u u' :
  0 ≤ dst_file_size < 2 ^ 64 → 0 ≤ src_file_size < 2 ^ 64 →
  UnpackFileContent host zlib dst_file_size src_file_size enable_compression fuel u
  = (Val tt, u') →
  ∃ written,
    dst_file u' = dst_file u ++ written
    ∧ Z.of_nat (length written) mod 2 ^ 64
      = if enable_compression then dst_file_size else src_file_size.
Proof.
  intros Hdst Hsrc. unfold UnpackFileContent. destruct enable_compression.
  - destruct (inflateInit zlib) as [zlib_result state].
    intros H.
    apply bind_inv in H as [([] & u1 & H1 & H)|[(? & ? & ?)|[? ?]]]; [|done..].
    apply ZlibResultToWcxException_val in H1 as ->.
    apply bind_inv in H as [(total & u2 & H2 & H)|[(? & ? & ?)|[? ?]]]; [|done..].
    destruct (Z.eqb_spec total dst_file_size) as [->|]; [|done].
    injection H as <-.
    destruct (inflate_rounds_written _ _ _ _ _ H2) as (written & Hd & Ht).
    exists written. split; [done|].
    cbn [total_bytes_written] in Ht. rewrite Z.add_0_l in Ht.
    unfold to_uint64 in Ht. rewrite <- Ht. apply Z.mod_small. done.
  - intros H.
    destruct (copy_rounds_written _ _ _ _ Hsrc H) as (written & Hd & Hl).
    exists written. split; [done|]. rewrite Hl. apply Z.mod_small. done.
Qed.

End UnpackedSize.

Section FailedExtraction.
Context (host : Host) (zlib : Zlib) (dest : Destination).

Lemma on_reading_inv {A} (m : M ArchiveBase A) x r x1 :
  on_reading m x = (r, x1) →
  node x1 = node x ∧ attributes_set x1 = attributes_set x.
Proof.
  unfold on_reading. destruct (m (reading x)) as [r0 s']. by intros [= _ <-].
Qed.

Lemma on_reading_progress x r x1 :
  on_reading (UpdateBytesProcessedProgress host) x = (r, x1) →
  ∃ cancelled, r = Val cancelled.
Proof.
  unfold on_reading.
  destruct (UpdateBytesProcessedProgress_any host (reading x)) as (c & s' & -> & _).
  intros [= <- _]. eauto.
Qed.

(** X16.  What a failed [ExtractFile] leaves behind.  When it fails
    with [E_EABORTED], the directory or file it created has been removed
    again, unless the cancel came with the last progress report, after
    the attributes were set.  When it fails with any other value, it
    either has created nothing or leaves the file as far as it was
    written, without attributes. *)
Theorem failed_extraction_leaves destPath destName fuel x e x' :
  node x = Untouched → attributes_set x = None →
  ExtractFile host zlib dest destPath destName fuel x = (Exc e, x') →
  if e =? E_EABORTED
  then node x' = Removed
       ∨ attributes_set x' = Some (attributes (last_header_ (reading x)))
  else attributes_set x' = None
       ∧ (node x' = Untouched ∨ ∃ bytes, node x' = RegularFile bytes).
Proof.
  intros Hnode Hattr. unfold ExtractFile.
  case_bool_decide as Hempty.
  { intros [= <- <-]. cbn. split; [done|by left]. }
  intros H.
  apply bind_inv in H as [(h & x1 & H1 & H)|[(? & ? & ?)|[? ?]]]; [|done..].
  assert (h = last_header_ (reading x)) as Hh.
  { revert H1. unfold on_reading. cbn. by intros [= <- _]. }
  apply on_reading_inv in H1 as [Hn1 Ha1]. rewrite Hnode in Hn1. rewrite Hattr in Ha1.
  apply bind_inv in H as [([] & x2 & Hbranch & H)|[(e0 & Hbranch & [= <-])|[? ?]]];
    [| |done].
  - (* the last progress report *)
    apply bind_inv in H as [([] & x3 & H3 & H)|[(? & ? & ?)|[? ?]]]; [|done..].
    injection H3 as <-.
    apply bind_inv in H as [(c & x4 & H4 & H)|[(? & H4 & ?)|[? ?]]]; cycle 1.
    { by apply on_reading_progress in H4 as [? ?]. }
    { done. }
    apply on_reading_inv in H4 as [_ Ha4]. cbn [attributes_set] in Ha4.
    destruct c; [|done]. injection H as <- <-.
    change (E_EABORTED =? E_EABORTED) with true. cbv iota. right.
    by rewrite Ha4, Hh.
  - (* creating the directory or the file *)
    destruct (negb (Z.land (attributes h) FILE_ATTR_DIRECTORY =? 0)).
    + destruct (negb (CreateDirectoryW dest _)).
      { injection Hbranch as <- <-. cbn. split; [done|by left]. }
      apply bind_inv in Hbranch as [([] & x2 & H2 & Hbranch)|[(? & ? & ?)|[? ?]]];
        [|done..].
      apply bind_inv in Hbranch as [(c & x3 & H3 & Hbranch)|[(? & H3 & ?)|[? ?]]];
        cycle 1.
      { by apply on_reading_progress in H3 as [? ?]. }
      { done. }
      destruct c; [|done].
      apply bind_inv in Hbranch as [([] & x4 & H4 & Hbranch)|[(? & ? & ?)|[? ?]]];
        [|done..].
      injection H4 as <-. injection Hbranch as <- <-.
      change (E_EABORTED =? E_EABORTED) with true. cbv iota. by left.
    + unfold try_rethrow in Hbranch.
      match type of Hbranch with
      | match ?body x1 with _ => _ end = _ =>
          destruct (body x1) as [[?|e1|] xb] eqn:Hbody; [done| |done]
      end.
      destruct (Z.eqb_spec e1 E_EABORTED) as [->|Hother]; cbn [when] in Hbranch.
      * injection Hbranch as He Hx. subst e x'.
        change (E_EABORTED =? E_EABORTED) with true. cbv iota. by left.
      * injection Hbranch as <- <-.
        apply Z.eqb_neq in Hother. rewrite Hother.
        destruct (negb (wfopen_wb dest _)).
        { injection Hbody as _ <-. split; [done|by left]. }
        apply bind_inv in Hbody as [([] & x2 & H2 & Hbody)|[(? & ? & ?)|[? ?]]];
          [|done..].
        injection H2 as <-.
        apply bind_inv in Hbody as [(c & x3 & H3 & Hbody)|[(? & H3 & ?)|[? ?]]];
          cycle 1.
        { by apply on_reading_progress in H3 as [? ?]. }
        { done. }
        apply on_reading_inv in H3 as [_ Ha3]. cbn [attributes_set] in Ha3.
        destruct c.
        { injection Hbody as <- _. vm_compute in Hother. discriminate. }
        unfold on_new_file in Hbody.
        destruct (UnpackFileContent _ _ _ _ _ _ _) as [r u].
        injection Hbody as _ <-. cbn [attributes_set node].
        split; [congruence|]. right. eauto.
Qed.

End FailedExtraction.

(** ** Packing over an existing archive *)

Section Frame.

Lemma keeps_ret {A} (a : A) : keeps_callback (mret a).
Proof. by intros s r s' [= _ <-]. Qed.

Lemma keeps_throw {A} code : keeps_callback (A:=A) (throw code).
Proof. by intros s r s' [= _ <-]. Qed.

Lemma keeps_diverge {A} : keeps_callback (A:=A) diverge.
Proof. by intros s r s' [= _ <-]. Qed.

Lemma keeps_gets {A} (f : ArchiveBase → A) : keeps_callback (gets f).
Proof. by intros s r s' [= _ <-]. Qed.

Lemma keeps_bind {A B} (m : M ArchiveBase A) (f : A → M ArchiveBase B) :
  keeps_callback m → (∀ a, keeps_callback (f a)) → keeps_callback (m ≫= f).
Proof.
  intros Hm Hf s r s' H.
  apply bind_inv in H as [(a & s1 & H1 & H)|[(e' & H1 & _)|[H1 _]]].
  - rewrite (Hf _ _ _ _ H). by eapply Hm.
  - by eapply Hm.
  - by eapply Hm.
Qed.

Lemma keeps_when (b : bool) (m : M ArchiveBase unit) :
  keeps_callback m → keeps_callback (when b m).
Proof. destruct b; [done|]. intros _. apply keeps_ret. Qed.

Lemma keeps_with_file {A} (op : FILE → result A * FILE) :
  keeps_callback (with_file op).
Proof.
  intros s r s'. unfold with_file. destruct (archive_file_ s) as [f|].
  - destruct (op f) as [r0 f']. by intros [= _ <-].
  - by intros [= _ <-].
Qed.

End Frame.

Ltac keeps_step :=
  first
    [ apply keeps_ret | apply keeps_gets | apply keeps_diverge
    | apply keeps_throw | apply keeps_with_file
    | apply keeps_bind; [|intros ?]
    | apply keeps_when
    | match goal with
      | |- keeps_callback (modify _) => by intros s r s' [= _ <-]
      | |- keeps_callback (if ?b then _ else _) => destruct b
      | |- keeps_callback (match ?x with _ => _ end) => destruct x
      end ].

Section FrameArchive.
Context (host : Host).

Lemma keeps_ReadEntryHeader : keeps_callback ReadEntryHeader.
Proof.
  unfold ReadEntryHeader, ReadOrThrow, fread, add_bytes_processed.
  repeat keeps_step.
Qed.

Lemma keeps_UpdateDirectProgress file_name size :
  keeps_callback (UpdateDirectProgress host file_name size).
Proof.
  intros s r s' H.
  destruct (UpdateDirectProgress_any host file_name size s)
    as (c & s1 & H1 & (_ & _ & _ & Hp & _)).
  congruence.
Qed.

Lemma keeps_DeleteIf_next_entry fuel : keeps_callback (DeleteIf_next_entry fuel).
Proof.
  induction fuel as [|fuel IH]; [apply keeps_diverge|].
  cbn [DeleteIf_next_entry]. unfold _ftelli64, SeekOrThrow.
  keeps_step; [keeps_step|]. keeps_step; [apply keeps_ReadEntryHeader|].
  repeat keeps_step. exact IH.
Qed.

Lemma keeps_DeleteIf pred fuel : keeps_callback (DeleteIf host pred fuel).
Proof.
  induction fuel as [|fuel IH]; [apply keeps_diverge|].
  cbn [DeleteIf]. unfold _ftelli64, SeekOrThrow, WriteOrThrow.
  keeps_step; [apply keeps_DeleteIf_next_entry|].
  destruct a; [|apply keeps_ret].
  do 4 (keeps_step; [repeat keeps_step|]).
  keeps_step; [repeat keeps_step|].
  keeps_step; [apply keeps_UpdateDirectProgress|].
  keeps_step; [apply keeps_throw|exact IH].
Qed.

End FrameArchive.

Section Update.
Context (host : Host) (zlib : Zlib) (tree : SourceTree).
Context (sort : list wstring → list wstring).

(** X20.  Packing over an existing archive replaces.  With paths kept
    and the host never cancelling, whatever order [std::sort] leaves
    equivalent paths in: where the archive holds well-formed entries and
    every item to add is a directory or a file too short to be
    compressed, [PackFilesW] without the move flag tombstones every live
    entry whose path is, for [_wcsicmp], the path in the archive of an
    item to add, leaves every other byte of the archive as it was, and
    appends the new entries in the order of the sorted list. *)
Theorem packing_again_replaces es new_es can_create packedFile subPath srcPath
    addList flags fuel :
  sorts StricmpPred sort →
  never_cancels host new_archive →
  Z.land flags PK_PACK_MOVE_FILES = 0 → Z.land flags PK_PACK_SAVE_PATHS ≠ 0 →
  let relative := relative_paths_to_add_by sort true addList in
  let archive := archive_paths_to_add true subPath relative in
  let replaced := λ path, existsb (λ p, _wcsicmp path p =? 0) archive in
  Forall well_formed es →
  Forall2 (λ item e,
             packed_entry tree (CombinePath srcPath item.1) item.2 = Some e
             ∧ well_formed e)
    (zip relative archive) new_es →
  (length es < fuel)%nat → (15 < fuel)%nat →
  ExportsAnySort.PackFilesW_by host zlib tree sort (Some (archive_bytes es)) can_create packedFile
    subPath srcPath addList flags fuel
  = (Some 0,
     Some (archive_bytes (tombstone_matching replaced es ++ new_es))).
Proof.
  intros Hsort Hnc Hmove Hsave relative archive replaced Hwf Hall Hfuel Hfuel'.
  pose proof (archive_paths_ascending_by sort subPath addList Hsort) as Hascending.
  fold relative archive in Hascending.
  set (matches := λ path,
         superseded archive (set_last_header_path_ path new_archive)).
  assert (tombstone_matching matches es = tombstone_matching replaced es) as Hsame.
  { unfold tombstone_matching. apply map_ext. intros e.
    assert (matches (e_path e) = replaced (e_path e)) as ->; [|done].
    apply Bool.eq_iff_eq_true. unfold matches.
    rewrite (superseded_ascending archive _ Hascending).
    unfold replaced. rewrite existsb_exists. cbn [last_header_path_ set_last_header_path_].
    split.
    - intros (p & Hp & Heq). exists p. split; [by apply list_elem_of_In|].
      by apply Z.eqb_eq.
    - intros (p & Hp & Heq). exists p. split; [by apply list_elem_of_In|].
      by apply Z.eqb_eq. }
  assert (Forall2 (λ item e,
             packed_entry tree (CombinePath srcPath item.1) item.2 = Some e
             ∧ well_formed e ∧ (length (e_payload e) < fuel)%nat)
            (zip relative archive) new_es) as Hall'.
  { clear -Hall Hfuel'. induction Hall as [|item e items new_es [Hp Hwe] _ IH];
      constructor; [|done].
    destruct (packed_entry_stored tree _ _ _ Hp) as (_ & _ & _ & Hsmall).
    unfold kMinFileSizeForCompression in Hsmall. split_fields; try done. lia. }
  unfold ExportsAnySort.PackFilesW_by, AnySort.PackFilesW_by.
  rewrite Hmove. change (negb (0 =? 0)) with false.
  apply Z.eqb_neq in Hsave. rewrite Hsave. cbn [negb].
  fold relative. fold archive.
  destruct (CallProcessDataProc_continue host (Some packedFile) 0 new_archive Hnc)
    as (r & s1 & Hcall & Hr & Hso1).
  erewrite bind_val; [|exact Hcall].
  apply Z.eqb_neq in Hr. rewrite Hr.
  erewrite bind_val; [|reflexivity].
  erewrite bind_val; [|reflexivity].
  set (s2 := set_last_progress_time_ _ _).
  assert (process_data_proc_ s2 = process_data_proc_ new_archive) as Hp2.
  { subst s2. state_simpl. apply Hso1. }
  set (s3 := set_created_new_archive_ false
               (set_archive_file_
                  (Some {| contents := archive_bytes es; cursor := 0 |}) s2)).
  destruct (GetFileSize_run s3 {| contents := archive_bytes es; cursor := 0 |} eq_refl)
    as (s4 & Hsize & Hf4 & Hp4 & Hc4).
  erewrite bind_val; cycle 1.
  { unfold OpenForPack.
    erewrite bind_val; [|reflexivity].
    erewrite bind_val; [|reflexivity].
    erewrite bind_val; [|exact Hsize]. reflexivity. }
  match goal with |- context [(gets created_new_archive_ ≫= _) ?s] =>
    set (s5 := s) end.
  assert (process_data_proc_ s5 = process_data_proc_ new_archive) as Hp5.
  { subst s5. state_simpl. rewrite Hp4. subst s3. by state_simpl. }
  destruct (ReadAndCheckHeader_run s5 (entries_bytes es))
    as (s6 & Hck & Hf6 & Hp6 & _).
  { subst s5. state_simpl. exact Hf4. }
  assert (never_cancels host s6) as Hnc6.
  { apply (never_cancels_same host new_archive); [congruence|done]. }
  destruct (DeleteIf_outcome host (superseded archive) matches (λ _, eq_refl)
              (length es) es kFileHeader s6 fuel)
    as (r' & s7 & k & f7 & Hdel & Hk & Hf7 & Hc7 & [(-> & -> & Hend)|(_ & Hcancel)]);
    [done|done|done|done| |done].
  rewrite take_ge, drop_ge, app_nil_r in Hc7 by done.
  assert (at_end s7 (archive_bytes (tombstone_matching replaced es))) as Hs7.
  { unfold at_end. rewrite Hf7. destruct f7 as [c7 p7]. cbn [contents cursor] in *.
    rewrite Hend, Hc7, Hsame. done. }
  assert (process_data_proc_ s7 = process_data_proc_ s6) as Hp7.
  { by apply (keeps_DeleteIf host _ _ _ _ _ Hdel). }
  destruct (pack_each_appends host zlib tree srcPath true fuel (length relative)
              (zip relative archive) new_es 0%nat s7
              (archive_bytes (tombstone_matching replaced es)))
    as (s8 & Hpack & Hs8 & Hp8); [|exact Hs7|exact Hall'|].
  { apply (never_cancels_same host s6); [done|done]. }
  erewrite bind_val; [|reflexivity].
  assert (created_new_archive_ s5 = false) as ->.
  { subst s5. state_simpl. rewrite Hc4. subst s3. by state_simpl. }
  cbn [negb when].
  erewrite bind_val; cycle 1.
  { erewrite bind_val; [|exact Hck]. exact Hdel. }
  erewrite bind_val; [|exact Hpack].
  erewrite bind_val; [|reflexivity].
  cbn [mret M_ret Exports.returned_value]. unfold Exports.stored_after.
  rewrite Hs8. unfold archive_bytes. by rewrite entries_bytes_app, app_assoc.
Qed.

End Update.

(** ** Moving files into an archive *)

Section Moving.
Context (host : Host) (zlib : Zlib) (tree : SourceTree).
Context (sort : list wstring → list wstring).

Lemma delete_each_run srcPath l s :
  delete_each tree srcPath l s
  = (if forallb (λ item : wstring * bool,
                   source_removed tree (CombinePath srcPath item.1) item.2) l
     then Val tt else Exc E_EWRITE, s).
Proof.
  induction l as [|[relative_path is_dir] l IH]; [done|].
  cbn [delete_each forallb fst snd]. unfold DeleteSrcFile.
  destruct (source_removed tree (CombinePath srcPath relative_path) is_dir).
  - erewrite bind_val; [|reflexivity]. exact IH.
  - erewrite bind_exc; [|reflexivity]. done.
Qed.

Lemma forallb_reverse {A} (f : A → bool) l :
  forallb f (reverse l) = forallb f l.
Proof.
  induction l as [|x l IH]; [done|].
  rewrite reverse_cons, forallb_app. cbn [forallb].
  rewrite IH, andb_true_r. apply andb_comm.
Qed.

Lemma forallb_removed srcPath (relative : list wstring) : ∀ es,
  forallb (λ item : wstring * bool,
             source_removed tree (CombinePath srcPath item.1) item.2)
    (reverse (zip relative (map is_directory es)))
  = forallb (λ item : wstring * Entry,
               source_removed tree (CombinePath srcPath item.1)
                 (is_directory item.2))
      (zip relative es).
Proof.
  intros es. rewrite forallb_reverse. revert es.
  induction relative as [|r relative IH]; intros [|e es]; try done.
  cbn [map zip zip_with forallb fst snd]. by rewrite IH.
Qed.

Lemma PackFilesW_packs_new packedFile subPath srcPath addList flags fuel es :
  never_cancels host new_archive →
  let save_paths := negb (Z.land flags PK_PACK_SAVE_PATHS =? 0) in
  let relative := relative_paths_to_add_by sort save_paths addList in
  let archive := archive_paths_to_add save_paths subPath relative in
  Forall2 (λ item e,
             packed_entry tree (CombinePath srcPath item.1) item.2 = Some e
             ∧ well_formed e ∧ (length (e_payload e) < fuel)%nat)
    (zip relative archive) es →
  ∃ s,
    at_end s (archive_bytes es)
    ∧ AnySort.PackFilesW_by host zlib tree sort None true packedFile subPath srcPath
        addList flags fuel new_archive
      = (when (negb (Z.land flags PK_PACK_MOVE_FILES =? 0))
           (delete_each tree srcPath
              (reverse (zip relative (map is_directory es))));;
         mret 0) s.
Proof.
  intros Hnc save_paths relative archive Hall.
  unfold AnySort.PackFilesW_by.
  fold save_paths. fold relative. fold archive.
  destruct (CallProcessDataProc_continue host (Some packedFile) 0 new_archive Hnc)
    as (r & s1 & Hcall & Hr & Hso1).
  set (s2 := set_last_progress_time_ (GetTickCount64 host (host_events s1))
               (next_host_event s1)).
  assert (process_data_proc_ s2 = process_data_proc_ new_archive) as Hp2.
  { subst s2. state_simpl. apply Hso1. }
  set (s3 := set_original_archive_size_ 0
               (set_created_new_archive_ true
                  (set_archive_file_ (Some {| contents := []; cursor := 0 |}) s2))).
  destruct (write_at_end s3 [] kFileHeader) as (s4 & Hwrite & Hs4 & Hp4);
    [done|].
  assert (created_new_archive_ s4 = true) as Hcreated.
  { revert Hwrite. unfold WriteOrThrow, with_file. subst s3. state_simpl.
    by intros [= <-]. }
  destruct (pack_each_appends host zlib tree srcPath save_paths fuel (length relative)
              (zip relative archive) es 0%nat s4 kFileHeader)
    as (s5 & Hpack & Hs5 & Hp5); [|done|done|].
  { apply (never_cancels_same host new_archive); [|done].
    rewrite Hp4. subst s3. state_simpl. done. }
  exists s5. split; [exact Hs5|].
  erewrite bind_val; [|exact Hcall].
  apply Z.eqb_neq in Hr. rewrite Hr.
  erewrite bind_val; [|reflexivity].
  erewrite bind_val; [|reflexivity].
  fold s2.
  erewrite bind_val; cycle 1.
  { unfold OpenForPack.
    erewrite bind_val; [|reflexivity].
    erewrite bind_val; [|reflexivity].
    erewrite bind_val; [|reflexivity].
    exact Hwrite. }
  erewrite bind_val; [|reflexivity]. rewrite Hcreated. cbn [negb when].
  erewrite bind_val; [|reflexivity].
  erewrite bind_val; [|exact Hpack].
  reflexivity.
Qed.

(** X21.  With the move flag the sources are removed only after every
    item has been packed.  Packing into a new archive, the host never
    cancelling, whatever order [std::sort] leaves equivalent paths in:
    where every item to add is a directory or a file too short to be
    compressed, the archive holds all the new entries whether or not the
    removals succeed, and the result is 0 when every removal succeeds and
    [E_EWRITE] when one fails. *)
Theorem move_removes_sources_after_packing packedFile subPath srcPath addList
    flags fuel es :
  sorts StricmpPred sort →
  never_cancels host new_archive →
  Z.land flags PK_PACK_MOVE_FILES ≠ 0 →
  let save_paths := negb (Z.land flags PK_PACK_SAVE_PATHS =? 0) in
  let relative := relative_paths_to_add_by sort save_paths addList in
  let archive := archive_paths_to_add save_paths subPath relative in
  Forall2 (λ item e,
             packed_entry tree (CombinePath srcPath item.1) item.2 = Some e
             ∧ well_formed e)
    (zip relative archive) es →
  (15 < fuel)%nat →
  ExportsAnySort.PackFilesW_by host zlib tree sort None true packedFile subPath srcPath addList
    flags fuel
  = (Some (if forallb (λ item : wstring * Entry,
                         source_removed tree (CombinePath srcPath item.1)
                           (is_directory item.2))
                (zip relative es)
           then 0 else E_EWRITE),
     Some (archive_bytes es)).
Proof.
  intros _ Hnc Hmove save_paths relative archive Hall Hfuel.
  assert (Forall2 (λ item e,
             packed_entry tree (CombinePath srcPath item.1) item.2 = Some e
             ∧ well_formed e ∧ (length (e_payload e) < fuel)%nat)
            (zip relative archive) es) as Hall'.
  { clear -Hall Hfuel. induction Hall as [|item e items es [Hp Hwe] _ IH];
      constructor; [|done].
    destruct (packed_entry_stored tree _ _ _ Hp) as (_ & _ & _ & Hsmall).
    unfold kMinFileSizeForCompression in Hsmall. split_fields; try done. lia. }
  destruct (PackFilesW_packs_new packedFile subPath srcPath addList flags fuel es
              Hnc Hall') as (s & Hs & Hrun).
  unfold ExportsAnySort.PackFilesW_by. rewrite Hrun.
  apply Z.eqb_neq in Hmove. rewrite Hmove. cbn [negb when].
  subst archive relative save_paths.
  assert (∀ ok : bool,
            (delete_each tree srcPath
               (reverse
                  (zip (relative_paths_to_add_by sort
                          (negb (Z.land flags PK_PACK_SAVE_PATHS =? 0)) addList)
                       (map is_directory es))) s
             = (if ok then Val tt else Exc E_EWRITE, s)) →
            (let '(r, this) :=
               (delete_each tree srcPath
                  (reverse
                     (zip (relative_paths_to_add_by sort
                             (negb (Z.land flags PK_PACK_SAVE_PATHS =? 0)) addList)
                          (map is_directory es)));;
                mret 0) s in
             (Exports.returned_value r, Exports.stored_after None this))
            = (Some (if ok then 0 else E_EWRITE), Some (archive_bytes es)))
    as Hfinish.
  { intros [|] Hdel.
    - erewrite bind_val; [|exact Hdel].
      cbn [mret M_ret Exports.returned_value]. unfold Exports.stored_after.
      by rewrite Hs.
    - erewrite bind_exc; [|exact Hdel].
      cbn [Exports.returned_value]. unfold Exports.stored_after.
      by rewrite Hs. }
  apply Hfinish. rewrite delete_each_run, forallb_removed. reflexivity.
Qed.

End Moving.

(** ** The header of an entry, written and read *)

Section HeaderRoundTrip.

(** X22.  What [WriteEntryHeader] writes, [ReadEntryHeader] reads
    back: for a header with the entry magic whose fields fit their widths
    and a path of 1 to 1023 code units of which [path_len] is the length,
    reading at the place of the writing returns true and leaves exactly
    this header and this path in [last_header_] and [last_header_path_],
    the cursor behind the path. *)
Theorem written_header_is_read_back s bytes h path :
  at_end s bytes →
  magic h = kEntryMagic → 0 ≤ flags h < 256 → 0 ≤ attributes h < 256 →
  0 ≤ time h < 2 ^ 32 → 0 ≤ pack_size h < 2 ^ 64 → 0 ≤ unp_size h < 2 ^ 64 →
  path_len h = Z.of_nat (length path) → (0 < length path ≤ 1023)%nat →
  Forall (λ c, 0 ≤ c < 2 ^ 16) path →
  ∃ s',
    (WriteEntryHeader h path;;
     SeekOrThrow (Z.of_nat (length bytes)) SEEK_SET;;
     ReadEntryHeader) s
    = (Val true, s')
    ∧ last_header_ s' = h ∧ last_header_path_ s' = path
    ∧ at_end s' (bytes ++ header_bytes h ++ wchars_bytes path).
Proof.
  intros Hs Hmagic Hflags Hattr Htime Hpack Hunp Hlen Hpl Hp.
  destruct (WriteEntryHeader_at_end s bytes h path Hs) as (s1 & Hwr & Hs1 & _).
  set (hb := header_bytes h).
  assert (Hrt : header_of_bytes hb = h).
  { apply header_of_bytes_header_bytes; try done.
    - rewrite Hmagic. done.
    - rewrite Hlen. lia. }
  eexists. split.
  - erewrite bind_val; [|exact Hwr].
    erewrite bind_val; cycle 1.
    { eapply seek_run; [exact Hs1|]. apply fseek_set. lia. }
    rewrite Nat2Z.id. cbn [contents].
    unfold ReadEntryHeader.
    erewrite bind_val; [|reflexivity].
    erewrite bind_val; [|by apply fread_run].
    rewrite (fread_bytes_at _ _ bytes hb (wchars_bytes path ++ [])); cycle 1.
    { cbn [contents]. by rewrite app_nil_r. }
    { done. }
    { done. }
    cbn [fst snd contents cursor].
    erewrite bind_val; [|reflexivity].
    change (length hb) with sizeof_EntryHeader.
    rewrite Nat.div_same by done. cbn [Nat.eqb].
    erewrite bind_val; [|reflexivity]. cbn [last_header_ set_last_header_].
    rewrite take_app_length' by done.
    rewrite !Hrt, Hmagic.
    rewrite Z.eqb_refl. cbn [negb].
    erewrite bind_val; [|reflexivity].
    rewrite Hlen.
    assert ((Z.of_nat (length path) =? 0) = false) as -> by (apply Z.eqb_neq; lia).
    assert ((Z.of_nat (length path) >? kMaxFileNameLen - 1) = false) as ->.
    { unfold kMaxFileNameLen. rewrite Z.gtb_ltb. apply Z.ltb_ge. lia. }
    erewrite bind_val; cycle 1.
    { eapply (ReadOrThrow_run _ _ _ _ (bytes ++ hb) (wchars_bytes path) []).
      - reflexivity.
      - cbn [contents]. by rewrite app_nil_r, <- app_assoc.
      - cbn [cursor]. by rewrite length_app.
      - rewrite wchars_bytes_length. by rewrite Nat2Z.id.
      - unfold sizeof_wchar_t. lia. }
    erewrite bind_val; [|reflexivity].
    erewrite bind_val; [|reflexivity].
    reflexivity.
  - state_simpl.
    rewrite wchars_of_bytes_wchars_bytes, Nat2Z.id by done.
    split_fields; try done.
    unfold at_end. state_simpl. do 2 f_equal.
    rewrite !length_app, wchars_bytes_length. fold hb.
    change (length hb) with sizeof_EntryHeader. lia.
Qed.

End HeaderRoundTrip.

(** ** Cancelling a pack *)

Section CancelledPack.
Context (host : Host) (zlib : Zlib) (tree : SourceTree).
Context (sort : list wstring → list wstring).

(** The packing loop, whatever the host answers: [k] items have been
    packed when it returns. *)
Lemma pack_each_outcome srcPath save_paths fuel count : ∀ items es i s bytes,
  at_end s bytes →
  Forall2 (λ item e,
             packed_entry tree (CombinePath srcPath item.1) item.2 = Some e
             ∧ well_formed e ∧ (length (e_payload e) < fuel)%nat) items es →
  ∃ r s' k,
    pack_each host zlib tree srcPath save_paths items i count fuel s = (r, s')
    ∧ at_end s' (bytes ++ entries_bytes (take k es))
    ∧ (r = Val (map is_directory es) ∧ k = length es
       ∨ r = Exc E_EABORTED ∧ (k < length es)%nat ∧ ¬ never_cancels host s).
Proof.
  induction items as [|[relative_path archive_path] items IH];
    intros es i s bytes Hs Hall.
  - apply Forall2_nil_inv_l in Hall as ->. exists (Val []), s, 0%nat.
    split_fields; [done| |by left].
    unfold entries_bytes. cbn. by rewrite app_nil_r.
  - apply Forall2_cons_inv_l in Hall as (e & es' & (Hpacked & Hwe & Hfuel) & Hall & ->).
    cbn [fst snd] in Hpacked.
    cbn [pack_each].
    match goal with |- context [UpdateDirectProgress host ?n ?p] =>
      destruct (UpdateDirectProgress_any host n p s)
        as (cancelled & s1 & Hup & Hf1 & _ & _ & Hp1 & _);
      pose proof (UpdateDirectProgress_continue host n p s) as Hquiet end.
    assert (at_end s1 bytes) as Hs1 by (unfold at_end in *; congruence).
    destruct cancelled.
    { exists (Exc E_EABORTED), s1, 0%nat. split_fields.
      - erewrite bind_val; [|exact Hup]. reflexivity.
      - unfold entries_bytes. cbn. by rewrite app_nil_r.
      - right. split_fields; [done|cbn; lia|].
        intros Hnc. destruct (Hquiet Hnc) as (? & ? & _). congruence. }
    destruct (PackFile_appends zlib tree s1 bytes _ _ save_paths fuel e Hs1 Hpacked
                Hwe Hfuel)
      as (s2 & Hpack & Hs2 & Hp2).
    destruct (IH es' (S i) s2 (bytes ++ entry_bytes e) Hs2 Hall)
      as (r & s3 & k & Hrest & Hs3 & Hr).
    destruct Hr as [(-> & ->)|(-> & Hk & Hcancel)].
    + exists (Val (map is_directory (e :: es'))), s3, (length (e :: es')).
      split_fields.
      * erewrite bind_val; [|exact Hup]. cbn beta iota.
        erewrite bind_val; [|exact Hpack].
        erewrite bind_val; [|exact Hrest]. reflexivity.
      * rewrite take_ge in Hs3 |- * by done.
        rewrite entries_bytes_cons, app_assoc. done.
      * by left.
    + exists (Exc E_EABORTED), s3, (S k). split_fields.
      * erewrite bind_val; [|exact Hup]. cbn beta iota.
        erewrite bind_val; [|exact Hpack].
        erewrite bind_exc; [|exact Hrest]. reflexivity.
      * cbn [take]. rewrite entries_bytes_cons, app_assoc. done.
      * right. split_fields; [done|cbn; lia|].
        intros Hnc. apply Hcancel.
        apply (never_cancels_same host s); [congruence|done].
Qed.

(** X23.  A cancelled pack leaves what it has written.  Packing
    without the move flag into a new archive, whatever the host answers
    and whatever order [std::sort] leaves equivalent paths in: where
    every item to add is a directory or a file too short to be
    compressed and gives a well-formed entry, the result is 0 and the
    archive holds the entries of all items, or the result is
    [E_EABORTED], the host having asked to cancel, and either no archive
    has been created or it holds the file header and the entries of the
    first [k] items, whole. *)
Theorem cancelled_pack_leaves_the_entries_written packedFile subPath srcPath
    addList flags fuel es :
  sorts StricmpPred sort →
  Z.land flags PK_PACK_MOVE_FILES = 0 →
  let save_paths := negb (Z.land flags PK_PACK_SAVE_PATHS =? 0) in
  let relative := relative_paths_to_add_by sort save_paths addList in
  let archive := archive_paths_to_add save_paths subPath relative in
  Forall2 (λ item e,
             packed_entry tree (CombinePath srcPath item.1) item.2 = Some e
             ∧ well_formed e)
    (zip relative archive) es →
  (15 < fuel)%nat →
  ∃ code stored,
    ExportsAnySort.PackFilesW_by host zlib tree sort None true packedFile subPath srcPath addList
      flags fuel
    = (Some code, stored)
    ∧ (code = 0 ∧ stored = Some (archive_bytes es)
       ∨ code = E_EABORTED ∧ ¬ never_cancels host new_archive
         ∧ (stored = None
            ∨ ∃ k, (k < length es)%nat
                ∧ stored = Some (archive_bytes (take k es)))).
Proof.
  intros _ Hmove save_paths relative archive Hall Hfuel.
  assert (Forall2 (λ item e,
             packed_entry tree (CombinePath srcPath item.1) item.2 = Some e
             ∧ well_formed e ∧ (length (e_payload e) < fuel)%nat)
            (zip relative archive) es) as Hall'.
  { clear -Hall Hfuel. induction Hall as [|item e items es [Hp Hwe] _ IH];
      constructor; [|done].
    destruct (packed_entry_stored tree _ _ _ Hp) as (_ & _ & _ & Hsmall).
    unfold kMinFileSizeForCompression in Hsmall. split_fields; try done. lia. }
  unfold ExportsAnySort.PackFilesW_by, AnySort.PackFilesW_by.
  rewrite Hmove. change (negb (0 =? 0)) with false.
  fold save_paths. fold relative. fold archive.
  destruct (CallProcessDataProc_any host (Some packedFile) 0 new_archive)
    as (r & s1 & Hcall & Hso1).
  erewrite bind_val; [|exact Hcall].
  destruct (Z.eqb_spec r 0) as [->|Hr0].
  { exists E_EABORTED, None. split.
    - cbn [throw Exports.returned_value]. unfold Exports.stored_after.
      destruct Hso1 as (-> & _). done.
    - right. split_fields; [done| |by left]. intros Hnc.
      destruct (CallProcessDataProc_continue host (Some packedFile) 0 new_archive Hnc)
        as (r' & s1' & Hr' & Hr0' & _). congruence. }
  erewrite bind_val; [|reflexivity].
  erewrite bind_val; [|reflexivity].
  set (s2 := set_last_progress_time_ _ _).
  assert (process_data_proc_ s2 = process_data_proc_ new_archive) as Hp2.
  { subst s2. state_simpl. apply Hso1. }
  set (s3 := set_original_archive_size_ 0
               (set_created_new_archive_ true
                  (set_archive_file_ (Some {| contents := []; cursor := 0 |}) s2))).
  destruct (write_at_end s3 [] kFileHeader) as (s4 & Hwrite & Hs4 & Hp4);
    [done|].
  assert (created_new_archive_ s4 = true) as Hcreated.
  { revert Hwrite. unfold WriteOrThrow, with_file. subst s3. state_simpl.
    by intros [= <-]. }
  erewrite bind_val; cycle 1.
  { unfold OpenForPack.
    erewrite bind_val; [|reflexivity].
    erewrite bind_val; [|reflexivity].
    erewrite bind_val; [|reflexivity].
    exact Hwrite. }
  erewrite bind_val; [|reflexivity]. rewrite Hcreated. cbn [negb when].
  erewrite bind_val; [|reflexivity].
  destruct (pack_each_outcome srcPath save_paths fuel (length relative)
              (zip relative archive) es 0%nat s4 kFileHeader Hs4 Hall')
    as (r' & s5 & k & Hpack & Hs5 & [(-> & ->)|(-> & Hk & Hcancel)]).
  - exists 0, (Some (archive_bytes es)). split; [|by left].
    erewrite bind_val; [|exact Hpack].
    erewrite bind_val; [|reflexivity].
    cbn [mret M_ret Exports.returned_value]. unfold Exports.stored_after.
    rewrite Hs5. rewrite take_ge by done. reflexivity.
  - exists E_EABORTED, (Some (archive_bytes (take k es))). split.
    + erewrite bind_exc; [|exact Hpack].
      cbn [Exports.returned_value]. unfold Exports.stored_after.
      rewrite Hs5. reflexivity.
    + right. split_fields; [done| |right; eauto].
      intros Hnc. apply Hcancel.
      apply (never_cancels_same host new_archive); [|done].
      rewrite Hp4. subst s3. state_simpl. done.
Qed.

End CancelledPack.

(** ** The further statements at sample inputs *)




(** The same erase, twice; and a third time with a host that asks to
    cancel. *)
Lemma erase_twice_is_erase_once_sample :
  ∃ after,
    Exports.DeleteFilesW quiet_host (Some (archive_bytes erase_sample))
      sample_archive_path erase_sample_list 4
    = (Some 0, Some after)
    ∧ Exports.DeleteFilesW quiet_host (Some after) sample_archive_path
        erase_sample_list 4
      = (Some 0, Some after)
    ∧ Exports.DeleteFilesW cancelling_host (Some after) sample_archive_path
        erase_sample_list 4
      = (Some E_EABORTED, Some after).
Proof.
  destruct (erase_twice_is_erase_once quiet_host erase_sample sample_archive_path
              erase_sample_list 4) as [Hfirst Hsecond].
  - repeat constructor; vm_compute; done.
  - cbn. lia.
  - destruct Hfirst as (after & Hrun).
    { intros proc [H|[_ H]]; discriminate H. }
    exists after. split; [exact Hrun|]. split.
    + destruct (Hsecond after Hrun quiet_host) as (code & Hrun2 & [->|[_ Hc]]).
      * exact Hrun2.
      * destruct Hc. intros proc [H|[_ H]]; discriminate H.
    + destruct (Hsecond after Hrun cancelling_host) as (code & Hrun2 & _).
      rewrite Hrun2. f_equal.
      vm_compute in Hrun. injection Hrun as <-.
      vm_compute in Hrun2. injection Hrun2 as <-. reflexivity.
Defined.

(** Packing [A\x.txt] and [B\x.txt] with their paths and extracting the
    archive: two files with the bytes of the sources. *)
Lemma packed_files_are_extracted_unchanged_sample :
  ∃ this,
    ExportsAnySort.PackFilesW_by quiet_host stalling_zlib same_name_tree
      (Std.sort StricmpPred) None true
      sample_archive_path [] (L "C:\src") same_name_list PK_PACK_SAVE_PATHS 16
    = (Some 0, Some (archive_bytes same_name_entries))
    ∧ ExportsReading.OpenArchiveW quiet_host
        (Some (archive_bytes same_name_entries)) PK_OM_EXTRACT
      = (Some 0, Some this)
    ∧ process_entries quiet_host stalling_zlib open_destination PK_EXTRACT
        sample_destination 3 16 this
      = ([(header_data (entry_header (stored (L "A\x.txt") [1])) (L "A\x.txt"),
           RegularFile [1]);
          (header_data (entry_header (stored (L "B\x.txt") [2; 3])) (L "B\x.txt"),
           RegularFile [2; 3])],
         Some E_END_ARCHIVE).
Proof.
  apply (packed_files_are_extracted_unchanged quiet_host stalling_zlib
           same_name_tree open_destination (Std.sort StricmpPred)
           sample_archive_path [] (L "C:\src")
           same_name_list PK_PACK_SAVE_PATHS sample_destination
           same_name_entries 3 16).
  - apply insertion_sort_sorts.
  - intros proc [H|[_ H]]; discriminate H.
  - done.
  - done.
  - cbn. lia.
  - reflexivity.
  - vm_compute. repeat constructor; vm_compute; done.
  - cbn. lia.
  - lia.
  - cbn. lia.
Defined.

(** An extraction that the host cancels at its first progress report:
    the file just created is removed. *)
Lemma failed_extraction_leaves_sample :
  ∃ x',
    ExtractFile impatient_host stalling_zlib open_destination sample_destination
      (L "a.txt") 4 extracting_sample
    = (Exc E_EABORTED, x')
    ∧ (node x' = Removed
       ∨ attributes_set x'
         = Some (attributes (last_header_ (reading extracting_sample)))).
Proof.
  eexists. split; [vm_compute; reflexivity|].
  apply (failed_extraction_leaves impatient_host stalling_zlib open_destination
           sample_destination (L "a.txt") 4 extracting_sample E_EABORTED).
  - reflexivity.
  - reflexivity.
  - vm_compute. reflexivity.
Defined.

(** Copying a stored payload of three bytes. *)
Lemma unpacked_size_is_as_declared_sample :
  ∃ written,
    dst_file (UnpackFileContent quiet_host stalling_zlib 3 3 false 2 copy_sample).2
    = dst_file copy_sample ++ written
    ∧ Z.of_nat (length written) mod 2 ^ 64 = 3.
Proof.
  apply (unpacked_size_is_as_declared quiet_host stalling_zlib 3 3 false 2
           copy_sample).
  - lia.
  - lia.
  - vm_compute. reflexivity.
Defined.

(** Erasing from, and packing into, a file of three bytes that is no
    archive. *)
Lemma erase_leaves_other_files_alone_sample :
  Exports.DeleteFilesW quiet_host (Some [1; 2; 3]) sample_archive_path
    erase_sample_list 4
  = (Some E_EREAD, Some [1; 2; 3]).
Proof.
  destruct (erase_leaves_other_files_alone quiet_host [1; 2; 3]
              sample_archive_path erase_sample_list 4)
    as (code & Hrun & [(_ & Hcancel)|[(_ & Hnil)|(_ & ->)]]).
  - intros rest H. discriminate H.
  - destruct Hcancel. intros proc [H|[_ H]]; discriminate H.
  - vm_compute in Hnil. discriminate Hnil.
  - exact Hrun.
Defined.

Lemma pack_leaves_other_files_alone_sample :
  ExportsAnySort.PackFilesW_by quiet_host stalling_zlib same_name_tree
      (Std.sort StricmpPred) (Some [1; 2; 3])
    true sample_archive_path [] (L "C:\src") same_name_list 0 4
  = (Some E_EREAD, Some [1; 2; 3]).
Proof.
  destruct (pack_leaves_other_files_alone quiet_host stalling_zlib same_name_tree
              [1; 2; 3] true sample_archive_path [] (L "C:\src") same_name_list
              0 4) as (code & Hrun & [(_ & Hcancel)| ->]).
  - intros rest H. discriminate H.
  - destruct Hcancel. intros proc [H|[_ H]]; discriminate H.
  - exact Hrun.
Defined.

(** Packing [A\x.txt] and [B\x.txt] with their paths over an archive
    that holds [a\X.TXT]: the old entry is tombstoned. *)
Lemma packing_again_replaces_sample :
  ExportsAnySort.PackFilesW_by quiet_host stalling_zlib same_name_tree
      (Std.sort StricmpPred)
    (Some (archive_bytes update_before)) true sample_archive_path []
    (L "C:\src") same_name_list PK_PACK_SAVE_PATHS 16
  = (Some 0,
     Some (archive_bytes
             [tombstone (stored (L "a\X.TXT") [9]); stored (L "Other.txt") [4];
              stored (L "A\x.txt") [1]; stored (L "B\x.txt") [2; 3]])).
Proof.
  rewrite (packing_again_replaces quiet_host stalling_zlib same_name_tree
             (Std.sort StricmpPred)
             update_before same_name_entries true sample_archive_path []
             (L "C:\src") same_name_list PK_PACK_SAVE_PATHS 16).
  - vm_compute. reflexivity.
  - apply insertion_sort_sorts.
  - intros proc [H|[_ H]]; discriminate H.
  - reflexivity.
  - discriminate.
  - repeat constructor; vm_compute; done.
  - vm_compute. repeat constructor; vm_compute; done.
  - cbn. lia.
  - lia.
Defined.

(** Moving [A\x.txt] and [B\x.txt] into a new archive, every removal
    succeeding. *)
Lemma move_removes_sources_after_packing_sample :
  ExportsAnySort.PackFilesW_by quiet_host stalling_zlib same_name_tree
      (Std.sort StricmpPred) None true
    sample_archive_path [] (L "C:\src") same_name_list
    (PK_PACK_MOVE_FILES + PK_PACK_SAVE_PATHS) 16
  = (Some 0, Some (archive_bytes same_name_entries)).
Proof.
  rewrite (move_removes_sources_after_packing quiet_host stalling_zlib
             same_name_tree (Std.sort StricmpPred)
             sample_archive_path [] (L "C:\src") same_name_list
             (PK_PACK_MOVE_FILES + PK_PACK_SAVE_PATHS) 16 same_name_entries).
  - vm_compute. reflexivity.
  - apply insertion_sort_sorts.
  - intros proc [H|[_ H]]; discriminate H.
  - discriminate.
  - vm_compute. repeat constructor; vm_compute; done.
  - lia.
Defined.

(** The header and the path of a stored file, written behind the file
    header of a new archive and read again. *)
Lemma written_header_is_read_back_sample :
  ∃ s',
    (WriteEntryHeader (entry_header (stored (L "a.txt") [1; 2; 3])) (L "a.txt");;
     SeekOrThrow (Z.of_nat (length kFileHeader)) SEEK_SET;;
     ReadEntryHeader) packing_sample
    = (Val true, s')
    ∧ last_header_ s' = entry_header (stored (L "a.txt") [1; 2; 3])
    ∧ last_header_path_ s' = L "a.txt".
Proof.
  destruct (written_header_is_read_back packing_sample kFileHeader
              (entry_header (stored (L "a.txt") [1; 2; 3])) (L "a.txt"))
    as (s' & Hrun & Hh & Hp & _).
  - reflexivity.
  - reflexivity.
  - vm_compute; done.
  - vm_compute; done.
  - vm_compute; done.
  - vm_compute; done.
  - vm_compute; done.
  - reflexivity.
  - cbn. lia.
  - repeat constructor; vm_compute; done.
  - exists s'. split; [exact Hrun|]. split; [exact Hh|exact Hp].
Defined.

(** Packing [A\x.txt] and [B\x.txt], the host cancelling before the
    second: the archive holds the first. *)
Lemma cancelled_pack_leaves_the_entries_written_sample :
  ExportsAnySort.PackFilesW_by late_host stalling_zlib same_name_tree
      (Std.sort StricmpPred) None true
    sample_archive_path [] (L "C:\src") same_name_list PK_PACK_SAVE_PATHS 16
  = (Some E_EABORTED, Some (archive_bytes [stored (L "A\x.txt") [1]])).
Proof.
  destruct (cancelled_pack_leaves_the_entries_written late_host stalling_zlib
              same_name_tree (Std.sort StricmpPred)
              sample_archive_path [] (L "C:\src") same_name_list
              PK_PACK_SAVE_PATHS 16 same_name_entries)
    as (code & kept & Hrun & Hcases).
  - apply insertion_sort_sorts.
  - reflexivity.
  - vm_compute. repeat constructor; vm_compute; done.
  - lia.
  - rewrite Hrun.
    assert (ExportsAnySort.PackFilesW_by late_host stalling_zlib same_name_tree
      (Std.sort StricmpPred) None true
              sample_archive_path [] (L "C:\src") same_name_list
              PK_PACK_SAVE_PATHS 16
            = (Some E_EABORTED, Some (archive_bytes [stored (L "A\x.txt") [1]])))
      as Hvalue by (vm_compute; reflexivity).
    rewrite Hvalue in Hrun. symmetry. exact Hrun.
Defined.
